(** * Visual-Automation: the workflow graph execution engine

    A shallow embedding of the two server-side engines of the repository
    and the properties of their specification:

    - [Engine]: the map-based engine of the workflow execution route
      ([executeCurrentWorkflow], [findStartingNode],
      [executeDependencyAwareWorkflow], [executeBranchingWorkflow],
      [processTemplate], [getNodeInputData], [executeNode],
      [evaluateCondition]);
    - [WorkflowExecutor] and [NodesRoute]: the class-based engine of the
      node execution route ([setNodeOutput], [processTemplate],
      [getVariable], [setGlobalVariable], [executeNode],
      [evaluateCondition], [executeLogicNode], [executeWorkflow],
      [executeWithBranching], [POST]).

    Modelling conventions.
    - JavaScript strings are sequences of code units; the model keeps the
      code units below 256 (Rocq's [ascii]).
    - JavaScript values are the JSON-shaped values a request can carry
      ([JsValue]); objects are ordered lists of own properties. A
      property test ([in]) and a property read also find what the
      prototypes hold ([Js.member]): the methods of [Object.prototype]
      and of [Array.prototype], whose text is the one the V8 engine
      prints. The names [Array.prototype] holds depend on the version of
      the runtime and are a field of the environment records.
    - An assignment [obj[key] = value] makes no own property when the
      key is [__proto__] and the setter every object inherits is in
      reach ([Js.assign]): it replaces the prototype of the object. The
      combined input of a node is kept with its prototype
      ([Engine.input_prototype]); in the class-based context a run
      makes such an assignment to [nodeOutputs] alone, at most once per
      node, and the engine never reads [nodeOutputs].
    - [String(v)], [Number(v)] and template literals throw a TypeError
      on an object that has an own [toString] property
      ([Js.string_of], [Js.number_of]); reading a property of
      [undefined] or [null] throws one too ([Js.read]).
    - A log line is the evaluation of its arguments: the conversions
      inside its template literals are part of the model, the printing
      by the console is not.
    - Number values held in a [JsValue] are integers ([JsNum]); their
      string form and their equality are JavaScript's within the safe
      range ([Js.safe]). The results of [Number(...)] are doubles, kept
      as the exact rational they denote ([Dbl]).
    - External collaborators (the clock, the generative text service, the
      file handling node actions) are oracles of an environment record.
    - Recursive traversals take fuel; each is proved to return with the
      fuel its entry point supplies. *)

From Stdlib Require Import ZArith QArith String Ascii List Bool Lia.
From stdpp Require Import base tactics option list strings gmap pretty.

Local Open Scope string_scope.
Local Open Scope list_scope.
Local Set Warnings "-register-all,-clear-no-such-hyp".

(** ** JavaScript strings *)

Module JsString.

(** [s.includes(sub)] *)
Fixpoint includes (s sub : string) : bool :=
  String.prefix sub s ||
  match s with
  | EmptyString => false
  | String _ s' => includes s' sub
  end.

(** [s.startsWith(p)] *)
Definition startsWith (s p : string) : bool := String.prefix p s.

(** White space and line terminators removed by [trim] and skipped by
    [Number]: TAB, LF, VT, FF, CR, SP and NBSP. *)
Definition is_white (c : ascii) : bool :=
  let n := nat_of_ascii c in
  (Nat.eqb n 9 || Nat.eqb n 10 || Nat.eqb n 11 || Nat.eqb n 12
   || Nat.eqb n 13 || Nat.eqb n 32 || Nat.eqb n 160)%bool.

Fixpoint trimStart (s : string) : string :=
  match s with
  | String c s' => if is_white c then trimStart s' else s
  | EmptyString => EmptyString
  end.

(** Removes trailing white space: a character is kept when something
    that is not white space follows or when it is not white space. *)
Fixpoint trimEnd (s : string) : string :=
  match s with
  | EmptyString => EmptyString
  | String c s' =>
      match trimEnd s' with
      | EmptyString => if is_white c then EmptyString else String c EmptyString
      | t => String c t
      end
  end.

(** [s.trim()] *)
Definition trim (s : string) : string := trimEnd (trimStart s).

(** [s.split(sep)] for a one-character separator: the pieces between
    the separators, so never the empty list. *)
Fixpoint split (sep : ascii) (s : string) : list string :=
  match s with
  | EmptyString => [EmptyString]
  | String c s' =>
      if Ascii.eqb c sep then EmptyString :: split sep s'
      else match split sep s' with
           | p :: ps => String c p :: ps
           | [] => [String c EmptyString]
           end
  end.

(** [s.split(sep, limit)] keeps the first [limit] pieces. *)
Definition split_limit (sep : ascii) (limit : nat) (s : string) : list string :=
  take limit (split sep s).

(** [s] without its prefix [pat], when it has it. *)
Fixpoint strip_prefix (pat s : string) : option string :=
  match pat, s with
  | EmptyString, _ => Some s
  | String a pat', String b s' => if Ascii.eqb a b then strip_prefix pat' s' else None
  | String _ _, EmptyString => None
  end.

(** [s.replace(pat, rep)] for a string pattern: the first occurrence
    only ([rep] holds no dollar pattern in the sources). *)
Fixpoint replace_first (pat rep s : string) : string :=
  match strip_prefix pat s with
  | Some rest => rep +:+ rest
  | None =>
      match s with
      | EmptyString => EmptyString
      | String c s' => String c (replace_first pat rep s')
      end
  end.

(** [s.substring(0, n)] *)
Definition substring0 (n : nat) (s : string) : string := String.substring 0 n s.

(** [parts.join(sep)] *)
Fixpoint join (sep : string) (parts : list string) : string :=
  match parts with
  | [] => EmptyString
  | [p] => p
  | p :: ps => p +:+ sep +:+ join sep ps
  end.

(** [s.replace(/[chars]/g, '')] and [s.replace(/c/g, d)] on single
    characters. *)
Fixpoint remove_chars (drop : ascii -> bool) (s : string) : string :=
  match s with
  | EmptyString => EmptyString
  | String c s' => if drop c then remove_chars drop s' else String c (remove_chars drop s')
  end.

Fixpoint map_chars (f : ascii -> ascii) (s : string) : string :=
  match s with
  | EmptyString => EmptyString
  | String c s' => String (f c) (map_chars f s')
  end.

End JsString.


(** ** JavaScript values *)

(** Number values a request can carry: the model keeps the integers.
    Within the safe range (up to 2^53 - 1 in absolute value) two of them
    are the same number exactly when they are the same integer, and
    their string form is their decimal numeral; the definitions below
    describe JavaScript for these numbers ([Js.safe]). *)
Inductive JsNum : Type :=
| NaN
| PosInf
| NegInf
| Fin (z : Z).

(** The values of the engine: what [JSON.parse] produces, and [undefined]. *)
Inductive JsValue : Type :=
| JUndefined
| JNull
| JBool (b : bool)
| JNum (n : JsNum)
| JStr (s : string)
| JArr (items : list JsValue)
| JObj (props : list (string * JsValue)).

(** The values of [Number(...)]: [NaN], the infinities, or a double given
    by the rational it denotes. *)
Inductive Dbl : Type :=
| DNaN
| DInf (negative : bool)
| DFin (q : Q).

(** ** Outcome of a computation that may throw *)

Inductive Run (A : Type) : Type :=
| Done (a : A)
| Thrown (message : string)
| OutOfFuel.

Arguments Done {A} a.
Arguments Thrown {A} message.
Arguments OutOfFuel {A}.

#[global] Instance run_bind : MBind Run := fun A B k r =>
  match r with
  | Done a => k a
  | Thrown m => Thrown m
  | OutOfFuel => OutOfFuel
  end.

(** [for (const x of xs) { await body(x) }] over a threaded state. *)
Fixpoint for_each {A S : Type} (xs : list A) (body : A -> S -> Run S) (st : S) : Run S :=
  match xs with
  | [] => Done st
  | x :: rest => st' ← body x st; for_each rest body st'
  end.

Module Js.

(** Truthiness, as in [a || b], [!a] and [if (a)]. *)
Definition truthy (v : JsValue) : bool :=
  match v with
  | JUndefined | JNull => false
  | JBool b => b
  | JNum NaN => false
  | JNum (Fin z) => negb (Z.eqb z 0)
  | JNum _ => true
  | JStr s => negb (String.eqb s EmptyString)
  | JArr _ | JObj _ => true
  end.

(** [a || b] *)
Definition or (a b : JsValue) : JsValue := if truthy a then a else b.

(** [typeof v] *)
Definition typeof (v : JsValue) : string :=
  match v with
  | JUndefined => "undefined"
  | JNull | JArr _ | JObj _ => "object"
  | JBool _ => "boolean"
  | JNum _ => "number"
  | JStr _ => "string"
  end.

Definition is_string (v : JsValue) : bool :=
  match v with JStr _ => true | _ => false end.

Definition is_undefined (v : JsValue) : bool :=
  match v with JUndefined => true | _ => false end.

(** [undefined] or [null] *)
Definition is_nullish (v : JsValue) : bool :=
  match v with JUndefined | JNull => true | _ => false end.

(** [a === b] (numbers: integers of the safe range). Two objects (or
    arrays) met by the engine are never the same reference, so they are
    never strictly equal. *)
Definition strict_equals (a b : JsValue) : bool :=
  match a, b with
  | JUndefined, JUndefined => true
  | JNull, JNull => true
  | JBool x, JBool y => Bool.eqb x y
  | JNum (Fin x), JNum (Fin y) => Z.eqb x y
  | JNum PosInf, JNum PosInf => true
  | JNum NegInf, JNum NegInf => true
  | JStr x, JStr y => String.eqb x y
  | _, _ => false
  end.

(** Number to string (for an integer of the safe range). *)
Definition number_to_string (n : JsNum) : string :=
  match n with
  | NaN => "NaN"
  | PosInf => "Infinity"
  | NegInf => "-Infinity"
  | Fin z => pretty z
  end.

(** The string [String(v)] gives when it does not throw (see
    [string_of]): arrays join the strings of their elements with a
    comma, [null] and [undefined] elements giving the empty string;
    plain objects give "[object Object]". *)
Fixpoint toString (v : JsValue) : string :=
  match v with
  | JUndefined => "undefined"
  | JNull => "null"
  | JBool true => "true"
  | JBool false => "false"
  | JNum n => number_to_string n
  | JStr s => s
  | JArr items =>
      JsString.join ","
        (map (fun x => match x with
                       | JUndefined | JNull => EmptyString
                       | _ => toString x
                       end) items)
  | JObj _ => "[object Object]"
  end.

(** *** Property access *)

(** Canonical array index: "0", or decimal digits without a leading zero. *)
Definition digit_value (c : ascii) : option N :=
  let n := N_of_ascii c in
  if ((48 <=? n) && (n <=? 57))%N then Some (n - 48)%N else None.

Fixpoint digits_value (acc : N) (s : string) : option N :=
  match s with
  | EmptyString => Some acc
  | String c s' =>
      match digit_value c with
      | Some d => digits_value (acc * 10 + d)%N s'
      | None => None
      end
  end.

Definition array_index (k : string) : option N :=
  match k with
  | EmptyString => None
  | String "0" EmptyString => Some 0%N
  | String "0" _ => None
  | _ => match digits_value 0 k with
         | Some n => if (n <? 4294967295)%N then Some n else None
         | None => None
         end
  end.

Fixpoint assoc (k : string) (props : list (string * JsValue)) : option JsValue :=
  match props with
  | [] => None
  | (k', v) :: rest => if String.eqb k k' then Some v else assoc k rest
  end.

(** Own property lookup on a value that passed [typeof v === 'object']
    and is truthy: [None] when the value has no own property [k]. *)
Definition own_property (k : string) (v : JsValue) : option JsValue :=
  match v with
  | JObj props => assoc k props
  | JArr items =>
      if String.eqb k "length" then Some (JNum (Fin (Z.of_nat (length items))))
      else match array_index k with
           | Some i => items !! N.to_nat i
           | None => None
           end
  | _ => None
  end.

(** [v[k]] and [v.k] for a key no prototype holds, which is the case of
    every key the engines read by name. *)
Definition get (k : string) (v : JsValue) : JsValue :=
  match own_property k v with Some x => x | None => JUndefined end.

(** [v.k] for a key no prototype holds: reading a property of
    [undefined] or [null] throws a TypeError. *)
Definition read (k : string) (v : JsValue) : Run JsValue :=
  match v with
  | JUndefined => Thrown ("Cannot read properties of undefined (reading '" +:+ k +:+ "')")
  | JNull => Thrown ("Cannot read properties of null (reading '" +:+ k +:+ "')")
  | _ => Done (get k v)
  end.

(** *** Inherited properties *)

(** What a property read can give: a value of the request, a built-in
    function (under the name its text shows), or one of the two
    prototype objects. *)
Inductive Any : Type :=
| Json (v : JsValue)
| Builtin (name : string)
| ObjectPrototype
| ArrayPrototype.

(** The methods of [Object.prototype] whose name is their key; it also
    holds [constructor] and the accessor [__proto__]. *)
Definition object_prototype_methods : list string :=
  ["hasOwnProperty"; "isPrototypeOf"; "propertyIsEnumerable"; "toLocaleString";
   "toString"; "valueOf"; "__defineGetter__"; "__defineSetter__";
   "__lookupGetter__"; "__lookupSetter__"].

(** What [Object.prototype] holds under [k], [__proto__] apart. *)
Definition object_member (k : string) : option Any :=
  if String.eqb k "constructor" then Some (Builtin "Object")
  else if bool_decide (k ∈ object_prototype_methods) then Some (Builtin k)
  else None.

(** What a plain object without own property [k] inherits under [k]. *)
Definition inherited (k : string) : option Any :=
  if String.eqb k "__proto__" then Some ObjectPrototype else object_member k.

(** What [Array.prototype] and, behind it, [Object.prototype] hold under
    [k], [length] and [__proto__] apart. [arrayMethods] are the keys of
    the methods of [Array.prototype], each the name of its method. *)
Definition array_member (arrayMethods : list string) (k : string) : option Any :=
  if String.eqb k "constructor" then Some (Builtin "Array")
  else if bool_decide (k ∈ arrayMethods) then Some (Builtin k)
  else object_member k.

(** [a[k]] on [a] that passed [typeof a === 'object'] and is truthy:
    [None] when [k in a] is false. *)
Definition member (arrayMethods : list string) (k : string) (a : Any) : option Any :=
  match a with
  | Json (JObj props) =>
      match assoc k props with
      | Some v => Some (Json v)
      | None => inherited k
      end
  | Json (JArr items) =>
      match own_property k (JArr items) with
      | Some v => Some (Json v)
      | None =>
          if String.eqb k "__proto__" then Some ArrayPrototype
          else array_member arrayMethods k
      end
  | ObjectPrototype =>
      if String.eqb k "__proto__" then Some (Json JNull) else object_member k
  | ArrayPrototype =>
      if String.eqb k "length" then Some (Json (JNum (Fin 0)))
      else if String.eqb k "__proto__" then Some ObjectPrototype
      else array_member arrayMethods k
  | _ => None
  end.

(** [k in v] *)
Definition has_property (arrayMethods : list string) (k : string) (v : JsValue) : bool :=
  match member arrayMethods k (Json v) with Some _ => true | None => false end.

Definition any_truthy (a : Any) : bool :=
  match a with Json v => truthy v | _ => true end.

Definition any_typeof (a : Any) : string :=
  match a with
  | Json v => typeof v
  | Builtin _ => "function"
  | ObjectPrototype | ArrayPrototype => "object"
  end.

Definition any_is_undefined (a : Any) : bool :=
  match a with Json v => is_undefined v | _ => false end.

(** The object has an own property [k]. *)
Definition own_key (k : string) (props : list (string * JsValue)) : bool :=
  match assoc k props with Some _ => true | None => false end.

(** [cfg?.k] on an optional configuration record. *)
Definition config_get (k : string) (cfg : option (list (string * JsValue))) : JsValue :=
  match cfg with
  | Some props => get k (JObj props)
  | None => JUndefined
  end.

(** Placement of a new own property: array indices first, in ascending
    order, then the other keys in creation order. *)
Fixpoint insert_index (i : N) (k : string) (v : JsValue)
    (props : list (string * JsValue)) : list (string * JsValue) :=
  match props with
  | [] => [(k, v)]
  | (k', v') :: rest =>
      match array_index k' with
      | Some j => if (j <? i)%N then (k', v') :: insert_index i k v rest
                  else (k, v) :: props
      | None => (k, v) :: props
      end
  end.

Fixpoint replace_value (k : string) (v : JsValue)
    (props : list (string * JsValue)) : list (string * JsValue) :=
  match props with
  | [] => []
  | (k', v') :: rest =>
      if String.eqb k k' then (k, v) :: rest else (k', v') :: replace_value k v rest
  end.

(** Defining the own property [k] of a plain object, as
    [Object.fromEntries] does. *)
Definition set (k : string) (v : JsValue)
    (props : list (string * JsValue)) : list (string * JsValue) :=
  match assoc k props with
  | Some _ => replace_value k v props
  | None =>
      match array_index k with
      | Some i => insert_index i k v props
      | None => props ++ [(k, v)]
      end
  end.

(** An object the engine builds by assignments from [{}]: its own
    properties, and its prototype when that is no longer the one every
    object has: the object, array or [null] an assignment to
    [__proto__] installed. *)
Definition Built : Type := list (string * JsValue) * option JsValue.

(** The setter of [__proto__], which [Object.prototype] holds, is in
    reach of an object with this prototype: no own property [__proto__]
    comes before it on the way up, and the way up does not end at
    [null]. *)
Definition setter_in_reach (prototype : option JsValue) : bool :=
  match prototype with
  | Some JNull => false
  | Some (JObj props) => negb (own_key "__proto__" props)
  | _ => true
  end.

(** [obj[k] = v]: a key [__proto__] that is no own property reaches
    the setter when it is in reach, and no own property is made; the
    setter installs an object, an array or [null] as the prototype and
    ignores any other value. Every other assignment defines the own
    property. *)
Definition assign (k : string) (v : JsValue) (obj : Built) : Built :=
  let '(props, prototype) := obj in
  if String.eqb k "__proto__" && negb (own_key k props) && setter_in_reach prototype then
    (props, match v with
            | JObj _ | JArr _ | JNull => Some v
            | _ => prototype
            end)
  else (set k v props, prototype).

(** [Object.fromEntries(entries)] *)
Definition fromEntries (entries : list (string * JsValue)) : JsValue :=
  JObj (fold_left (fun o kv => set (fst kv) (snd kv) o) entries []).

(** *** [Number(v)] *)

Definition digit_in (base : N) (c : ascii) : option N :=
  let n := N_of_ascii c in
  let d := if ((48 <=? n) && (n <=? 57))%N then Some (n - 48)%N
           else if ((97 <=? n) && (n <=? 102))%N then Some (n - 87)%N
           else if ((65 <=? n) && (n <=? 70))%N then Some (n - 55)%N
           else None in
  match d with
  | Some k => if (k <? base)%N then Some k else None
  | None => None
  end.

(** Longest prefix of digits of the base: its value, its length, the rest. *)
Fixpoint read_digits (base acc : N) (cnt : nat) (s : string) : N * nat * string :=
  match s with
  | String c s' =>
      match digit_in base c with
      | Some d => read_digits base (acc * base + d)%N (S cnt) s'
      | None => (acc, cnt, s)
      end
  | EmptyString => (acc, cnt, s)
  end.

(** Round to nearest, ties to even, of [n / d] for [0 <= n] and [0 < d]. *)
Definition round_half_even (n d : Z) : Z :=
  let fl := (n / d)%Z in
  match (2 * (n mod d) ?= d)%Z with
  | Lt => fl
  | Gt => (fl + 1)%Z
  | Eq => if Z.even fl then fl else (fl + 1)%Z
  end.

(** The double nearest to a rational (binary64: 53 bits of precision,
    least exponent -1074, overflow to an infinity). *)
Definition round_double (q : Q) : Dbl :=
  let n := Qnum q in
  let d := Zpos (Qden q) in
  if (n =? 0)%Z then DFin 0 else
  let a := Z.abs n in
  let e0 := (Z.log2 a - Z.log2 d)%Z in
  let below := if (0 <=? e0)%Z then (a <? d * 2 ^ e0)%Z else (a * 2 ^ (- e0) <? d)%Z in
  let e := if below then (e0 - 1)%Z else e0 in
  let qe := Z.max (e - 52) (-1074) in
  let m := if (0 <=? qe)%Z then round_half_even a (d * 2 ^ qe)
           else round_half_even (a * 2 ^ (- qe)) d in
  if (0 <=? qe)%Z && (2 ^ 1024 <=? m * 2 ^ qe)%Z then DInf (n <? 0)%Z
  else
    let sm := if (n <? 0)%Z then (- m)%Z else m in
    if (0 <=? qe)%Z then DFin ((sm * 2 ^ qe)%Z # 1)
    else DFin (sm # Z.to_pos (2 ^ (- qe))).

(** [0x], [0o] and [0b] literals (no sign allowed). *)
Definition parse_radix (s : string) : option N :=
  match s with
  | String "0" (String p r) =>
      let base := if (Ascii.eqb p "x" || Ascii.eqb p "X") then Some 16%N
                  else if (Ascii.eqb p "o" || Ascii.eqb p "O") then Some 8%N
                  else if (Ascii.eqb p "b" || Ascii.eqb p "B") then Some 2%N
                  else None in
      match base with
      | Some b =>
          match read_digits b 0 0 r with
          | (v, S _, EmptyString) => Some v
          | _ => None
          end
      | None => None
      end
  | _ => None
  end.

(** Unsigned decimal literal: digits, optional fraction, optional
    exponent; the whole string has to be consumed. *)
Definition parse_decimal (s : string) : option Q :=
  let '(ip, ic, r1) := read_digits 10 0 0 s in
  let '(fp, fc, r2) :=
    match r1 with
    | String "." r => read_digits 10 0 0 r
    | _ => (0%N, 0, r1)
    end in
  if Nat.eqb ic 0 && Nat.eqb fc 0 then None else
  let mant := (Z.of_N ip * 10 ^ Z.of_nat fc + Z.of_N fp)%Z in
  let finish (ex : Z) : Q :=
    let e10 := (ex - Z.of_nat fc)%Z in
    if (0 <=? e10)%Z then ((mant * 10 ^ e10)%Z # 1)
    else (mant # Z.to_pos (10 ^ (- e10))) in
  match r2 with
  | EmptyString => Some (finish 0%Z)
  | String c r3 =>
      if Ascii.eqb c "e" || Ascii.eqb c "E" then
        let '(neg, r4) :=
          match r3 with
          | String "+" r => (false, r)
          | String "-" r => (true, r)
          | _ => (false, r3)
          end in
        match read_digits 10 0 0 r4 with
        | (ev, S _, EmptyString) =>
            Some (finish (if neg then (- Z.of_N ev)%Z else Z.of_N ev))
        | _ => None
        end
      else None
  end.

Definition negate (d : Dbl) : Dbl :=
  match d with
  | DNaN => DNaN
  | DInf b => DInf (negb b)
  | DFin q => DFin (Qopp q)
  end.

Definition parse_unsigned (s : string) : Dbl :=
  if String.eqb s "Infinity" then DInf false
  else match parse_decimal s with
       | Some q => round_double q
       | None => DNaN
       end.

(** [Number(s)] for a string: white space trimmed, the empty string is 0,
    anything that is not a numeric literal is [NaN]. *)
Definition string_to_number (s : string) : Dbl :=
  match JsString.trim s with
  | EmptyString => DFin 0
  | String c r as t =>
      match parse_radix t with
      | Some n => round_double (Z.of_N n # 1)
      | None =>
          if Ascii.eqb c "+" then parse_unsigned r
          else if Ascii.eqb c "-" then negate (parse_unsigned r)
          else parse_unsigned t
      end
  end.

(** The number [Number(v)] gives when it does not throw (see
    [number_of]). *)
Definition toNumber (v : JsValue) : Dbl :=
  match v with
  | JUndefined => DNaN
  | JNull => DFin 0
  | JBool true => DFin 1
  | JBool false => DFin 0
  | JNum NaN => DNaN
  | JNum PosInf => DInf false
  | JNum NegInf => DInf true
  | JNum (Fin z) => round_double (z # 1)
  | JStr s => string_to_number s
  | JArr _ | JObj _ => string_to_number (toString v)
  end.

(** [a < b] and [a <= b] on doubles: false as soon as one side is NaN. *)
Definition lt (a b : Dbl) : bool :=
  match a, b with
  | DNaN, _ | _, DNaN => false
  | DInf x, DInf y => x && negb y
  | DInf x, DFin _ => x
  | DFin _, DInf y => negb y
  | DFin x, DFin y => match Qcompare x y with Lt => true | _ => false end
  end.

Definition le (a b : Dbl) : bool :=
  match a, b with
  | DNaN, _ | _, DNaN => false
  | DInf x, DInf y => x || negb y
  | DInf x, DFin _ => x
  | DFin _, DInf y => negb y
  | DFin x, DFin y => match Qcompare x y with Gt => false | _ => true end
  end.

(** *** [JSON.stringify] *)

Definition dquote : ascii := "034"%char.
Definition backslash : ascii := "092"%char.
Definition newline : string := String "010"%char EmptyString.

Definition hex_digit (n : N) : ascii :=
  if (n <? 10)%N then ascii_of_N (48 + n) else ascii_of_N (87 + n).

Definition escape_char (c : ascii) : string :=
  let n := N_of_ascii c in
  if (n =? 34)%N then String backslash (String dquote EmptyString)
  else if (n =? 92)%N then String backslash (String backslash EmptyString)
  else if (n =? 8)%N then String backslash "b"
  else if (n =? 12)%N then String backslash "f"
  else if (n =? 10)%N then String backslash "n"
  else if (n =? 13)%N then String backslash "r"
  else if (n =? 9)%N then String backslash "t"
  else if (n <? 32)%N then
    String backslash ("u00" +:+ String (hex_digit (n / 16)) (String (hex_digit (n mod 16)) EmptyString))
  else String c EmptyString.

Fixpoint escape (s : string) : string :=
  match s with
  | EmptyString => EmptyString
  | String c s' => escape_char c +:+ escape s'
  end.

Definition quote (s : string) : string :=
  String dquote (escape s +:+ String dquote EmptyString).

(** [JSON.stringify(v, null, gap)] at the current indentation; [None] is
    [undefined]. With the empty gap this is [JSON.stringify(v)]. *)
Fixpoint stringify_at (gap indent : string) (v : JsValue) : option string :=
  let inner := indent +:+ gap in
  let sep := if String.eqb gap EmptyString then "," else "," +:+ newline +:+ inner in
  let wrap (l r : string) (parts : list string) : string :=
    match parts with
    | [] => l +:+ r
    | _ => if String.eqb gap EmptyString then l +:+ JsString.join sep parts +:+ r
           else l +:+ newline +:+ inner +:+ JsString.join sep parts +:+ newline +:+ indent +:+ r
    end in
  match v with
  | JUndefined => None
  | JNull => Some "null"
  | JBool true => Some "true"
  | JBool false => Some "false"
  | JNum (Fin z) => Some (pretty z)
  | JNum _ => Some "null"
  | JStr s => Some (quote s)
  | JArr items =>
      Some (wrap "[" "]"
              (map (fun x => match stringify_at gap inner x with
                             | Some t => t
                             | None => "null"
                             end) items))
  | JObj props =>
      Some (wrap "{" "}"
              (omap (fun kv => match stringify_at gap inner (snd kv) with
                               | Some t => Some (quote (fst kv) +:+ (if String.eqb gap EmptyString then ":" else ": ") +:+ t)
                               | None => None
                               end) props))
  end.

(** [JSON.stringify(v)] *)
Definition stringify (v : JsValue) : option string := stringify_at EmptyString EmptyString v.

(** [JSON.stringify(v, null, 2)] *)
Definition stringify_pretty (v : JsValue) : option string := stringify_at "  " EmptyString v.

(** A possibly [undefined] string handed to a place that wants a string. *)
Definition string_or_undefined (o : option string) : string :=
  match o with Some t => t | None => "undefined" end.

(** *** Conversions that throw *)

(** [String(v)], [Number(v)] and a template literal turn an object into
    a primitive through its [toString] and [valueOf] methods. No value
    of a request is a function, so an own property [toString] hides the
    method every object inherits and the conversion throws a TypeError;
    without it the inherited [toString] answers. An array joins the
    conversions of its elements. *)
Fixpoint convertible (v : JsValue) : bool :=
  match v with
  | JObj props => negb (own_key "toString" props)
  | JArr items => forallb (fun x => convertible x) items
  | _ => true
  end.

Definition not_primitive : string := "Cannot convert object to primitive value".

(** [String(v)] and [v] inside a template literal *)
Definition string_of (v : JsValue) : Run string :=
  if convertible v then Done (toString v) else Thrown not_primitive.

(** [Number(v)] *)
Definition number_of (v : JsValue) : Run Dbl :=
  if convertible v then Done (toNumber v) else Thrown not_primitive.

(** The text of a built-in function. *)
Definition native_code (name : string) : string :=
  "function " +:+ name +:+ "() { [native code] }".

(** [String(a)]: [Array.prototype] is an empty array. *)
Definition any_string_of (a : Any) : Run string :=
  match a with
  | Json v => string_of v
  | Builtin name => Done (native_code name)
  | ObjectPrototype => Done "[object Object]"
  | ArrayPrototype => Done EmptyString
  end.

(** *** The safe range *)

Definition safe_integer (z : Z) : bool := (Z.abs z <=? 9007199254740991)%Z.

(** Every number the value holds is an integer of the safe range. *)
Fixpoint safe (v : JsValue) : bool :=
  match v with
  | JNum (Fin z) => safe_integer z
  | JArr items => forallb (fun x => safe x) items
  | JObj props => forallb (fun kv => safe (snd kv)) props
  | _ => true
  end.

End Js.

(** ** [Map<string, unknown>] in insertion order *)

Module JsMap.

(** [m.get(k)]: [undefined] when the key is absent. *)
Definition get (k : string) (m : list (string * JsValue)) : JsValue :=
  match Js.assoc k m with Some v => v | None => JUndefined end.

(** [m.has(k)] *)
Definition has (k : string) (m : list (string * JsValue)) : bool :=
  match Js.assoc k m with Some _ => true | None => false end.

(** [m.set(k, v)]: a present key keeps its place, a new one goes last. *)
Fixpoint set (k : string) (v : JsValue) (m : list (string * JsValue)) : list (string * JsValue) :=
  match m with
  | [] => [(k, v)]
  | (k', v') :: rest =>
      if String.eqb k k' then (k, v) :: rest else (k', v') :: set k v rest
  end.

Definition keys (m : list (string * JsValue)) : list string := map fst m.

End JsMap.

(** ** The placeholder syntax *)

Module Template.

(** [[^}]+] read greedily: the run of characters other than the closing
    brace, and what follows it. *)
Fixpoint span_not_rbrace (s : string) : string * string :=
  match s with
  | EmptyString => (EmptyString, EmptyString)
  | String c s' =>
      if Ascii.eqb c "}" then (EmptyString, s)
      else let '(run, rest) := span_not_rbrace s' in (String c run, rest)
  end.

(** The regular expression [/\{\{([^}]+)\}\}/] tried at the start of
    [s]: the text matched and the captured group. Giving characters of
    the run back cannot help, since a closing brace must follow it. *)
Definition match_here (s : string) : option (string * string) :=
  match s with
  | String "{" (String "{" s1) =>
      match span_not_rbrace s1 with
      | (EmptyString, _) => None
      | (run, String "}" (String "}" _)) => Some ("{{" +:+ run +:+ "}}", run)
      | _ => None
      end
  | _ => None
  end.

(** What a global replace sees in a template, left to right: characters
    outside every match, and matches. *)
Inductive segment : Type :=
| Lit (c : ascii)
| Hole (matched variablePath : string).

(** [skip] counts the characters still covered by the last match. *)
Fixpoint scan (skip : nat) (s : string) : list segment :=
  match s with
  | EmptyString => []
  | String c s' =>
      match skip with
      | S k => scan k s'
      | O =>
          match match_here s with
          | Some (m, p) => Hole m p :: scan (String.length m - 1) s'
          | None => Lit c :: scan 0 s'
          end
      end
  end.

Definition render (callback : string -> string -> string) (g : segment) : string :=
  match g with
  | Lit c => String c EmptyString
  | Hole m p => callback m p
  end.

Fixpoint concat (parts : list string) : string :=
  match parts with
  | [] => EmptyString
  | p :: ps => p +:+ concat ps
  end.

(** [template.replace(/\{\{([^}]+)\}\}/g, callback)] for a callback that
    returns. *)
Definition replace (callback : string -> string -> string) (template : string) : string :=
  concat (map (render callback) (scan 0 template)).

(** The callback is called match by match, left to right; what it
    throws ends the replacement. *)
Fixpoint render_all (callback : string -> string -> Run string) (segments : list segment)
    : Run string :=
  match segments with
  | [] => Done EmptyString
  | Lit c :: rest =>
      text ← render_all callback rest;
      Done (String c text)
  | Hole m p :: rest =>
      replacement ← callback m p;
      text ← render_all callback rest;
      Done (replacement +:+ text)
  end.

(** [template.replace(/\{\{([^}]+)\}\}/g, callback)] *)
Definition replace_run (callback : string -> string -> Run string) (template : string)
    : Run string :=
  render_all callback (scan 0 template).

(** The placeholders of a template: matched text and captured path. *)
Definition placeholders (template : string) : list (string * string) :=
  omap (fun g => match g with Hole m p => Some (m, p) | Lit _ => None end)
       (scan 0 template).

(** No closing brace in the string. *)
Fixpoint no_rbrace (s : string) : bool :=
  match s with
  | EmptyString => true
  | String c s' => negb (Ascii.eqb c "}") && no_rbrace s'
  end.


(** The stale node identifier both resolvers special-case. *)
Definition legacy_id : string := "input_1753600591013_e9ksojj74".

End Template.

(** What the generative text service answered: [callGeminiAPI] resolved
    with [success] set, resolved without it, or could not be called. *)
Inductive GeminiOutcome : Type :=
| GeminiSuccess (text : string)
| GeminiFailure (error : option string)
| GeminiException (message : option string).

Definition optional_string (o : option string) : JsValue :=
  match o with Some s => JStr s | None => JUndefined end.

(** [error instanceof Error ? error.message : 'Unknown error'] *)
Definition error_message (o : option string) : string :=
  match o with Some s => s | None => "Unknown error" end.

(** ** The map-based engine (workflow execution route) *)

Module Engine.

(** [interface NodeData]: [data.config] is optional. *)
Record NodeData : Type := {
  id : string;
  type : string;
  config : option (list (string * JsValue))
}.

(** [interface EdgeData], with the [sourceHandle] the branching
    traversal reads ([None]: absent or not a string). *)
Record EdgeData : Type := {
  edge_id : string;
  source : string;
  target : string;
  sourceHandle : option string
}.

(** What the file processing utility answered. *)
Inductive FileOutcome : Type :=
| FilesProcessed (combinedText : string) (processingResults : list JsValue)
| FilesException (message : option string).

(** What reading the uploaded files of a data entry node gave. *)
Inductive MetadataOutcome : Type :=
| FilesDescribed (fileData totalSize : JsValue)
| MetadataException (message : string).

(** The external collaborators of a run. A node id executes at most once
    in a run, so each oracle is indexed by the node it serves. *)
Record Env : Type := {
  (** [new Date().toISOString()] while the node executes *)
  now : string -> string;
  (** [callGeminiAPI(prompt, model)] *)
  callGeminiAPI : string -> JsValue -> JsValue -> GeminiOutcome;
  (** [processFiles] then [combineFileResults] *)
  processFiles : string -> JsValue -> JsValue -> JsValue -> FileOutcome;
  (** the metadata of the uploaded [File] objects of a data entry node:
      the [fileData] array and the sum of the sizes, or the exception
      reading them raised *)
  fileMetadata : string -> JsValue -> MetadataOutcome;
  (** the keys of the methods of [Array.prototype] in the runtime *)
  arrayMethods : list string
}.

(** [processTemplate]: the legacy branch. The first entry whose key
    includes ".output" and whose value is a string, else the "input"
    entry; [None] when the branch falls through. *)
Definition legacy_lookup (context : list (string * JsValue)) : option (Run string) :=
  match List.find (fun kv => JsString.includes (fst kv) ".output" && Js.is_string (snd kv)) context with
  | Some (_, value) => Some (Js.string_of value)
  | None =>
      let inputValue := JsMap.get "input" context in
      if Js.is_undefined inputValue then None else Some (Js.string_of inputValue)
  end.

(** [processTemplate]: the branch for a path with a dot. [None] when it
    falls through. *)
Definition node_reference (methods : list string) (context : list (string * JsValue))
    (trimmedPath : string) : option (Run string) :=
  match JsString.split_limit "." 2 trimmedPath with
  | [nodeId; property] =>
      let nodeResult := JsMap.get nodeId context in
      match (if Js.truthy nodeResult && String.eqb (Js.typeof nodeResult) "object"
             then Js.member methods property (Js.Json nodeResult) else None) with
      | Some found => Some (Js.any_string_of found)
      | None =>
          if String.eqb property "output" && Js.truthy nodeResult
          then Some (Done (match nodeResult with
                           | JStr s => s
                           | _ => Js.string_or_undefined (Js.stringify nodeResult)
                           end))
          else None
      end
  | _ => None
  end.

(** The callback of [processTemplate]. *)
Definition resolve (methods : list string) (context : list (string * JsValue))
    (matched variablePath : string) : Run string :=
  let trimmedPath := JsString.trim variablePath in
  match (if JsString.includes trimmedPath Template.legacy_id then legacy_lookup context else None) with
  | Some r => r
  | None =>
      match (if JsString.includes trimmedPath "."
             then node_reference methods context trimmedPath else None) with
      | Some r => r
      | None =>
          let value := JsMap.get trimmedPath context in
          if Js.is_undefined value then Done matched
          else Done (match value with
                     | JStr s => s
                     | _ => Js.string_or_undefined (Js.stringify value)
                     end)
      end
  end.

(** [processTemplate(template, context)]; [methods] are the array
    methods of the runtime. *)
Definition processTemplate (methods : list string) (template : JsValue)
    (context : list (string * JsValue)) : Run JsValue :=
  match template with
  | JStr t =>
      text ← Template.replace_run (resolve methods context) t;
      Done (JStr text)
  | _ => Done template
  end.

(** [combinedInput], one edge at a time. *)
Fixpoint combine_inputs (index : nat) (inputEdges : list EdgeData)
    (results : list (string * JsValue)) (combinedInput : Js.Built) : Js.Built :=
  match inputEdges with
  | [] => combinedInput
  | edge :: rest =>
      let c1 := Js.assign ("input_" +:+ pretty index) (JsMap.get (source edge) results) combinedInput in
      let c2 := Js.assign (source edge) (JsMap.get (source edge) results) c1 in
      combine_inputs (S index) rest results c2
  end.

(** [getNodeInputData(nodeId, edges, results)] *)
Definition getNodeInputData (nodeId : string) (edges : list EdgeData)
    (results : list (string * JsValue)) : JsValue :=
  let inputEdges := List.filter (fun edge => String.eqb (target edge) nodeId) edges in
  match inputEdges with
  | [] => JNull
  | [edge] => JsMap.get (source edge) results
  | _ => JObj (fst (combine_inputs 0 inputEdges results ([], None)))
  end.

(** The prototype of what [getNodeInputData] returns, when it is not
    the one every object has: what an edge from a node called
    [__proto__] installed in the combined input. *)
Definition input_prototype (nodeId : string) (edges : list EdgeData)
    (results : list (string * JsValue)) : option JsValue :=
  let inputEdges := List.filter (fun edge => String.eqb (target edge) nodeId) edges in
  match inputEdges with
  | [] | [_] => None
  | _ => snd (combine_inputs 0 inputEdges results ([], None))
  end.

(** [v[k]] when [k in v], for the input [v] of a node: an own property,
    else what the prototype of the input holds or inherits. *)
Definition input_member (methods : list string) (prototype : option JsValue) (k : string)
    (v : JsValue) : option Js.Any :=
  match prototype, v with
  | Some installed, JObj props =>
      match Js.assoc k props with
      | Some x => Some (Js.Json x)
      | None => Js.member methods k (Js.Json installed)
      end
  | _, _ => Js.member methods k (Js.Json v)
  end.

(** [evaluateCondition(value, compareValue, operator, inputData)] *)
Definition evaluateCondition (value compareValue operator inputData : JsValue) : Run bool :=
  match operator with
  | JStr op =>
      if String.eqb op "equals" then Done (Js.strict_equals value compareValue)
      else if String.eqb op "notEquals" then Done (negb (Js.strict_equals value compareValue))
      else if String.eqb op "greaterThan" then
        a ← Js.number_of value; b ← Js.number_of compareValue; Done (Js.lt b a)
      else if String.eqb op "lessThan" then
        a ← Js.number_of value; b ← Js.number_of compareValue; Done (Js.lt a b)
      else if String.eqb op "greaterThanOrEqual" then
        a ← Js.number_of value; b ← Js.number_of compareValue; Done (Js.le b a)
      else if String.eqb op "lessThanOrEqual" then
        a ← Js.number_of value; b ← Js.number_of compareValue; Done (Js.le a b)
      else if String.eqb op "contains" then
        a ← Js.string_of value; b ← Js.string_of compareValue; Done (JsString.includes a b)
      else Done false
  | _ => Done false
  end.

(** [nodeInputData || inputData], the input handed to the node action. *)
Definition effectiveInputData (nodeId : string) (edges : list EdgeData)
    (previousResults : list (string * JsValue)) (inputData : JsValue) : JsValue :=
  Js.or (getNodeInputData nodeId edges previousResults) inputData.

(** [x.length] *)
Definition length_of (v : JsValue) : JsValue :=
  match v with
  | JStr s => JNum (Fin (Z.of_nat (String.length s)))
  | _ => Js.get "length" v
  end.

Section Dispatch.

Variable env : Env.

(** [executeNode(node, previousResults, inputData, executionId, edges)].
    The write to the execution history is awaited and its answer is
    dropped; it is not part of the model. What the body throws is
    thrown again by the handler of its [try] block. *)
Definition executeNode (node : NodeData) (previousResults : list (string * JsValue))
    (inputData : JsValue) (edges : list EdgeData) : Run JsValue :=
  let nodeInputData := getNodeInputData (id node) edges previousResults in
  let effective := effectiveInputData (id node) edges previousResults inputData in
  let cfg := config node in
  let timestamp := JStr (now env (id node)) in
  let methods := arrayMethods env in
  let ty := type node in
  if String.eqb ty "input" then
    (* [effectiveInputData !== inputData] compares references: it holds
       when the input came from the results map, unless both sides are
       the same primitive *)
    let connected := Js.truthy nodeInputData && negb (Js.strict_equals nodeInputData inputData) in
    let inputNodeData := if Js.truthy effective && connected then effective else inputData in
    Done (JObj [("data", inputNodeData);
                ("message", JStr (if connected then "Input received from connected node"
                                  else "Initial input received"));
                ("hasIncomingConnection", JBool connected);
                ("timestamp", timestamp)])
  else if String.eqb ty "prompt" then
    let promptTemplate := Js.or (Js.config_get "prompt" cfg) (JStr "Process the following: {{input}}") in
    processedPrompt ← processTemplate methods promptTemplate previousResults;
    let model := Js.or (Js.config_get "model" cfg) (JStr "gemini-1.5-flash") in
    match callGeminiAPI env (id node) processedPrompt model with
    | GeminiSuccess text =>
        Done (JObj [("prompt", processedPrompt); ("response", JStr text); ("model", model);
                    ("input_data", effective); ("timestamp", timestamp)])
    | GeminiFailure error =>
        Done (JObj [("prompt", processedPrompt);
                    ("response", JStr ("Error from Gemini API: " +:+ Js.toString (optional_string error)));
                    ("model", model); ("input_data", effective);
                    ("error", optional_string error); ("timestamp", timestamp)])
    | GeminiException message =>
        Done (JObj [("prompt", processedPrompt);
                    ("response", JStr ("Failed to call Gemini API: " +:+ error_message message));
                    ("model", model); ("input_data", effective);
                    ("error", JStr (error_message message)); ("timestamp", timestamp)])
    end
  else if String.eqb ty "api" then
    apiUrl ← processTemplate methods
               (Js.or (Js.config_get "url" cfg) (JStr "https://api.example.com")) previousResults;
    apiBody ← processTemplate methods (Js.or (Js.config_get "body" cfg) (JStr "{}")) previousResults;
    Done (JObj [("status", JNum (Fin 200));
                ("data", JObj [("message", JStr "API call simulated"); ("processed_input", effective)]);
                ("url", apiUrl);
                ("method", Js.or (Js.config_get "method" cfg) (JStr "GET"));
                ("body", apiBody);
                ("timestamp", timestamp)])
  else if String.eqb ty "logic" then
    let conditionTemplate := Js.or (Js.config_get "condition" cfg) (JStr "true") in
    processedCondition ← processTemplate methods conditionTemplate previousResults;
    let compareValue := Js.or (Js.config_get "compareValue" cfg) (JStr "true") in
    let operator := Js.or (Js.config_get "operator" cfg) (JStr "equals") in
    conditionResult ← evaluateCondition processedCondition compareValue operator effective;
    (* the three values inside the template literal of the log line *)
    _ ← Js.string_of processedCondition;
    _ ← Js.string_of compareValue;
    _ ← Js.string_of operator;
    Done (JObj [("condition", processedCondition); ("compareValue", compareValue);
                ("operator", operator); ("result", JBool conditionResult);
                ("branch", JStr (if conditionResult then "true" else "false"));
                ("nextPath", JStr (if conditionResult then "true" else "false"));
                ("input_data", effective); ("timestamp", timestamp)])
  else if String.eqb ty "dataEntry" then
    let uploadedFiles := Js.config_get "uploadedFiles" cfg in
    if negb (Js.truthy uploadedFiles) || Js.strict_equals (length_of uploadedFiles) (JNum (Fin 0)) then
      Done (JObj [("success", JBool false); ("error", JStr "No files uploaded");
                  ("files", JArr []); ("timestamp", timestamp)])
    else
      match fileMetadata env (id node) uploadedFiles with
      | FilesDescribed fileData totalSize =>
          Done (JObj [("success", JBool true); ("files", fileData);
                      ("fileCount", length_of fileData); ("totalSize", totalSize);
                      ("data", uploadedFiles); ("timestamp", timestamp)])
      | MetadataException message => Thrown message
      end
  else if String.eqb ty "fileToText" then
    let extractionMethod := Js.or (Js.config_get "extractionMethod" cfg) (JStr "auto") in
    let outputFormat := Js.or (Js.config_get "outputFormat" cfg) (JStr "text") in
    let is_obj := Js.truthy effective && String.eqb (Js.typeof effective) "object" in
    (* the input is the combined input whenever there is one *)
    let prototype := input_prototype (id node) edges previousResults in
    (* ['k' in effectiveInputData && Array.isArray(effectiveInputData.k)] *)
    let array_at (k : string) : option JsValue :=
      match (if is_obj then input_member methods prototype k effective else None) with
      | Some (Js.Json (JArr items)) => Some (JArr items)
      | _ => None
      end in
    let f0 := JArr [] in
    let f1 := match array_at "data" with Some files => files | None => f0 end in
    let filesToProcess := match array_at "files" with Some files => files | None => f1 end in
    if Js.strict_equals (length_of filesToProcess) (JNum (Fin 0)) then
      Done (JObj [("success", JBool false); ("error", JStr "No files received for text extraction");
                  ("extractedText", JStr EmptyString); ("output", JStr EmptyString);
                  ("timestamp", timestamp)])
    else
      match processFiles env (id node) filesToProcess extractionMethod outputFormat with
      | FilesProcessed combinedText processingResults =>
          Done (JObj [("success", JBool true); ("extractedText", JStr combinedText);
                      ("data", JStr combinedText); ("output", JStr combinedText);
                      ("extractionMethod", extractionMethod); ("outputFormat", outputFormat);
                      ("processedFiles", JNum (Fin (Z.of_nat (length processingResults))));
                      ("successfulExtractions",
                       JNum (Fin (Z.of_nat (length (List.filter (fun r => Js.truthy (Js.get "success" r))
                                                                processingResults)))));
                      ("fileResults", JArr processingResults); ("timestamp", timestamp)])
      | FilesException message =>
          Done (JObj [("success", JBool false);
                      ("error", JStr ("File processing failed: " +:+ error_message message));
                      ("extractedText", JStr EmptyString); ("output", JStr EmptyString);
                      ("timestamp", timestamp)])
      end
  else if String.eqb ty "fileUpload" then
    let processedText := Js.or (Js.config_get "processedText" cfg) (Js.config_get "data" cfg) in
    let files := Js.or (Js.config_get "files" cfg) (JArr []) in
    (* the log line: [files.length] inside a template literal, then
       [processedText?.slice(0, 100) + '...']; only strings and arrays
       have a [slice] to call, and the slice of an array is converted *)
    _ ← Js.string_of (length_of files);
    _ ← match processedText with
        | JBool _ | JNum _ | JObj _ => Thrown "processedText?.slice is not a function"
        | JArr items => Js.string_of (JArr (take 100 items))
        | _ => Done EmptyString
        end;
    if negb (Js.truthy processedText) && Js.strict_equals (length_of files) (JNum (Fin 0)) then
      Done (JObj [("success", JBool false);
                  ("error", JStr "No files uploaded or processed text available");
                  ("files", JArr []); ("processedText", JStr EmptyString);
                  ("data", JStr EmptyString); ("timestamp", timestamp)])
    else
      Done (JObj [("success", JBool true); ("files", files);
                  ("processedText", Js.or processedText (JStr EmptyString));
                  ("data", Js.or processedText (JStr EmptyString));
                  ("output", Js.or processedText (JStr EmptyString));
                  ("fileCount", length_of files);
                  ("extractionMethod", Js.or (Js.config_get "extractionMethod" cfg) (JStr "auto"));
                  ("outputFormat", Js.or (Js.config_get "outputFormat" cfg) (JStr "text"));
                  ("uploadStatus", Js.or (Js.config_get "uploadStatus" cfg) (JStr "success"));
                  ("timestamp", timestamp)])
  else if String.eqb ty "output" then
    let outputNodeFormat := Js.or (Js.config_get "format" cfg) (JStr "json") in
    Done (JObj [("final_output", effective);
                ("all_results", Js.fromEntries previousResults);
                ("format", outputNodeFormat);
                ("timestamp", timestamp)])
  else
    Done (JObj [("message", JStr "Unknown node type");
                ("node_type", JStr ty);
                ("input_data", effective)]).

(** [nodes.some(node => node.type === 'logic')] *)
Definition hasLogicNodes (nodes : list NodeData) : bool :=
  existsb (fun node => String.eqb (type node) "logic") nodes.

(** [findStartingNode(nodes, edges)] *)
Definition findStartingNode (nodes : list NodeData) (edges : list EdgeData) : option NodeData :=
  match List.find (fun node => String.eqb (type node) "input") nodes with
  | Some startNode => Some startNode
  | None =>
      match List.find (fun node => String.eqb (type node) "dataEntry") nodes with
      | Some startNode => Some startNode
      | None =>
          let nodesWithIncoming : gset string := list_to_set (map target edges) in
          List.find (fun node => bool_decide (id node ∉ nodesWithIncoming)) nodes
      end
  end.

(** The state of the dependency-aware traversal: the two guard sets, the
    results map, and the calls of [executeNode] so far, each with the
    results map it was handed (ghost). *)
Record DepState : Type := {
  executed : gset string;
  executing : gset string;
  dep_results : list (string * JsValue);
  dep_calls : list (string * list (string * JsValue))
}.

(** The state of the branching traversal. *)
Record BranchState : Type := {
  visited : gset string;
  results : list (string * JsValue);
  calls : list (string * list (string * JsValue))
}.

Section Traversal.

Variable nodes : list NodeData.
Variable edges : list EdgeData.
Variable inputData : JsValue.

(** [executeNodeWithDependencies(nodeId)] *)
Fixpoint executeNodeWithDependencies (fuel : nat) (nodeId : string) (st : DepState) : Run DepState :=
  match fuel with
  | O => OutOfFuel
  | S fuel' =>
      if bool_decide (nodeId ∈ executed st) || bool_decide (nodeId ∈ executing st) then Done st
      else
        let st1 := {| executed := executed st; executing := {[nodeId]} ∪ executing st;
                      dep_results := dep_results st; dep_calls := dep_calls st |} in
        match List.find (fun n => String.eqb (id n) nodeId) nodes with
        | None =>
            Done {| executed := executed st1; executing := executing st1 ∖ {[nodeId]};
                    dep_results := dep_results st1; dep_calls := dep_calls st1 |}
        | Some node =>
            let dependencies := List.filter (fun edge => String.eqb (target edge) nodeId) edges in
            st2 ← for_each dependencies
                    (fun dep => executeNodeWithDependencies fuel' (source dep)) st1;
            nodeResult ← executeNode node (dep_results st2) inputData edges;
            Done {| executed := {[nodeId]} ∪ executed st2;
                    executing := executing st2 ∖ {[nodeId]};
                    dep_results := JsMap.set (id node) nodeResult (dep_results st2);
                    dep_calls := dep_calls st2 ++ [(id node, dep_results st2)] |}
        end
  end.

(** [executeDependencyAwareWorkflow(nodes, edges, results, inputData,
    executionId)]: every node id is a root; the recursion is never
    deeper than the number of nodes plus one. *)
Definition executeDependencyAwareWorkflow (results0 : list (string * JsValue)) : Run DepState :=
  let allNodeIds := map id nodes in
  for_each allNodeIds (executeNodeWithDependencies (S (length nodes)))
    {| executed := ∅; executing := ∅; dep_results := results0; dep_calls := [] |}.

(** [executeNodeChain(nodeId)] of [executeBranchingWorkflow] *)
Fixpoint executeNodeChain (fuel : nat) (nodeId : string) (st : BranchState) : Run BranchState :=
  match fuel with
  | O => OutOfFuel
  | S fuel' =>
      if bool_decide (nodeId ∈ visited st) then Done st
      else
        let st1 := {| visited := {[nodeId]} ∪ visited st; results := results st; calls := calls st |} in
        match List.find (fun n => String.eqb (id n) nodeId) nodes with
        | None => Done st1
        | Some node =>
            nodeResult ← executeNode node (results st1) inputData edges;
            let st2 := {| visited := visited st1;
                          results := JsMap.set (id node) nodeResult (results st1);
                          calls := calls st1 ++ [(id node, results st1)] |} in
            let outgoingEdges := List.filter (fun edge => String.eqb (source edge) nodeId) edges in
            if String.eqb (type node) "logic" then
              let logicResult := nodeResult in
              let expectedHandle := if Js.truthy (Js.get "result" logicResult) then "true" else "false" in
              match List.find (fun edge => bool_decide (sourceHandle edge = Some expectedHandle))
                              outgoingEdges with
              | Some targetEdge => executeNodeChain fuel' (target targetEdge) st2
              | None => Done st2
              end
            else
              for_each outgoingEdges (fun edge => executeNodeChain fuel' (target edge)) st2
        end
  end.

(** [executeBranchingWorkflow(nodes, edges, startNodeId, results,
    inputData, executionId)] *)
Definition executeBranchingWorkflow (startNodeId : string) (results0 : list (string * JsValue))
    : Run BranchState :=
  executeNodeChain (S (length nodes)) startNodeId
    {| visited := ∅; results := results0; calls := [] |}.

End Traversal.

(** What [executeCurrentWorkflow] returns. *)
Record WorkflowResult : Type := {
  success : bool;
  output : JsValue;
  error : option string
}.

Definition no_start_node : string :=
  "No starting node found (input, dataEntry, or orphaned node)".

(** The body of the [try] block of [executeCurrentWorkflow]: the results
    map the selected strategy leaves, with the calls it made. *)
Definition run_strategy (nodes : list NodeData) (edges : list EdgeData) (inputData : JsValue)
    : Run (list (string * JsValue) * list (string * list (string * JsValue))) :=
  if hasLogicNodes nodes then
    match findStartingNode nodes edges with
    | None => Thrown no_start_node
    | Some startNode =>
        st ← executeBranchingWorkflow nodes edges inputData (id startNode) [];
        Done (results st, calls st)
    end
  else
    st ← executeDependencyAwareWorkflow nodes edges inputData [];
    Done (dep_results st, dep_calls st).

(** [executeCurrentWorkflow(nodes, edges, inputData)] (the stored
    workflow variant [executeWorkflow] has the same body). *)
Definition executeCurrentWorkflow (nodes : list NodeData) (edges : list EdgeData)
    (inputData : JsValue) : Run WorkflowResult :=
  match run_strategy nodes edges inputData with
  | Done (results, _) =>
      Done {| success := true; output := Js.fromEntries results; error := None |}
  | Thrown message =>
      Done {| success := false; output := JNull; error := Some message |}
  | OutOfFuel => OutOfFuel
  end.

End Dispatch.

End Engine.

(** ** The class-based engine (node execution route) *)

Module WorkflowExecutor.

(** [WorkflowNode]: [data] is what the node of the request holds under
    that name, [undefined] when it holds nothing. *)
Record WorkflowNode : Type := {
  id : string;
  type : string;
  data : JsValue
}.

(** [node.data.config], once it has been read. *)
Definition config (node : WorkflowNode) : JsValue := Js.get "config" (data node).

(** [node.data.config.k]: a TypeError when the node holds no [data] or
    no [config]. *)
Definition config_field (k : string) (node : WorkflowNode) : Run JsValue :=
  cfg ← Js.read "config" (data node);
  Js.read k cfg.

Record WorkflowEdge : Type := {
  source : string;
  target : string;
  sourceHandle : option string
}.

(** [WorkflowContext]: three objects used as maps. *)
Record WorkflowContext : Type := {
  variables : gmap string JsValue;
  nodeOutputs : gmap string JsValue;
  globalData : gmap string JsValue
}.

(** [LogicResult] *)
Record LogicResult : Type := {
  result : bool;
  nextPath : string
}.

Record Env : Type := {
  (** [new Date().toISOString()] while the node executes *)
  now : string -> string;
  (** [callGeminiAPI(prompt, model)] *)
  callGeminiAPI : string -> JsValue -> JsValue -> GeminiOutcome;
  (** the keys of the methods of [Array.prototype] in the runtime *)
  arrayMethods : list string
}.

(** The context the constructor builds. *)
Definition empty_context : WorkflowContext :=
  {| variables := ∅; nodeOutputs := ∅; globalData := ∅ |}.

(** [object[key] = value] on one of the three objects: a key
    [__proto__] that is no own property makes none. It reaches the
    setter every object inherits, which replaces the prototype of the
    object; what it installs is never read: [setNodeOutput] assigns that
    key to [nodeOutputs] alone, at most once per node of a run, the
    engine reads [variables] alone, and no code of the repository calls
    [setGlobalVariable]. *)
Definition assign (key : string) (value : JsValue) (object : gmap string JsValue)
    : gmap string JsValue :=
  if String.eqb key "__proto__" && bool_decide (object !! key = None) then object
  else <[key := value]> object.

(** [setNodeOutput(nodeId, output)] *)
Definition setNodeOutput (nodeId : string) (output : JsValue) (ctx : WorkflowContext) : WorkflowContext :=
  {| nodeOutputs := assign nodeId output (nodeOutputs ctx);
     variables := assign "input" output (assign (nodeId +:+ ".output") output (variables ctx));
     globalData := globalData ctx |}.

(** [setGlobalVariable(key, value)] *)
Definition setGlobalVariable (key : string) (value : JsValue) (ctx : WorkflowContext) : WorkflowContext :=
  {| globalData := assign key value (globalData ctx);
     variables := assign key value (variables ctx);
     nodeOutputs := nodeOutputs ctx |}.

(** [this.context.variables[key]] when [key in this.context.variables]:
    an own property, or what every object inherits. *)
Definition variable (ctx : WorkflowContext) (key : string) : option Js.Any :=
  match variables ctx !! key with
  | Some value => Some (Js.Json value)
  | None => Js.inherited key
  end.

(** The loop of [getVariable] once [current] is what a part gave. *)
Fixpoint walk (methods : list string) (parts : list string) (current : Js.Any) : Js.Any :=
  match parts with
  | [] => current
  | part :: rest =>
      match (if Js.any_truthy current && String.eqb (Js.any_typeof current) "object"
             then Js.member methods part current else None) with
      | Some next => walk methods rest next
      | None => Js.Json JUndefined
      end
  end.

(** The nested path lookup of [getVariable]: the first part is looked
    up in [variables], the others in what was found. *)
Definition nested_lookup (methods : list string) (ctx : WorkflowContext) (path : string) : Js.Any :=
  match JsString.split "." path with
  | [] => Js.Json JUndefined
  | part :: rest =>
      match variable ctx part with
      | Some current => walk methods rest current
      | None => Js.Json JUndefined
      end
  end.

(** [getVariable(path)]: the exact key, then the nested path. *)
Definition getVariable (methods : list string) (ctx : WorkflowContext) (path : string) : Js.Any :=
  match variable ctx path with
  | Some value => value
  | None => nested_lookup methods ctx path
  end.

(** The log line that holds [value] in a template literal, then
    [value !== undefined ? String(value) : match] *)
Definition string_or_match (value : Js.Any) (matched : string) : Run string :=
  if Js.any_is_undefined value then Done matched else Js.any_string_of value.

(** The path the [node_] branch looks up. *)
Definition node_path (trimmedPath : string) : string :=
  let nodeNumber := hd EmptyString (JsString.split "." (JsString.replace_first "node_" EmptyString trimmedPath)) in
  let property := if JsString.includes trimmedPath "."
                  then nth 1 (JsString.split "." trimmedPath) EmptyString
                  else "output" in
  nodeNumber +:+ "." +:+ property.

(** The path the legacy branch looks up. *)
Definition corrected_path (trimmedPath : string) : string :=
  if JsString.includes trimmedPath ".data" then "1.output"
  else JsString.replace_first Template.legacy_id "1" trimmedPath.

(** The callback of [processTemplate]. *)
Definition resolve (methods : list string) (ctx : WorkflowContext)
    (matched variablePath : string) : Run string :=
  let trimmedPath := JsString.trim variablePath in
  if JsString.includes trimmedPath Template.legacy_id then
    string_or_match (getVariable methods ctx (corrected_path trimmedPath)) matched
  else if JsString.startsWith trimmedPath "node_" then
    string_or_match (getVariable methods ctx (node_path trimmedPath)) matched
  else
    string_or_match (getVariable methods ctx trimmedPath) matched.

(** [processTemplate(template)]; [methods] are the array methods of the
    runtime. *)
Definition processTemplate (methods : list string) (ctx : WorkflowContext) (template : JsValue)
    : Run JsValue :=
  match template with
  | JStr t =>
      text ← Template.replace_run (resolve methods ctx) t;
      Done (JStr text)
  | _ => Done template
  end.

(** [evaluateCondition(value, compareValue, operator)] *)
Definition evaluateCondition (value compareValue operator : JsValue) : Run bool :=
  match operator with
  | JStr op =>
      if String.eqb op "equals" then Done (Js.strict_equals value compareValue)
      else if String.eqb op "notEquals" then Done (negb (Js.strict_equals value compareValue))
      else if String.eqb op "greaterThan" then
        a ← Js.number_of value; b ← Js.number_of compareValue; Done (Js.lt b a)
      else if String.eqb op "lessThan" then
        a ← Js.number_of value; b ← Js.number_of compareValue; Done (Js.lt a b)
      else if String.eqb op "greaterThanOrEqual" then
        a ← Js.number_of value; b ← Js.number_of compareValue; Done (Js.le b a)
      else if String.eqb op "lessThanOrEqual" then
        a ← Js.number_of value; b ← Js.number_of compareValue; Done (Js.le a b)
      else if String.eqb op "contains" then
        a ← Js.string_of value; b ← Js.string_of compareValue; Done (JsString.includes a b)
      else Done false
  | _ => Done false
  end.

(** [executeLogicNode(node)] *)
Definition executeLogicNode (methods : list string) (ctx : WorkflowContext) (node : WorkflowNode)
    : Run LogicResult :=
  condition ← config_field "condition" node;
  let conditionTemplate := Js.or condition (JStr "{{input}}") in
  processedCondition ← processTemplate methods ctx conditionTemplate;
  let compareValue := Js.or (Js.get "compareValue" (config node)) (JStr EmptyString) in
  let operator := Js.or (Js.get "operator" (config node)) (JStr "equals") in
  result ← evaluateCondition processedCondition compareValue operator;
  (* the values inside the template literal of the log line *)
  _ ← Js.string_of processedCondition;
  _ ← Js.string_of operator;
  _ ← Js.string_of compareValue;
  Done {| result := result; nextPath := if result then "true" else "false" |}.

(** [s.substring(0, 200) + (s.length > 200 ? '...' : '')] *)
Definition preview (s : string) : string :=
  JsString.substring0 200 s +:+ (if Nat.ltb 200 (String.length s) then "..." else EmptyString).

(** [executeNode(node)]: the output and the context it leaves. *)
Definition executeNode (env : Env) (node : WorkflowNode) (ctx : WorkflowContext)
    : Run (JsValue * WorkflowContext) :=
  let cfg := config node in
  let methods := arrayMethods env in
  let currentInput :=
    Js.or (match variables ctx !! "input" with Some v => v | None => JUndefined end)
          (JStr "No input yet") in
  let timestamp := JStr (now env (id node)) in
  let ty := type node in
  (* the name of the node and the current input inside the template
     literals of the opening log lines; the name is the first thing
     read from the configuration *)
  name ← config_field "name" node;
  _ ← Js.string_of name;
  _ ← Js.string_of currentInput;
  output ←
    (if String.eqb ty "input" then
       let inputType := Js.or (Js.get "inputType" cfg) (JStr "text") in
       let textValue := Js.get "textValue" cfg in
       let processedText := Js.get "processedText" cfg in
       let data := Js.get "data" cfg in
       let description := Js.get "description" cfg in
       let initialValue := Js.get "initialValue" cfg in
       let output :=
         if Js.strict_equals inputType (JStr "text") then
           Js.or textValue (Js.or data (Js.or initialValue (Js.or description (JStr "Workflow started"))))
         else if Js.strict_equals inputType (JStr "file") then
           Js.or processedText (Js.or data (Js.or description (JStr "No file uploaded")))
         else
           Js.or processedText (Js.or data (Js.or textValue (Js.or initialValue
             (Js.or description (JStr "Workflow started"))))) in
       (* [output?.substring(0, 100)] in the log line: only a string has
          a [substring] to call *)
       match output with
       | JStr _ => Done output
       | _ => Thrown "output?.substring is not a function"
       end
     else if String.eqb ty "prompt" then
       let promptTemplate := Js.or (Js.get "prompt" cfg) (JStr "Default prompt") in
       processedPrompt ← processTemplate methods ctx promptTemplate;
       let model := Js.or (Js.get "model" cfg) (JStr "gemini-1.5-flash") in
       (* the two log lines before the call *)
       _ ← Js.string_of processedPrompt;
       _ ← Js.string_of model;
       match callGeminiAPI env (id node) processedPrompt model with
       | GeminiSuccess text => Done (JStr text)
       | GeminiFailure error =>
           Done (JStr ("Error from Gemini API: " +:+ Js.toString (optional_string error)))
       | GeminiException message =>
           Done (JStr ("Failed to call Gemini API: " +:+ error_message message))
       end
     else if String.eqb ty "api" then
       let urlTemplate := Js.or (Js.get "url" cfg) (JStr "https://api.example.com") in
       processedUrl ← processTemplate methods ctx urlTemplate;
       let method := Js.or (Js.get "method" cfg) (JStr "GET") in
       methodText ← Js.string_of method;
       urlText ← Js.string_of processedUrl;
       Done (JStr ("API Response from " +:+ methodText +:+ " " +:+ urlText))
     else if String.eqb ty "logic" then
       let conditionTemplate := Js.or (Js.get "condition" cfg) (JStr "{{input}}") in
       processedCondition ← processTemplate methods ctx conditionTemplate;
       let compareValue := Js.or (Js.get "compareValue" cfg) (JStr EmptyString) in
       let operator := Js.or (Js.get "operator" cfg) (JStr "equals") in
       result ← evaluateCondition processedCondition compareValue operator;
       (* the values inside the template literal of the log line *)
       _ ← Js.string_of processedCondition;
       _ ← Js.string_of operator;
       _ ← Js.string_of compareValue;
       Done (JObj [("condition", processedCondition); ("result", JBool result);
                   ("compareValue", compareValue); ("operator", operator)])
     else if String.eqb ty "output" then
       let format := Js.or (Js.get "format" cfg) (JStr "json") in
       (* [String(currentInput)] below returns: the opening log line
          has converted the current input already *)
       let output :=
         if Js.strict_equals format (JStr "json") then
           match (match currentInput with
                  | JStr s => Some s
                  | _ => Js.stringify_pretty currentInput
                  end) with
           | Some jsonData =>
               JObj [("format", JStr "json"); ("data", JStr jsonData);
                     ("timestamp", timestamp); ("preview", JStr (preview jsonData))]
           | None =>
               JObj [("format", JStr "json"); ("data", currentInput);
                     ("timestamp", timestamp);
                     ("preview", JStr (preview (Js.toString currentInput)))]
           end
         else if Js.strict_equals format (JStr "text") then
           JObj [("format", JStr "text"); ("data", JStr (Js.toString currentInput));
                 ("timestamp", timestamp);
                 ("preview", JStr (preview (Js.toString currentInput)))]
         else if Js.strict_equals format (JStr "csv") then
           let csvData :=
             if String.eqb (Js.typeof currentInput) "object" then
               JsString.map_chars (fun c => if Ascii.eqb c ":" then ","%char else c)
                 (JsString.remove_chars
                    (fun c => Ascii.eqb c "{" || Ascii.eqb c "}" || Ascii.eqb c Js.dquote)
                    (Js.string_or_undefined (Js.stringify currentInput)))
             else Js.toString currentInput in
           JObj [("format", JStr "csv"); ("data", JStr csvData);
                 ("timestamp", timestamp); ("preview", JStr (preview csvData))]
         else
           JObj [("format", format); ("data", currentInput);
                 ("timestamp", timestamp);
                 ("preview", JStr (preview (Js.toString currentInput)))] in
       (* the format inside the template literal of the log line *)
       _ ← Js.string_of format;
       Done output
     else Done currentInput);
  Done (output, setNodeOutput (id node) output ctx).

End WorkflowExecutor.

Module NodesRoute.

Import WorkflowExecutor.

(** The state of [executeWithBranching]: the executor's context, the
    [visited] set and the [executedNodes] array. *)
Record ChainState : Type := {
  context : WorkflowContext;
  visited : gset string;
  executedNodes : list string
}.

Section Traversal.

Variable env : Env.
Variable nodes : list WorkflowNode.
Variable edges : list WorkflowEdge.

(** [executeNodeChain(nodeId)] of [executeWithBranching] *)
Fixpoint executeNodeChain (fuel : nat) (nodeId : string) (st : ChainState) : Run ChainState :=
  match fuel with
  | O => OutOfFuel
  | S fuel' =>
      if bool_decide (nodeId ∈ visited st) then Done st
      else
        let visited1 := {[nodeId]} ∪ visited st in
        match List.find (fun n => String.eqb (id n) nodeId) nodes with
        | None => Done {| context := context st; visited := visited1; executedNodes := executedNodes st |}
        | Some node =>
            '(_, ctx1) ← executeNode env node (context st);
            let st1 := {| context := ctx1; visited := visited1;
                          executedNodes := executedNodes st ++ [nodeId] |} in
            let outgoingEdges := List.filter (fun edge => String.eqb (source edge) nodeId) edges in
            if String.eqb (type node) "logic" then
              logicResult ← executeLogicNode (arrayMethods env) ctx1 node;
              let expectedHandle := if result logicResult then "true" else "false" in
              match List.find (fun edge => bool_decide (sourceHandle edge = Some expectedHandle))
                              outgoingEdges with
              | Some targetEdge => executeNodeChain fuel' (target targetEdge) st1
              | None => Done st1
              end
            else
              for_each outgoingEdges (fun edge => executeNodeChain fuel' (target edge)) st1
        end
  end.

(** [executeWithBranching(executor, nodes, edges, startNodeId)]: the
    recursion is never deeper than the number of nodes plus one. *)
Definition executeWithBranching (executor : WorkflowContext) (startNodeId : string) : Run ChainState :=
  executeNodeChain (S (length nodes)) startNodeId
    {| context := executor; visited := ∅; executedNodes := [] |}.

(** [executeWorkflow(nodes, edges)] *)
Definition executeWorkflow : Run WorkflowContext :=
  let executor := empty_context in
  match List.find (fun node => String.eqb (type node) "input") nodes with
  | None => Thrown "No input node found"
  | Some startNode =>
      st ← executeWithBranching executor (id startNode);
      Done (context st)
  end.

End Traversal.

(** The body of the request: [None] for a field that is missing or not
    an array. *)
Record RequestBody : Type := {
  body_nodes : option (list WorkflowNode);
  body_edges : option (list WorkflowEdge)
}.

(** The JSON answer of the handler. *)
Inductive Response : Type :=
| Succeeded (result : WorkflowContext) (executedNodes totalEdges : nat)
| Failed (status : nat) (error : string) (details : option string).

(** [POST(request)] *)
Definition POST (env : Env) (body : RequestBody) : Run Response :=
  match body_nodes body with
  | None => Done (Failed 400 "Invalid nodes data" None)
  | Some nodes =>
      match body_edges body with
      | None => Done (Failed 400 "Invalid edges data" None)
      | Some edges =>
          match executeWorkflow env nodes edges with
          | Done result => Done (Succeeded result (length nodes) (length edges))
          | Thrown message => Done (Failed 500 "Workflow execution failed" (Some message))
          | OutOfFuel => OutOfFuel
          end
      end
  end.

End NodesRoute.

(** ** Vocabulary of the properties *)

(** A computation that returns or throws. *)
Definition returns_or_throws {A : Type} (r : Run A) : Prop := r <> OutOfFuel.

(** A computation that throws nothing but the TypeError of a
    conversion. *)
Definition throws_type_error_only {A : Type} (r : Run A) : Prop :=
  forall message, r = Thrown message -> message = Js.not_primitive.

(** A computation that returns an object or throws. *)
Definition object_or_throws (r : Run JsValue) : Prop :=
  match r with
  | Done (JObj _) | Thrown _ => True
  | _ => False
  end.






(** The keys of the methods of [Array.prototype] in ECMAScript 2023. *)
Definition array_methods_2023 : list string :=
  ["at"; "concat"; "copyWithin"; "fill"; "find"; "findIndex"; "findLast"; "findLastIndex";
   "lastIndexOf"; "pop"; "push"; "reverse"; "shift"; "unshift"; "slice"; "sort"; "splice";
   "includes"; "indexOf"; "join"; "keys"; "entries"; "values"; "forEach"; "filter"; "flat";
   "flatMap"; "map"; "every"; "some"; "reduce"; "reduceRight"; "toReversed"; "toSorted";
   "toSpliced"; "with"; "toLocaleString"; "toString"].


(** [start] is the first node of the list with the property. *)
Definition first_node (P : Engine.NodeData -> Prop) (nodes : list Engine.NodeData)
    (start : Engine.NodeData) : Prop :=
  exists before after,
    nodes = before ++ start :: after /\ P start /\ forall n, n ∈ before -> ~ P n.

(** No edge of the graph ends at the node. *)
Definition orphaned (edges : list Engine.EdgeData) (n : Engine.NodeData) : Prop :=
  forall e, e ∈ edges -> Engine.target e <> Engine.id n.

(** An environment for the examples: a fixed clock, a text service that
    answers "ok", no file processing. *)
Definition sample_env : Engine.Env :=
  {| Engine.now := fun _ => "2025-01-01T00:00:00.000Z";
     Engine.callGeminiAPI := fun _ _ _ => GeminiSuccess "ok";
     Engine.processFiles := fun _ _ _ _ => Engine.FilesException None;
     Engine.fileMetadata := fun _ _ => Engine.FilesDescribed (JArr []) (JNum (Fin 0));
     Engine.arrayMethods := array_methods_2023 |}.

Definition sample_executor_env : WorkflowExecutor.Env :=
  {| WorkflowExecutor.now := fun _ => "2025-01-01T00:00:00.000Z";
     WorkflowExecutor.callGeminiAPI := fun _ _ _ => GeminiSuccess "ok";
     WorkflowExecutor.arrayMethods := array_methods_2023 |}.

(** The node ids of a graph, as a set. *)
Definition executor_ids (nodes : list WorkflowExecutor.WorkflowNode) : gset string :=
  list_to_set (map WorkflowExecutor.id nodes).

(** No key of the three maps of the context is lost. *)
Definition context_extends (ctx ctx' : WorkflowExecutor.WorkflowContext) : Prop :=
  dom (WorkflowExecutor.nodeOutputs ctx) ⊆ dom (WorkflowExecutor.nodeOutputs ctx')
  /\ dom (WorkflowExecutor.variables ctx) ⊆ dom (WorkflowExecutor.variables ctx')
  /\ dom (WorkflowExecutor.globalData ctx) ⊆ dom (WorkflowExecutor.globalData ctx').

(** Every executed node was visited and has its output under its
    ".output" variable and, unless the node is called [__proto__], in
    [nodeOutputs]; the "input" variable is the output of the node
    executed last. *)
Definition chain_consistent (st : NodesRoute.ChainState) : Prop :=
  (forall nodeId, nodeId ∈ NodesRoute.executedNodes st ->
     nodeId ∈ NodesRoute.visited st
     /\ exists output,
          WorkflowExecutor.variables (NodesRoute.context st) !! (nodeId +:+ ".output")
          = Some output
          /\ (nodeId <> "__proto__" ->
              WorkflowExecutor.nodeOutputs (NodesRoute.context st) !! nodeId = Some output))
  /\ (forall nodeId, last (NodesRoute.executedNodes st) = Some nodeId ->
        WorkflowExecutor.variables (NodesRoute.context st) !! "input"
        = WorkflowExecutor.variables (NodesRoute.context st) !! (nodeId +:+ ".output")).

(** What a call of the chain may do to the state: visit more, execute
    more, extend the context, and keep what executed nodes recorded. *)
Definition chain_step (st st' : NodesRoute.ChainState) : Prop :=
  NodesRoute.visited st ⊆ NodesRoute.visited st'
  /\ (exists more, NodesRoute.executedNodes st' = NodesRoute.executedNodes st ++ more)
  /\ context_extends (NodesRoute.context st) (NodesRoute.context st')
  /\ (chain_consistent st ->
      chain_consistent st'
      /\ forall nodeId, nodeId ∈ NodesRoute.executedNodes st ->
           WorkflowExecutor.nodeOutputs (NodesRoute.context st') !! nodeId
           = WorkflowExecutor.nodeOutputs (NodesRoute.context st) !! nodeId
           /\ WorkflowExecutor.variables (NodesRoute.context st') !! (nodeId +:+ ".output")
              = WorkflowExecutor.variables (NodesRoute.context st) !! (nodeId +:+ ".output")).

(** The [data] of a node that holds this configuration. *)
Definition data_of_config (props : list (string * JsValue)) : JsValue :=
  JObj [("config", JObj props)].

(** A graph with a branch: input "10", a logic node that tests whether
    the input is greater than 5, and one output node per branch. *)
Definition branch_nodes : list WorkflowExecutor.WorkflowNode :=
  [{| WorkflowExecutor.id := "1"; WorkflowExecutor.type := "input";
      WorkflowExecutor.data := data_of_config [("textValue", JStr "10")] |};
   {| WorkflowExecutor.id := "2"; WorkflowExecutor.type := "logic";
      WorkflowExecutor.data := data_of_config [("condition", JStr "{{1.output}}"); ("compareValue", JStr "5");
                                  ("operator", JStr "greaterThan")] |};
   {| WorkflowExecutor.id := "3"; WorkflowExecutor.type := "output";
      WorkflowExecutor.data := data_of_config [] |};
   {| WorkflowExecutor.id := "4"; WorkflowExecutor.type := "output";
      WorkflowExecutor.data := data_of_config [] |}].

Definition branch_edges : list WorkflowExecutor.WorkflowEdge :=
  [{| WorkflowExecutor.source := "1"; WorkflowExecutor.target := "2";
      WorkflowExecutor.sourceHandle := None |};
   {| WorkflowExecutor.source := "2"; WorkflowExecutor.target := "3";
      WorkflowExecutor.sourceHandle := Some "true" |};
   {| WorkflowExecutor.source := "2"; WorkflowExecutor.target := "4";
      WorkflowExecutor.sourceHandle := Some "false" |}].

(** The same graph with a logic node left on its default condition, the
    current input, compared for equality with "hello". *)
Definition default_condition_nodes : list WorkflowExecutor.WorkflowNode :=
  [{| WorkflowExecutor.id := "1"; WorkflowExecutor.type := "input";
      WorkflowExecutor.data := data_of_config [("textValue", JStr "hello")] |};
   {| WorkflowExecutor.id := "2"; WorkflowExecutor.type := "logic";
      WorkflowExecutor.data := data_of_config [("compareValue", JStr "hello")] |};
   {| WorkflowExecutor.id := "3"; WorkflowExecutor.type := "output";
      WorkflowExecutor.data := data_of_config [] |};
   {| WorkflowExecutor.id := "4"; WorkflowExecutor.type := "output";
      WorkflowExecutor.data := data_of_config [] |}].

(** The node ids of a graph of the map-based engine, as a set. *)
Definition engine_ids (nodes : list Engine.NodeData) : gset string :=
  list_to_set (map Engine.id nodes).

(** The edges go up along [rank]: the graph has no cycle. *)
Definition acyclic_by (rank : string -> nat) (edges : list Engine.EdgeData) : Prop :=
  forall e, e ∈ edges -> rank (Engine.source e) < rank (Engine.target e).

(** Every call of a node action was handed a results map that already
    held the output of each predecessor of the node. *)
Definition predecessors_recorded (nodes : list Engine.NodeData) (edges : list Engine.EdgeData)
    (calls : list (string * list (string * JsValue))) : Prop :=
  forall nodeId previousResults, (nodeId, previousResults) ∈ calls ->
    forall e, e ∈ edges -> Engine.target e = nodeId -> Engine.source e ∈ engine_ids nodes ->
      JsMap.has (Engine.source e) previousResults = true.

(** The bookkeeping of a traversal: the keys of the results map are the
    called node ids, in call order and without repetition; they are node
    ids of the graph; the map holds, for each call, what the action of
    the first node with that id returned on the results map it was
    handed; and what that map held is still in the results map. *)
Definition calls_recorded (env : Engine.Env) (nodes : list Engine.NodeData)
    (edges : list Engine.EdgeData) (inputData : JsValue)
    (results : list (string * JsValue)) (calls : list (string * list (string * JsValue))) : Prop :=
  JsMap.keys results = map fst calls
  /\ NoDup (map fst calls)
  /\ (forall nodeId, nodeId ∈ map fst calls -> nodeId ∈ engine_ids nodes)
  /\ (forall nodeId previousResults, (nodeId, previousResults) ∈ calls ->
        exists node nodeResult,
          List.find (fun n => String.eqb (Engine.id n) nodeId) nodes = Some node
          /\ Engine.executeNode env node previousResults inputData edges = Done nodeResult
          /\ Js.assoc nodeId results = Some nodeResult)
  /\ (forall nodeId previousResults, (nodeId, previousResults) ∈ calls ->
        forall k v, Js.assoc k previousResults = Some v -> Js.assoc k results = Some v).

(** The invariant of the dependency-aware traversal. *)
Definition dep_inv (env : Engine.Env) (nodes : list Engine.NodeData)
    (edges : list Engine.EdgeData) (inputData : JsValue) (st : Engine.DepState) : Prop :=
  calls_recorded env nodes edges inputData (Engine.dep_results st) (Engine.dep_calls st)
  /\ Engine.executed st = list_to_set (map fst (Engine.dep_calls st)).

(** What a call of [executeNodeWithDependencies] may do to the state. *)
Definition dep_step (env : Engine.Env) (nodes : list Engine.NodeData)
    (edges : list Engine.EdgeData) (inputData : JsValue) (st st' : Engine.DepState) : Prop :=
  Engine.executing st' = Engine.executing st
  /\ Engine.executed st ⊆ Engine.executed st'
  /\ (forall x, x ∈ Engine.executed st' -> x ∈ Engine.executing st -> x ∈ Engine.executed st)
  /\ (exists more, Engine.dep_calls st' = Engine.dep_calls st ++ more)
  /\ (dep_inv env nodes edges inputData st -> dep_inv env nodes edges inputData st').

(** A step that, under the condition [C], also keeps
    [predecessors_recorded]. *)
Definition dep_step_ordered (C : Prop) (env : Engine.Env) (nodes : list Engine.NodeData)
    (edges : list Engine.EdgeData) (inputData : JsValue) (st st' : Engine.DepState) : Prop :=
  dep_step env nodes edges inputData st st'
  /\ (C -> dep_inv env nodes edges inputData st ->
      predecessors_recorded nodes edges (Engine.dep_calls st) ->
      predecessors_recorded nodes edges (Engine.dep_calls st')).

(** The node ids the dependency-aware traversal has not entered yet. *)
Definition unentered (nodes : list Engine.NodeData) (st : Engine.DepState) : gset string :=
  engine_ids nodes ∖ (Engine.executed st ∪ Engine.executing st).

(** Two nodes of an unknown type on a cycle. *)
Definition cycle_nodes : list Engine.NodeData :=
  [{| Engine.id := "a"; Engine.type := "note"; Engine.config := None |};
   {| Engine.id := "b"; Engine.type := "note"; Engine.config := None |}].

Definition cycle_edges : list Engine.EdgeData :=
  [{| Engine.edge_id := "ab"; Engine.source := "a"; Engine.target := "b";
      Engine.sourceHandle := None |};
   {| Engine.edge_id := "ba"; Engine.source := "b"; Engine.target := "a";
      Engine.sourceHandle := None |}].

(** A merge: "c" listed first, with the two predecessors "a" and "b". *)
Definition merge_nodes : list Engine.NodeData :=
  [{| Engine.id := "c"; Engine.type := "output"; Engine.config := None |};
   {| Engine.id := "a"; Engine.type := "input"; Engine.config := None |};
   {| Engine.id := "b"; Engine.type := "api"; Engine.config := None |}].

Definition merge_edges : list Engine.EdgeData :=
  [{| Engine.edge_id := "ac"; Engine.source := "a"; Engine.target := "c";
      Engine.sourceHandle := None |};
   {| Engine.edge_id := "bc"; Engine.source := "b"; Engine.target := "c";
      Engine.sourceHandle := None |}].

Definition merge_rank (nodeId : string) : nat :=
  if String.eqb nodeId "c" then 1 else 0.

(** The branch label a logic node's recorded result selects. *)
Definition expected_handle (nodeResult : JsValue) : string :=
  if Js.truthy (Js.get "result" nodeResult) then "true" else "false".

(** The outgoing edges the branching traversal follows after a node:
    for a logic node the first one that carries the selected label, if
    any; for another node all of them. *)
Definition followed (edges : list Engine.EdgeData) (node : Engine.NodeData)
    (nodeResult : JsValue) : list Engine.EdgeData :=
  let outgoingEdges :=
    List.filter (fun edge => String.eqb (Engine.source edge) (Engine.id node)) edges in
  if String.eqb (Engine.type node) "logic" then
    match List.find (fun edge => bool_decide (Engine.sourceHandle edge
                                              = Some (expected_handle nodeResult)))
                    outgoingEdges with
    | Some targetEdge => [targetEdge]
    | None => []
    end
  else outgoingEdges.

(** The node id is the start node or the target of an edge followed
    after a node whose result is recorded. *)
Definition reached_by (nodes : list Engine.NodeData) (edges : list Engine.EdgeData)
    (startNodeId : string) (results : list (string * JsValue)) (nodeId : string) : Prop :=
  nodeId = startNodeId
  \/ exists e node nodeResult,
       List.find (fun n => String.eqb (Engine.id n) (Engine.source e)) nodes = Some node
       /\ Js.assoc (Engine.source e) results = Some nodeResult
       /\ e ∈ followed edges node nodeResult
       /\ Engine.target e = nodeId.

(** Every executed node was reached. *)
Definition justified (nodes : list Engine.NodeData) (edges : list Engine.EdgeData)
    (startNodeId : string) (st : Engine.BranchState) : Prop :=
  forall nodeId, nodeId ∈ map fst (Engine.calls st) ->
    reached_by nodes edges startNodeId (Engine.results st) nodeId.

(** The invariant of the branching traversal. *)
Definition branch_inv (env : Engine.Env) (nodes : list Engine.NodeData)
    (edges : list Engine.EdgeData) (inputData : JsValue) (st : Engine.BranchState) : Prop :=
  calls_recorded env nodes edges inputData (Engine.results st) (Engine.calls st)
  /\ forall nodeId, nodeId ∈ map fst (Engine.calls st) -> nodeId ∈ Engine.visited st.

(** What a call of the chain may do to the state. *)
Definition branch_step (env : Engine.Env) (nodes : list Engine.NodeData)
    (edges : list Engine.EdgeData) (inputData : JsValue) (st st' : Engine.BranchState) : Prop :=
  Engine.visited st ⊆ Engine.visited st'
  /\ (exists more, Engine.calls st' = Engine.calls st ++ more)
  /\ (branch_inv env nodes edges inputData st ->
      branch_inv env nodes edges inputData st'
      /\ forall k v, Js.assoc k (Engine.results st) = Some v ->
                     Js.assoc k (Engine.results st') = Some v).

(** A step that, under the condition [C], also keeps [justified]. *)
Definition branch_step_justified (C : Prop) (env : Engine.Env) (nodes : list Engine.NodeData)
    (edges : list Engine.EdgeData) (inputData : JsValue) (startNodeId : string)
    (st st' : Engine.BranchState) : Prop :=
  branch_step env nodes edges inputData st st'
  /\ (C -> branch_inv env nodes edges inputData st ->
      justified nodes edges startNodeId st -> justified nodes edges startNodeId st').

(** ** Topological order of a workflow graph *)

(** [Map<string, A>] in insertion order, for any type of values. *)
Module OrdMap.

Fixpoint get {A : Type} (k : string) (m : list (string * A)) : option A :=
  match m with
  | [] => None
  | (k', v) :: rest => if String.eqb k k' then Some v else get k rest
  end.

(** [m.set(k, v)]: a present key keeps its place, a new one goes last. *)
Fixpoint set {A : Type} (k : string) (v : A) (m : list (string * A)) : list (string * A) :=
  match m with
  | [] => [(k, v)]
  | (k', v') :: rest =>
      if String.eqb k k' then (k, v) :: rest else (k', v') :: set k v rest
  end.

End OrdMap.

Module EngineOrder.

(** The two maps of [topologicalSort]: the successor lists and the
    in-degree counters. *)
Record Graph : Type := {
  graph : list (string * list string);
  inDegree : list (string * Z)
}.

(** [inDegree.get(k) || 0] *)
Definition degree (k : string) (inDegree : list (string * Z)) : Z :=
  match OrdMap.get k inDegree with
  | Some d => d
  | None => 0
  end.

(** [nodes.forEach(node => { graph.set(node.id, []); inDegree.set(node.id, 0) })] *)
Definition initialize (nodes : list Engine.NodeData) : Graph :=
  fold_left (fun g node =>
               {| graph := OrdMap.set (Engine.id node) [] (graph g);
                  inDegree := OrdMap.set (Engine.id node) 0%Z (inDegree g) |})
            nodes {| graph := []; inDegree := [] |}.

(** [edges.forEach(edge => { graph.get(edge.source)?.push(edge.target);
    inDegree.set(edge.target, (inDegree.get(edge.target) || 0) + 1) })]:
    the push changes the array the map holds under the source, when it
    holds one. *)
Definition connect (edges : list Engine.EdgeData) (g : Graph) : Graph :=
  fold_left (fun g edge =>
               {| graph := match OrdMap.get (Engine.source edge) (graph g) with
                           | Some targets =>
                               OrdMap.set (Engine.source edge) (targets ++ [Engine.target edge]) (graph g)
                           | None => graph g
                           end;
                  inDegree := OrdMap.set (Engine.target edge)
                                (degree (Engine.target edge) (inDegree g) + 1)%Z (inDegree g) |})
            edges g.

(** [inDegree.forEach((degree, nodeId) => { if (degree === 0) queue.push(nodeId) })] *)
Definition initial_queue (inDegree : list (string * Z)) : list string :=
  map fst (List.filter (fun kv => Z.eqb (snd kv) 0) inDegree).

(** [graph.get(current)?.forEach(neighbor => ...)]: the counters and the
    queue after the neighbours were visited. *)
Fixpoint visit (neighbors : list string) (inDegree : list (string * Z)) (queue : list string)
    : list (string * Z) * list string :=
  match neighbors with
  | [] => (inDegree, queue)
  | neighbor :: rest =>
      let newDegree := (degree neighbor inDegree - 1)%Z in
      visit rest (OrdMap.set neighbor newDegree inDegree)
            (if Z.eqb newDegree 0 then queue ++ [neighbor] else queue)
  end.

(** [while (queue.length > 0) { ... }] *)
Fixpoint drain (fuel : nat) (graph : list (string * list string)) (inDegree : list (string * Z))
    (queue result : list string) : Run (list string) :=
  match fuel with
  | O => OutOfFuel
  | S fuel' =>
      match queue with
      | [] => Done result
      | current :: queue' =>
          match OrdMap.get current graph with
          | Some neighbors =>
              let '(inDegree', queue'') := visit neighbors inDegree queue' in
              drain fuel' graph inDegree' queue'' (result ++ [current])
          | None => drain fuel' graph inDegree queue' (result ++ [current])
          end
      end
  end.

(** [topologicalSort(nodes, edges)]: the loop takes an id off the queue
    at most once for each node and each edge, and once more to find the
    queue empty. *)
Definition topologicalSort (nodes : list Engine.NodeData) (edges : list Engine.EdgeData)
    : Run (list string) :=
  let g := connect edges (initialize nodes) in
  drain (S (length nodes + length edges)) (graph g) (inDegree g)
        (initial_queue (inDegree g)) [].

End EngineOrder.

(** An edge of the graph leads from [s] to [t]. *)
Definition edge_between (edges : list Engine.EdgeData) (s t : string) : Prop :=
  exists e, e ∈ edges /\ Engine.source e = s /\ Engine.target e = t.

(** [s] stands before [t] in the list. *)
Definition stands_before (order : list string) (s t : string) : Prop :=
  exists i j, i < j /\ order !! i = Some s /\ order !! j = Some t.

(** The incoming edges of [t] whose source is not a node taken off the
    queue yet: what the counter of [t] counts. *)
Definition pending_edges (nodes : list Engine.NodeData) (edges : list Engine.EdgeData)
    (result : list string) (t : string) : list Engine.EdgeData :=
  List.filter (fun e => String.eqb (Engine.target e) t
                        && negb (bool_decide (Engine.source e ∈ map Engine.id nodes)
                                 && bool_decide (Engine.source e ∈ result)))
              edges.

(** The ids the counters know: the node ids and the edge targets. *)
Definition counted_ids (nodes : list Engine.NodeData) (edges : list Engine.EdgeData) : gset string :=
  list_to_set (map Engine.id nodes ++ map Engine.target edges).

(** The invariant of the loop of [topologicalSort]. *)
Definition drain_inv (nodes : list Engine.NodeData) (edges : list Engine.EdgeData)
    (inDegree : list (string * Z)) (queue result : list string) : Prop :=
  NoDup (result ++ queue)
  /\ (forall t, EngineOrder.degree t inDegree
                = Z.of_nat (length (pending_edges nodes edges result t)))
  /\ (forall t, t ∈ result ++ queue <->
                t ∈ counted_ids nodes edges /\ pending_edges nodes edges result t = [])
  /\ (forall j t, result !! j = Some t ->
        forall e, e ∈ edges -> Engine.target e = t ->
          Engine.source e ∈ map Engine.id nodes
          /\ exists i, i < j /\ result !! i = Some (Engine.source e)).

(** A graph of the map-based engine with a branch: an input node, a
    logic node left on its default condition, which holds, and one
    output node per branch. *)
Definition engine_branch_nodes : list Engine.NodeData :=
  [{| Engine.id := "1"; Engine.type := "input"; Engine.config := None |};
   {| Engine.id := "2"; Engine.type := "logic"; Engine.config := None |};
   {| Engine.id := "3"; Engine.type := "output"; Engine.config := None |};
   {| Engine.id := "4"; Engine.type := "output"; Engine.config := None |}].

Definition engine_branch_edges : list Engine.EdgeData :=
  [{| Engine.edge_id := "e12"; Engine.source := "1"; Engine.target := "2";
      Engine.sourceHandle := None |};
   {| Engine.edge_id := "e23"; Engine.source := "2"; Engine.target := "3";
      Engine.sourceHandle := Some "true" |};
   {| Engine.edge_id := "e24"; Engine.source := "2"; Engine.target := "4";
      Engine.sourceHandle := Some "false" |}].

(** The values an input node of the class-based engine may output are
    text: each of the five configuration fields it chooses from is
    falsy or a string. *)
Definition holds_text (node : WorkflowExecutor.WorkflowNode) : Prop :=
  forall key, key ∈ ["textValue"; "processedText"; "data"; "description"; "initialValue"] ->
    Js.truthy (Js.get key (WorkflowExecutor.config node)) = true ->
    Js.is_string (Js.get key (WorkflowExecutor.config node)) = true.

(** What a call of the chain of the class-based engine adds to the
    bookkeeping: the newly executed node ids are node ids of the graph,
    pairwise different, not visited before and visited now, and they
    are the new keys of [nodeOutputs], except [__proto__], which
    becomes no key. *)
Definition chain_audit (nodes : list WorkflowExecutor.WorkflowNode)
    (st st' : NodesRoute.ChainState) : Prop :=
  NodesRoute.visited st ⊆ NodesRoute.visited st'
  /\ exists more,
       NodesRoute.executedNodes st' = NodesRoute.executedNodes st ++ more
       /\ NoDup more
       /\ (forall x, x ∈ more ->
             x ∈ executor_ids nodes /\ (x ∉ NodesRoute.visited st) /\ x ∈ NodesRoute.visited st')
       /\ dom (WorkflowExecutor.nodeOutputs (NodesRoute.context st'))
          = dom (WorkflowExecutor.nodeOutputs (NodesRoute.context st))
            ∪ (list_to_set more ∖ {["__proto__"]}).

(** A graph of the class-based engine whose input node is configured
    with a number where text is expected. *)
Definition number_input_nodes : list WorkflowExecutor.WorkflowNode :=
  [{| WorkflowExecutor.id := "1"; WorkflowExecutor.type := "input";
      WorkflowExecutor.data := data_of_config [("textValue", JNum (Fin 5))] |}].

(** The fields an input node of the class-based engine chooses its
    output from, in the order it tries them, and the text it falls back
    on, for each input type. *)
Definition input_fields (inputType : JsValue) : list string * string :=
  if Js.strict_equals inputType (JStr "text") then
    (["textValue"; "data"; "initialValue"; "description"], "Workflow started")
  else if Js.strict_equals inputType (JStr "file") then
    (["processedText"; "data"; "description"], "No file uploaded")
  else
    (["processedText"; "data"; "textValue"; "initialValue"; "description"], "Workflow started").

(** [value] is what the first truthy field of the configuration holds,
    or the fallback when no field is truthy. *)
Definition first_truthy (cfg : JsValue) (fields : list string) (fallback value : JsValue) : Prop :=
  (exists before key after,
      fields = before ++ key :: after
      /\ (forall k, k ∈ before -> Js.truthy (Js.get k cfg) = false)
      /\ Js.truthy (Js.get key cfg) = true
      /\ value = Js.get key cfg)
  \/ ((forall k, k ∈ fields -> Js.truthy (Js.get k cfg) = false) /\ value = fallback).

(** No object inside the value has an own [toString] property: the
    value, and whatever a property read finds in it, can be converted
    to a string. *)
Fixpoint convertible_within (v : JsValue) : bool :=
  match v with
  | JObj props =>
      negb (Js.own_key "toString" props) && forallb (fun kv => convertible_within (snd kv)) props
  | JArr items => forallb (fun x => convertible_within x) items
  | _ => true
  end.

Definition any_convertible_within (a : Js.Any) : bool :=
  match a with Js.Json v => convertible_within v | _ => true end.

(** Every variable of the context can be converted, inside out. *)
Definition plain_context (ctx : WorkflowExecutor.WorkflowContext) : Prop :=
  forall key value,
    WorkflowExecutor.variables ctx !! key = Some value -> convertible_within value = true.

(** The node holds a configuration, and every field of it can be
    converted, inside out. *)
Definition plain_config (node : WorkflowExecutor.WorkflowNode) : Prop :=
  Js.is_nullish (WorkflowExecutor.config node) = false
  /\ forall key, convertible_within (Js.get key (WorkflowExecutor.config node)) = true.

(** No opening brace in the string. *)
Fixpoint no_lbrace (s : string) : bool :=
  match s with
  | EmptyString => true
  | String c s' => negb (Ascii.eqb c "{") && no_lbrace s'
  end.

(** ** More of JavaScript's strings *)

Module JsText.

(** [c.toLowerCase()] on a code unit below 256: the letters A-Z and the
    capital letters of Latin-1 (all of U+00C0-U+00DE but the
    multiplication sign). *)
Definition lower_char (c : ascii) : ascii :=
  let n := nat_of_ascii c in
  if (Nat.leb 65 n && Nat.leb n 90)
     || (Nat.leb 192 n && Nat.leb n 222 && negb (Nat.eqb n 215))
  then ascii_of_nat (n + 32) else c.

(** [s.toLowerCase()] *)
Definition toLowerCase (s : string) : string := JsString.map_chars lower_char s.

(** [s.endsWith(suffix)] *)
Fixpoint endsWith (s suffix : string) : bool :=
  String.eqb s suffix ||
  match s with
  | EmptyString => false
  | String _ s' => endsWith s' suffix
  end.

(** [s.split('.').pop()]: the text after the last dot, the whole text
    when there is none. *)
Definition last_segment (s : string) : string :=
  List.last (JsString.split "." s) EmptyString.

(** Line terminators below 256: the characters a dot of a regular
    expression does not match. *)
Definition is_line_terminator (c : ascii) : bool :=
  Ascii.eqb c "010" || Ascii.eqb c "013".

(** The number of leading characters with the property. *)
Fixpoint leading (p : ascii -> bool) (s : string) : nat :=
  match s with
  | String c s' => if p c then S (leading p s') else 0
  | EmptyString => 0
  end.

(** [s.slice(n)] for [n] within the string. *)
Fixpoint drop (n : nat) (s : string) : string :=
  match n, s with
  | S n', String _ s' => drop n' s'
  | _, _ => s
  end.

(** [(.*?)delimiter] or [[\s\S]*?delimiter] tried at the start of [s]:
    the shortest text before an occurrence of the delimiter, free of
    line terminators unless [any] is set. *)
Fixpoint until (any : bool) (delimiter s : string) : option string :=
  if String.prefix delimiter s then Some EmptyString
  else match s with
       | EmptyString => None
       | String c s' =>
           if negb any && is_line_terminator c then None
           else match until any delimiter s' with
                | Some captured => Some (String c captured)
                | None => None
                end
       end.

(** [s.replace(/pattern/g, ...)] for a pattern that matches at least
    one character: [pattern] tried at the start of a string gives what
    replaces the match and the length of the match; matches are taken
    left to right and do not overlap. [skip] counts the characters still
    covered by the last match. *)
Fixpoint replace_matches (pattern : string -> option (string * nat)) (skip : nat) (s : string)
    : string :=
  match s with
  | EmptyString => EmptyString
  | String c s' =>
      match skip with
      | S k => replace_matches pattern k s'
      | O =>
          match pattern s with
          | Some (replacement, len) => replacement +:+ replace_matches pattern (len - 1) s'
          | None => String c (replace_matches pattern 0 s')
          end
      end
  end.

Definition replace_global (pattern : string -> option (string * nat)) (s : string) : string :=
  replace_matches pattern 0 s.

(** [/open(.*?)close/] with replacement [$1]. *)
Definition delimited (opening closing : string) (s : string) : option (string * nat) :=
  if String.prefix opening s then
    match until false closing (drop (String.length opening) s) with
    | Some captured =>
        Some (captured, String.length opening + String.length captured + String.length closing)
    | None => None
    end
  else None.

End JsText.

(** ** The file processing utility *)

Module FileProcessor.

(** What a promise gave: its value, or the rejection (with the message
    when an [Error] was thrown). *)
Inductive Read (A : Type) : Type :=
| Fulfilled (a : A)
| Rejected (message : option string).

Arguments Fulfilled {A} a.
Arguments Rejected {A} message.

(** What a call gave: its value, or the message of the error it threw. *)
Inductive Attempt (A : Type) : Type :=
| Returned (a : A)
| Threw (message : string).

Arguments Returned {A} a.
Arguments Threw {A} message.

(** A [File]: its name, declared type (empty when unknown) and size, and
    what reading it gives: [file.text()], the raw text the word
    processor library extracts from it, and the text the recognition
    worker finds in it (a rejection standing for anything thrown on the
    way, loading the library included). *)
Record File : Type := {
  name : string;
  type : string;
  size : Z;
  text : Read string;
  rawText : Read string;
  recognizedText : Read string
}.

(** The value of [file.type || getFileTypeFromName(file.name)]: a
    string, or what the lookup table inherits under that key. *)
Inductive FileType : Type :=
| Mime (mime : string)
| Inherited (key : string).

Record Metadata : Type := {
  fileName : string;
  fileSize : Z;
  fileType : FileType;
  extractionMethod : string
}.

(** [FileProcessResult] *)
Record FileProcessResult : Type := {
  success : bool;
  result_text : string;
  error : option string;
  metadata : option Metadata
}.

Definition succeeded (t : string) : FileProcessResult :=
  {| success := true; result_text := t; error := None; metadata := None |}.

Definition failed (message : string) : FileProcessResult :=
  {| success := false; result_text := EmptyString; error := Some message; metadata := None |}.

Definition mimeTypes : list (string * string) :=
  [("txt", "text/plain"); ("md", "text/markdown"); ("markdown", "text/markdown");
   ("json", "application/json"); ("csv", "text/csv"); ("html", "text/html");
   ("htm", "text/html"); ("xml", "application/xml"); ("pdf", "application/pdf");
   ("doc", "application/msword");
   ("docx", "application/vnd.openxmlformats-officedocument.wordprocessingml.document");
   ("rtf", "application/rtf")].

(** The keys every object inherits that are written without capital
    letter: the only inherited keys a lowered extension can be. *)
Definition inherited_keys : list string := ["constructor"; "__proto__"].

(** [getFileTypeFromName(fileName)] *)
Definition getFileTypeFromName (fileName : string) : FileType :=
  let extension := JsText.toLowerCase (JsText.last_segment fileName) in
  match OrdMap.get extension mimeTypes with
  | Some mime => Mime mime
  | None =>
      if bool_decide (extension ∈ inherited_keys) then Inherited extension
      else Mime "application/octet-stream"
  end.

(** [file.type || getFileTypeFromName(file.name)] *)
Definition fileTypeOf (file : File) : FileType :=
  if String.eqb (type file) EmptyString then getFileTypeFromName (name file)
  else Mime (type file).

(** [determineExtractionMethod(fileType, fileName)]: calling a string
    method on a file type that is no string throws. *)
Definition determineExtractionMethod (fileType : FileType) (fileName : string) : Attempt string :=
  match fileType with
  | Inherited _ => Threw "fileType.startsWith is not a function"
  | Mime fileType =>
      if JsString.startsWith fileType "text/"
         || String.eqb fileType "application/json"
         || String.eqb fileType "application/xml"
      then Returned "plain"
      else if String.eqb fileType "text/markdown"
              || JsText.endsWith (JsText.toLowerCase fileName) ".md"
              || JsText.endsWith (JsText.toLowerCase fileName) ".markdown"
      then Returned "markdown"
      else if String.eqb fileType "application/pdf"
              || JsString.startsWith fileType "image/"
              || JsString.includes fileType "word"
              || JsString.includes fileType "office"
      then Returned "ocr"
      else Returned "plain"
  end.

(** [extractPlainText(file)] *)
Definition extractPlainText (file : File) : FileProcessResult :=
  match text file with
  | Fulfilled t => succeeded (JsString.trim t)
  | Rejected message => failed ("Failed to extract text: " +:+ error_message message)
  end.

(** [/#{1,6}\s+/]: up to six hashes and the white space after them. A
    longer run of hashes cannot match at its start. *)
Definition heading_marker (s : string) : option (string * nat) :=
  let hashes := JsText.leading (fun c => Ascii.eqb c "#") s in
  let spaces := JsText.leading JsString.is_white (JsText.drop hashes s) in
  if Nat.leb 1 hashes && Nat.leb hashes 6 && Nat.leb 1 spaces
  then Some (EmptyString, hashes + spaces) else None.

(** [/\[(.*?)\]\(.*?\)/] with replacement [$1]. *)
Definition link (s : string) : option (string * nat) :=
  match s with
  | String "[" s1 =>
      match JsText.until false "](" s1 with
      | Some label =>
          match JsText.until false ")" (JsText.drop (String.length label + 2) s1) with
          | Some target => Some (label, 1 + String.length label + 2 + String.length target + 1)
          | None => None
          end
      | None => None
      end
  | _ => None
  end.

(** [/```[\s\S]*?```/] with the empty replacement. *)
Definition code_block (s : string) : option (string * nat) :=
  if String.prefix "```" s then
    match JsText.until true "```" (JsText.drop 3 s) with
    | Some body => Some (EmptyString, 3 + String.length body + 3)
    | None => None
    end
  else None.

(** The chain of replacements of [extractMarkdown], and the trim. *)
Definition plain_of_markdown (t : string) : string :=
  let t1 := JsText.replace_global heading_marker t in
  let t2 := JsText.replace_global (JsText.delimited "**" "**") t1 in
  let t3 := JsText.replace_global (JsText.delimited "*" "*") t2 in
  let t4 := JsText.replace_global link t3 in
  let t5 := JsText.replace_global (JsText.delimited "`" "`") t4 in
  let t6 := JsText.replace_global code_block t5 in
  JsString.trim t6.

(** [extractMarkdown(file)] *)
Definition extractMarkdown (file : File) : FileProcessResult :=
  match text file with
  | Fulfilled t => succeeded (plain_of_markdown t)
  | Rejected message => failed ("Failed to extract markdown: " +:+ error_message message)
  end.

(** [extractFromPDF(file)] *)
Definition extractFromPDF (file : File) : FileProcessResult :=
  failed "PDF processing is only available through the file upload API. Please use the FileUpload component or API endpoint.".

(** [extractFromWordDoc(file)]: whatever is thrown inside is caught. *)
Definition extractFromWordDoc (file : File) : FileProcessResult :=
  match fileTypeOf file with
  | Inherited _ =>
      failed ("Word document extraction failed: " +:+ "fileType.includes is not a function")
  | Mime fileType =>
      if JsString.includes fileType "openxml"
         || JsText.endsWith (JsText.toLowerCase (name file)) ".docx"
      then
        match rawText file with
        | Fulfilled value =>
            if Nat.ltb 0 (String.length (JsString.trim value))
            then succeeded (JsString.trim value)
            else failed "No text found in Word document."
        | Rejected message =>
            failed ("Word document extraction failed: " +:+ error_message message)
        end
      else if JsString.includes fileType "msword"
              || JsText.endsWith (JsText.toLowerCase (name file)) ".doc"
      then failed "Legacy .doc files are not supported. Please save as .docx or copy-paste the content."
      else failed "Unsupported Word document format."
  end.

(** [extractFromImage(file)] *)
Definition extractFromImage (file : File) : FileProcessResult :=
  match recognizedText file with
  | Fulfilled t =>
      if Nat.ltb 0 (String.length (JsString.trim t))
      then succeeded (JsString.trim t)
      else failed "No text found in the image."
  | Rejected message => failed ("Image OCR failed: " +:+ error_message message)
  end.

(** [extractWithOCR(file)] *)
Definition extractWithOCR (file : File) : Attempt FileProcessResult :=
  match fileTypeOf file with
  | Inherited _ => Threw "fileType.includes is not a function"
  | Mime fileType =>
      if String.eqb fileType "application/pdf" then Returned (extractFromPDF file)
      else if JsString.includes fileType "word" || JsString.includes fileType "document"
      then Returned (extractFromWordDoc file)
      else if JsString.startsWith fileType "image/" then Returned (extractFromImage file)
      else Returned (extractPlainText file)
  end.

(** [extractTextFromFile(file, extractionMethod)] *)
Definition extractTextFromFile (file : File) (extractionMethod : string)
    : Attempt FileProcessResult :=
  match (if String.eqb extractionMethod "auto"
         then determineExtractionMethod (fileTypeOf file) (name file)
         else Returned extractionMethod) with
  | Threw message => Threw message
  | Returned method =>
      if String.eqb method "plain" then Returned (extractPlainText file)
      else if String.eqb method "markdown" then Returned (extractMarkdown file)
      else if String.eqb method "ocr" then extractWithOCR file
      else Returned (extractPlainText file)
  end.

(** The body of the loop of [processFiles]: the result for one file. *)
Definition processFile (extractionMethod : string) (file : File) : FileProcessResult :=
  let described (method : string) :=
    Some {| fileName := name file; fileSize := size file; fileType := fileTypeOf file;
            extractionMethod := method |} in
  match extractTextFromFile file extractionMethod with
  | Returned result =>
      {| success := success result; result_text := result_text result; error := error result;
         metadata := described (if success result then extractionMethod else "failed") |}
  | Threw message =>
      {| success := false; result_text := EmptyString; error := Some message;
         metadata := described "failed" |}
  end.

(** [processFiles(files, extractionMethod)] *)
Definition processFiles (files : list File) (extractionMethod : string) : list FileProcessResult :=
  map (processFile extractionMethod) files.

(** [r.metadata?.fileName] *)
Definition fileNameOf (r : FileProcessResult) : JsValue :=
  match metadata r with
  | Some m => JStr (fileName m)
  | None => JUndefined
  end.

Definition number (n : nat) : JsValue := JNum (Fin (Z.of_nat n)).

(** The object the structured format serializes. *)
Definition structured (results successfulResults : list FileProcessResult) : JsValue :=
  JObj [("totalFiles", number (length results));
        ("successfulExtractions", number (length successfulResults));
        ("files", JArr (map (fun r => JObj [("fileName", fileNameOf r);
                                            ("success", JBool (success r));
                                            ("textLength", number (String.length (result_text r)));
                                            ("error", optional_string (error r))])
                            results));
        ("extractedText", JArr (map (fun r => JObj [("fileName", fileNameOf r);
                                                    ("text", JStr (result_text r))])
                                    successfulResults))].

Definition blank_line : string := Js.newline +:+ Js.newline.

(** [combineFileResults(results, outputFormat)] *)
Definition combineFileResults (results : list FileProcessResult) (outputFormat : string) : string :=
  let successfulResults := List.filter success results in
  match successfulResults with
  | [] => "No text could be extracted from the uploaded files."
  | _ =>
      if String.eqb outputFormat "structured" then
        Js.string_or_undefined (Js.stringify_pretty (structured results successfulResults))
      else if String.eqb outputFormat "summary" then
        let totalLength :=
          fold_left (fun sum r => sum + String.length (result_text r)) successfulResults 0 in
        let fileList :=
          JsString.join ", " (map (fun r => match metadata r with
                                            | Some m => fileName m
                                            | None => EmptyString
                                            end) successfulResults) in
        "Extracted text from " +:+ pretty (Z.of_nat (length successfulResults))
        +:+ " file(s): " +:+ fileList +:+ Js.newline
        +:+ "Total characters: " +:+ pretty (Z.of_nat totalLength) +:+ blank_line
        +:+ "Combined text:" +:+ Js.newline
        +:+ JsString.join (blank_line +:+ "---" +:+ blank_line)
              (map result_text successfulResults)
      else JsString.join blank_line (map result_text successfulResults)
  end.

End FileProcessor.

(** A result of the file processing utility is either a success without
    error, or a failure with an error and no text. *)
Definition settled (r : FileProcessor.FileProcessResult) : Prop :=
  (FileProcessor.success r = true -> FileProcessor.error r = None)
  /\ (FileProcessor.success r = false ->
      FileProcessor.result_text r = EmptyString /\ is_Some (FileProcessor.error r)).

(** A PDF and a text file, each without declared type. *)
Definition sample_pdf : FileProcessor.File :=
  {| FileProcessor.name := "scan.PDF"; FileProcessor.type := EmptyString;
     FileProcessor.size := 2048;
     FileProcessor.text := FileProcessor.Fulfilled "%PDF-1.4";
     FileProcessor.rawText := FileProcessor.Rejected None;
     FileProcessor.recognizedText := FileProcessor.Rejected None |}.

Definition sample_text_file : FileProcessor.File :=
  {| FileProcessor.name := "notes.txt"; FileProcessor.type := EmptyString;
     FileProcessor.size := 11;
     FileProcessor.text := FileProcessor.Fulfilled " some text ";
     FileProcessor.rawText := FileProcessor.Rejected None;
     FileProcessor.recognizedText := FileProcessor.Rejected None |}.

(** Every character of the string has the property. *)
Fixpoint all_chars (p : ascii -> bool) (s : string) : bool :=
  match s with
  | EmptyString => true
  | String c s' => p c && all_chars p s'
  end.

(** The characters that start a markdown construct the extractor
    knows: hash, star, opening bracket and backtick. *)
Definition markup_char (c : ascii) : bool :=
  Ascii.eqb c "#" || Ascii.eqb c "*" || Ascii.eqb c "[" || Ascii.eqb c "`".


(** ** The file upload hook *)

Module FileUploadHook.

Definition DEFAULT_MAX_FILE_SIZE : Z := 10 * 1024 * 1024.

Definition DEFAULT_ALLOWED_EXTENSIONS : list string :=
  [".txt"; ".md"; ".json"; ".csv"; ".html"; ".pdf"; ".doc"; ".docx"; ".rtf"; ".xml";
   ".jpg"; ".jpeg"; ".png"; ".gif"; ".bmp"; ".webp"].

(** ['.' + file.name.split('.').pop()?.toLowerCase()] *)
Definition extensionOf (fileName : string) : string :=
  "." +:+ JsText.toLowerCase (JsText.last_segment fileName).

(** [Math.round(maxFileSize / (1024 * 1024))] for a whole number of
    bytes: halves are rounded up. *)
Definition megabytes (maxFileSize : Z) : Z := (2 * maxFileSize + 1048576) / 2097152.

(** [`File ${index + 1} (${file.name})`]: how every message starts. *)
Definition numbered (index : nat) (file : FileProcessor.File) : string :=
  "File " +:+ pretty (index + 1) +:+ " (" +:+ FileProcessor.name file +:+ ")".

(** The body of the loop of [validateFiles]: the messages for one file. *)
Definition validateFile (maxFileSize : Z) (allowedExtensions : list string)
    (index : nat) (file : FileProcessor.File) : list string :=
  (if Z.ltb maxFileSize (FileProcessor.size file)
   then [numbered index file +:+ " exceeds maximum size of "
         +:+ pretty (megabytes maxFileSize) +:+ "MB"]
   else [])
  ++ (if bool_decide (extensionOf (FileProcessor.name file) ∈ allowedExtensions) then []
      else [numbered index file +:+ " has unsupported extension: "
            +:+ extensionOf (FileProcessor.name file)])
  ++ (if Z.eqb (FileProcessor.size file) 0 then [numbered index file +:+ " is empty"] else []).

(** [files.forEach((file, index) => ...)], counting from [index]. *)
Fixpoint validate_from (maxFileSize : Z) (allowedExtensions : list string)
    (index : nat) (files : list FileProcessor.File) : list string :=
  match files with
  | [] => []
  | file :: rest =>
      validateFile maxFileSize allowedExtensions index file
      ++ validate_from maxFileSize allowedExtensions (S index) rest
  end.

(** [validateFiles(files)] of a hook made with these options. *)
Definition validateFiles (maxFileSize : Z) (allowedExtensions : list string)
    (files : list FileProcessor.File) : list string :=
  validate_from maxFileSize allowedExtensions 0 files.

End FileUploadHook.

(** ** The file upload route *)

Module UploadRoute.

Definition MAX_FILE_SIZE : Z := 10 * 1024 * 1024.

Definition ALLOWED_EXTENSIONS : list string :=
  [".txt"; ".md"; ".json"; ".csv"; ".html"; ".pdf"; ".doc"; ".docx"; ".rtf"; ".xml";
   ".jpg"; ".jpeg"; ".png"; ".gif"; ".bmp"; ".webp"].

Definition ALLOWED_MIME_TYPES : list string :=
  ["text/plain"; "text/markdown"; "application/json"; "text/csv"; "text/html";
   "application/pdf"; "application/msword";
   "application/vnd.openxmlformats-officedocument.wordprocessingml.document";
   "application/rtf"; "application/xml"; "text/xml";
   "image/jpeg"; "image/jpg"; "image/png"; "image/gif"; "image/bmp"; "image/webp"].

(** ['.' + file.name.split('.').pop()?.toLowerCase()] *)
Definition extensionOf (fileName : string) : string :=
  "." +:+ JsText.toLowerCase (JsText.last_segment fileName).

(** [`File ${index + 1} (${file.name})`]: how every message starts. *)
Definition numbered (index : nat) (file : FileProcessor.File) : string :=
  "File " +:+ pretty (index + 1) +:+ " (" +:+ FileProcessor.name file +:+ ")".

(** The body of the validation loop of [POST]: the messages for one
    file. *)
Definition validateFile (index : nat) (file : FileProcessor.File) : list string :=
  (if Z.ltb MAX_FILE_SIZE (FileProcessor.size file)
   then [numbered index file +:+ " exceeds maximum size of 10MB"]
   else [])
  ++ (if bool_decide (extensionOf (FileProcessor.name file) ∈ ALLOWED_EXTENSIONS) then []
      else [numbered index file +:+ " has unsupported extension: "
            +:+ extensionOf (FileProcessor.name file)])
  ++ (if negb (String.eqb (FileProcessor.type file) EmptyString)
         && negb (bool_decide (FileProcessor.type file ∈ ALLOWED_MIME_TYPES))
      then [numbered index file +:+ " has unsupported MIME type: " +:+ FileProcessor.type file]
      else []).

(** [files.forEach((file, index) => ...)], counting from [index]. *)
Fixpoint validate_from (index : nat) (files : list FileProcessor.File) : list string :=
  match files with
  | [] => []
  | file :: rest => validateFile index file ++ validate_from (S index) rest
  end.

Definition validationErrors (files : list FileProcessor.File) : list string :=
  validate_from 0 files.

(** [/[^a-zA-Z0-9.-]/] does not match the character. *)
Definition kept_char (c : ascii) : bool :=
  let n := nat_of_ascii c in
  (Nat.leb 97 n && Nat.leb n 122) || (Nat.leb 65 n && Nat.leb n 90)
  || (Nat.leb 48 n && Nat.leb n 57) || Ascii.eqb c "." || Ascii.eqb c "-".

(** [name.replace(/[^a-zA-Z0-9.-]/g, '_')] *)
Definition sanitize (name : string) : string :=
  JsString.map_chars (fun c => if kept_char c then c else "_"%char) name.

Definition mimeTypes : list (string * string) :=
  [(".txt", "text/plain"); (".md", "text/markdown"); (".json", "application/json");
   (".csv", "text/csv"); (".html", "text/html"); (".htm", "text/html");
   (".xml", "application/xml"); (".pdf", "application/pdf"); (".doc", "application/msword");
   (".docx", "application/vnd.openxmlformats-officedocument.wordprocessingml.document");
   (".rtf", "application/rtf"); (".jpg", "image/jpeg"); (".jpeg", "image/jpeg");
   (".png", "image/png"); (".gif", "image/gif"); (".bmp", "image/bmp");
   (".webp", "image/webp")].

(** [getMimeTypeFromExtension(extension)]: as in the file processing
    utility, a lowered key the table inherits gives no string. *)
Definition getMimeTypeFromExtension (extension : string) : FileProcessor.FileType :=
  let key := JsText.toLowerCase extension in
  match OrdMap.get key mimeTypes with
  | Some mime => FileProcessor.Mime mime
  | None =>
      if bool_decide (key ∈ FileProcessor.inherited_keys) then FileProcessor.Inherited key
      else FileProcessor.Mime "application/octet-stream"
  end.

(** [file.type || getMimeTypeFromExtension('.' + file.name.split('.').pop()?.toLowerCase())] *)
Definition mimeTypeOf (file : FileProcessor.File) : FileProcessor.FileType :=
  if String.eqb (FileProcessor.type file) EmptyString
  then getMimeTypeFromExtension (extensionOf (FileProcessor.name file))
  else FileProcessor.Mime (FileProcessor.type file).

(** An uploaded file as the route meets it: the [File]; what
    [Date.now()] and [Math.random().toString(36).substring(2)] give when
    its turn comes; what reading it into a buffer and writing that to
    the disk gives; and the text the PDF library finds in it (a
    rejection standing for anything thrown on the way). *)
Record Upload : Type := {
  file : FileProcessor.File;
  timestamp : Z;
  randomId : string;
  stored : FileProcessor.Read unit;
  pdfText : FileProcessor.Read string
}.

(** [`${timestamp}_${randomId}_${file.name.replace(/[^a-zA-Z0-9.-]/g, '_')}`] *)
Definition uniqueFileName (u : Upload) : string :=
  pretty (timestamp u) +:+ "_" +:+ randomId u +:+ "_" +:+ sanitize (FileProcessor.name (file u)).

(** [determineExtractionMethod(fileType, fileName)] *)
Definition determineExtractionMethod (fileType : FileProcessor.FileType) (fileName : string)
    : FileProcessor.Attempt string :=
  match fileType with
  | FileProcessor.Inherited _ => FileProcessor.Threw "fileType.startsWith is not a function"
  | FileProcessor.Mime fileType =>
      let lowered := JsText.toLowerCase fileName in
      if JsString.startsWith fileType "text/plain" then FileProcessor.Returned "plain"
      else if String.eqb fileType "text/markdown" || JsText.endsWith lowered ".md"
      then FileProcessor.Returned "markdown"
      else if String.eqb fileType "application/json" || JsText.endsWith lowered ".json"
      then FileProcessor.Returned "json"
      else if String.eqb fileType "text/csv" || JsText.endsWith lowered ".csv"
      then FileProcessor.Returned "csv"
      else if String.eqb fileType "text/html" || JsText.endsWith lowered ".html"
      then FileProcessor.Returned "html"
      else if String.eqb fileType "application/pdf" || JsText.endsWith lowered ".pdf"
      then FileProcessor.Returned "pdf"
      else if JsString.includes fileType "word" || JsString.includes fileType "document"
              || JsText.endsWith lowered ".docx" || JsText.endsWith lowered ".doc"
      then FileProcessor.Returned "docx"
      else if JsString.startsWith fileType "image/"
              || existsb (JsText.endsWith lowered) [".jpg"; ".jpeg"; ".png"; ".gif"; ".bmp"; ".webp"]
      then FileProcessor.Returned "ocr"
      else FileProcessor.Returned "plain"
  end.

(** [text.trim()] when it holds something, else the sentence. *)
Definition text_or (sentence : string) (text : string) : string :=
  if Nat.ltb 0 (String.length (JsString.trim text)) then JsString.trim text else sentence.

(** The text of [extractCSV]: the lines trimmed, the empty ones left
    out. *)
Definition csv_text (text : string) : string :=
  JsString.join Js.newline
    (List.filter (fun line => Nat.ltb 0 (String.length line))
       (map JsString.trim (JsString.split "010" text))).

(** [extractPlainText(file)] *)
Definition extractPlainText (f : FileProcessor.File) : FileProcessor.Read string :=
  match FileProcessor.text f with
  | FileProcessor.Fulfilled t => FileProcessor.Fulfilled (JsString.trim t)
  | FileProcessor.Rejected message => FileProcessor.Rejected message
  end.

(** [extractMarkdown(file)]: the replacements of the file processing
    utility. *)
Definition extractMarkdown (f : FileProcessor.File) : FileProcessor.Read string :=
  match FileProcessor.text f with
  | FileProcessor.Fulfilled t => FileProcessor.Fulfilled (FileProcessor.plain_of_markdown t)
  | FileProcessor.Rejected message => FileProcessor.Rejected message
  end.

(** [extractCSV(file)] *)
Definition extractCSV (f : FileProcessor.File) : FileProcessor.Read string :=
  match FileProcessor.text f with
  | FileProcessor.Fulfilled t => FileProcessor.Fulfilled (csv_text t)
  | FileProcessor.Rejected message => FileProcessor.Rejected message
  end.

(** [extractPDF(file)]: whatever is thrown inside is caught. *)
Definition extractPDF (u : Upload) : string :=
  match pdfText u with
  | FileProcessor.Fulfilled t =>
      text_or "No text found in PDF. This might be a scanned document." t
  | FileProcessor.Rejected message =>
      "PDF extraction failed: " +:+ error_message message
  end.

(** [extractWordDoc(file)] *)
Definition extractWordDoc (u : Upload) : string :=
  match mimeTypeOf (file u) with
  | FileProcessor.Inherited _ =>
      "Word document extraction failed: " +:+ "fileType.includes is not a function"
  | FileProcessor.Mime fileType =>
      if JsString.includes fileType "openxml"
         || JsText.endsWith (JsText.toLowerCase (FileProcessor.name (file u))) ".docx"
      then
        match FileProcessor.rawText (file u) with
        | FileProcessor.Fulfilled value => text_or "No text found in Word document." value
        | FileProcessor.Rejected message =>
            "Word document extraction failed: " +:+ error_message message
        end
      else "Legacy .doc files are not supported. Please save as .docx."
  end.

(** [extractWithOCR(file)] *)
Definition extractWithOCR (u : Upload) : string :=
  match mimeTypeOf (file u) with
  | FileProcessor.Inherited _ =>
      "OCR extraction failed: " +:+ "fileType.includes is not a function"
  | FileProcessor.Mime fileType =>
      if String.eqb fileType "application/pdf" then extractPDF u
      else if JsString.includes fileType "word" || JsString.includes fileType "document"
      then extractWordDoc u
      else if JsString.startsWith fileType "image/" then
        match FileProcessor.recognizedText (file u) with
        | FileProcessor.Fulfilled t => text_or "No text found in the image." t
        | FileProcessor.Rejected message => "OCR extraction failed: " +:+ error_message message
        end
      else
        match extractPlainText (file u) with
        | FileProcessor.Fulfilled t => t
        | FileProcessor.Rejected message => "OCR extraction failed: " +:+ error_message message
        end
  end.

(** [FileUploadResult] *)
Record FileUploadResult : Type := {
  success : bool;
  fileName : string;
  filePath : option string;
  fileSize : Z;
  mimeType : FileProcessor.FileType;
  error : option string;
  processedText : option string
}.

(** [r.processedText] where a string is wanted. *)
Definition textOf (r : FileUploadResult) : string :=
  match processedText r with Some t => t | None => EmptyString end.

(** [r.success && r.processedText] *)
Definition extracted (r : FileUploadResult) : bool :=
  success r && negb (String.eqb (textOf r) EmptyString).

(** How [JSON.stringify] meets a MIME type that is no string: a
    function is left out, the prototype object has no property of its
    own. *)
Definition mimeValue (t : FileProcessor.FileType) : JsValue :=
  match t with
  | FileProcessor.Mime mime => JStr mime
  | FileProcessor.Inherited key => if String.eqb key "constructor" then JUndefined else JObj []
  end.

(** The object the structured format serializes. *)
Definition structured (results successfulResults : list FileUploadResult) : JsValue :=
  JObj [("totalFiles", FileProcessor.number (length results));
        ("successfulExtractions", FileProcessor.number (length successfulResults));
        ("files", JArr (map (fun r => JObj [("fileName", JStr (fileName r));
                                            ("success", JBool (success r));
                                            ("fileSize", JNum (Fin (fileSize r)));
                                            ("mimeType", mimeValue (mimeType r));
                                            ("textLength",
                                             FileProcessor.number (String.length (textOf r)));
                                            ("error", optional_string (error r))])
                            results));
        ("extractedText", JArr (map (fun r => JObj [("fileName", JStr (fileName r));
                                                    ("text", JStr (textOf r))])
                                    successfulResults))].

(** [formatCombinedOutput(results, outputFormat)] *)
Definition formatCombinedOutput (results : list FileUploadResult) (outputFormat : string)
    : string :=
  let successfulResults := List.filter extracted results in
  match successfulResults with
  | [] => "No text could be extracted from the uploaded files."
  | _ =>
      if String.eqb outputFormat "structured" then
        Js.string_or_undefined (Js.stringify_pretty (structured results successfulResults))
      else if String.eqb outputFormat "summary" then
        let totalLength :=
          fold_left (fun sum r => sum + String.length (textOf r)) successfulResults 0 in
        let fileList := JsString.join ", " (map fileName successfulResults) in
        "Extracted text from " +:+ pretty (Z.of_nat (length successfulResults))
        +:+ " file(s): " +:+ fileList +:+ Js.newline
        +:+ "Total characters: " +:+ pretty (Z.of_nat totalLength)
        +:+ FileProcessor.blank_line
        +:+ "Combined text:" +:+ Js.newline
        +:+ JsString.join (FileProcessor.blank_line +:+ "---" +:+ FileProcessor.blank_line)
              (map textOf successfulResults)
      else JsString.join FileProcessor.blank_line (map textOf successfulResults)
  end.

(** The fields of the form: [formData.getAll('files')] and the two
    options, absent when the form does not hold them. *)
Record Form : Type := {
  files : list Upload;
  extractionMethod : option string;
  outputFormat : option string
}.

(** [formData.get(key) as string || fallback] *)
Definition option_or (o : option string) (fallback : string) : string :=
  match o with
  | Some s => if String.eqb s EmptyString then fallback else s
  | None => fallback
  end.

(** What the route answers: an error with its status, or the report of
    the upload. *)
Inductive Response : Type :=
| Failed (status : Z) (error : string) (details : option (list string))
| Uploaded (results : list FileUploadResult) (combinedText : string)
    (totalFiles successfulUploads : nat).

(** The extractors of JSON and HTML texts are left open: each is some
    function of the text of the file. *)
Section Extraction.

Variables json_text html_text : string -> string.

(** [extractJSON(file)] and [extractHTML(file)] *)
Definition extractJSON (f : FileProcessor.File) : FileProcessor.Read string :=
  match FileProcessor.text f with
  | FileProcessor.Fulfilled t => FileProcessor.Fulfilled (json_text t)
  | FileProcessor.Rejected message => FileProcessor.Rejected message
  end.

Definition extractHTML (f : FileProcessor.File) : FileProcessor.Read string :=
  match FileProcessor.text f with
  | FileProcessor.Fulfilled t => FileProcessor.Fulfilled (html_text t)
  | FileProcessor.Rejected message => FileProcessor.Rejected message
  end.

(** [extractTextFromFile(file, extractionMethod)] *)
Definition extractTextFromFile (u : Upload) (extractionMethod : string)
    : FileProcessor.Read string :=
  match (if String.eqb extractionMethod "auto"
         then determineExtractionMethod (mimeTypeOf (file u)) (FileProcessor.name (file u))
         else FileProcessor.Returned extractionMethod) with
  | FileProcessor.Threw message => FileProcessor.Rejected (Some message)
  | FileProcessor.Returned method =>
      if String.eqb method "plain" then extractPlainText (file u)
      else if String.eqb method "markdown" then extractMarkdown (file u)
      else if String.eqb method "json" then extractJSON (file u)
      else if String.eqb method "csv" then extractCSV (file u)
      else if String.eqb method "html" then extractHTML (file u)
      else if String.eqb method "pdf" then FileProcessor.Fulfilled (extractPDF u)
      else if String.eqb method "docx" then FileProcessor.Fulfilled (extractWordDoc u)
      else if String.eqb method "ocr" then FileProcessor.Fulfilled (extractWithOCR u)
      else extractPlainText (file u)
  end.

(** The body of the loop of [POST]: the result for one file. A failed
    extraction leaves the text empty; a file that could not be stored
    gives a failure. *)
Definition processUpload (extractionMethod : string) (u : Upload) : FileUploadResult :=
  match stored u with
  | FileProcessor.Fulfilled _ =>
      {| success := true;
         fileName := FileProcessor.name (file u);
         filePath := Some ("/uploads/" +:+ uniqueFileName u);
         fileSize := FileProcessor.size (file u);
         mimeType := mimeTypeOf (file u);
         error := None;
         processedText :=
           Some (match extractTextFromFile u extractionMethod with
                 | FileProcessor.Fulfilled t => t
                 | FileProcessor.Rejected _ => EmptyString
                 end) |}
  | FileProcessor.Rejected message =>
      {| success := false;
         fileName := FileProcessor.name (file u);
         filePath := None;
         fileSize := FileProcessor.size (file u);
         mimeType := FileProcessor.Mime (if String.eqb (FileProcessor.type (file u)) EmptyString
                                         then "unknown" else FileProcessor.type (file u));
         error := Some (match message with Some m => m | None => "Unknown error occurred" end);
         processedText := None |}
  end.

(** [POST(request)]: [form] is what [request.formData()] gives,
    [uploadDir] what finding or making the upload directory gives. *)
Definition POST (form : FileProcessor.Read Form) (uploadDir : FileProcessor.Read unit)
    : Response :=
  match form with
  | FileProcessor.Rejected _ => Failed 500 "Internal server error during file upload" None
  | FileProcessor.Fulfilled form =>
      match files form with
      | [] => Failed 400 "No files provided" None
      | _ :: _ =>
          match validationErrors (map file (files form)) with
          | (_ :: _) as errors => Failed 400 "File validation failed" (Some errors)
          | [] =>
              match uploadDir with
              | FileProcessor.Rejected _ =>
                  Failed 500 "Internal server error during file upload" None
              | FileProcessor.Fulfilled _ =>
                  let results :=
                    map (processUpload (option_or (extractionMethod form) "auto")) (files form) in
                  Uploaded results
                    (formatCombinedOutput results (option_or (outputFormat form) "text"))
                    (length (files form))
                    (length (List.filter success results))
              end
          end
      end
  end.

End Extraction.

End UploadRoute.

(** The route lets the file pass: its size, extension and declared
    type are allowed. *)
Definition acceptable (f : FileProcessor.File) : Prop :=
  (FileProcessor.size f <= UploadRoute.MAX_FILE_SIZE)%Z
  /\ UploadRoute.extensionOf (FileProcessor.name f) ∈ UploadRoute.ALLOWED_EXTENSIONS
  /\ (FileProcessor.type f = EmptyString
      \/ FileProcessor.type f ∈ UploadRoute.ALLOWED_MIME_TYPES).


(** An archive, which neither the hook nor the route takes. *)
Definition sample_archive : FileProcessor.File :=
  {| FileProcessor.name := "backup.tar.GZ"; FileProcessor.type := EmptyString;
     FileProcessor.size := 4096;
     FileProcessor.text := FileProcessor.Rejected None;
     FileProcessor.rawText := FileProcessor.Rejected None;
     FileProcessor.recognizedText := FileProcessor.Rejected None |}.

(** The extraction method the automatic mode of the route takes for
    each allowed extension, when the file declares no type. *)
Definition method_by_extension : list (string * string) :=
  [(".txt", "plain"); (".md", "markdown"); (".json", "json"); (".csv", "csv");
   (".html", "html"); (".pdf", "pdf"); (".doc", "docx"); (".docx", "docx");
   (".rtf", "plain"); (".xml", "plain"); (".jpg", "ocr"); (".jpeg", "ocr");
   (".png", "ocr"); (".gif", "ocr"); (".bmp", "ocr"); (".webp", "ocr")].

(** A legacy word processor document as the route meets it: stored, no
    library finds a text in it. *)
Definition sample_doc_upload : UploadRoute.Upload :=
  {| UploadRoute.file :=
       {| FileProcessor.name := "Letter to Ann.DOC"; FileProcessor.type := EmptyString;
          FileProcessor.size := 20480;
          FileProcessor.text := FileProcessor.Fulfilled "binary";
          FileProcessor.rawText := FileProcessor.Rejected None;
          FileProcessor.recognizedText := FileProcessor.Rejected None |};
     UploadRoute.timestamp := 1700000000000;
     UploadRoute.randomId := "k3x9q";
     UploadRoute.stored := FileProcessor.Fulfilled tt;
     UploadRoute.pdfText := FileProcessor.Rejected None |}.

(** A text file as the route meets it, which could not be written to
    the disk. *)
Definition sample_lost_upload : UploadRoute.Upload :=
  {| UploadRoute.file := sample_text_file;
     UploadRoute.timestamp := 1700000000001;
     UploadRoute.randomId := "a0b1c";
     UploadRoute.stored := FileProcessor.Rejected (Some "ENOSPC: no space left on device");
     UploadRoute.pdfText := FileProcessor.Rejected None |}.

(** The file could be stored. *)
Definition is_stored (u : UploadRoute.Upload) : bool :=
  match UploadRoute.stored u with
  | FileProcessor.Fulfilled _ => true
  | FileProcessor.Rejected _ => false
  end.

(** The character is a decimal digit. *)
Definition is_digit (c : ascii) : bool :=
  Nat.leb 48 (nat_of_ascii c) && Nat.leb (nat_of_ascii c) 57.

(** A CSV text with padded fields, an empty line and no final line
    end. *)
Definition sample_csv : string :=
  " name , age   " +:+ Js.newline +:+ "  " +:+ Js.newline +:+ " Ann , 41".


(** ** The store of the editor *)

Module NodesSlice.

(** [WorkflowNodeData]: the configuration is an object or missing, the
    result [undefined] when there is none. A result can be a built-in
    function: [updateAllNodeExecutionResults] reads it from an object,
    and finds what the object inherits. *)
Record WorkflowNodeData : Type := {
  label : string;
  config : option (list (string * JsValue));
  result : Js.Any
}.

(** [WorkflowNode] *)
Record WorkflowNode : Type := {
  id : string;
  type : string;
  position : JsValue;
  data : WorkflowNodeData
}.

(** [WorkflowEdge]; [edgeId] is its [id]. *)
Record WorkflowEdge : Type := {
  edgeId : string;
  source : string;
  target : string
}.

(** [NodesState] *)
Record NodesState : Type := {
  nodes : list WorkflowNode;
  edges : list WorkflowEdge;
  selectedNodeId : option string
}.

(** [initialState.nodes[0]] *)
Definition startNode : WorkflowNode :=
  {| id := "1"; type := "input";
     position := JObj [("x", JNum (Fin 100)); ("y", JNum (Fin 100))];
     data := {| label := "Start";
                config := Some [("name", JStr "Workflow Start");
                                ("description", JStr "Starting point of the workflow")];
                result := Js.Json JUndefined |} |}.

Definition initialState : NodesState :=
  {| nodes := [startNode]; edges := []; selectedNodeId := None |}.

(** [const i = nodes.findIndex(node => node.id === nodeId);
    if (i !== -1) nodes[i] = change(nodes[i])] *)
Fixpoint update_first (nodeId : string) (change : WorkflowNode -> WorkflowNode)
    (nodes : list WorkflowNode) : list WorkflowNode :=
  match nodes with
  | [] => []
  | node :: rest =>
      if String.eqb (id node) nodeId then change node :: rest
      else node :: update_first nodeId change rest
  end.

(** [{ ...node.data, config }], [{ ...node.data, result }] and
    [node.position = position] *)
Definition with_config (config : option (list (string * JsValue))) (node : WorkflowNode)
    : WorkflowNode :=
  {| id := id node; type := type node; position := position node;
     data := {| label := label (data node); config := config; result := result (data node) |} |}.

Definition with_result (result : Js.Any) (node : WorkflowNode) : WorkflowNode :=
  {| id := id node; type := type node; position := position node;
     data := {| label := label (data node); config := config (data node); result := result |} |}.

Definition with_position (position : JsValue) (node : WorkflowNode) : WorkflowNode :=
  {| id := id node; type := type node; position := position; data := data node |}.

(** The function [clearStaleData] maps over the nodes: an output node
    with a configuration loses the [result] of the configuration and its
    own. *)
Definition clearStale (node : WorkflowNode) : WorkflowNode :=
  match config (data node) with
  | Some props =>
      if String.eqb (type node) "output" then
        {| id := id node; type := type node; position := position node;
           data := {| label := label (data node);
                      config := Some (List.filter
                                        (fun kv => negb (String.eqb (fst kv) "result")) props);
                      result := Js.Json JUndefined |} |}
      else node
  | None => node
  end.

(** [results[key]] on the payload of [updateAllNodeExecutionResults],
    an object: an own property, else what every object inherits, else
    [undefined]. *)
Definition lookup (results : list (string * JsValue)) (key : string) : Js.Any :=
  match Js.assoc key results with
  | Some value => Js.Json value
  | None =>
      match Js.inherited key with
      | Some found => found
      | None => Js.Json JUndefined
      end
  end.

(** The function [updateAllNodeExecutionResults] maps over the nodes. *)
Definition with_result_of (results : list (string * JsValue)) (node : WorkflowNode)
    : WorkflowNode :=
  if Js.any_truthy (lookup results (id node)) then with_result (lookup results (id node)) node
  else node.

(** The actions of the slice with their payloads. *)
Inductive Action : Type :=
| setNodes (payload : list WorkflowNode)
| addNode (payload : WorkflowNode)
| updateNode (nodeId : string) (config : list (string * JsValue))
| removeNode (payload : string)
| setEdges (payload : list WorkflowEdge)
| addEdge (payload : WorkflowEdge)
| removeEdge (payload : string)
| setSelectedNodeId (payload : option string)
| updateNodePosition (nodeId : string) (position : JsValue)
| clearWorkflow
| clearStaleData
| updateNodeExecutionResult (nodeId : string) (result : JsValue)
| updateAllNodeExecutionResults (results : list (string * JsValue)).

(** The reducer of the slice: the state after the action. *)
Definition reducer (state : NodesState) (action : Action) : NodesState :=
  match action with
  | setNodes payload =>
      {| nodes := payload; edges := edges state; selectedNodeId := selectedNodeId state |}
  | addNode payload =>
      {| nodes := nodes state ++ [payload]; edges := edges state;
         selectedNodeId := selectedNodeId state |}
  | updateNode nodeId config =>
      {| nodes := update_first nodeId (with_config (Some config)) (nodes state);
         edges := edges state; selectedNodeId := selectedNodeId state |}
  | removeNode payload =>
      {| nodes := List.filter (fun node => negb (String.eqb (id node) payload)) (nodes state);
         edges := List.filter (fun edge => negb (String.eqb (source edge) payload)
                                           && negb (String.eqb (target edge) payload))
                    (edges state);
         selectedNodeId := selectedNodeId state |}
  | setEdges payload =>
      {| nodes := nodes state; edges := payload; selectedNodeId := selectedNodeId state |}
  | addEdge payload =>
      {| nodes := nodes state; edges := edges state ++ [payload];
         selectedNodeId := selectedNodeId state |}
  | removeEdge payload =>
      {| nodes := nodes state;
         edges := List.filter (fun edge => negb (String.eqb (edgeId edge) payload)) (edges state);
         selectedNodeId := selectedNodeId state |}
  | setSelectedNodeId payload =>
      {| nodes := nodes state; edges := edges state; selectedNodeId := payload |}
  | updateNodePosition nodeId position =>
      {| nodes := update_first nodeId (with_position position) (nodes state);
         edges := edges state; selectedNodeId := selectedNodeId state |}
  | clearWorkflow => {| nodes := [startNode]; edges := []; selectedNodeId := None |}
  | clearStaleData =>
      {| nodes := map clearStale (nodes state); edges := edges state;
         selectedNodeId := selectedNodeId state |}
  | updateNodeExecutionResult nodeId result =>
      {| nodes := update_first nodeId (with_result (Js.Json result)) (nodes state);
         edges := edges state; selectedNodeId := selectedNodeId state |}
  | updateAllNodeExecutionResults results =>
      {| nodes := map (with_result_of results) (nodes state);
         edges := edges state; selectedNodeId := selectedNodeId state |}
  end.

End NodesSlice.

(** Every edge of the state joins two of its nodes. *)
Definition edges_closed (state : NodesSlice.NodesState) : Prop :=
  forall edge, edge ∈ NodesSlice.edges state ->
    NodesSlice.source edge ∈ map NodesSlice.id (NodesSlice.nodes state)
    /\ NodesSlice.target edge ∈ map NodesSlice.id (NodesSlice.nodes state).

(** An editor state with a dangling selection in reach: three nodes in
    a row, the middle one selected. *)
Definition sample_state : NodesSlice.NodesState :=
  {| NodesSlice.nodes :=
       [NodesSlice.startNode;
        {| NodesSlice.id := "2"; NodesSlice.type := "prompt"; NodesSlice.position := JNull;
           NodesSlice.data := {| NodesSlice.label := "Ask"; NodesSlice.config := None;
                                 NodesSlice.result := Js.Json JUndefined |} |};
        {| NodesSlice.id := "3"; NodesSlice.type := "output"; NodesSlice.position := JNull;
           NodesSlice.data := {| NodesSlice.label := "Show";
                                 NodesSlice.config := Some [("format", JStr "text");
                                                            ("result", JStr "stale")];
                                 NodesSlice.result := Js.Json (JStr "stale") |} |}];
     NodesSlice.edges :=
       [{| NodesSlice.edgeId := "e1"; NodesSlice.source := "1"; NodesSlice.target := "2" |};
        {| NodesSlice.edgeId := "e2"; NodesSlice.source := "2"; NodesSlice.target := "3" |}];
     NodesSlice.selectedNodeId := Some "2" |}.


(** ** The workflow context utility *)

Module ContextExecutor.

(** [WorkflowContext] *)
Record WorkflowContext : Type := {
  variables : list (string * JsValue);
  nodeOutputs : list (string * JsValue);
  globalData : list (string * JsValue)
}.

(** The context of [new WorkflowExecutor()]. *)
Definition initial : WorkflowContext :=
  {| variables := []; nodeOutputs := []; globalData := [] |}.

(** The names every object inherits: for them [name in object] holds
    although the object has no such property of its own. *)
Definition prototype_names : list string :=
  ["constructor"; "hasOwnProperty"; "isPrototypeOf"; "propertyIsEnumerable";
   "toLocaleString"; "toString"; "valueOf"; "__proto__";
   "__defineGetter__"; "__defineSetter__"; "__lookupGetter__"; "__lookupSetter__"].

(** [object[key] = value] on a plain object: an assignment under
    "__proto__" gives the object no property. *)
Definition assign (key : string) (value : JsValue) (props : list (string * JsValue))
    : list (string * JsValue) :=
  if String.eqb key "__proto__" then props else Js.set key value props.

(** [setNodeOutput(nodeId, output)] *)
Definition setNodeOutput (nodeId : string) (output : JsValue) (ctx : WorkflowContext)
    : WorkflowContext :=
  {| variables := assign (nodeId +:+ ".output") output (variables ctx);
     nodeOutputs := assign nodeId output (nodeOutputs ctx);
     globalData := globalData ctx |}.

(** [evaluateCondition(value, compareValue, operator)] *)
Definition evaluateCondition (value compareValue operator : JsValue) : bool :=
  match operator with
  | JStr op =>
      if String.eqb op "equals" then Js.strict_equals value compareValue
      else if String.eqb op "notEquals" then negb (Js.strict_equals value compareValue)
      else if String.eqb op "greaterThan" then Js.lt (Js.toNumber compareValue) (Js.toNumber value)
      else if String.eqb op "lessThan" then Js.lt (Js.toNumber value) (Js.toNumber compareValue)
      else if String.eqb op "greaterThanOrEqual"
      then Js.le (Js.toNumber compareValue) (Js.toNumber value)
      else if String.eqb op "lessThanOrEqual"
      then Js.le (Js.toNumber value) (Js.toNumber compareValue)
      else if String.eqb op "contains"
      then JsString.includes (Js.toString value) (Js.toString compareValue)
      else false
  | _ => false
  end.

(** Two parts of the walk of [getVariable] are left open, as texts
    (nothing for [undefined]): what it finds when the first part of the
    path is a name the variables inherit, and what it finds inside a
    variable when the path goes on after the first part. *)
Section Walk.

Variable inherited : string -> list string -> option string.
Variable inside : JsValue -> list string -> option string.

(** [getVariable(path)], as the text it stands for in a template. *)
Definition getVariable (ctx : WorkflowContext) (path : string) : option string :=
  match JsString.split "." path with
  | first :: rest =>
      match Js.assoc first (variables ctx) with
      | Some value =>
          match rest with
          | [] => match value with
                  | JUndefined => None
                  | _ => Some (Js.toString value)
                  end
          | _ :: _ => inside value rest
          end
      | None =>
          if bool_decide (first ∈ prototype_names) then inherited first rest else None
      end
  | [] => None
  end.

(** [processTemplate(template)] *)
Definition processTemplate (ctx : WorkflowContext) (template : JsValue) : JsValue :=
  match template with
  | JStr t =>
      JStr (Template.replace
              (fun matched variablePath =>
                 match getVariable ctx (JsString.trim variablePath) with
                 | Some value => value
                 | None => matched
                 end) t)
  | _ => template
  end.

(** [getNodeInput(nodeId, template)] *)
Definition getNodeInput (ctx : WorkflowContext) (nodeId : string) (template : JsValue) : JsValue :=
  processTemplate ctx template.

(** The body of the loop of [executeWorkflow] for a node with a
    configuration: the output the node sets, none for a type the switch
    does not know. *)
Definition outputOf (ctx : WorkflowContext) (nodeId type : string)
    (config : list (string * JsValue)) : option JsValue :=
  let field k := Js.get k (JObj config) in
  if String.eqb type "input" then
    Some (Js.or (field "initialValue") (JStr "Initial data"))
  else if String.eqb type "prompt" then
    Some (JStr ("AI processed: " +:+ Js.toString (getNodeInput ctx nodeId (field "prompt"))))
  else if String.eqb type "api" then
    Some (JStr ("API result from " +:+ Js.toString (getNodeInput ctx nodeId (field "url"))))
  else if String.eqb type "logic" then
    Some (JBool (evaluateCondition (getNodeInput ctx nodeId (field "condition"))
                   (field "compareValue")
                   (Js.or (field "operator") (JStr "equals"))))
  else if String.eqb type "fileToText" then
    let extractedText :=
      JStr ("Extracted text from files using "
            +:+ Js.toString (Js.or (field "extractionMethod") (JStr "auto")) +:+ " method") in
    Some (JObj [("extractedText", extractedText); ("output", extractedText);
                ("data", extractedText)])
  else if String.eqb type "dataEntry" then
    let uploadedFiles := Js.or (field "uploadedFiles") (JArr []) in
    Some (JObj [("files", uploadedFiles); ("data", uploadedFiles);
                ("fileCount", Engine.length_of uploadedFiles)])
  else None.

(** The types the switch of [executeWorkflow] knows. *)
Definition known_types : list string :=
  ["input"; "prompt"; "api"; "logic"; "fileToText"; "dataEntry"].

(** The field of the configuration the case of a known type reads
    first. *)
Definition first_field (type : string) : string :=
  if String.eqb type "input" then "initialValue"
  else if String.eqb type "prompt" then "prompt"
  else if String.eqb type "api" then "url"
  else if String.eqb type "logic" then "condition"
  else if String.eqb type "fileToText" then "extractionMethod"
  else "uploadedFiles".

(** One turn of the loop: a node of a known type without configuration
    makes the reading of its configuration throw a TypeError (the text
    is the one of the V8 engine). *)
Definition step (ctx : WorkflowContext) (node : NodesSlice.WorkflowNode)
    : FileProcessor.Attempt WorkflowContext :=
  if bool_decide (NodesSlice.type node ∈ known_types) then
    match NodesSlice.config (NodesSlice.data node) with
    | Some config =>
        match outputOf ctx (NodesSlice.id node) (NodesSlice.type node) config with
        | Some output => FileProcessor.Returned (setNodeOutput (NodesSlice.id node) output ctx)
        | None => FileProcessor.Returned ctx
        end
    | None =>
        FileProcessor.Threw ("Cannot read properties of undefined (reading '"
                             +:+ first_field (NodesSlice.type node) +:+ "')")
    end
  else FileProcessor.Returned ctx.

(** [nodes.forEach(node => ...)] from a context on. *)
Fixpoint run (ctx : WorkflowContext) (nodes : list NodesSlice.WorkflowNode)
    : FileProcessor.Attempt WorkflowContext :=
  match nodes with
  | [] => FileProcessor.Returned ctx
  | node :: rest =>
      match step ctx node with
      | FileProcessor.Returned ctx' => run ctx' rest
      | FileProcessor.Threw message => FileProcessor.Threw message
      end
  end.

(** [executeWorkflow(nodes, edges)]: the edges are not looked at. *)
Definition executeWorkflow (nodes : list NodesSlice.WorkflowNode)
    (edges : list NodesSlice.WorkflowEdge) : FileProcessor.Attempt WorkflowContext :=
  run initial nodes.

End Walk.

End ContextExecutor.

(** No placeholder of the template begins with a name that objects
    inherit. *)
Definition free_of_inherited_names (template : JsValue) : Prop :=
  match template with
  | JStr t =>
      forall matched path, (matched, path) ∈ Template.placeholders t ->
        forall first rest, JsString.split "." (JsString.trim path) = first :: rest ->
          first ∉ ContextExecutor.prototype_names
  | _ => True
  end.

(** The templates of a node configuration: its prompt, its URL and its
    condition. *)
Definition plain_templates (config : list (string * JsValue)) : Prop :=
  free_of_inherited_names (Js.get "prompt" (JObj config))
  /\ free_of_inherited_names (Js.get "url" (JObj config))
  /\ free_of_inherited_names (Js.get "condition" (JObj config)).

(** No variable of the context has a name without dot. *)
Definition dotted (ctx : ContextExecutor.WorkflowContext) : Prop :=
  forall name, JsString.includes name "." = false ->
    Js.assoc name (ContextExecutor.variables ctx) = None.

(** A prompt node that refers to the output of node 1, and the context
    after node 1 put out a greeting. *)
Definition sample_prompt_config : list (string * JsValue) :=
  [("name", JStr "Summary"); ("prompt", JStr "Summarise {{1.output}} please")].

Definition sample_context : ContextExecutor.WorkflowContext :=
  ContextExecutor.setNodeOutput "1" (JStr "hello") ContextExecutor.initial.

(** * Properties *)

(** ** Strings *)

Lemma app_cons_s (c : ascii) (s t : string) : String c s +:+ t = String c (s +:+ t).
Proof. reflexivity. Qed.

Lemma app_nil_l_s (t : string) : EmptyString +:+ t = t.
Proof. reflexivity. Qed.

(** [startsWith]: the first string is an initial part of the second. *)
Lemma prefix_spec (p s : string) :
  String.prefix p s = true <-> exists post, s = p +:+ post.
Proof.
  revert s. induction p as [|a p IH]; intros s.
  - split; [intros _; by exists s|]. intros _. by destruct s.
  - destruct s as [|b s].
    + split; [discriminate|]. intros [post H]. rewrite app_cons_s in H. discriminate.
    + change (String.prefix (String a p) (String b s))
        with (if ascii_dec a b then String.prefix p s else false).
      destruct (ascii_dec a b) as [->|Hne].
      * rewrite IH. split; intros [post H]; exists post.
        -- by rewrite app_cons_s, H.
        -- rewrite app_cons_s in H. by injection H.
      * split; [discriminate|]. intros [post H]. rewrite app_cons_s in H.
        injection H as <- _. done.
Qed.

(** [includes] is the substring test. *)
Lemma includes_spec (s sub : string) :
  JsString.includes s sub = true <-> exists pre post, s = pre +:+ sub +:+ post.
Proof.
  induction s as [|c s IH].
  - change (JsString.includes EmptyString sub) with (String.prefix sub EmptyString || false).
    rewrite orb_false_r, prefix_spec. split.
    + intros [post H]. by exists EmptyString, post.
    + intros (pre & post & H). destruct pre; [by exists post|].
      rewrite app_cons_s in H. discriminate.
  - change (JsString.includes (String c s) sub)
      with (String.prefix sub (String c s) || JsString.includes s sub).
    rewrite orb_true_iff, prefix_spec, IH. split.
    + intros [[post H]|(pre & post & H)].
      * by exists EmptyString, post.
      * exists (String c pre), post. by rewrite app_cons_s, H.
    + intros (pre & post & H). destruct pre as [|d pre].
      * left. by exists post.
      * right. rewrite app_cons_s in H. injection H as _ H. by exists pre, post.
Qed.


(** ** Computations that may throw *)

Lemma bind_Done {A B : Type} (r : Run A) (k : A -> Run B) (b : B) :
  r ≫= k = Done b -> exists a, r = Done a /\ k a = Done b.
Proof. destruct r as [a| |]; cbn; [eauto | discriminate | discriminate]. Qed.

Lemma returns_Done {A : Type} (a : A) : returns_or_throws (Done a).
Proof. discriminate. Qed.

Lemma returns_Thrown {A : Type} (message : string) : returns_or_throws (Thrown message : Run A).
Proof. discriminate. Qed.

Lemma returns_bind {A B : Type} (r : Run A) (k : A -> Run B) :
  returns_or_throws r -> (forall a, returns_or_throws (k a)) -> returns_or_throws (r ≫= k).
Proof. intros Hr Hk. destruct r as [a| |]; cbn; [apply Hk | discriminate | done]. Qed.

Lemma returns_cases {A : Type} (r : Run A) :
  returns_or_throws r -> (exists a, r = Done a) \/ (exists message, r = Thrown message).
Proof. intros H. destruct r; [eauto | eauto | done]. Qed.

Lemma string_of_returns (v : JsValue) : returns_or_throws (Js.string_of v).
Proof. unfold Js.string_of. by destruct (Js.convertible v). Qed.

Lemma number_of_returns (v : JsValue) : returns_or_throws (Js.number_of v).
Proof. unfold Js.number_of. by destruct (Js.convertible v). Qed.

Lemma read_returns (k : string) (v : JsValue) : returns_or_throws (Js.read k v).
Proof. by destruct v. Qed.

Lemma read_done (k : string) (v : JsValue) :
  Js.is_nullish v = false -> Js.read k v = Done (Js.get k v).
Proof. by destruct v. Qed.

(** Reading the configuration of a node: it returns exactly when the
    node holds a configuration. *)
Lemma config_field_cases (k : string) (node : WorkflowExecutor.WorkflowNode) :
  (Js.is_nullish (WorkflowExecutor.config node) = false
   /\ WorkflowExecutor.config_field k node = Done (Js.get k (WorkflowExecutor.config node)))
  \/ (Js.is_nullish (WorkflowExecutor.config node) = true
      /\ exists message, WorkflowExecutor.config_field k node = Thrown message).
Proof.
  unfold WorkflowExecutor.config_field, WorkflowExecutor.config.
  destruct (WorkflowExecutor.data node) as [| | | | | |props] eqn:Hdata; cbn [Js.read mbind run_bind];
    try (right; split; [reflexivity | by eauto]);
    try (right; split; [reflexivity | cbn; by eauto]).
  destruct (Js.get "config" (JObj props)); cbn; eauto.
Qed.

Lemma config_field_done (k : string) (node : WorkflowExecutor.WorkflowNode) :
  Js.is_nullish (WorkflowExecutor.config node) = false ->
  WorkflowExecutor.config_field k node = Done (Js.get k (WorkflowExecutor.config node)).
Proof.
  intros H. destruct (config_field_cases k node) as [[_ E]|[E _]]; [done | congruence].
Qed.

Lemma config_field_returns (k : string) (node : WorkflowExecutor.WorkflowNode) :
  returns_or_throws (WorkflowExecutor.config_field k node).
Proof.
  destruct (config_field_cases k node) as [[_ ->]|[_ [message ->]]]; discriminate.
Qed.

Lemma any_string_of_returns (a : Js.Any) : returns_or_throws (Js.any_string_of a).
Proof. destruct a; cbn; [apply string_of_returns | done | done | done]. Qed.

Lemma render_all_returns (f : string -> string -> Run string) (segments : list Template.segment) :
  (forall m p, returns_or_throws (f m p)) -> returns_or_throws (Template.render_all f segments).
Proof.
  intros Hf. induction segments as [|[c|m p] rest IH]; cbn [Template.render_all]; [done| |].
  - apply returns_bind; [done|]. by intros.
  - apply returns_bind; [apply Hf|]. intros. apply returns_bind; [done|]. by intros.
Qed.

Lemma replace_run_returns (f : string -> string -> Run string) (template : string) :
  (forall m p, returns_or_throws (f m p)) -> returns_or_throws (Template.replace_run f template).
Proof. apply render_all_returns. Qed.

Lemma bind_Thrown {A B : Type} (r : Run A) (k : A -> Run B) (message : string) :
  r ≫= k = Thrown message ->
  r = Thrown message \/ exists a, r = Done a /\ k a = Thrown message.
Proof.
  destruct r as [a| |]; cbn; [intros H; right; eauto | intros [= ->]; by left | discriminate].
Qed.

Lemma type_error_Done {A : Type} (a : A) : throws_type_error_only (Done a).
Proof. intros message. discriminate. Qed.

Lemma type_error_Thrown {A : Type} : throws_type_error_only (Thrown Js.not_primitive : Run A).
Proof. by intros message [= <-]. Qed.

Lemma type_error_bind {A B : Type} (r : Run A) (k : A -> Run B) :
  throws_type_error_only r -> (forall a, throws_type_error_only (k a)) ->
  throws_type_error_only (r ≫= k).
Proof.
  intros Hr Hk message [H|(a & _ & H)]%bind_Thrown; [by apply Hr | by apply (Hk a)].
Qed.

Lemma string_of_type_error (v : JsValue) : throws_type_error_only (Js.string_of v).
Proof.
  unfold Js.string_of. destruct (Js.convertible v); [apply type_error_Done | apply type_error_Thrown].
Qed.

Lemma number_of_type_error (v : JsValue) : throws_type_error_only (Js.number_of v).
Proof.
  unfold Js.number_of. destruct (Js.convertible v); [apply type_error_Done | apply type_error_Thrown].
Qed.

Lemma any_string_of_type_error (a : Js.Any) : throws_type_error_only (Js.any_string_of a).
Proof. destruct a; cbn; [apply string_of_type_error | | |]; apply type_error_Done. Qed.

Lemma render_all_type_error (f : string -> string -> Run string)
    (segments : list Template.segment) :
  (forall m p, throws_type_error_only (f m p)) ->
  throws_type_error_only (Template.render_all f segments).
Proof.
  intros Hf. induction segments as [|[c|m p] rest IH]; cbn [Template.render_all].
  - apply type_error_Done.
  - apply type_error_bind; [done|]. intros. apply type_error_Done.
  - apply type_error_bind; [apply Hf|]. intros. apply type_error_bind; [done|].
    intros. apply type_error_Done.
Qed.

Lemma replace_run_type_error (f : string -> string -> Run string) (template : string) :
  (forall m p, throws_type_error_only (f m p)) ->
  throws_type_error_only (Template.replace_run f template).
Proof. apply render_all_type_error. Qed.

Create HintDb conversions.
#[global] Hint Resolve type_error_Done type_error_Thrown string_of_type_error
  number_of_type_error any_string_of_type_error : conversions.

Create HintDb returns.
#[global] Hint Resolve read_returns config_field_returns : returns.

#[global] Hint Resolve returns_Done returns_Thrown string_of_returns number_of_returns
  any_string_of_returns : returns.

(** ** The condition evaluator *)





Lemma evaluateCondition_same (value compareValue operator inputData : JsValue) :
  WorkflowExecutor.evaluateCondition value compareValue operator
  = Engine.evaluateCondition value compareValue operator inputData.
Proof. reflexivity. Qed.




Lemma string_of_cases (v : JsValue) :
  (Js.convertible v = true /\ Js.string_of v = Done (Js.toString v))
  \/ (Js.convertible v = false /\ Js.string_of v = Thrown Js.not_primitive).
Proof. unfold Js.string_of. destruct (Js.convertible v); auto. Qed.

Lemma string_of_Done (v : JsValue) (text : string) :
  Js.string_of v = Done text -> Js.convertible v = true /\ text = Js.toString v.
Proof. unfold Js.string_of. destruct (Js.convertible v); [|discriminate]. by intros [= <-]. Qed.




(** The evaluator returns, or throws the TypeError of a conversion. *)
Lemma evaluateCondition_cases (value compareValue operator inputData : JsValue) :
  (exists b, Engine.evaluateCondition value compareValue operator inputData = Done b)
  \/ Engine.evaluateCondition value compareValue operator inputData = Thrown Js.not_primitive.
Proof.
  unfold Engine.evaluateCondition, Js.number_of, Js.string_of.
  destruct operator as [| | | |op| |]; eauto.
  repeat match goal with
  | |- context [String.eqb op ?k] => destruct (String.eqb op k)
  end; eauto;
  destruct (Js.convertible value), (Js.convertible compareValue); cbn; eauto.
Qed.

Lemma evaluateCondition_type_error (value compareValue operator inputData : JsValue) :
  throws_type_error_only (Engine.evaluateCondition value compareValue operator inputData).
Proof.
  intros message H.
  destruct (evaluateCondition_cases value compareValue operator inputData) as [[b E]|E];
    rewrite E in H; [discriminate | by injection H].
Qed.

#[global] Hint Resolve evaluateCondition_type_error : conversions.




(** ** The placeholder scanner *)

Ltac str_norm :=
  repeat (rewrite ?app_cons_s, ?app_nil_l_s in * ).

Lemma app_nil_r_s (s : string) : s +:+ EmptyString = s.
Proof. induction s as [|c s IH]; [reflexivity | by rewrite app_cons_s, IH]. Qed.

Lemma app_assoc_s (s1 s2 s3 : string) : (s1 +:+ s2) +:+ s3 = s1 +:+ (s2 +:+ s3).
Proof. induction s1 as [|c s1 IH]; [reflexivity | by rewrite !app_cons_s, IH]. Qed.

Lemma length_app_s (s1 s2 : string) :
  String.length (s1 +:+ s2) = String.length s1 + String.length s2.
Proof. induction s1 as [|c s1 IH]; [reflexivity | rewrite app_cons_s; cbn; by rewrite IH]. Qed.

Lemma span_not_rbrace_spec (s run rest : string) :
  Template.span_not_rbrace s = (run, rest) ->
  s = run +:+ rest /\ Template.no_rbrace run = true.
Proof.
  revert run rest. induction s as [|c s IH]; cbn; intros run rest H.
  - by inversion H.
  - destruct (Ascii.eqb c "}") eqn:Hc.
    + by inversion H.
    + destruct (Template.span_not_rbrace s) as [run' rest'] eqn:Hs.
      inversion H; subst. destruct (IH _ _ eq_refl) as [-> Hn].
      rewrite app_cons_s. cbn. by rewrite Hc.
Qed.

Lemma span_not_rbrace_app (p rest : string) :
  Template.no_rbrace p = true ->
  Template.span_not_rbrace (p +:+ String "}" rest) = (p, String "}" rest).
Proof.
  induction p as [|c p IH]; intros H; [reflexivity|].
  cbn in H. apply andb_true_iff in H as [Hc Hp]. apply negb_true_iff in Hc.
  rewrite app_cons_s. cbn. by rewrite Hc, IH.
Qed.

Lemma match_here_Some (s m p : string) :
  Template.match_here s = Some (m, p) ->
  p <> EmptyString /\ Template.no_rbrace p = true /\ m = "{{" +:+ p +:+ "}}"
  /\ exists rest, s = m +:+ rest.
Proof.
  unfold Template.match_here. intros H.
  destruct s as [|c1 [|c2 s1]]; try discriminate.
  - destruct c1 as [[] [] [] [] [] [] [] []]; discriminate.
  - destruct (Ascii.eqb_spec c1 "{") as [->|Hne]; cycle 1.
    { destruct c1 as [[] [] [] [] [] [] [] []]; try discriminate. by destruct Hne. }
    destruct (Ascii.eqb_spec c2 "{") as [->|Hne]; cycle 1.
    { destruct c2 as [[] [] [] [] [] [] [] []]; try discriminate. by destruct Hne. }
    destruct (Template.span_not_rbrace s1) as [run rest] eqn:Hs.
    apply span_not_rbrace_spec in Hs as [-> Hn].
    destruct run as [|r run]; [discriminate|].
    destruct rest as [|d1 [|d2 rest]]; try discriminate.
    + destruct d1 as [[] [] [] [] [] [] [] []]; discriminate.
    + destruct (Ascii.eqb_spec d1 "}") as [->|Hne]; cycle 1.
      { destruct d1 as [[] [] [] [] [] [] [] []]; try discriminate. by destruct Hne. }
      destruct (Ascii.eqb_spec d2 "}") as [->|Hne]; cycle 1.
      { destruct d2 as [[] [] [] [] [] [] [] []]; try discriminate. by destruct Hne. }
      inversion H; subst. repeat split; [discriminate | done |].
      exists rest. str_norm. rewrite app_assoc_s. by str_norm.
Qed.

Lemma match_here_token (p rest : string) :
  p <> EmptyString -> Template.no_rbrace p = true ->
  Template.match_here (("{{" +:+ p +:+ "}}") +:+ rest) = Some ("{{" +:+ p +:+ "}}", p).
Proof.
  intros Hp Hn. str_norm. rewrite app_assoc_s. str_norm.
  cbn. rewrite span_not_rbrace_app by done.
  destruct p; [done | reflexivity].
Qed.

Lemma scan_skip (m rest : string) :
  Template.scan (String.length m) (m +:+ rest) = Template.scan 0 rest.
Proof. induction m as [|c m IH]; [reflexivity | by rewrite app_cons_s]. Qed.

Lemma scan_hole (m p rest : string) :
  Template.match_here (m +:+ rest) = Some (m, p) ->
  Template.scan 0 (m +:+ rest) = Template.Hole m p :: Template.scan 0 rest.
Proof.
  intros H. destruct m as [|c m].
  - apply match_here_Some in H as (_ & _ & Hm & _). by str_norm.
  - rewrite app_cons_s in *. cbn [Template.scan]. rewrite H.
    replace (String.length (String c m) - 1) with (String.length m) by (cbn; lia).
    by rewrite scan_skip.
Qed.

Lemma scan_lit (c : ascii) (s : string) :
  Template.match_here (String c s) = None ->
  Template.scan 0 (String c s) = Template.Lit c :: Template.scan 0 s.
Proof. intros H. cbn [Template.scan]. by rewrite H. Qed.

(** Induction along the scanner: a character outside every match, or a
    whole match, is consumed at each step. *)
Lemma scan_ind (P : string -> Prop) :
  P EmptyString ->
  (forall c s, Template.match_here (String c s) = None -> P s -> P (String c s)) ->
  (forall m p rest, Template.match_here (m +:+ rest) = Some (m, p) -> P rest -> P (m +:+ rest)) ->
  forall s, P s.
Proof.
  intros Hnil Hlit Hhole s.
  remember (String.length s) as n eqn:Hn.
  revert s Hn. induction n as [n IH] using lt_wf_ind. intros s Hn.
  destruct s as [|c s]; [exact Hnil|].
  destruct (Template.match_here (String c s)) as [[m p]|] eqn:Hm.
  - destruct (match_here_Some _ _ _ Hm) as (Hp & _ & Hmm & rest & Hs).
    rewrite Hs in *. apply (Hhole m p rest Hm).
    apply (IH (String.length rest)); [|reflexivity].
    subst n. rewrite length_app_s. subst m. rewrite !length_app_s. cbn. lia.
  - apply Hlit; [exact Hm|]. apply (IH (String.length s)); [|reflexivity].
    subst n. cbn. lia.
Qed.

Lemma replace_hole (f : string -> string -> string) (m p rest : string) :
  Template.match_here (m +:+ rest) = Some (m, p) ->
  Template.replace f (m +:+ rest) = f m p +:+ Template.replace f rest.
Proof. intros H. unfold Template.replace. by rewrite (scan_hole _ _ _ H). Qed.

Lemma replace_lit (f : string -> string -> string) (c : ascii) (s : string) :
  Template.match_here (String c s) = None ->
  Template.replace f (String c s) = String c (Template.replace f s).
Proof. intros H. unfold Template.replace. by rewrite (scan_lit _ _ H). Qed.

Lemma placeholders_hole (m p rest : string) :
  Template.match_here (m +:+ rest) = Some (m, p) ->
  Template.placeholders (m +:+ rest) = (m, p) :: Template.placeholders rest.
Proof. intros H. unfold Template.placeholders. by rewrite (scan_hole _ _ _ H). Qed.

Lemma placeholders_lit (c : ascii) (s : string) :
  Template.match_here (String c s) = None ->
  Template.placeholders (String c s) = Template.placeholders s.
Proof. intros H. unfold Template.placeholders. by rewrite (scan_lit _ _ H). Qed.

(** A callback that gives every placeholder of the template back leaves
    the template as it is. *)
Lemma replace_unchanged (f : string -> string -> string) (s : string) :
  (forall m p, (m, p) ∈ Template.placeholders s -> f m p = m) ->
  Template.replace f s = s.
Proof.
  induction s as [|c s Hm IH|m p rest Hm IH] using scan_ind; intros Hf.
  - reflexivity.
  - rewrite replace_lit by done. f_equal. apply IH. intros m p Hin.
    apply Hf. by rewrite placeholders_lit.
  - rewrite (replace_hole _ _ _ _ Hm). rewrite (placeholders_hole _ _ _ Hm) in Hf.
    rewrite Hf by (left). f_equal. apply IH. intros m' p' Hin. apply Hf. by right.
Qed.

(** Two callbacks that agree on the placeholders of the template give
    the same result. *)
Lemma replace_ext (f g : string -> string -> string) (s : string) :
  (forall m p, (m, p) ∈ Template.placeholders s -> f m p = g m p) ->
  Template.replace f s = Template.replace g s.
Proof.
  induction s as [|c s Hm IH|m p rest Hm IH] using scan_ind; intros Hf.
  - reflexivity.
  - rewrite !replace_lit by done. f_equal. apply IH. intros m p Hin.
    apply Hf. by rewrite placeholders_lit.
  - rewrite !(replace_hole _ _ _ _ Hm). rewrite (placeholders_hole _ _ _ Hm) in Hf.
    rewrite Hf by (left). f_equal. apply IH. intros m' p' Hin. apply Hf. by right.
Qed.

(** A template that is one well-formed token is one placeholder. *)
Lemma replace_token (f : string -> string -> string) (p : string) :
  p <> EmptyString -> Template.no_rbrace p = true ->
  Template.replace f ("{{" +:+ p +:+ "}}") = f ("{{" +:+ p +:+ "}}") p.
Proof.
  intros Hp Hn.
  rewrite <- (app_nil_r_s ("{{" +:+ p +:+ "}}")) at 1.
  rewrite (replace_hole _ _ p) by (by apply match_here_token).
  unfold Template.replace. cbn. apply app_nil_r_s.
Qed.

Lemma placeholders_token (p : string) :
  p <> EmptyString -> Template.no_rbrace p = true ->
  Template.placeholders ("{{" +:+ p +:+ "}}") = [("{{" +:+ p +:+ "}}", p)].
Proof.
  intros Hp Hn.
  rewrite <- (app_nil_r_s ("{{" +:+ p +:+ "}}")) at 1.
  by rewrite (placeholders_hole _ p) by (by apply match_here_token).
Qed.

(** *** Replacement with a callback that may throw *)

Lemma replace_run_hole (f : string -> string -> Run string) (m p rest : string) :
  Template.match_here (m +:+ rest) = Some (m, p) ->
  Template.replace_run f (m +:+ rest)
  = (replacement ← f m p; text ← Template.replace_run f rest; Done (replacement +:+ text)).
Proof. intros H. unfold Template.replace_run. by rewrite (scan_hole _ _ _ H). Qed.

Lemma replace_run_lit (f : string -> string -> Run string) (c : ascii) (s : string) :
  Template.match_here (String c s) = None ->
  Template.replace_run f (String c s) = (text ← Template.replace_run f s; Done (String c text)).
Proof. intros H. unfold Template.replace_run. by rewrite (scan_lit _ _ H). Qed.

(** A callback that returns every placeholder of the template as it
    is leaves the template as it is. *)
Lemma replace_run_unchanged (f : string -> string -> Run string) (s : string) :
  (forall m p, (m, p) ∈ Template.placeholders s -> f m p = Done m) ->
  Template.replace_run f s = Done s.
Proof.
  induction s as [|c s Hm IH|m p rest Hm IH] using scan_ind; intros Hf.
  - reflexivity.
  - rewrite replace_run_lit by done. rewrite IH; [reflexivity|]. intros m p Hin.
    apply Hf. by rewrite placeholders_lit.
  - rewrite (replace_run_hole _ _ _ _ Hm). rewrite (placeholders_hole _ _ _ Hm) in Hf.
    rewrite Hf by (left). cbn. rewrite IH; [reflexivity|]. intros m' p' Hin. apply Hf. by right.
Qed.

(** With a callback that returns, the replacement returns. *)
Lemma replace_run_pure (f : string -> string -> string) (s : string) :
  Template.replace_run (fun m p => Done (f m p)) s = Done (Template.replace f s).
Proof.
  induction s as [|c s Hm IH|m p rest Hm IH] using scan_ind.
  - reflexivity.
  - rewrite replace_run_lit, replace_lit by done. by rewrite IH.
  - rewrite (replace_run_hole _ _ _ _ Hm), (replace_hole _ _ _ _ Hm). cbn. by rewrite IH.
Qed.

(** Two callbacks that agree on the placeholders of the template give
    the same result. *)
Lemma replace_run_ext (f g : string -> string -> Run string) (s : string) :
  (forall m p, (m, p) ∈ Template.placeholders s -> f m p = g m p) ->
  Template.replace_run f s = Template.replace_run g s.
Proof.
  induction s as [|c s Hm IH|m p rest Hm IH] using scan_ind; intros Hf.
  - reflexivity.
  - rewrite !replace_run_lit by done. rewrite IH; [reflexivity|]. intros m p Hin.
    apply Hf. by rewrite placeholders_lit.
  - rewrite !(replace_run_hole _ _ _ _ Hm). rewrite (placeholders_hole _ _ _ Hm) in Hf.
    rewrite Hf by (left). rewrite IH; [reflexivity|]. intros m' p' Hin. apply Hf. by right.
Qed.


(** ** The template resolvers *)











(** The class-based resolver applies [String] to what it finds: the
    output of a logic node, an object, becomes "[object Object]". *)
Lemma executor_object_placeholder :
  WorkflowExecutor.processTemplate array_methods_2023
    (WorkflowExecutor.setNodeOutput "2" (JObj [("result", JBool true)])
       WorkflowExecutor.empty_context)
    (JStr "{{2.output}}")
  = Done (JStr "[object Object]").
Proof. vm_compute. reflexivity. Qed.




(** ** The [node_] remapping of the class-based resolver *)

Lemma prefix_dot (c : ascii) (s : string) :
  String.prefix "." (String c s) = Ascii.eqb c ".".
Proof.
  change (String.prefix "." (String c s))
    with (if ascii_dec "." c then String.prefix EmptyString s else false).
  destruct (ascii_dec "." c) as [<-|Hne].
  - by destruct s.
  - destruct (Ascii.eqb_spec c "."); [congruence | reflexivity].
Qed.

Lemma includes_dot_cons (c : ascii) (s : string) :
  JsString.includes (String c s) "." = Ascii.eqb c "." || JsString.includes s ".".
Proof.
  change (JsString.includes (String c s) ".")
    with (String.prefix "." (String c s) || JsString.includes s ".").
  by rewrite prefix_dot.
Qed.

Lemma split_no_dot (k : string) :
  JsString.includes k "." = false -> JsString.split "." k = [k].
Proof.
  induction k as [|c k IH]; [reflexivity|]. rewrite includes_dot_cons.
  intros [Hc Hk]%orb_false_iff. cbn. by rewrite Hc, (IH Hk).
Qed.









(** ** The start node of the branching strategy *)

Lemma find_first {A : Type} (f : A -> bool) (l : list A) (x : A) :
  List.find f l = Some x ->
  exists before after, l = before ++ x :: after /\ f x = true
                       /\ forall y, y ∈ before -> f y = false.
Proof.
  induction l as [|a l IH]; [discriminate|]. cbn.
  destruct (f a) eqn:Ha.
  - intros [= ->]. exists [], l. repeat split; [done|]. intros y Hy. by apply elem_of_nil in Hy.
  - intros H. destruct (IH H) as (before & after & -> & Hx & Hb).
    exists (a :: before), after. repeat split; [done|].
    intros y [->|Hy]%elem_of_cons; auto.
Qed.

Lemma find_none {A : Type} (f : A -> bool) (l : list A) :
  List.find f l = None -> forall y, y ∈ l -> f y = false.
Proof.
  intros H y Hy. apply list_elem_of_In in Hy. exact (List.find_none f l H y Hy).
Qed.

Lemma orphaned_decide (edges : list Engine.EdgeData) (n : Engine.NodeData) :
  bool_decide (Engine.id n ∉ (list_to_set (map Engine.target edges) : gset string)) = true
  <-> orphaned edges n.
Proof.
  rewrite bool_decide_eq_true, elem_of_list_to_set, list_elem_of_In, in_map_iff.
  unfold orphaned. split.
  - intros H e He Ht. apply H. exists e. by rewrite <- list_elem_of_In.
  - intros H (e & Ht & He). apply (H e); [by apply list_elem_of_In | done].
Qed.

Lemma findStartingNode_spec (nodes : list Engine.NodeData) (edges : list Engine.EdgeData) :
  match Engine.findStartingNode nodes edges with
  | Some start =>
      first_node (fun n => Engine.type n = "input") nodes start
      \/ ((forall n, n ∈ nodes -> Engine.type n <> "input")
          /\ first_node (fun n => Engine.type n = "dataEntry") nodes start)
      \/ ((forall n, n ∈ nodes -> Engine.type n <> "input")
          /\ (forall n, n ∈ nodes -> Engine.type n <> "dataEntry")
          /\ first_node (orphaned edges) nodes start)
  | None =>
      forall n, n ∈ nodes ->
        Engine.type n <> "input" /\ Engine.type n <> "dataEntry" /\ ~ orphaned edges n
  end.
Proof.
  unfold Engine.findStartingNode.
  destruct (List.find _ nodes) as [start|] eqn:Hin.
  { left. apply find_first in Hin as (before & after & -> & Hs & Hb).
    exists before, after. repeat split; [by apply String.eqb_eq|].
    intros n Hn. apply String.eqb_neq. auto. }
  assert (forall n, n ∈ nodes -> Engine.type n <> "input") as Hnoin.
  { intros n Hn. apply String.eqb_neq. by apply (find_none _ _ Hin). }
  destruct (List.find (fun node => String.eqb (Engine.type node) "dataEntry") nodes)
    as [start|] eqn:Hde.
  { right. left. split; [done|].
    apply find_first in Hde as (before & after & -> & Hs & Hb).
    exists before, after. repeat split; [by apply String.eqb_eq|].
    intros n Hn. apply String.eqb_neq. auto. }
  assert (forall n, n ∈ nodes -> Engine.type n <> "dataEntry") as Hnode.
  { intros n Hn. apply String.eqb_neq. by apply (find_none _ _ Hde). }
  cbv zeta. destruct (List.find (fun node => bool_decide _) nodes) as [start|] eqn:Hor.
  { right. right. split; [done|]. split; [done|].
    apply find_first in Hor as (before & after & -> & Hs & Hb).
    exists before, after. repeat split; [by apply orphaned_decide|].
    intros n Hn Ho. apply orphaned_decide in Ho. rewrite (Hb n Hn) in Ho. discriminate. }
  intros n Hn. repeat split; auto.
  intros Ho. apply orphaned_decide in Ho.
  rewrite (find_none _ _ Hor n Hn) in Ho. discriminate.
Qed.

(** C6: when the graph has a logic node, the engine takes as start node
    the first node of type [input], else the first of type [dataEntry],
    else the first node no edge ends at, and runs the branching traversal
    from it; when there is none, no node is executed and the run answers
    [success: false] with the message that starts with "No starting node
    found". *)
Theorem C6_start_node_priority (env : Engine.Env) (nodes : list Engine.NodeData)
    (edges : list Engine.EdgeData) (inputData : JsValue) :
  Engine.hasLogicNodes nodes = true ->
  match Engine.findStartingNode nodes edges with
  | Some start =>
      (first_node (fun n => Engine.type n = "input") nodes start
       \/ ((forall n, n ∈ nodes -> Engine.type n <> "input")
           /\ first_node (fun n => Engine.type n = "dataEntry") nodes start)
       \/ ((forall n, n ∈ nodes -> Engine.type n <> "input")
           /\ (forall n, n ∈ nodes -> Engine.type n <> "dataEntry")
           /\ first_node (orphaned edges) nodes start))
      /\ Engine.run_strategy env nodes edges inputData
         = (st ← Engine.executeBranchingWorkflow env nodes edges inputData (Engine.id start) [];
            Done (Engine.results st, Engine.calls st))
  | None =>
      (forall n, n ∈ nodes ->
         Engine.type n <> "input" /\ Engine.type n <> "dataEntry" /\ ~ orphaned edges n)
      /\ Engine.run_strategy env nodes edges inputData = Thrown Engine.no_start_node
      /\ Engine.executeCurrentWorkflow env nodes edges inputData
         = Done {| Engine.success := false; Engine.output := JNull;
                   Engine.error := Some Engine.no_start_node |}
      /\ JsString.startsWith Engine.no_start_node "No starting node found" = true
  end.
Proof.
  intros Hlogic. pose proof (findStartingNode_spec nodes edges) as Hspec.
  unfold Engine.executeCurrentWorkflow, Engine.run_strategy. rewrite Hlogic.
  destruct (Engine.findStartingNode nodes edges) as [start|]; [by split|].
  repeat split; try done. all: by apply Hspec.
Qed.

Lemma C6_witness :
  Engine.executeCurrentWorkflow sample_env
    [{| Engine.id := "L"; Engine.type := "logic"; Engine.config := None |}]
    [{| Engine.edge_id := "e"; Engine.source := "L"; Engine.target := "L";
        Engine.sourceHandle := Some "true" |}]
    JNull
  = Done {| Engine.success := false; Engine.output := JNull;
            Engine.error := Some Engine.no_start_node |}.
Proof.
  pose proof (C6_start_node_priority sample_env
    [{| Engine.id := "L"; Engine.type := "logic"; Engine.config := None |}]
    [{| Engine.edge_id := "e"; Engine.source := "L"; Engine.target := "L";
        Engine.sourceHandle := Some "true" |}]
    JNull eq_refl) as H.
  change (Engine.findStartingNode _ _) with (@None Engine.NodeData) in H.
  exact (proj1 (proj2 (proj2 H))).
Defined.

(** ** The input handed to a node *)


Lemma assoc_replace_value_ne (k k' : string) (v : JsValue) (props : list (string * JsValue)) :
  k' <> k -> Js.assoc k' (Js.replace_value k v props) = Js.assoc k' props.
Proof.
  intros Hne. induction props as [|[k0 v0] props IH]; cbn; [done|].
  destruct (String.eqb_spec k k0) as [->|Hk]; cbn.
  - by apply String.eqb_neq in Hne as ->.
  - by rewrite IH.
Qed.


Lemma assoc_insert_index_ne (i : N) (k k' : string) (v : JsValue) (props : list (string * JsValue)) :
  k' <> k -> Js.assoc k' (Js.insert_index i k v props) = Js.assoc k' props.
Proof.
  intros Hne%String.eqb_neq. induction props as [|[k0 v0] props IH]; cbn; [by rewrite Hne|].
  destruct (Js.array_index k0) as [j|]; [destruct (j <? i)%N|]; cbn; rewrite ?Hne, ?IH; auto.
Qed.


Lemma assoc_app_last_ne (k k' : string) (v : JsValue) (props : list (string * JsValue)) :
  k' <> k -> Js.assoc k' (props ++ [(k, v)]) = Js.assoc k' props.
Proof.
  intros Hne%String.eqb_neq. induction props as [|[k0 v0] props IH]; cbn; [by rewrite Hne|].
  by rewrite IH.
Qed.


Lemma assoc_set_ne (k k' : string) (v : JsValue) (props : list (string * JsValue)) :
  k' <> k -> Js.assoc k' (Js.set k v props) = Js.assoc k' props.
Proof.
  intros Hne. unfold Js.set. destruct (Js.assoc k props) eqn:E.
  - by apply assoc_replace_value_ne.
  - destruct (Js.array_index k); auto using assoc_insert_index_ne, assoc_app_last_ne.
Qed.












(** A predecessor called "__proto__" gets no key in the combined
    input: its output becomes the prototype of the combined input, whose
    properties the input then inherits. *)
Lemma combined_input_without_proto :
  let edges := [{| Engine.edge_id := "e0"; Engine.source := "__proto__"; Engine.target := "t";
                   Engine.sourceHandle := None |};
                {| Engine.edge_id := "e1"; Engine.source := "B"; Engine.target := "t";
                   Engine.sourceHandle := None |}] in
  let results := [("__proto__", JObj [("data", JStr "one")]); ("B", JObj [("data", JStr "two")])] in
  Engine.effectiveInputData "t" edges results JNull
  = JObj [("input_0", JObj [("data", JStr "one")]); ("input_1", JObj [("data", JStr "two")]);
          ("B", JObj [("data", JStr "two")])]
  /\ Engine.input_prototype "t" edges results = Some (JObj [("data", JStr "one")])
  /\ Engine.input_member array_methods_2023 (Engine.input_prototype "t" edges results) "data"
       (Engine.effectiveInputData "t" edges results JNull)
     = Some (Js.Json (JStr "one")).
Proof. vm_compute. repeat split. Qed.

(** ** Loops and fuel *)

(** A loop whose body keeps a preorder on states does the same; it runs
    out of fuel only where its body does. *)
Lemma for_each_step {A S : Type} (R : S -> S -> Prop) (Q : Prop) (xs : list A)
    (body : A -> S -> Run S) (st : S) :
  (forall s, R s s) ->
  (forall s1 s2 s3, R s1 s2 -> R s2 s3 -> R s1 s3) ->
  (forall x s, x ∈ xs -> R st s ->
     match body x s with Done s' => R s s' | Thrown _ => True | OutOfFuel => Q end) ->
  match for_each xs body st with Done s' => R st s' | Thrown _ => True | OutOfFuel => Q end.
Proof.
  intros Hrefl Htrans. revert st.
  induction xs as [|x xs IH]; intros st Hbody; cbn; [apply Hrefl|].
  pose proof (Hbody x st ltac:(left) (Hrefl st)) as Hx.
  destruct (body x st) as [s1| |]; cbn; [|done|done].
  assert (match for_each xs body s1 with
          | Done s' => R s1 s' | Thrown _ => True | OutOfFuel => Q end) as H.
  { apply IH. intros y s Hy Hs. apply Hbody; [by right|]. by apply (Htrans _ s1). }
  destruct (for_each xs body s1); [|done|done]. by apply (Htrans _ s1).
Qed.

Lemma size_list_to_set_le (l : list string) :
  size (list_to_set l : gset string) <= length l.
Proof.
  induction l as [|x l IH]; cbn; [by rewrite size_empty|].
  rewrite size_union_alt, size_singleton.
  pose proof (subseteq_size (list_to_set l ∖ {[x]}) (list_to_set l : gset string)
                ltac:(set_solver)). lia.
Qed.

Lemma unvisited_decrease (ids visited : gset string) (nodeId : string) :
  nodeId ∈ ids -> nodeId ∉ visited ->
  size (ids ∖ ({[nodeId]} ∪ visited)) < size (ids ∖ visited).
Proof. intros Hin Hnot. apply subset_size. set_solver. Qed.

Lemma unvisited_mono (ids visited visited' : gset string) :
  visited ⊆ visited' -> size (ids ∖ visited') <= size (ids ∖ visited).
Proof. intros H. apply subseteq_size. set_solver. Qed.

(** ** The execution context of the class-based engine *)

Lemma app_inj_r (s1 s2 t : string) : s1 +:+ t = s2 +:+ t -> s1 = s2.
Proof.
  revert s2. induction s1 as [|c s1 IH]; intros [|d s2] H; [done| | |].
  - apply (f_equal String.length) in H. rewrite app_cons_s, app_nil_l_s in H.
    cbn in H. rewrite length_app_s in H. lia.
  - apply (f_equal String.length) in H. rewrite app_cons_s, app_nil_l_s in H.
    cbn in H. rewrite length_app_s in H. lia.
  - rewrite !app_cons_s in H. injection H as -> H. f_equal. by apply IH.
Qed.

Lemma output_key_not_input (nodeId : string) : "input" <> nodeId +:+ ".output".
Proof.
  intros H. apply (f_equal String.length) in H. rewrite length_app_s in H. cbn in H. lia.
Qed.

(** The key of an ".output" variable is never [__proto__]. *)
Lemma output_key_not_proto (nodeId : string) : nodeId +:+ ".output" <> "__proto__".
Proof.
  intros H. pose proof (f_equal String.length H) as Hlen.
  rewrite length_app_s in Hlen. cbn in Hlen.
  destruct nodeId as [|a [|b [|c rest]]]; cbn in Hlen; try lia.
  rewrite !app_cons_s, app_nil_l_s in H. injection H as _ _ H. discriminate H.
Qed.

Lemma assign_dom (key : string) (value : JsValue) (object : gmap string JsValue) :
  dom object ⊆ dom (WorkflowExecutor.assign key value object).
Proof.
  unfold WorkflowExecutor.assign. destruct (_ && _); [done|]. rewrite dom_insert_L. set_solver.
Qed.

Lemma assign_lookup_ne (key key' : string) (value : JsValue) (object : gmap string JsValue) :
  key <> key' -> WorkflowExecutor.assign key value object !! key' = object !! key'.
Proof.
  intros Hne. unfold WorkflowExecutor.assign. destruct (_ && _); [done|].
  by rewrite lookup_insert_ne.
Qed.

Lemma assign_lookup_eq (key : string) (value : JsValue) (object : gmap string JsValue) :
  key <> "__proto__" -> WorkflowExecutor.assign key value object !! key = Some value.
Proof.
  intros Hne. unfold WorkflowExecutor.assign.
  apply String.eqb_neq in Hne as ->. cbn [andb]. apply lookup_insert_eq.
Qed.

(** The assignment to [__proto__] makes no key. *)
Lemma assign_proto (value : JsValue) (object : gmap string JsValue) :
  object !! "__proto__" = None -> WorkflowExecutor.assign "__proto__" value object = object.
Proof. intros H. unfold WorkflowExecutor.assign. by rewrite bool_decide_eq_true_2. Qed.

Ltac context_fields :=
  unfold WorkflowExecutor.setNodeOutput, WorkflowExecutor.setGlobalVariable;
  cbn [WorkflowExecutor.nodeOutputs WorkflowExecutor.variables WorkflowExecutor.globalData].

Lemma setNodeOutput_extends (nodeId : string) (output : JsValue)
    (ctx : WorkflowExecutor.WorkflowContext) :
  context_extends ctx (WorkflowExecutor.setNodeOutput nodeId output ctx).
Proof.
  unfold context_extends. context_fields. split; [apply assign_dom|]. split; [|done].
  etrans; [|apply assign_dom]. apply assign_dom.
Qed.


Lemma context_extends_refl (ctx : WorkflowExecutor.WorkflowContext) : context_extends ctx ctx.
Proof. by repeat split. Qed.

Lemma context_extends_trans (c1 c2 c3 : WorkflowExecutor.WorkflowContext) :
  context_extends c1 c2 -> context_extends c2 c3 -> context_extends c1 c3.
Proof. unfold context_extends. set_solver. Qed.

Lemma executor_resolve_returns (methods : list string) (ctx : WorkflowExecutor.WorkflowContext)
    (matched variablePath : string) :
  returns_or_throws (WorkflowExecutor.resolve methods ctx matched variablePath).
Proof.
  unfold WorkflowExecutor.resolve, WorkflowExecutor.string_or_match.
  repeat match goal with |- context [if ?b then _ else _] => destruct b end;
    auto with returns.
Qed.

Lemma executor_processTemplate_returns (methods : list string)
    (ctx : WorkflowExecutor.WorkflowContext) (template : JsValue) :
  returns_or_throws (WorkflowExecutor.processTemplate methods ctx template).
Proof.
  destruct template; cbn; auto with returns.
  apply returns_bind; [|auto with returns].
  apply replace_run_returns. intros. apply executor_resolve_returns.
Qed.

Lemma evaluateCondition_returns (value compareValue operator inputData : JsValue) :
  returns_or_throws (Engine.evaluateCondition value compareValue operator inputData).
Proof.
  destruct (evaluateCondition_cases value compareValue operator inputData) as [[b ->]| ->];
    auto with returns.
Qed.

Lemma executor_evaluateCondition_returns (value compareValue operator : JsValue) :
  returns_or_throws (WorkflowExecutor.evaluateCondition value compareValue operator).
Proof. rewrite (evaluateCondition_same _ _ _ JUndefined). apply evaluateCondition_returns. Qed.

#[global] Hint Resolve executor_processTemplate_returns executor_evaluateCondition_returns
  evaluateCondition_returns : returns.

Lemma executor_resolve_type_error (methods : list string) (ctx : WorkflowExecutor.WorkflowContext)
    (matched variablePath : string) :
  throws_type_error_only (WorkflowExecutor.resolve methods ctx matched variablePath).
Proof.
  unfold WorkflowExecutor.resolve, WorkflowExecutor.string_or_match.
  repeat match goal with |- context [if ?b then _ else _] => destruct b end;
    auto with conversions.
Qed.

Lemma executor_processTemplate_type_error (methods : list string)
    (ctx : WorkflowExecutor.WorkflowContext) (template : JsValue) :
  throws_type_error_only (WorkflowExecutor.processTemplate methods ctx template).
Proof.
  destruct template; cbn; auto with conversions.
  apply type_error_bind; [|auto with conversions].
  apply replace_run_type_error. intros. apply executor_resolve_type_error.
Qed.

Lemma executor_evaluateCondition_type_error (value compareValue operator : JsValue) :
  throws_type_error_only (WorkflowExecutor.evaluateCondition value compareValue operator).
Proof. rewrite (evaluateCondition_same _ _ _ JUndefined). apply evaluateCondition_type_error. Qed.

#[global] Hint Resolve executor_processTemplate_type_error
  executor_evaluateCondition_type_error : conversions.

Ltac conversions :=
  try match goal with
      | |- forall message, ?r = Thrown message -> message = Js.not_primitive =>
          change (throws_type_error_only r)
      end;
  repeat first
    [ progress auto with conversions
    | apply type_error_bind; [|intros ?]
    | match goal with
      | |- throws_type_error_only (if ?b then _ else _) => destruct b
      | |- throws_type_error_only (match ?x with _ => _ end) => destruct x
      end ].


Ltac settle :=
  repeat first
    [ progress auto with returns
    | apply returns_bind; [|intros ?]
    | match goal with
      | |- returns_or_throws (if ?b then _ else _) => destruct b
      | |- returns_or_throws (match ?x with _ => _ end) => destruct x
      end ].

Lemma executeLogicNode_returns (methods : list string) (ctx : WorkflowExecutor.WorkflowContext)
    (node : WorkflowExecutor.WorkflowNode) :
  returns_or_throws (WorkflowExecutor.executeLogicNode methods ctx node).
Proof. unfold WorkflowExecutor.executeLogicNode. cbv zeta. settle. Qed.

Lemma executor_executeNode_returns (env : WorkflowExecutor.Env)
    (node : WorkflowExecutor.WorkflowNode) (ctx : WorkflowExecutor.WorkflowContext) :
  returns_or_throws (WorkflowExecutor.executeNode env node ctx).
Proof. unfold WorkflowExecutor.executeNode. cbv zeta. settle. Qed.

(** A node action ends by [setNodeOutput] on its output, or throws. *)
Lemma executor_executeNode_cases (env : WorkflowExecutor.Env)
    (node : WorkflowExecutor.WorkflowNode) (ctx : WorkflowExecutor.WorkflowContext) :
  (exists output,
      WorkflowExecutor.executeNode env node ctx
      = Done (output, WorkflowExecutor.setNodeOutput (WorkflowExecutor.id node) output ctx))
  \/ (exists message, WorkflowExecutor.executeNode env node ctx = Thrown message).
Proof.
  destruct (returns_cases _ (executor_executeNode_returns env node ctx))
    as [[[output ctx'] E]|[message E]]; [left|right; eauto].
  exists output. rewrite E. unfold WorkflowExecutor.executeNode in E. cbv zeta in E.
  apply bind_Done in E as (? & _ & E). apply bind_Done in E as (? & _ & E).
  apply bind_Done in E as (? & _ & E).
  apply bind_Done in E as (out & _ & E). by injection E as <- <-.
Qed.


Lemma setNodeOutput_lookups (nodeId : string) (output : JsValue)
    (ctx : WorkflowExecutor.WorkflowContext) :
  let ctx' := WorkflowExecutor.setNodeOutput nodeId output ctx in
  (nodeId <> "__proto__" -> WorkflowExecutor.nodeOutputs ctx' !! nodeId = Some output)
  /\ WorkflowExecutor.variables ctx' !! (nodeId +:+ ".output") = Some output
  /\ WorkflowExecutor.variables ctx' !! "input" = Some output.
Proof.
  cbv zeta. context_fields. split; [apply assign_lookup_eq|]. split; [|by apply assign_lookup_eq].
  rewrite assign_lookup_ne by apply output_key_not_input.
  apply assign_lookup_eq, output_key_not_proto.
Qed.

(** A node called [__proto__] leaves [nodeOutputs] as it was. *)
Lemma setNodeOutput_proto (output : JsValue) (ctx : WorkflowExecutor.WorkflowContext) :
  WorkflowExecutor.nodeOutputs ctx !! "__proto__" = None ->
  WorkflowExecutor.nodeOutputs (WorkflowExecutor.setNodeOutput "__proto__" output ctx)
  = WorkflowExecutor.nodeOutputs ctx.
Proof. intros H. context_fields. by apply assign_proto. Qed.

Lemma chain_step_refl (st : NodesRoute.ChainState) : chain_step st st.
Proof.
  split; [done|]. split; [exists []; by rewrite app_nil_r|].
  split; [apply context_extends_refl|]. intros H. by split.
Qed.

Lemma chain_step_trans (s1 s2 s3 : NodesRoute.ChainState) :
  chain_step s1 s2 -> chain_step s2 s3 -> chain_step s1 s3.
Proof.
  intros (Hv1 & [m1 He1] & Hc1 & Hk1) (Hv2 & [m2 He2] & Hc2 & Hk2).
  split; [set_solver|]. split; [exists (m1 ++ m2); by rewrite He2, He1, app_assoc|].
  split; [by apply (context_extends_trans _ _ _ Hc1)|].
  intros Hcons. destruct (Hk1 Hcons) as [Hcons2 Hst1].
  destruct (Hk2 Hcons2) as [Hcons3 Hst2]. split; [done|].
  intros nodeId Hin. destruct (Hst1 nodeId Hin) as [<- <-].
  apply Hst2. rewrite He1. apply elem_of_app. by left.
Qed.

(** Executing a node that was not visited yet. *)
Lemma chain_step_execute (st : NodesRoute.ChainState) (nodeId : string) (output : JsValue) :
  nodeId ∉ NodesRoute.visited st ->
  chain_step st
    {| NodesRoute.context := WorkflowExecutor.setNodeOutput nodeId output (NodesRoute.context st);
       NodesRoute.visited := {[nodeId]} ∪ NodesRoute.visited st;
       NodesRoute.executedNodes := NodesRoute.executedNodes st ++ [nodeId] |}.
Proof.
  intros Hnew. split; [cbn; set_solver|]. split; [by exists [nodeId]|].
  split; [apply setNodeOutput_extends|].
  intros [Hexec Hlast].
  assert (forall other, other ∈ NodesRoute.executedNodes st -> other <> nodeId) as Hother.
  { intros other Hin ->. by destruct (Hexec nodeId Hin). }
  assert (forall other, other ∈ NodesRoute.executedNodes st ->
            WorkflowExecutor.nodeOutputs
              (WorkflowExecutor.setNodeOutput nodeId output (NodesRoute.context st)) !! other
            = WorkflowExecutor.nodeOutputs (NodesRoute.context st) !! other
            /\ WorkflowExecutor.variables
                 (WorkflowExecutor.setNodeOutput nodeId output (NodesRoute.context st))
                 !! (other +:+ ".output")
               = WorkflowExecutor.variables (NodesRoute.context st) !! (other +:+ ".output"))
    as Hkeep.
  { intros other Hin. pose proof (Hother other Hin) as Hne. context_fields. split.
    - by rewrite assign_lookup_ne.
    - rewrite assign_lookup_ne by apply output_key_not_input.
      rewrite assign_lookup_ne; [done|]. intros H%app_inj_r. congruence. }
  destruct (setNodeOutput_lookups nodeId output (NodesRoute.context st)) as (Hout & Hvar & Hinput).
  split; [|exact Hkeep]. split.
  - intros other [Hin|Hin]%elem_of_app;
      [|apply list_elem_of_singleton in Hin as ->];
      cbn [NodesRoute.executedNodes NodesRoute.visited NodesRoute.context].
    + destruct (Hexec other Hin) as [Hvis (out & Hv & Ho)].
      destruct (Hkeep other Hin) as [-> ->]. split; [set_solver | eauto].
    + split; [set_solver|]. exists output. done.
  - intros other. cbn [NodesRoute.executedNodes NodesRoute.context].
    rewrite last_snoc. intros [= <-]. by rewrite Hvar, Hinput.
Qed.

(** Visiting a node id that is no node of the graph. *)
Lemma chain_step_visit (st : NodesRoute.ChainState) (nodeId : string) :
  chain_step st
    {| NodesRoute.context := NodesRoute.context st;
       NodesRoute.visited := {[nodeId]} ∪ NodesRoute.visited st;
       NodesRoute.executedNodes := NodesRoute.executedNodes st |}.
Proof.
  split; [cbn; set_solver|]. split; [exists []; by rewrite app_nil_r|].
  split; [apply context_extends_refl|].
  intros [Hexec Hlast]. split; [|done]. split; [|done].
  intros other Hin. destruct (Hexec other Hin) as [Hvis Hout]. split; [cbn; set_solver | done].
Qed.

Lemma find_id_elem (nodes : list WorkflowExecutor.WorkflowNode) (nodeId : string)
    (node : WorkflowExecutor.WorkflowNode) :
  List.find (fun n => String.eqb (WorkflowExecutor.id n) nodeId) nodes = Some node ->
  WorkflowExecutor.id node = nodeId /\ nodeId ∈ executor_ids nodes.
Proof.
  intros H. apply List.find_some in H as [Hin Heq]. apply String.eqb_eq in Heq.
  split; [done|]. unfold executor_ids. rewrite elem_of_list_to_set, list_elem_of_In, <- Heq.
  by apply in_map.
Qed.

(** What a call of the chain returns is a [chain_step], and it runs out
    of fuel only when the fuel is not above the number of node ids not
    visited yet. *)
Lemma executor_chain_step (env : WorkflowExecutor.Env)
    (nodes : list WorkflowExecutor.WorkflowNode) (edges : list WorkflowExecutor.WorkflowEdge)
    (fuel : nat) :
  forall nodeId st,
    match NodesRoute.executeNodeChain env nodes edges fuel nodeId st with
    | Done st' => chain_step st st'
    | Thrown _ => True
    | OutOfFuel => ~ size (executor_ids nodes ∖ NodesRoute.visited st) < fuel
    end.
Proof.
  induction fuel as [|fuel IH]; intros nodeId st; [cbn; lia|].
  cbn [NodesRoute.executeNodeChain].
  destruct (bool_decide (nodeId ∈ NodesRoute.visited st)) eqn:Hvis; [apply chain_step_refl|].
  apply bool_decide_eq_false in Hvis.
  destruct (List.find _ nodes) as [node|] eqn:Hfind; [|apply chain_step_visit].
  destruct (find_id_elem _ _ _ Hfind) as [Hid Hin].
  destruct (executor_executeNode_cases env node (NodesRoute.context st))
    as [[output ->]|[message ->]]; [|done].
  cbn. rewrite Hid.
  pose proof (chain_step_execute st nodeId output Hvis) as Hstep.
  set (st1 := {| NodesRoute.context := _ |}) in *.
  assert (size (executor_ids nodes ∖ NodesRoute.visited st1)
          < size (executor_ids nodes ∖ NodesRoute.visited st)) as Hless.
  { apply (unvisited_decrease _ _ _ Hin Hvis). }
  destruct (String.eqb (WorkflowExecutor.type node) "logic").
  - destruct (returns_cases _ (executeLogicNode_returns (WorkflowExecutor.arrayMethods env)
                                 (WorkflowExecutor.setNodeOutput nodeId output
                                    (NodesRoute.context st)) node))
      as [[logicResult ->]|[message ->]]; [|done].
    cbn. destruct (List.find (fun edge => bool_decide _) _) as [targetEdge|]; [|exact Hstep].
    specialize (IH (WorkflowExecutor.target targetEdge) st1).
    destruct (NodesRoute.executeNodeChain _ _ _ _ _ _); [|done|lia].
    by apply (chain_step_trans _ st1).
  - assert (match for_each
                    (List.filter (fun edge => String.eqb (WorkflowExecutor.source edge) nodeId) edges)
                    (fun edge => NodesRoute.executeNodeChain env nodes edges fuel
                                   (WorkflowExecutor.target edge)) st1 with
            | Done s' => chain_step st1 s'
            | Thrown _ => True
            | OutOfFuel => ~ size (executor_ids nodes ∖ NodesRoute.visited st) < S fuel
            end) as Hloop.
    { apply for_each_step; [apply chain_step_refl | apply chain_step_trans|].
      intros edge s _ Hs. specialize (IH (WorkflowExecutor.target edge) s).
      destruct (NodesRoute.executeNodeChain _ _ _ _ _ _); [done|done|].
      pose proof (unvisited_mono (executor_ids nodes) _ _ (proj1 Hs)). lia. }
    destruct (for_each _ _ st1); [|done|done]. by apply (chain_step_trans _ st1).
Qed.

Lemma executor_ids_size (nodes : list WorkflowExecutor.WorkflowNode) (visited : gset string) :
  size (executor_ids nodes ∖ visited) < S (length nodes).
Proof.
  pose proof (subseteq_size (executor_ids nodes ∖ visited) (executor_ids nodes)) as H1.
  pose proof (size_list_to_set_le (map WorkflowExecutor.id nodes)) as H2.
  rewrite length_map in H2. unfold executor_ids in *.
  assert (list_to_set (map WorkflowExecutor.id nodes) ∖ visited
          ⊆ (list_to_set (map WorkflowExecutor.id nodes) : gset string)) as H3 by set_solver.
  specialize (H1 H3). lia.
Qed.


Lemma executeWithBranching_returns (env : WorkflowExecutor.Env)
    (nodes : list WorkflowExecutor.WorkflowNode) (edges : list WorkflowExecutor.WorkflowEdge)
    (executor : WorkflowExecutor.WorkflowContext) (startNodeId : string) :
  NodesRoute.executeWithBranching env nodes edges executor startNodeId <> OutOfFuel.
Proof.
  unfold NodesRoute.executeWithBranching. intros H.
  pose proof (executor_chain_step env nodes edges (S (length nodes)) startNodeId
    {| NodesRoute.context := executor; NodesRoute.visited := ∅;
       NodesRoute.executedNodes := [] |}) as Hs.
  rewrite H in Hs. apply Hs. apply executor_ids_size.
Qed.




(** ** The answer of the node execution route *)

Lemma executeWorkflow_returns (env : WorkflowExecutor.Env)
    (nodes : list WorkflowExecutor.WorkflowNode) (edges : list WorkflowExecutor.WorkflowEdge) :
  NodesRoute.executeWorkflow env nodes edges <> OutOfFuel.
Proof.
  unfold NodesRoute.executeWorkflow. destruct (List.find _ nodes) as [startNode|]; [|done].
  pose proof (executeWithBranching_returns env nodes edges WorkflowExecutor.empty_context
                (WorkflowExecutor.id startNode)) as H.
  by destruct (NodesRoute.executeWithBranching _ _ _ _ _).
Qed.

(** C9: the handler always answers; a successful answer reports as
    [executedNodes] the length of the submitted nodes array. On the
    branch graph the traversal executes three of the four nodes, the
    logic node pruning the false branch, and the answer still reports
    four. *)
Theorem C9_executedNodes_is_node_count :
  (forall env body, NodesRoute.POST env body <> OutOfFuel)
  /\ (forall env body result executedNodes totalEdges,
        NodesRoute.POST env body = Done (NodesRoute.Succeeded result executedNodes totalEdges) ->
        exists nodes edges,
          NodesRoute.body_nodes body = Some nodes
          /\ NodesRoute.body_edges body = Some edges
          /\ executedNodes = length nodes
          /\ totalEdges = length edges)
  /\ match NodesRoute.executeWithBranching sample_executor_env branch_nodes branch_edges
             WorkflowExecutor.empty_context "1" with
     | Done st => NodesRoute.executedNodes st = ["1"; "2"; "3"]
     | _ => False
     end
  /\ match NodesRoute.POST sample_executor_env
             {| NodesRoute.body_nodes := Some branch_nodes;
                NodesRoute.body_edges := Some branch_edges |} with
     | Done (NodesRoute.Succeeded _ executedNodes _) => executedNodes = 4
     | _ => False
     end.
Proof.
  split.
  { intros env [[nodes|] [edges|]]; unfold NodesRoute.POST; cbn; try done.
    pose proof (executeWorkflow_returns env nodes edges).
    by destruct (NodesRoute.executeWorkflow env nodes edges). }
  split.
  { intros env [[nodes|] [edges|]] result executedNodes totalEdges;
      unfold NodesRoute.POST; cbn; try done.
    destruct (NodesRoute.executeWorkflow env nodes edges); try done.
    intros [= <- <- <-]. by exists nodes, edges. }
  split; vm_compute; reflexivity.
Qed.

Lemma C9_witness :
  match NodesRoute.POST sample_executor_env
          {| NodesRoute.body_nodes := Some branch_nodes;
             NodesRoute.body_edges := Some branch_edges |} with
  | Done (NodesRoute.Succeeded _ executedNodes _) => executedNodes = 4
  | _ => True
  end.
Proof.
  destruct (NodesRoute.POST sample_executor_env
              {| NodesRoute.body_nodes := Some branch_nodes;
                 NodesRoute.body_edges := Some branch_edges |})
    as [[result executedNodes totalEdges|]| |] eqn:E; try exact I.
  destruct (proj1 (proj2 C9_executedNodes_is_node_count) _ _ _ _ _ E)
    as (nodes & edges & Hn & He & -> & _).
  cbn in Hn. by injection Hn as <-.
Defined.

(** ** Branch selection in the class-based engine *)

(** C2 at the failing input: the logic node is left on its default
    condition, the current input. Its recorded result is [true], yet the
    chain follows the edge labelled "false": node "4" is executed and
    node "3" is not, because [executeLogicNode] evaluates the condition
    again after [setNodeOutput] has made the logic node's own output the
    current input. *)
Theorem C2_branch_taken_differs_from_recorded_result :
  match NodesRoute.executeWithBranching sample_executor_env default_condition_nodes branch_edges
          WorkflowExecutor.empty_context "1" with
  | Done st =>
      NodesRoute.executedNodes st = ["1"; "2"; "4"]
      /\ Js.get "result" <$> WorkflowExecutor.nodeOutputs (NodesRoute.context st) !! "2"
         = Some (JBool true)
      /\ WorkflowExecutor.nodeOutputs (NodesRoute.context st) !! "3" = None
      /\ is_Some (WorkflowExecutor.nodeOutputs (NodesRoute.context st) !! "4")
  | _ => False
  end.
Proof. vm_compute. repeat split. by eexists. Qed.

(** ** The results map *)

Lemma assoc_mapset_eq (k : string) (v : JsValue) (m : list (string * JsValue)) :
  Js.assoc k (JsMap.set k v m) = Some v.
Proof.
  induction m as [|[k' v'] m IH]; cbn; [by rewrite String.eqb_refl|].
  destruct (String.eqb k k') eqn:E; cbn; by rewrite ?String.eqb_refl, ?E.
Qed.

Lemma assoc_mapset_ne (k k' : string) (v : JsValue) (m : list (string * JsValue)) :
  k' <> k -> Js.assoc k' (JsMap.set k v m) = Js.assoc k' m.
Proof.
  intros Hne. induction m as [|[k0 v0] m IH]; cbn.
  - by apply String.eqb_neq in Hne as ->.
  - destruct (String.eqb_spec k k0) as [->|Hk]; cbn.
    + by apply String.eqb_neq in Hne as ->.
    + by rewrite IH.
Qed.

Lemma assoc_keys (k : string) (m : list (string * JsValue)) :
  k ∈ JsMap.keys m <-> exists v, Js.assoc k m = Some v.
Proof.
  unfold JsMap.keys. induction m as [|[k' v'] m IH]; cbn.
  - split; [by intros ?%elem_of_nil | by intros [v ?]].
  - rewrite elem_of_cons, IH. destruct (String.eqb_spec k k') as [->|Hne]; [|naive_solver].
    split; eauto.
Qed.

Lemma has_keys (k : string) (m : list (string * JsValue)) :
  JsMap.has k m = true <-> k ∈ JsMap.keys m.
Proof.
  rewrite assoc_keys. unfold JsMap.has. destruct (Js.assoc k m); [|naive_solver].
  split; eauto.
Qed.

Lemma keys_set_new (k : string) (v : JsValue) (m : list (string * JsValue)) :
  k ∉ JsMap.keys m -> JsMap.keys (JsMap.set k v m) = JsMap.keys m ++ [k].
Proof.
  unfold JsMap.keys. induction m as [|[k' v'] m IH]; cbn; [done|].
  intros [Hne Hk]%not_elem_of_cons.
  apply String.eqb_neq in Hne as ->. cbn. by rewrite IH.
Qed.

(** ** The node actions of the map-based engine *)

Lemma engine_legacy_lookup_returns (context : list (string * JsValue)) (r : Run string) :
  Engine.legacy_lookup context = Some r -> returns_or_throws r.
Proof.
  unfold Engine.legacy_lookup. destruct (List.find _ context) as [[k value]|].
  - intros [= <-]. auto with returns.
  - destruct (Js.is_undefined _); [discriminate|]. intros [= <-]. auto with returns.
Qed.

Lemma engine_node_reference_returns (methods : list string) (context : list (string * JsValue))
    (trimmedPath : string) (r : Run string) :
  Engine.node_reference methods context trimmedPath = Some r -> returns_or_throws r.
Proof.
  unfold Engine.node_reference.
  destruct (JsString.split_limit "." 2 trimmedPath) as [|nodeId [|property [|]]]; try discriminate.
  cbv zeta.
  match goal with |- match ?found with _ => _ end = _ -> _ => destruct found end.
  - intros [= <-]. auto with returns.
  - destruct (_ && _); [|discriminate]. intros [= <-]. auto with returns.
Qed.

Lemma engine_resolve_returns (methods : list string) (context : list (string * JsValue))
    (matched variablePath : string) :
  returns_or_throws (Engine.resolve methods context matched variablePath).
Proof.
  unfold Engine.resolve. cbv zeta.
  destruct (if JsString.includes _ Template.legacy_id then _ else None) as [r|] eqn:E.
  { destruct (JsString.includes _ Template.legacy_id); [|discriminate].
    by apply (engine_legacy_lookup_returns context). }
  destruct (if JsString.includes _ "." then _ else None) as [r|] eqn:E2.
  { destruct (JsString.includes _ "."); [|discriminate].
    by apply (engine_node_reference_returns methods context (JsString.trim variablePath)). }
  destruct (Js.is_undefined _); auto with returns.
Qed.

Lemma engine_processTemplate_returns (methods : list string) (template : JsValue)
    (context : list (string * JsValue)) :
  returns_or_throws (Engine.processTemplate methods template context).
Proof.
  destruct template; cbn; auto with returns.
  apply returns_bind; [|auto with returns].
  apply replace_run_returns. intros. apply engine_resolve_returns.
Qed.

#[global] Hint Resolve engine_processTemplate_returns : returns.

Lemma object_or_throws_bind {A : Type} (r : Run A) (k : A -> Run JsValue) :
  returns_or_throws r -> (forall a, object_or_throws (k a)) -> object_or_throws (r ≫= k).
Proof. intros Hr Hk. destruct r as [a| |]; cbn; [apply Hk | done | done]. Qed.

Lemma engine_legacy_lookup_type_error (context : list (string * JsValue)) (r : Run string) :
  Engine.legacy_lookup context = Some r -> throws_type_error_only r.
Proof.
  unfold Engine.legacy_lookup. destruct (List.find _ context) as [[k value]|].
  - intros [= <-]. auto with conversions.
  - destruct (Js.is_undefined _); [discriminate|]. intros [= <-]. auto with conversions.
Qed.

Lemma engine_node_reference_type_error (methods : list string)
    (context : list (string * JsValue)) (trimmedPath : string) (r : Run string) :
  Engine.node_reference methods context trimmedPath = Some r -> throws_type_error_only r.
Proof.
  unfold Engine.node_reference.
  destruct (JsString.split_limit "." 2 trimmedPath) as [|nodeId [|property [|]]]; try discriminate.
  cbv zeta.
  match goal with |- match ?found with _ => _ end = _ -> _ => destruct found end.
  - intros [= <-]. auto with conversions.
  - destruct (_ && _); [|discriminate]. intros [= <-]. auto with conversions.
Qed.

Lemma engine_resolve_type_error (methods : list string) (context : list (string * JsValue))
    (matched variablePath : string) :
  throws_type_error_only (Engine.resolve methods context matched variablePath).
Proof.
  unfold Engine.resolve. cbv zeta.
  destruct (if JsString.includes _ Template.legacy_id then _ else None) as [r|] eqn:E.
  { destruct (JsString.includes _ Template.legacy_id); [|discriminate].
    by apply (engine_legacy_lookup_type_error context). }
  destruct (if JsString.includes _ "." then _ else None) as [r|] eqn:E2.
  { destruct (JsString.includes _ "."); [|discriminate].
    by apply (engine_node_reference_type_error methods context (JsString.trim variablePath)). }
  destruct (Js.is_undefined _); auto with conversions.
Qed.

Lemma engine_processTemplate_type_error (methods : list string) (template : JsValue)
    (context : list (string * JsValue)) :
  throws_type_error_only (Engine.processTemplate methods template context).
Proof.
  destruct template; cbn; auto with conversions.
  apply type_error_bind; [|auto with conversions].
  apply replace_run_type_error. intros. apply engine_resolve_type_error.
Qed.

#[global] Hint Resolve engine_processTemplate_type_error : conversions.

(** A node action returns an object or throws. *)
Lemma engine_executeNode_cases (env : Engine.Env) (node : Engine.NodeData)
    (previousResults : list (string * JsValue)) (inputData : JsValue)
    (edges : list Engine.EdgeData) :
  (exists props, Engine.executeNode env node previousResults inputData edges = Done (JObj props))
  \/ (exists message, Engine.executeNode env node previousResults inputData edges = Thrown message).
Proof.
  assert (object_or_throws (Engine.executeNode env node previousResults inputData edges)) as H.
  { unfold Engine.executeNode. cbv zeta.
    repeat first
      [ exact I
      | apply object_or_throws_bind; [solve [settle]|intros ?]
      | match goal with
        | |- object_or_throws (if ?b then _ else _) => destruct b
        | |- object_or_throws (match ?x with _ => _ end) => destruct x
        end ]. }
  destruct (Engine.executeNode env node previousResults inputData edges) as [[]| |];
    try done; eauto.
Qed.


(** A loop whose body keeps a preorder on states and establishes, for
    its element, a property the preorder preserves. *)
Lemma for_each_post {A S : Type} (R : S -> S -> Prop) (P : A -> S -> Prop) (Q : Prop)
    (xs : list A) (body : A -> S -> Run S) (st : S) :
  (forall s, R s s) ->
  (forall s1 s2 s3, R s1 s2 -> R s2 s3 -> R s1 s3) ->
  (forall x s s', P x s -> R s s' -> P x s') ->
  (forall x s, x ∈ xs -> R st s ->
     match body x s with
     | Done s' => R s s' /\ P x s'
     | Thrown _ => True
     | OutOfFuel => Q
     end) ->
  match for_each xs body st with
  | Done s' => R st s' /\ forall x, x ∈ xs -> P x s'
  | Thrown _ => True
  | OutOfFuel => Q
  end.
Proof.
  intros Hrefl Htrans Hstable. revert st.
  induction xs as [|x xs IH]; intros st Hbody; cbn.
  - split; [apply Hrefl|]. by intros x ?%elem_of_nil.
  - pose proof (Hbody x st ltac:(left) (Hrefl st)) as Hx.
    destruct (body x st) as [s1| |]; cbn; [|done|done]. destruct Hx as [Hr Hp].
    assert (match for_each xs body s1 with
            | Done s' => R s1 s' /\ forall y, y ∈ xs -> P y s'
            | Thrown _ => True
            | OutOfFuel => Q
            end) as H.
    { apply IH. intros y s Hy Hs. apply Hbody; [by right|]. by apply (Htrans _ s1). }
    destruct (for_each xs body s1) as [s2| |]; [|done|done]. destruct H as [Hr2 Hp2].
    split; [by apply (Htrans _ s1)|].
    intros y [->|Hy]%elem_of_cons; [by apply (Hstable _ s1) | by apply Hp2].
Qed.

(** ** The dependency-aware traversal *)

Section DependencyAware.

Variable env : Engine.Env.
Variable nodes : list Engine.NodeData.
Variable edges : list Engine.EdgeData.
Variable inputData : JsValue.
Variable rank : string -> nat.

Local Abbreviation step := (dep_step env nodes edges inputData).
Local Abbreviation inv := (dep_inv env nodes edges inputData).
Local Abbreviation step_ordered C := (dep_step_ordered C env nodes edges inputData).

Lemma dep_step_refl (st : Engine.DepState) : step st st.
Proof.
  split; [done|]. split; [done|]. split; [done|].
  split; [exists []; by rewrite app_nil_r | done].
Qed.

Lemma dep_step_trans (s1 s2 s3 : Engine.DepState) : step s1 s2 -> step s2 s3 -> step s1 s3.
Proof.
  intros (Hx1 & Hd1 & Hn1 & [m1 Hc1] & Hi1) (Hx2 & Hd2 & Hn2 & [m2 Hc2] & Hi2).
  split; [congruence|]. split; [set_solver|]. split.
  { intros x Hx Hing. apply Hn1; [|done]. apply Hn2; [done|]. by rewrite Hx1. }
  split; [exists (m1 ++ m2); by rewrite Hc2, Hc1, app_assoc | auto].
Qed.

Lemma dep_step_ordered_refl (C : Prop) (st : Engine.DepState) : step_ordered C st st.
Proof. split; [apply dep_step_refl | auto]. Qed.

Lemma dep_step_ordered_trans (C : Prop) (s1 s2 s3 : Engine.DepState) :
  step_ordered C s1 s2 -> step_ordered C s2 s3 -> step_ordered C s1 s3.
Proof.
  intros [H1 O1] [H2 O2]. split; [by apply (dep_step_trans _ s2)|].
  intros HC Hinv Hord. apply O2; [done | by apply H1 | by apply O1].
Qed.

Lemma dep_step_ordered_weaken (C C' : Prop) (s1 s2 : Engine.DepState) :
  (C' -> C) -> step_ordered C s1 s2 -> step_ordered C' s1 s2.
Proof. intros HC [H1 O1]. split; [done | auto]. Qed.

Lemma unentered_mono (s1 s2 : Engine.DepState) :
  step s1 s2 -> size (unentered nodes s2) <= size (unentered nodes s1).
Proof.
  intros (Hx & Hd & _). apply subseteq_size. unfold unentered. rewrite Hx. set_solver.
Qed.

Lemma engine_find_id (nodeId : string) (node : Engine.NodeData) :
  List.find (fun n => String.eqb (Engine.id n) nodeId) nodes = Some node ->
  Engine.id node = nodeId /\ nodeId ∈ engine_ids nodes.
Proof.
  intros H. apply List.find_some in H as [Hin Heq]. apply String.eqb_eq in Heq.
  split; [done|]. unfold engine_ids. rewrite elem_of_list_to_set, list_elem_of_In, <- Heq.
  by apply in_map.
Qed.

Lemma engine_find_none (nodeId : string) :
  List.find (fun n => String.eqb (Engine.id n) nodeId) nodes = None ->
  nodeId ∉ engine_ids nodes.
Proof.
  intros H. unfold engine_ids. rewrite elem_of_list_to_set, list_elem_of_In, in_map_iff.
  intros (n & Hid & Hin). pose proof (List.find_none _ _ H n Hin) as Hn. cbn in Hn.
  rewrite Hid, String.eqb_refl in Hn. discriminate.
Qed.

(** Recording the result of a node whose id was not called yet. *)
Lemma calls_recorded_record (results : list (string * JsValue))
    (calls : list (string * list (string * JsValue))) (node : Engine.NodeData)
    (nodeResult : JsValue) :
  calls_recorded env nodes edges inputData results calls ->
  List.find (fun n => String.eqb (Engine.id n) (Engine.id node)) nodes = Some node ->
  Engine.id node ∉ map fst calls ->
  Engine.executeNode env node results inputData edges = Done nodeResult ->
  calls_recorded env nodes edges inputData
    (JsMap.set (Engine.id node) nodeResult results) (calls ++ [(Engine.id node, results)]).
Proof.
  intros (Hkeys & Hnodup & Hids & Hrec & Hsub) Hfind Hfresh Hrun.
  assert (forall k v, Js.assoc k results = Some v ->
            Js.assoc k (JsMap.set (Engine.id node) nodeResult results) = Some v) as Hkeep.
  { intros k v Hk. rewrite assoc_mapset_ne; [done|]. intros ->. apply Hfresh.
    rewrite <- Hkeys. apply assoc_keys. eauto. }
  split; [|split; [|split; [|split]]].
  - rewrite keys_set_new by (by rewrite Hkeys). by rewrite Hkeys, map_app.
  - rewrite map_app. apply NoDup_app. split; [done|]. split; [|apply NoDup_singleton].
    intros x Hx ->%list_elem_of_singleton. done.
  - intros x. rewrite map_app. intros [Hx|Hx]%elem_of_app; [by apply Hids|].
    apply list_elem_of_singleton in Hx as ->. by apply (engine_find_id _ _ Hfind).
  - intros x prev [Hin|Hin]%elem_of_app.
    + destruct (Hrec x prev Hin) as (n & r & Hf & Hr & Ha). exists n, r. auto.
    + apply list_elem_of_singleton in Hin as [= -> ->]. exists node, nodeResult.
      split; [done|]. split; [done|]. apply assoc_mapset_eq.
  - intros x prev [Hin|Hin]%elem_of_app k v Hk.
    + apply Hkeep. by apply (Hsub x prev).
    + apply list_elem_of_singleton in Hin as [= -> ->]. by apply Hkeep.
Qed.

(** Recording the result of a node that was not executed yet. *)
Lemma dep_inv_record (st : Engine.DepState) (node : Engine.NodeData) (nodeResult : JsValue)
    (executing' : gset string) :
  inv st ->
  List.find (fun n => String.eqb (Engine.id n) (Engine.id node)) nodes = Some node ->
  Engine.id node ∉ Engine.executed st ->
  Engine.executeNode env node (Engine.dep_results st) inputData edges = Done nodeResult ->
  inv {| Engine.executed := {[Engine.id node]} ∪ Engine.executed st;
         Engine.executing := executing';
         Engine.dep_results := JsMap.set (Engine.id node) nodeResult (Engine.dep_results st);
         Engine.dep_calls := Engine.dep_calls st ++ [(Engine.id node, Engine.dep_results st)] |}.
Proof.
  intros [Hrec Hexec] Hfind Hnew Hrun.
  assert (Engine.id node ∉ map fst (Engine.dep_calls st)) as Hfresh.
  { intros Hin. apply Hnew. rewrite Hexec. by apply elem_of_list_to_set. }
  split; cbn; [by apply calls_recorded_record|].
  rewrite map_app, list_to_set_app_L, Hexec. cbn. set_solver.
Qed.

(** What a call of [executeNodeWithDependencies] returns: a step that
    keeps [predecessors_recorded] when the edges go up along [rank] and
    the node is below everything on the call stack; on return the node
    is executed, unless it was on the call stack or is no node of the
    graph. The call runs out of fuel only when the fuel is not above the
    number of node ids not entered yet. *)
Lemma dep_exec_spec (fuel : nat) :
  forall nodeId st,
    match Engine.executeNodeWithDependencies env nodes edges inputData fuel nodeId st with
    | Done st' =>
        step_ordered (acyclic_by rank edges
                      /\ forall m, m ∈ Engine.executing st -> rank nodeId < rank m) st st'
        /\ (nodeId ∈ Engine.executed st' \/ nodeId ∈ Engine.executing st
            \/ nodeId ∉ engine_ids nodes)
    | Thrown _ => True
    | OutOfFuel => ~ size (unentered nodes st) < fuel
    end.
Proof.
  induction fuel as [|fuel IH]; intros nodeId st; [cbn; lia|].
  cbn [Engine.executeNodeWithDependencies].
  destruct (bool_decide (nodeId ∈ Engine.executed st)) eqn:Hdone.
  { apply bool_decide_eq_true in Hdone. cbn. split; [apply dep_step_ordered_refl | by left]. }
  destruct (bool_decide (nodeId ∈ Engine.executing st)) eqn:Hstack.
  { apply bool_decide_eq_true in Hstack. cbn.
    split; [apply dep_step_ordered_refl | right; by left]. }
  apply bool_decide_eq_false in Hdone, Hstack. cbn [orb].
  destruct (List.find _ nodes) as [node|] eqn:Hfind; cycle 1.
  { split; [|right; right; by apply engine_find_none].
    split; [|auto]. split; [cbn; set_solver|]. split; [done|]. split; [done|].
    split; [exists []; by rewrite app_nil_r | done]. }
  destruct (engine_find_id _ _ Hfind) as [Hid Hin].
  set (st1 := {| Engine.executed := Engine.executed st;
                 Engine.executing := {[nodeId]} ∪ Engine.executing st;
                 Engine.dep_results := Engine.dep_results st;
                 Engine.dep_calls := Engine.dep_calls st |}).
  set (C := acyclic_by rank edges /\ forall m, m ∈ Engine.executing st -> rank nodeId < rank m).
  set (dependencies := List.filter (fun edge => String.eqb (Engine.target edge) nodeId) edges).
  assert (size (unentered nodes st1) < size (unentered nodes st)) as Hless.
  { apply subset_size. unfold unentered. cbn. set_solver. }
  assert (match for_each dependencies
                  (fun dep => Engine.executeNodeWithDependencies env nodes edges inputData fuel
                                (Engine.source dep)) st1 with
          | Done s' =>
              step_ordered C st1 s'
              /\ forall dep, dep ∈ dependencies ->
                   Engine.source dep ∈ Engine.executed s'
                   \/ Engine.source dep ∈ Engine.executing st1
                   \/ Engine.source dep ∉ engine_ids nodes
          | Thrown _ => True
          | OutOfFuel => ~ size (unentered nodes st) < S fuel
          end) as Hloop.
  { apply (for_each_post (step_ordered C)
             (fun dep s' => Engine.source dep ∈ Engine.executed s'
                            \/ Engine.source dep ∈ Engine.executing st1
                            \/ Engine.source dep ∉ engine_ids nodes)).
    - apply dep_step_ordered_refl.
    - apply dep_step_ordered_trans.
    - intros dep s s' [Hs|Hs] [(_ & Hsub & _) _]; [left; set_solver | by right].
    - intros dep s Hdep [Hs Hso]. specialize (IH (Engine.source dep) s).
      destruct (Engine.executeNodeWithDependencies _ _ _ _ _ _ _) as [s'| |]; [|done|].
      + destruct IH as [Hstep Hpost]. split.
        * eapply dep_step_ordered_weaken; [|exact Hstep].
          intros [Hacyc Hrank]. split; [done|]. intros m Hm.
          destruct Hs as (Hx & _). rewrite Hx in Hm.
          apply list_elem_of_In, filter_In in Hdep as [Hdep Htarget].
          apply String.eqb_eq in Htarget. apply list_elem_of_In in Hdep.
          pose proof (Hacyc dep Hdep) as Hup. rewrite Htarget in Hup.
          cbn in Hm. apply elem_of_union in Hm as [->%elem_of_singleton|Hm]; [done|].
          specialize (Hrank m Hm). lia.
        * destruct Hs as (Hx & _). rewrite Hx in Hpost. done.
      + pose proof (unentered_mono _ _ Hs). lia. }
  destruct (for_each dependencies _ st1) as [st2| |]; [|done|done].
  destruct Hloop as [[Hstep12 Hord12] Hdeps]. cbn.
  destruct (engine_executeNode_cases env node (Engine.dep_results st2) inputData edges)
    as [[props Hrun]|[message ->]]; [|done].
  rewrite Hrun. cbn.
  destruct Hstep12 as (Hx12 & Hd12 & Hn12 & [more Hc12] & Hi12).
  assert (nodeId ∉ Engine.executed st2) as Hnew.
  { intros H. apply Hdone. apply (Hn12 nodeId H). cbn. set_solver. }
  split; [|left; set_solver].
  assert (inv st -> inv {| Engine.executed := {[nodeId]} ∪ Engine.executed st2;
                           Engine.executing := Engine.executing st2 ∖ {[nodeId]};
                           Engine.dep_results :=
                             JsMap.set (Engine.id node) (JObj props) (Engine.dep_results st2);
                           Engine.dep_calls :=
                             Engine.dep_calls st2 ++ [(Engine.id node, Engine.dep_results st2)] |})
    as Hinv.
  { intros Hi. rewrite <- Hid at 1. apply dep_inv_record; rewrite ?Hid; auto. }
  split.
  - split; [cbn; rewrite Hx12; cbn; set_solver|]. split; [cbn; set_solver|]. split.
    { cbn. intros x [->%elem_of_singleton|Hx]%elem_of_union Hing; [done|].
      apply (Hn12 x Hx). cbn. set_solver. }
    split; [|exact Hinv].
    exists (more ++ [(Engine.id node, Engine.dep_results st2)]). cbn.
    by rewrite Hc12, app_assoc.
  - intros HC Hi Hord. cbn.
    pose proof (Hord12 HC Hi Hord) as Hord2. pose proof (Hi12 Hi) as Hi2.
    intros x prev [Hcall|Hcall]%elem_of_app; [by apply (Hord2 x prev)|].
    apply list_elem_of_singleton in Hcall as [= -> ->].
    intros e He Htarget Hsrc. rewrite Hid in Htarget.
    assert (e ∈ dependencies) as Hdep.
    { apply list_elem_of_In, filter_In. split; [by apply list_elem_of_In|].
      by apply String.eqb_eq. }
    destruct HC as [Hacyc Hrank]. pose proof (Hacyc e He) as Hup. rewrite Htarget in Hup.
    destruct (Hdeps e Hdep) as [Hex|[Hing|Hno]]; [| |done].
    + destruct Hi2 as [(Hkeys & _) Hexec]. apply has_keys. rewrite Hkeys.
      rewrite Hexec in Hex. by apply elem_of_list_to_set in Hex.
    + cbn in Hing. apply elem_of_union in Hing as [Heq%elem_of_singleton|Hing].
      * rewrite Heq in Hup. lia.
      * specialize (Hrank _ Hing). lia.
Qed.

Lemma engine_ids_size (used : gset string) :
  size (engine_ids nodes ∖ used) < S (length nodes).
Proof.
  pose proof (size_list_to_set_le (map Engine.id nodes)) as H2.
  rewrite length_map in H2. unfold engine_ids.
  assert (list_to_set (map Engine.id nodes) ∖ used
          ⊆ (list_to_set (map Engine.id nodes) : gset string)) as H3 by set_solver.
  apply subseteq_size in H3. lia.
Qed.

Lemma dep_inv_initial :
  inv {| Engine.executed := ∅; Engine.executing := ∅;
         Engine.dep_results := []; Engine.dep_calls := [] |}.
Proof.
  split; [|done]. split; [done|]. split; [apply NoDup_nil_2|].
  split; [by intros x ?%elem_of_nil|].
  split; by intros x prev ?%elem_of_nil.
Qed.

(** The whole traversal from the empty results map: it returns or
    throws; what it returns satisfies the invariant, has executed
    exactly the node ids of the graph, and has [predecessors_recorded]
    when the edges go up along [rank]. *)
Lemma dep_workflow_spec :
  match Engine.executeDependencyAwareWorkflow env nodes edges inputData [] with
  | Done st =>
      inv st
      /\ Engine.executed st = engine_ids nodes
      /\ (acyclic_by rank edges -> predecessors_recorded nodes edges (Engine.dep_calls st))
  | Thrown _ => True
  | OutOfFuel => False
  end.
Proof.
  unfold Engine.executeDependencyAwareWorkflow.
  set (st0 := {| Engine.executed := ∅; Engine.executing := ∅;
                 Engine.dep_results := []; Engine.dep_calls := [] |}).
  pose proof (for_each_post (step_ordered (acyclic_by rank edges))
                (fun x s' => x ∈ Engine.executed s') False
                (map Engine.id nodes)
                (Engine.executeNodeWithDependencies env nodes edges inputData (S (length nodes)))
                st0) as Hloop.
  destruct (for_each _ _ st0) as [st| |]; [|done|].
  - destruct Hloop as [[Hstep Hord] Hall].
    + apply dep_step_ordered_refl.
    + apply dep_step_ordered_trans.
    + intros x s s' Hx [(_ & Hsub & _) _]. set_solver.
    + intros x s Hx [(Hing & _) _].
      pose proof (dep_exec_spec (S (length nodes)) x s) as Hspec.
      destruct (Engine.executeNodeWithDependencies _ _ _ _ _ _ _) as [s'| |]; [|done|].
      * destruct Hspec as [Hs Hpost]. split.
        { eapply dep_step_ordered_weaken; [|exact Hs]. intros Hacyc. split; [done|].
          intros m Hm. rewrite Hing in Hm. set_solver. }
        destruct Hpost as [Hpost|[Hpost|Hpost]]; [done | rewrite Hing in Hpost; set_solver |].
        exfalso. apply Hpost. unfold engine_ids. by apply elem_of_list_to_set.
      * apply Hspec. apply engine_ids_size.
    + pose proof (proj2 (proj2 (proj2 (proj2 Hstep))) dep_inv_initial) as Hinv.
      split; [done|]. split.
      * apply set_eq. intros x. split.
        { destruct Hinv as [(_ & _ & Hids & _) Hexec]. rewrite Hexec.
          intros Hx%elem_of_list_to_set. by apply Hids. }
        { unfold engine_ids. intros Hx%elem_of_list_to_set. by apply Hall. }
      * intros Hacyc. apply Hord; [done | apply dep_inv_initial|].
        by intros x prev ?%elem_of_nil.
  - apply Hloop.
    + apply dep_step_ordered_refl.
    + apply dep_step_ordered_trans.
    + intros x s s' Hx [(_ & Hsub & _) _]. set_solver.
    + intros x s Hx [(Hing & _) _].
      pose proof (dep_exec_spec (S (length nodes)) x s) as Hspec.
      destruct (Engine.executeNodeWithDependencies _ _ _ _ _ _ _) as [s'| |]; [|done|].
      * destruct Hspec as [Hs Hpost]. split.
        { eapply dep_step_ordered_weaken; [|exact Hs]. intros Hacyc. split; [done|].
          intros m Hm. rewrite Hing in Hm. set_solver. }
        destruct Hpost as [Hpost|[Hpost|Hpost]]; [done | rewrite Hing in Hpost; set_solver |].
        exfalso. apply Hpost. unfold engine_ids. by apply elem_of_list_to_set.
      * apply Hspec. apply engine_ids_size.
Qed.

End DependencyAware.

(** C1 as stated fails on a cycle: with the edges a -> b and b -> a,
    node "b" is executed first, on an empty results map, although its
    predecessor "a" is a node of the graph. *)
Lemma C1_counterexample :
  Engine.hasLogicNodes cycle_nodes = false
  /\ match Engine.run_strategy sample_env cycle_nodes cycle_edges (JObj []) with
     | Done (results, calls) => ~ predecessors_recorded cycle_nodes cycle_edges calls
     | _ => False
     end.
Proof.
  split; [reflexivity|].
  destruct (Engine.run_strategy sample_env cycle_nodes cycle_edges (JObj []))
    as [[results calls]| |] eqn:E; vm_compute in E; try discriminate.
  injection E as <- <-. intros H.
  specialize (H "b" [] ltac:(left)
                {| Engine.edge_id := "ab"; Engine.source := "a"; Engine.target := "b";
                   Engine.sourceHandle := None |}
                ltac:(left) eq_refl).
  cbn in H. discriminate H. unfold engine_ids. cbn. set_solver.
Qed.

(** C1, amended: on a graph without logic node the engine runs the
    dependency-aware traversal, which returns or throws. When it
    returns, the node action ran exactly once for every node id of the
    graph and for nothing else; the keys of the results map are these
    ids, each once, in execution order, and each holds what the action
    of the node returned. When moreover the edges form no cycle (they go
    up along some rank), every call of a node action was handed a
    results map that already held the output of each predecessor that is
    a node of the graph. *)
Theorem C1_dependency_aware_once_and_ordered (env : Engine.Env) (nodes : list Engine.NodeData)
    (edges : list Engine.EdgeData) (inputData : JsValue) :
  Engine.hasLogicNodes nodes = false ->
  Engine.run_strategy env nodes edges inputData <> OutOfFuel
  /\ forall results calls,
       Engine.run_strategy env nodes edges inputData = Done (results, calls) ->
       calls_recorded env nodes edges inputData results calls
       /\ (forall nodeId, nodeId ∈ map Engine.id nodes <-> nodeId ∈ map fst calls)
       /\ (forall nodeId, nodeId ∈ map Engine.id nodes <-> nodeId ∈ JsMap.keys results)
       /\ NoDup (JsMap.keys results)
       /\ (forall rank, acyclic_by rank edges -> predecessors_recorded nodes edges calls).
Proof.
  intros Hlogic. unfold Engine.run_strategy. rewrite Hlogic.
  pose proof (dep_workflow_spec env nodes edges inputData) as Hspec.
  destruct (Engine.executeDependencyAwareWorkflow env nodes edges inputData []) as [st| |] eqn:E;
    cbn; [|split; [done|intros; discriminate]|].
  - split; [done|]. intros results calls [= <- <-].
    destruct (Hspec (fun _ => 0)) as ([Hrec Hexec] & Hids & _).
    split; [exact Hrec|].
    assert (forall nodeId, nodeId ∈ map Engine.id nodes <-> nodeId ∈ map fst (Engine.dep_calls st))
      as Hsame.
    { intros nodeId. rewrite <- (elem_of_list_to_set (C := gset string) nodeId (map fst _)).
      rewrite <- Hexec, Hids. unfold engine_ids. by rewrite elem_of_list_to_set. }
    split; [exact Hsame|]. destruct Hrec as (Hkeys & Hnodup & _).
    split; [by rewrite Hkeys|]. split; [by rewrite Hkeys|].
    intros rank Hacyc. by apply (Hspec rank).
  - by specialize (Hspec (fun _ => 0)).
Qed.

Lemma C1_witness :
  match Engine.run_strategy sample_env merge_nodes merge_edges (JObj []) with
  | Done (results, calls) =>
      JsMap.keys results = map fst calls
      /\ predecessors_recorded merge_nodes merge_edges calls
  | _ => True
  end.
Proof.
  pose proof (C1_dependency_aware_once_and_ordered sample_env merge_nodes merge_edges (JObj [])
                eq_refl) as [_ H].
  destruct (Engine.run_strategy sample_env merge_nodes merge_edges (JObj []))
    as [[results calls]| |]; [|exact I|exact I].
  destruct (H results calls eq_refl) as ((Hkeys & _) & _ & _ & _ & Hord).
  split; [exact Hkeys|]. apply (Hord merge_rank).
  intros e He. apply list_elem_of_In in He. cbn in He.
  destruct He as [<-|[<-|[]]]; vm_compute; lia.
Defined.

(** ** The branching traversal of the map-based engine *)

Section Branching.

Variable env : Engine.Env.
Variable nodes : list Engine.NodeData.
Variable edges : list Engine.EdgeData.
Variable inputData : JsValue.
Variable startNodeId : string.

Local Abbreviation bstep := (branch_step env nodes edges inputData).
Local Abbreviation binv := (branch_inv env nodes edges inputData).
Local Abbreviation bstep_justified C :=
  (branch_step_justified C env nodes edges inputData startNodeId).

Lemma branch_step_refl (st : Engine.BranchState) : bstep st st.
Proof. split; [done|]. split; [exists []; by rewrite app_nil_r | auto]. Qed.

Lemma branch_step_trans (s1 s2 s3 : Engine.BranchState) : bstep s1 s2 -> bstep s2 s3 -> bstep s1 s3.
Proof.
  intros (Hv1 & [m1 Hc1] & Hi1) (Hv2 & [m2 Hc2] & Hi2).
  split; [set_solver|]. split; [exists (m1 ++ m2); by rewrite Hc2, Hc1, app_assoc|].
  intros Hinv. destruct (Hi1 Hinv) as [Hinv2 Hk1]. destruct (Hi2 Hinv2) as [Hinv3 Hk2]. auto.
Qed.

Lemma branch_step_justified_refl (C : Prop) (st : Engine.BranchState) : bstep_justified C st st.
Proof. split; [apply branch_step_refl | auto]. Qed.

Lemma branch_step_justified_trans (C : Prop) (s1 s2 s3 : Engine.BranchState) :
  bstep_justified C s1 s2 -> bstep_justified C s2 s3 -> bstep_justified C s1 s3.
Proof.
  intros [H1 J1] [H2 J2]. split; [by apply (branch_step_trans _ s2)|].
  intros HC Hinv Hj. apply J2; [done | by apply H1 | by apply J1].
Qed.

Lemma reached_by_stable (r1 r2 : list (string * JsValue)) (nodeId : string) :
  (forall k v, Js.assoc k r1 = Some v -> Js.assoc k r2 = Some v) ->
  reached_by nodes edges startNodeId r1 nodeId -> reached_by nodes edges startNodeId r2 nodeId.
Proof.
  intros Hst [->|(e & node & r & Hf & Ha & Hfol & Ht)]; [by left|].
  right. exists e, node, r. auto.
Qed.

(** Executing a node that was not visited yet. *)
Lemma branch_step_execute (st : Engine.BranchState) (node : Engine.NodeData)
    (nodeResult : JsValue) :
  Engine.id node ∉ Engine.visited st ->
  List.find (fun n => String.eqb (Engine.id n) (Engine.id node)) nodes = Some node ->
  Engine.executeNode env node (Engine.results st) inputData edges = Done nodeResult ->
  bstep_justified (reached_by nodes edges startNodeId (Engine.results st) (Engine.id node)) st
    {| Engine.visited := {[Engine.id node]} ∪ Engine.visited st;
       Engine.results := JsMap.set (Engine.id node) nodeResult (Engine.results st);
       Engine.calls := Engine.calls st ++ [(Engine.id node, Engine.results st)] |}.
Proof.
  intros Hnew Hfind Hrun.
  assert (binv st -> forall k v, Js.assoc k (Engine.results st) = Some v ->
            Js.assoc k (JsMap.set (Engine.id node) nodeResult (Engine.results st)) = Some v)
    as Hstable.
  { intros [(Hkeys & _) Hvis] k v Hk. rewrite assoc_mapset_ne; [done|].
    intros ->. apply Hnew, Hvis. rewrite <- Hkeys. apply assoc_keys. eauto. }
  split; [split; [cbn; set_solver|split]|].
  - by exists [(Engine.id node, Engine.results st)].
  - intros Hinv. split; [|by apply Hstable]. destruct Hinv as [Hrec Hvis]. split; cbn.
    + apply calls_recorded_record; auto.
    + intros k. rewrite map_app. intros [Hk|Hk]%elem_of_app; [set_solver|].
      apply list_elem_of_singleton in Hk as ->. set_solver.
  - intros Hreach Hinv Hj k. cbn. rewrite map_app.
    intros [Hk|Hk]%elem_of_app.
    + apply (reached_by_stable (Engine.results st)); [by apply Hstable | by apply Hj].
    + apply list_elem_of_singleton in Hk as ->.
      apply (reached_by_stable (Engine.results st)); [by apply Hstable | done].
Qed.

(** What a call of the chain returns is a step that keeps [justified]
    when the node it is called on was reached; the call runs out of fuel
    only when the fuel is not above the number of node ids not visited
    yet. *)
Lemma branch_chain_spec (fuel : nat) :
  forall nodeId st,
    match Engine.executeNodeChain env nodes edges inputData fuel nodeId st with
    | Done st' =>
        bstep_justified (reached_by nodes edges startNodeId (Engine.results st) nodeId) st st'
    | Thrown _ => True
    | OutOfFuel => ~ size (engine_ids nodes ∖ Engine.visited st) < fuel
    end.
Proof.
  induction fuel as [|fuel IH]; intros nodeId st; [cbn; lia|].
  cbn [Engine.executeNodeChain].
  destruct (bool_decide (nodeId ∈ Engine.visited st)) eqn:Hvis;
    [apply branch_step_justified_refl|].
  apply bool_decide_eq_false in Hvis.
  destruct (List.find _ nodes) as [node|] eqn:Hfind; cycle 1.
  { split; [|auto]. split; [cbn; set_solver|]. split; [exists []; by rewrite app_nil_r|].
    intros [Hrec Hv]. split; [|auto]. split; [done|]. cbn. set_solver. }
  destruct (engine_find_id _ _ _ Hfind) as [Hid Hin]. subst nodeId. cbn.
  destruct (engine_executeNode_cases env node (Engine.results st) inputData edges)
    as [[props Hrun]|[message ->]]; [|done].
  rewrite Hrun. cbn.
  pose proof (branch_step_execute st node (JObj props) Hvis Hfind Hrun) as Hexec.
  set (st2 := {| Engine.visited := {[Engine.id node]} ∪ Engine.visited st;
                 Engine.results := JsMap.set (Engine.id node) (JObj props) (Engine.results st);
                 Engine.calls := Engine.calls st ++ [(Engine.id node, Engine.results st)] |}) in *.
  assert (size (engine_ids nodes ∖ Engine.visited st2)
          < size (engine_ids nodes ∖ Engine.visited st)) as Hless.
  { apply (unvisited_decrease _ _ _ Hin Hvis). }
  assert (forall e, e ∈ followed edges node (JObj props) ->
            reached_by nodes edges startNodeId (Engine.results st2) (Engine.target e)) as Hreach.
  { intros e He. right. exists e, node, (JObj props).
    assert (Engine.source e = Engine.id node) as Hsrc.
    { unfold followed in He.
      destruct (String.eqb (Engine.type node) "logic").
      - destruct (List.find (fun edge => bool_decide _) _) as [x|] eqn:Hx;
          [|by apply elem_of_nil in He].
        apply list_elem_of_singleton in He as ->.
        apply List.find_some in Hx as [Hx _]. apply filter_In in Hx as [_ Hx].
        by apply String.eqb_eq.
      - apply list_elem_of_In, filter_In in He as [_ He]. by apply String.eqb_eq. }
    rewrite Hsrc. split; [done|]. split; [|done]. apply assoc_mapset_eq. }
  unfold followed in Hreach.
  destruct (String.eqb (Engine.type node) "logic").
  - unfold expected_handle in Hreach.
    destruct (List.find (fun edge => bool_decide _) _) as [targetEdge|]; [|exact Hexec].
    specialize (IH (Engine.target targetEdge) st2).
    destruct (Engine.executeNodeChain _ _ _ _ _ _ _) as [st'| |]; [|done|lia].
    apply (branch_step_justified_trans _ _ st2); [exact Hexec|].
    destruct IH as [Hs Hj]. split; [done|]. intros _. apply Hj, Hreach. left.
  - assert (match for_each
                    (List.filter (fun edge => String.eqb (Engine.source edge) (Engine.id node)) edges)
                    (fun edge => Engine.executeNodeChain env nodes edges inputData fuel
                                   (Engine.target edge)) st2 with
            | Done s' => bstep_justified (binv st2) st2 s'
            | Thrown _ => True
            | OutOfFuel => ~ size (engine_ids nodes ∖ Engine.visited st) < S fuel
            end) as Hloop.
    { apply for_each_step;
        [apply branch_step_justified_refl | apply branch_step_justified_trans|].
      intros e s He [Hs _]. specialize (IH (Engine.target e) s).
      destruct (Engine.executeNodeChain _ _ _ _ _ _ _) as [s'| |]; [|done|].
      - destruct IH as [Hs' Hj]. split; [done|]. intros Hinv2. apply Hj.
        apply (reached_by_stable (Engine.results st2)); [|by apply Hreach].
        by apply Hs.
      - pose proof (unvisited_mono (engine_ids nodes) _ _ (proj1 Hs)). lia. }
    destruct (for_each _ _ st2) as [st'| |]; [|done|done].
    apply (branch_step_justified_trans _ _ st2); [exact Hexec|].
    destruct Hloop as [Hs Hj]. split; [done|]. intros _ Hinv2. by apply Hj.
Qed.

End Branching.

Lemma followed_in_edges (edges : list Engine.EdgeData) (node : Engine.NodeData)
    (nodeResult : JsValue) (e : Engine.EdgeData) :
  e ∈ followed edges node nodeResult -> e ∈ edges /\ Engine.source e = Engine.id node.
Proof.
  unfold followed. destruct (String.eqb (Engine.type node) "logic").
  - destruct (List.find (fun edge => bool_decide _) _) as [x|] eqn:Hx;
      [|by intros ?%elem_of_nil].
    intros ->%list_elem_of_singleton. apply List.find_some in Hx as [Hx _].
    apply filter_In in Hx as [Hx Hs]. apply String.eqb_eq in Hs.
    split; [by apply list_elem_of_In | done].
  - intros [He Hs]%list_elem_of_In%filter_In. apply String.eqb_eq in Hs.
    split; [by apply list_elem_of_In | done].
Qed.

Lemma followed_logic (edges : list Engine.EdgeData) (node : Engine.NodeData)
    (nodeResult : JsValue) (e : Engine.EdgeData) :
  Engine.type node = "logic" ->
  e ∈ followed edges node nodeResult ->
  followed edges node nodeResult = [e]
  /\ e ∈ edges
  /\ Engine.source e = Engine.id node
  /\ Engine.sourceHandle e = Some (expected_handle nodeResult).
Proof.
  intros Hty. unfold followed. rewrite Hty. cbn.
  destruct (List.find (fun edge => bool_decide _) _) as [x|] eqn:Hx;
    [|by intros ?%elem_of_nil].
  intros ->%list_elem_of_singleton. split; [done|].
  apply List.find_some in Hx as [Hin Hh]. apply filter_In in Hin as [Hin Hs].
  apply bool_decide_eq_true in Hh. apply String.eqb_eq in Hs.
  split; [by apply list_elem_of_In | done].
Qed.

(** The result a logic node records is the boolean its condition
    evaluated to. *)
Lemma logic_result_recorded (env : Engine.Env) (node : Engine.NodeData)
    (previousResults : list (string * JsValue)) (inputData : JsValue)
    (edges : list Engine.EdgeData) (nodeResult : JsValue) :
  Engine.type node = "logic" ->
  Engine.executeNode env node previousResults inputData edges = Done nodeResult ->
  exists processedCondition conditionResult,
    Engine.processTemplate (Engine.arrayMethods env)
      (Js.or (Js.config_get "condition" (Engine.config node)) (JStr "true")) previousResults
    = Done processedCondition
    /\ Engine.evaluateCondition processedCondition
         (Js.or (Js.config_get "compareValue" (Engine.config node)) (JStr "true"))
         (Js.or (Js.config_get "operator" (Engine.config node)) (JStr "equals"))
         (Engine.effectiveInputData (Engine.id node) edges previousResults inputData)
       = Done conditionResult
    /\ Js.get "result" nodeResult = JBool conditionResult.
Proof.
  intros Hty. unfold Engine.executeNode. rewrite Hty. cbn [String.eqb Ascii.eqb Bool.eqb].
  cbv zeta. intros H.
  apply bind_Done in H as (processedCondition & Hp & H).
  apply bind_Done in H as (conditionResult & Hc & H).
  apply bind_Done in H as (? & _ & H). apply bind_Done in H as (? & _ & H).
  apply bind_Done in H as (? & _ & H). injection H as <-.
  exists processedCondition, conditionResult. by repeat split.
Qed.

Lemma branch_inv_initial (env : Engine.Env) (nodes : list Engine.NodeData)
    (edges : list Engine.EdgeData) (inputData : JsValue) :
  branch_inv env nodes edges inputData
    {| Engine.visited := ∅; Engine.results := []; Engine.calls := [] |}.
Proof.
  split; [|by intros x ?%elem_of_nil]. split; [done|]. split; [apply NoDup_nil_2|].
  split; [by intros x ?%elem_of_nil|].
  split; by intros x prev ?%elem_of_nil.
Qed.

(** The branching traversal from the empty results map returns or
    throws; what it returns satisfies the invariant, and every executed
    node is the start node or the target of an edge followed after an
    executed node. *)
Lemma branching_workflow_spec (env : Engine.Env) (nodes : list Engine.NodeData)
    (edges : list Engine.EdgeData) (inputData : JsValue) (startNodeId : string) :
  match Engine.executeBranchingWorkflow env nodes edges inputData startNodeId [] with
  | Done st => branch_inv env nodes edges inputData st /\ justified nodes edges startNodeId st
  | Thrown _ => True
  | OutOfFuel => False
  end.
Proof.
  unfold Engine.executeBranchingWorkflow.
  pose proof (branch_chain_spec env nodes edges inputData startNodeId (S (length nodes))
                startNodeId {| Engine.visited := ∅; Engine.results := []; Engine.calls := [] |})
    as Hspec.
  destruct (Engine.executeNodeChain _ _ _ _ _ _ _) as [st| |]; [|done|].
  - destruct Hspec as [(_ & _ & Hinv) Hj].
    split; [apply Hinv, branch_inv_initial|].
    apply Hj; [by left | apply branch_inv_initial|]. by intros x ?%elem_of_nil.
  - apply Hspec. cbn. apply engine_ids_size.
Qed.

(** In the map-based engine the claim on branch selection holds: after a
    logic node at most one edge is followed, the first one labelled with
    the recorded result; a node whose only incoming edge leaves a logic
    node without being the one selected there is not executed and is no
    key of the results map. *)
Lemma engine_pruned_branch (env : Engine.Env) (nodes : list Engine.NodeData)
    (edges : list Engine.EdgeData) (inputData : JsValue) (startNodeId : string)
    (st : Engine.BranchState) (nodeId : string) (e : Engine.EdgeData)
    (logicNode : Engine.NodeData) :
  Engine.executeBranchingWorkflow env nodes edges inputData startNodeId [] = Done st ->
  nodeId <> startNodeId ->
  (forall e', e' ∈ edges -> Engine.target e' = nodeId -> e' = e) ->
  List.find (fun n => String.eqb (Engine.id n) (Engine.source e)) nodes = Some logicNode ->
  Engine.type logicNode = "logic" ->
  (forall nodeResult, Js.assoc (Engine.source e) (Engine.results st) = Some nodeResult ->
                      Engine.sourceHandle e <> Some (expected_handle nodeResult)) ->
  (nodeId ∉ map fst (Engine.calls st)) /\ (nodeId ∉ JsMap.keys (Engine.results st)).
Proof.
  intros Hrun Hstart Honly Hfind Hlogic Hlabel.
  pose proof (branching_workflow_spec env nodes edges inputData startNodeId) as Hspec.
  rewrite Hrun in Hspec. destruct Hspec as [[(Hkeys & _) _] Hj].
  rewrite Hkeys. assert (nodeId ∉ map fst (Engine.calls st)) as H; [|done].
  intros Hin. destruct (Hj nodeId Hin) as [->|(e' & node & r & Hf & Ha & Hfol & Ht)]; [done|].
  pose proof (proj1 (followed_in_edges _ _ _ _ Hfol)) as He'.
  pose proof (Honly e' He' Ht) as ->. rewrite Hfind in Hf. injection Hf as <-.
  destruct (followed_logic _ _ _ _ Hlogic Hfol) as (_ & _ & _ & Hh).
  by apply (Hlabel r Ha).
Qed.

(** When no outgoing edge of a logic node carries the selected label,
    the call on that node executes it and returns: nothing else is
    visited or executed. *)
Lemma engine_logic_no_match (env : Engine.Env) (nodes : list Engine.NodeData)
    (edges : list Engine.EdgeData) (inputData : JsValue) (fuel : nat) (nodeId : string)
    (st : Engine.BranchState) (node : Engine.NodeData) (nodeResult : JsValue) :
  nodeId ∉ Engine.visited st ->
  List.find (fun n => String.eqb (Engine.id n) nodeId) nodes = Some node ->
  Engine.type node = "logic" ->
  Engine.executeNode env node (Engine.results st) inputData edges = Done nodeResult ->
  (forall e, e ∈ edges -> Engine.source e = nodeId ->
             Engine.sourceHandle e <> Some (expected_handle nodeResult)) ->
  Engine.executeNodeChain env nodes edges inputData (S fuel) nodeId st
  = Done {| Engine.visited := {[nodeId]} ∪ Engine.visited st;
            Engine.results := JsMap.set (Engine.id node) nodeResult (Engine.results st);
            Engine.calls := Engine.calls st ++ [(Engine.id node, Engine.results st)] |}.
Proof.
  intros Hvis Hfind Hlogic Hrun Hnone. cbn [Engine.executeNodeChain].
  apply (bool_decide_eq_false_2 (nodeId ∈ Engine.visited st)) in Hvis.
  rewrite Hvis, Hfind. cbn. rewrite Hrun. cbn.
  rewrite Hlogic. cbn.
  destruct (List.find (fun edge => bool_decide _) _) as [x|] eqn:Hx; [|done]. exfalso.
  apply List.find_some in Hx as [Hin Hh]. apply filter_In in Hin as [Hin Hs].
  apply bool_decide_eq_true in Hh. apply String.eqb_eq in Hs.
  apply (Hnone x); [by apply list_elem_of_In | done | done].
Qed.


(** ** The input handed to a node along a run *)





(** * Properties of the code beside the specification *)

(** ** Maps in insertion order *)

Lemma ordmap_get_set_eq {A : Type} (k : string) (v : A) (m : list (string * A)) :
  OrdMap.get k (OrdMap.set k v m) = Some v.
Proof.
  induction m as [|[k' v'] m IH]; cbn; [by rewrite String.eqb_refl|].
  destruct (String.eqb k k') eqn:E; cbn; by rewrite ?String.eqb_refl, ?E.
Qed.

Lemma ordmap_get_set_ne {A : Type} (k k' : string) (v : A) (m : list (string * A)) :
  k' <> k -> OrdMap.get k' (OrdMap.set k v m) = OrdMap.get k' m.
Proof.
  intros Hne. induction m as [|[k0 v0] m IH]; cbn.
  - by apply String.eqb_neq in Hne as ->.
  - destruct (String.eqb_spec k k0) as [->|Hk]; cbn.
    + by apply String.eqb_neq in Hne as ->.
    + by rewrite IH.
Qed.

Lemma ordmap_get_keys {A : Type} (k : string) (m : list (string * A)) :
  k ∈ map fst m <-> exists v, OrdMap.get k m = Some v.
Proof.
  induction m as [|[k' v'] m IH]; cbn.
  - split; [by intros ?%elem_of_nil | by intros [v ?]].
  - rewrite elem_of_cons, IH. destruct (String.eqb_spec k k') as [->|Hne]; [|naive_solver].
    split; eauto.
Qed.

Lemma ordmap_set_keys {A : Type} (k : string) (v : A) (m : list (string * A)) :
  map fst (OrdMap.set k v m) = if bool_decide (k ∈ map fst m) then map fst m else map fst m ++ [k].
Proof.
  induction m as [|[k' v'] m IH]; cbn; [done|].
  destruct (String.eqb_spec k k') as [->|Hne]; cbn.
  - rewrite bool_decide_eq_true_2; [done | by left].
  - rewrite IH. destruct (bool_decide (k ∈ map fst m)) eqn:E.
    + apply bool_decide_eq_true in E. rewrite bool_decide_eq_true_2; [done | by right].
    + apply bool_decide_eq_false in E. rewrite bool_decide_eq_false_2; [done|].
      by intros [?|?]%elem_of_cons.
Qed.

Lemma ordmap_set_nodup {A : Type} (k : string) (v : A) (m : list (string * A)) :
  NoDup (map fst m) -> NoDup (map fst (OrdMap.set k v m)).
Proof.
  intros H. rewrite ordmap_set_keys. destruct (bool_decide (k ∈ map fst m)) eqn:E; [done|].
  apply bool_decide_eq_false in E. apply NoDup_app. split; [done|].
  split; [|apply NoDup_singleton]. by intros x Hx ->%list_elem_of_singleton.
Qed.

Lemma ordmap_elem_get {A : Type} (k : string) (v : A) (m : list (string * A)) :
  NoDup (map fst m) -> (k, v) ∈ m <-> OrdMap.get k m = Some v.
Proof.
  induction m as [|[k' v'] m IH]; cbn; intros Hnd.
  - split; [by intros ?%elem_of_nil | done].
  - apply NoDup_cons in Hnd as [Hk' Hnd]. rewrite elem_of_cons, (IH Hnd).
    destruct (String.eqb_spec k k') as [->|Hne].
    + split; [intros [[= ->]|Hget]; [done|] | intros [= ->]; by left].
      exfalso. apply Hk'. apply ordmap_get_keys. eauto.
    + split; [intros [[= -> ->]|?]; done | by right].
Qed.

(** ** The graph [topologicalSort] builds *)

Lemma initialize_spec (nodes : list Engine.NodeData) (g0 : EngineOrder.Graph) :
  let g := fold_left (fun g node =>
               {| EngineOrder.graph := OrdMap.set (Engine.id node) [] (EngineOrder.graph g);
                  EngineOrder.inDegree := OrdMap.set (Engine.id node) 0%Z (EngineOrder.inDegree g) |})
            nodes g0 in
  (forall k, OrdMap.get k (EngineOrder.graph g)
             = if bool_decide (k ∈ map Engine.id nodes) then Some []
               else OrdMap.get k (EngineOrder.graph g0))
  /\ (forall k, OrdMap.get k (EngineOrder.inDegree g)
                = if bool_decide (k ∈ map Engine.id nodes) then Some 0%Z
                  else OrdMap.get k (EngineOrder.inDegree g0))
  /\ (NoDup (map fst (EngineOrder.inDegree g0)) -> NoDup (map fst (EngineOrder.inDegree g))).
Proof.
  revert g0. induction nodes as [|n nodes IH] using rev_ind; intros g0; cbn.
  - repeat split; done.
  - rewrite fold_left_app. cbn. destruct (IH g0) as (Hg & Hd & Hn).
    split; [|split].
    + intros k. rewrite map_app. cbn. destruct (String.eqb_spec k (Engine.id n)) as [->|Hne].
      * rewrite ordmap_get_set_eq. rewrite bool_decide_eq_true_2; [done|].
        apply elem_of_app. right. by left.
      * rewrite ordmap_get_set_ne by done. rewrite Hg.
        destruct (bool_decide (k ∈ map Engine.id nodes)) eqn:E.
        -- apply bool_decide_eq_true in E. rewrite bool_decide_eq_true_2; [done|].
           apply elem_of_app. by left.
        -- apply bool_decide_eq_false in E. rewrite bool_decide_eq_false_2; [done|].
           intros [?|?%list_elem_of_singleton]%elem_of_app; done.
    + intros k. rewrite map_app. cbn. destruct (String.eqb_spec k (Engine.id n)) as [->|Hne].
      * rewrite ordmap_get_set_eq. rewrite bool_decide_eq_true_2; [done|].
        apply elem_of_app. right. by left.
      * rewrite ordmap_get_set_ne by done. rewrite Hd.
        destruct (bool_decide (k ∈ map Engine.id nodes)) eqn:E.
        -- apply bool_decide_eq_true in E. rewrite bool_decide_eq_true_2; [done|].
           apply elem_of_app. by left.
        -- apply bool_decide_eq_false in E. rewrite bool_decide_eq_false_2; [done|].
           intros [?|?%list_elem_of_singleton]%elem_of_app; done.
    + intros H. apply ordmap_set_nodup. by apply Hn.
Qed.

(** The targets of the edges that leave [s], in edge order. *)
Lemma connect_spec (edges : list Engine.EdgeData) (g0 : EngineOrder.Graph) :
  let g := EngineOrder.connect edges g0 in
  (forall s, OrdMap.get s (EngineOrder.graph g)
             = match OrdMap.get s (EngineOrder.graph g0) with
               | Some targets =>
                   Some (targets ++ map Engine.target
                                      (List.filter (fun e => String.eqb (Engine.source e) s) edges))
               | None => None
               end)
  /\ (forall t, EngineOrder.degree t (EngineOrder.inDegree g)
                = (EngineOrder.degree t (EngineOrder.inDegree g0)
                   + Z.of_nat (length (List.filter (fun e => String.eqb (Engine.target e) t) edges)))%Z)
  /\ (forall t, t ∈ map fst (EngineOrder.inDegree g)
                <-> t ∈ map fst (EngineOrder.inDegree g0) \/ t ∈ map Engine.target edges)
  /\ (NoDup (map fst (EngineOrder.inDegree g0)) -> NoDup (map fst (EngineOrder.inDegree g))).
Proof.
  unfold EngineOrder.connect.
  revert g0. induction edges as [|e edges IH] using rev_ind; intros g0; cbn.
  - split; [|split; [|split]]; try done.
    + intros s. destruct (OrdMap.get s _); [by rewrite app_nil_r | done].
    + intros t. lia.
    + intros t. split; [by left|]. intros [?|?%elem_of_nil]; done.
  - rewrite fold_left_app. cbn. destruct (IH g0) as (Hg & Hd & Hk & Hn).
    set (g1 := fold_left _ edges g0) in *.
    split; [|split; [|split]].
    + intros s. rewrite List.filter_app, map_app. cbn.
      destruct (String.eqb_spec (Engine.source e) s) as [<-|Hne]; cbn.
      * rewrite Hg. destruct (OrdMap.get (Engine.source e) (EngineOrder.graph g0)) as [targets|] eqn:E.
        -- rewrite ordmap_get_set_eq. by rewrite app_assoc.
        -- by rewrite Hg, E.
      * rewrite app_nil_r.
        destruct (OrdMap.get (Engine.source e) (EngineOrder.graph g1)) as [targets|].
        -- rewrite ordmap_get_set_ne by done. apply Hg.
        -- apply Hg.
    + intros t. rewrite List.filter_app, length_app. cbn. unfold EngineOrder.degree at 1.
      destruct (String.eqb_spec (Engine.target e) t) as [<-|Hne]; cbn.
      * rewrite ordmap_get_set_eq. rewrite Hd. lia.
      * rewrite ordmap_get_set_ne by done. fold (EngineOrder.degree t (EngineOrder.inDegree g1)).
        rewrite Hd. lia.
    + intros t. rewrite ordmap_set_keys, map_app. cbn.
      destruct (bool_decide (Engine.target e ∈ map fst (EngineOrder.inDegree g1))) eqn:E.
      * apply bool_decide_eq_true in E. rewrite Hk. rewrite elem_of_app, list_elem_of_singleton.
        split; [tauto|]. intros [H|[H|H]]; [tauto|tauto|]. subst t. by apply Hk.
      * rewrite elem_of_app, Hk, elem_of_app, !list_elem_of_singleton. tauto.
    + intros H. apply ordmap_set_nodup. by apply Hn.
Qed.

(** ** The loop of [topologicalSort] *)

Lemma degree_set (k t : string) (v : Z) (inDegree : list (string * Z)) :
  EngineOrder.degree t (OrdMap.set k v inDegree)
  = if String.eqb t k then v else EngineOrder.degree t inDegree.
Proof.
  unfold EngineOrder.degree. destruct (String.eqb_spec t k) as [->|Hne].
  - by rewrite ordmap_get_set_eq.
  - by rewrite ordmap_get_set_ne.
Qed.

(** Visiting the neighbours takes one off the counter of each, once for
    each occurrence, and queues the ids whose counter reaches zero: the
    neighbours whose counter was their number of occurrences. *)
Lemma visit_spec (neighbors : list string) :
  forall inDegree queue,
    (forall t, (Z.of_nat (length (List.filter (String.eqb t) neighbors))
                <= EngineOrder.degree t inDegree)%Z) ->
    exists inDegree' pushed,
      EngineOrder.visit neighbors inDegree queue = (inDegree', queue ++ pushed)
      /\ (forall t, EngineOrder.degree t inDegree'
                    = (EngineOrder.degree t inDegree
                       - Z.of_nat (length (List.filter (String.eqb t) neighbors)))%Z)
      /\ NoDup pushed
      /\ (forall t, t ∈ pushed <->
                    t ∈ neighbors
                    /\ EngineOrder.degree t inDegree
                       = Z.of_nat (length (List.filter (String.eqb t) neighbors))).
Proof.
  induction neighbors as [|n rest IH]; intros inDegree queue Hpre.
  - exists inDegree, []. cbn. rewrite app_nil_r. split; [done|]. split; [intros; lia|].
    split; [apply NoDup_nil_2|]. intros t. split; [by intros ?%elem_of_nil|].
    by intros [?%elem_of_nil _].
  - cbn [EngineOrder.visit].
    set (newDegree := (EngineOrder.degree n inDegree - 1)%Z).
    set (d1 := OrdMap.set n newDegree inDegree).
    assert (forall t, EngineOrder.degree t d1
                      = if String.eqb t n then newDegree else EngineOrder.degree t inDegree) as Hd1.
    { intros t. apply degree_set. }
    assert (forall t, (Z.of_nat (length (List.filter (String.eqb t) rest))
                       <= EngineOrder.degree t d1)%Z) as Hpre1.
    { intros t. specialize (Hpre t). rewrite Hd1. cbn [List.filter] in Hpre. revert Hpre.
      destruct (String.eqb_spec t n) as [->|Hne]; cbn [length]; unfold newDegree; lia. }
    destruct (IH d1 (if Z.eqb newDegree 0 then queue ++ [n] else queue) Hpre1)
      as (d' & pushed & Hrun & Hdeg & Hnd & Hin).
    exists d', ((if Z.eqb newDegree 0 then [n] else []) ++ pushed).
    split; [|split; [|split]].
    + rewrite Hrun. f_equal. destruct (Z.eqb newDegree 0); [by rewrite <- app_assoc | done].
    + intros t. rewrite Hdeg, Hd1. cbn [List.filter].
      destruct (String.eqb_spec t n) as [->|Hne]; cbn [length]; unfold newDegree; lia.
    + destruct (Z.eqb_spec newDegree 0) as [Hz|Hz]; [|done]. cbn. apply NoDup_cons. split; [|done].
      intros Hn. apply Hin in Hn as [Hn _].
      specialize (Hpre1 n). rewrite Hd1, String.eqb_refl, Hz in Hpre1.
      assert (length (List.filter (String.eqb n) rest) = 0) as Hlen by lia.
      apply length_zero_iff_nil in Hlen.
      apply list_elem_of_In in Hn.
      assert (In n (List.filter (String.eqb n) rest)) as Hf.
      { apply filter_In. split; [done | apply String.eqb_refl]. }
      rewrite Hlen in Hf. done.
    + intros t. rewrite elem_of_app, Hin, Hd1, elem_of_cons. cbn [List.filter].
      specialize (Hpre1 t). rewrite Hd1 in Hpre1.
      destruct (String.eqb t n) eqn:Etn.
      * apply String.eqb_eq in Etn. subst t. cbn [length].
        assert (n ∈ rest \/ length (List.filter (String.eqb n) rest) = 0) as Hcase.
        { destruct (List.filter (String.eqb n) rest) as [|x l] eqn:E; [by right|]. left.
          assert (In x (List.filter (String.eqb n) rest)) as Hx by (rewrite E; by left).
          apply filter_In in Hx as [Hx Heq]. apply String.eqb_eq in Heq as ->.
          by apply list_elem_of_In. }
        destruct (Z.eqb_spec newDegree 0) as [Hz|Hz]; unfold newDegree in *.
        -- split; [intros _; split; [by left | lia]|]. intros _. left. by left.
        -- split.
           ++ intros [Hn|[Hn Heq]]; [by apply elem_of_nil in Hn|]. split; [by left | lia].
           ++ intros [_ Heq]. right. split; [|lia].
              destruct Hcase as [?|Hz0]; [done | lia].
      * apply String.eqb_neq in Etn.
        assert (forall l : list string, t ∈ (if Z.eqb newDegree 0 then [n] else l) -> t ∈ l) as Hno.
        { intros l. destruct (Z.eqb newDegree 0); [|done].
          by intros ?%list_elem_of_singleton. }
        split.
        -- intros [Hn|[Hr Heq]]; [by apply Hno, elem_of_nil in Hn|]. auto.
        -- intros [[?|Hr] Heq]; [done|]. auto.
Qed.

Lemma filter_length_split {A : Type} (f g h : A -> bool) (l : list A) :
  (forall x, In x l -> Nat.b2n (f x) = Nat.b2n (g x) + Nat.b2n (h x)) ->
  length (List.filter f l) = length (List.filter g l) + length (List.filter h l).
Proof.
  induction l as [|x l IH]; intros H; cbn; [done|].
  pose proof (H x ltac:(by left)) as Hx.
  assert (length (List.filter f l) = length (List.filter g l) + length (List.filter h l)) as E.
  { apply IH. intros y Hy. apply H. by right. }
  destruct (f x), (g x), (h x); cbn in *; lia.
Qed.

Lemma occurrences_of_target (edges : list Engine.EdgeData) (s t : string) :
  length (List.filter (String.eqb t)
            (map Engine.target (List.filter (fun e => String.eqb (Engine.source e) s) edges)))
  = length (List.filter (fun e => String.eqb (Engine.target e) t
                                  && String.eqb (Engine.source e) s) edges).
Proof.
  induction edges as [|e edges IH]; cbn; [done|].
  destruct (String.eqb (Engine.source e) s); cbn.
  - rewrite (String.eqb_sym t). destruct (String.eqb (Engine.target e) t); cbn; by rewrite IH.
  - rewrite andb_false_r. apply IH.
Qed.

(** Taking a node off the queue settles the edges that leave it. *)
Lemma pending_after_node (nodes : list Engine.NodeData) (edges : list Engine.EdgeData)
    (result : list string) (current t : string) :
  current ∈ map Engine.id nodes -> current ∉ result ->
  length (pending_edges nodes edges result t)
  = length (pending_edges nodes edges (result ++ [current]) t)
    + length (List.filter (fun e => String.eqb (Engine.target e) t
                                    && String.eqb (Engine.source e) current) edges).
Proof.
  intros Hnode Hnew. unfold pending_edges. apply filter_length_split. intros e _.
  destruct (String.eqb (Engine.target e) t); cbn; [|done].
  destruct (String.eqb_spec (Engine.source e) current) as [->|Hne].
  - rewrite (bool_decide_eq_true_2 _ Hnode). cbn.
    rewrite (bool_decide_eq_false_2 _ Hnew). cbn.
    rewrite bool_decide_eq_true_2; [done|]. apply elem_of_app. right. by left.
  - destruct (bool_decide (Engine.source e ∈ map Engine.id nodes)); cbn; [|done].
    destruct (bool_decide (Engine.source e ∈ result)) eqn:E.
    + apply bool_decide_eq_true in E. rewrite bool_decide_eq_true_2; [done|].
      apply elem_of_app. by left.
    + apply bool_decide_eq_false in E. rewrite bool_decide_eq_false_2; [done|].
      intros [?|?%list_elem_of_singleton]%elem_of_app; done.
Qed.

(** Taking off the queue an id that is no node settles nothing. *)
Lemma pending_after_stranger (nodes : list Engine.NodeData) (edges : list Engine.EdgeData)
    (result : list string) (current t : string) :
  current ∉ map Engine.id nodes ->
  pending_edges nodes edges (result ++ [current]) t = pending_edges nodes edges result t.
Proof.
  intros Hno. unfold pending_edges. apply List.filter_ext. intros e. f_equal. f_equal.
  destruct (bool_decide (Engine.source e ∈ map Engine.id nodes)) eqn:Hn; cbn; [|done].
  apply bool_decide_eq_true in Hn.
  destruct (bool_decide (Engine.source e ∈ result)) eqn:E.
  - apply bool_decide_eq_true in E. rewrite bool_decide_eq_true_2; [done|].
    apply elem_of_app. by left.
  - apply bool_decide_eq_false in E. rewrite bool_decide_eq_false_2; [done|].
    intros [?|Heq%list_elem_of_singleton]%elem_of_app; [done|]. by rewrite Heq in Hn.
Qed.

(** No incoming edge of [t] is pending: each comes from a node that
    was taken off the queue. *)
Lemma pending_nil (nodes : list Engine.NodeData) (edges : list Engine.EdgeData)
    (result : list string) (t : string) (e : Engine.EdgeData) :
  pending_edges nodes edges result t = [] -> e ∈ edges -> Engine.target e = t ->
  Engine.source e ∈ map Engine.id nodes /\ Engine.source e ∈ result.
Proof.
  intros Hnil He Ht.
  destruct (bool_decide (Engine.source e ∈ map Engine.id nodes)) eqn:Hn;
    destruct (bool_decide (Engine.source e ∈ result)) eqn:Hr;
    try (apply bool_decide_eq_true in Hn, Hr; done);
    exfalso;
    (assert (In e (pending_edges nodes edges result t)) as Hin;
     [apply filter_In; split; [by apply list_elem_of_In|];
      rewrite Ht, String.eqb_refl, Hn, Hr; done
     | rewrite Hnil in Hin; done]).
Qed.

Section Drain.

Variable nodes : list Engine.NodeData.
Variable edges : list Engine.EdgeData.
Variable graph : list (string * list string).

Hypothesis graph_holds_successors : forall s,
  OrdMap.get s graph
  = if bool_decide (s ∈ map Engine.id nodes)
    then Some (map Engine.target (List.filter (fun e => String.eqb (Engine.source e) s) edges))
    else None.

Lemma pending_shrinks (result : list string) (current t : string) :
  current ∉ result ->
  length (pending_edges nodes edges (result ++ [current]) t)
  <= length (pending_edges nodes edges result t).
Proof.
  intros Hnew. destruct (decide (current ∈ map Engine.id nodes)) as [Hn|Hn].
  - rewrite (pending_after_node nodes edges result current t Hn Hnew). lia.
  - by rewrite pending_after_stranger.
Qed.

(** The position a queued id takes in the result. *)
Lemma drain_inv_order (inDegree : list (string * Z)) (current : string) (queue result : list string) :
  drain_inv nodes edges inDegree (current :: queue) result ->
  forall j t, (result ++ [current]) !! j = Some t ->
    forall e, e ∈ edges -> Engine.target e = t ->
      Engine.source e ∈ map Engine.id nodes
      /\ exists i, i < j /\ (result ++ [current]) !! i = Some (Engine.source e).
Proof.
  intros (Hnd & Hdeg & Hmem & Hord) j t Hj e He Ht.
  apply lookup_app_Some in Hj as [Hj|[Hlen Hj]].
  - destruct (Hord j t Hj e He Ht) as [Hn (i & Hi & Hs)]. split; [done|].
    exists i. split; [done|]. by apply lookup_app_l_Some.
  - apply list_lookup_singleton_Some in Hj as [Hz <-].
    assert (current ∈ result ++ current :: queue) as Hc.
    { apply elem_of_app. right. by left. }
    apply Hmem in Hc as [_ Hnil].
    destruct (pending_nil nodes edges result current e Hnil He Ht) as [Hn Hr].
    split; [done|]. apply list_elem_of_lookup in Hr as [i Hi]. exists i.
    pose proof (lookup_lt_Some _ _ _ Hi). split; [lia|]. by apply lookup_app_l_Some.
Qed.

(** One turn of the loop keeps the invariant. *)
Lemma drain_inv_step (inDegree : list (string * Z)) (current : string) (queue result : list string) :
  drain_inv nodes edges inDegree (current :: queue) result ->
  match OrdMap.get current graph with
  | Some neighbors =>
      let '(inDegree', queue') := EngineOrder.visit neighbors inDegree queue in
      drain_inv nodes edges inDegree' queue' (result ++ [current])
  | None => drain_inv nodes edges inDegree queue (result ++ [current])
  end.
Proof.
  intros Hinv. pose proof (drain_inv_order _ _ _ _ Hinv) as Horder.
  destruct Hinv as (Hnd & Hdeg & Hmem & Hord).
  assert (current ∉ result) as Hnew.
  { apply NoDup_app in Hnd as (_ & Hdisj & _). intros Hr. apply (Hdisj current Hr). by left. }
  rewrite graph_holds_successors.
  destruct (bool_decide (current ∈ map Engine.id nodes)) eqn:Hnode.
  - apply bool_decide_eq_true in Hnode.
    set (neighbors := map Engine.target
                        (List.filter (fun e => String.eqb (Engine.source e) current) edges)).
    assert (forall t, length (pending_edges nodes edges result t)
                      = length (pending_edges nodes edges (result ++ [current]) t)
                        + length (List.filter (String.eqb t) neighbors)) as Hsplit.
    { intros t. unfold neighbors. rewrite occurrences_of_target.
      by apply pending_after_node. }
    destruct (visit_spec neighbors inDegree queue) as (d' & pushed & Hrun & Hd' & Hpn & Hpin).
    { intros t. rewrite Hdeg, Hsplit. lia. }
    rewrite Hrun.
    assert (forall t, t ∈ pushed ->
              (t ∉ result ++ current :: queue) /\ t ∈ counted_ids nodes edges) as Hfresh.
    { intros t [Hin Heq]%Hpin. split.
      - intros [_ Hnil]%Hmem. rewrite Hdeg, Hnil in Heq. cbn in Heq.
        assert (length (List.filter (String.eqb t) neighbors) = 0) as Hz by lia.
        apply length_zero_iff_nil in Hz.
        assert (In t (List.filter (String.eqb t) neighbors)) as Hf.
        { apply filter_In. split; [by apply list_elem_of_In | apply String.eqb_refl]. }
        by rewrite Hz in Hf.
      - unfold counted_ids. rewrite elem_of_list_to_set, elem_of_app. right.
        unfold neighbors in Hin. apply list_elem_of_In, in_map_iff in Hin as (e & <- & He).
        apply filter_In in He as [He _]. apply list_elem_of_In, in_map. done. }
    split; [|split; [|split]].
    + rewrite <- app_assoc. cbn. rewrite app_comm_cons, app_assoc.
      apply NoDup_app. split; [done|]. split; [|done].
      intros t Ht Hp. by apply (proj1 (Hfresh t Hp)).
    + intros t. rewrite Hd', Hdeg, Hsplit. lia.
    + intros t. rewrite <- app_assoc. cbn. rewrite app_comm_cons, app_assoc, elem_of_app.
      split.
      * intros [Ht|Ht].
        -- apply Hmem in Ht as [Hc Hnil]. split; [done|].
           pose proof (Hsplit t) as Hs. rewrite Hnil in Hs. cbn in Hs.
           apply length_zero_iff_nil. lia.
        -- split; [by apply Hfresh|]. apply Hpin in Ht as [_ Heq].
           rewrite Hdeg, Hsplit in Heq. apply length_zero_iff_nil. lia.
      * intros [Hc Hnil]. pose proof (Hsplit t) as Hs. rewrite Hnil in Hs. cbn in Hs.
        destruct (List.filter (String.eqb t) neighbors) as [|x l] eqn:E.
        -- left. apply Hmem. split; [done|]. apply length_zero_iff_nil. cbn in Hs. lia.
        -- right. apply Hpin. split.
           ++ assert (In x (List.filter (String.eqb t) neighbors)) as Hx by (rewrite E; by left).
              apply filter_In in Hx as [Hx Heq]. apply String.eqb_eq in Heq as ->.
              by apply list_elem_of_In.
           ++ rewrite Hdeg, Hs, E. done.
    + exact Horder.
  - apply bool_decide_eq_false in Hnode.
    split; [|split; [|split]].
    + by rewrite <- app_assoc.
    + intros t. rewrite Hdeg. by rewrite pending_after_stranger.
    + intros t. rewrite <- app_assoc. cbn. rewrite Hmem. by rewrite pending_after_stranger.
    + exact Horder.
Qed.

Lemma drain_inv_bound (inDegree : list (string * Z)) (queue result : list string) :
  drain_inv nodes edges inDegree queue result ->
  length result + length queue <= size (counted_ids nodes edges).
Proof.
  intros (Hnd & _ & Hmem & _). rewrite <- length_app.
  rewrite <- (size_list_to_set (C := gset string) _ Hnd).
  apply subseteq_size. intros t Ht. apply elem_of_list_to_set in Ht. by apply Hmem.
Qed.

(** The loop returns, and what it returns satisfies the invariant with
    an empty queue. *)
Lemma drain_spec (fuel : nat) :
  forall inDegree queue result,
    drain_inv nodes edges inDegree queue result ->
    size (counted_ids nodes edges) < fuel + length result ->
    exists order inDegree',
      EngineOrder.drain fuel graph inDegree queue result = Done order
      /\ drain_inv nodes edges inDegree' [] order.
Proof.
  induction fuel as [|fuel IH]; intros inDegree queue result Hinv Hfuel.
  - pose proof (drain_inv_bound _ _ _ Hinv). lia.
  - cbn [EngineOrder.drain]. destruct queue as [|current queue]; [by eauto|].
    pose proof (drain_inv_step _ _ _ _ Hinv) as Hstep.
    destruct (OrdMap.get current graph) as [neighbors|].
    + destruct (EngineOrder.visit neighbors inDegree queue) as [d' q'] eqn:Hv.
      apply (IH d' q' (result ++ [current]) Hstep). rewrite length_app. cbn. lia.
    + apply (IH inDegree queue (result ++ [current]) Hstep). rewrite length_app. cbn. lia.
Qed.

End Drain.

Lemma pending_initially (nodes : list Engine.NodeData) (edges : list Engine.EdgeData) (t : string) :
  pending_edges nodes edges [] t = List.filter (fun e => String.eqb (Engine.target e) t) edges.
Proof.
  unfold pending_edges. apply List.filter_ext. intros e.
  rewrite (bool_decide_eq_false_2 (Engine.source e ∈ [])) by apply not_elem_of_nil.
  by rewrite andb_false_r, andb_true_r.
Qed.

Lemma initial_queue_spec (inDegree : list (string * Z)) :
  NoDup (map fst inDegree) ->
  NoDup (EngineOrder.initial_queue inDegree)
  /\ forall t, t ∈ EngineOrder.initial_queue inDegree <-> OrdMap.get t inDegree = Some 0%Z.
Proof.
  intros Hnd. split.
  - unfold EngineOrder.initial_queue. induction inDegree as [|[k d] m IH]; cbn; [apply NoDup_nil_2|].
    cbn in Hnd. apply NoDup_cons in Hnd as [Hk Hnd]. destruct (Z.eqb d 0); cbn; [|by apply IH].
    apply NoDup_cons. split; [|by apply IH]. intros Hin. apply Hk.
    apply list_elem_of_In, in_map_iff in Hin as ([k' d'] & Heq & Hin). cbn in Heq. subst k'.
    apply filter_In in Hin as [Hin _]. apply list_elem_of_In, in_map_iff. by exists (k, d').
  - intros t. rewrite <- (ordmap_elem_get _ _ _ Hnd). unfold EngineOrder.initial_queue.
    rewrite list_elem_of_In, in_map_iff. split.
    + intros ([k d] & Heq & Hin). cbn in Heq. subst k. apply filter_In in Hin as [Hin Hz].
      cbn in Hz. apply Z.eqb_eq in Hz as ->. by apply list_elem_of_In.
    + intros Hin. exists (t, 0%Z). split; [done|]. apply filter_In.
      split; [by apply list_elem_of_In | done].
Qed.

(** [topologicalSort] returns, and what it returns satisfies the
    invariant of the loop with an empty queue. *)
Lemma topologicalSort_spec (nodes : list Engine.NodeData) (edges : list Engine.EdgeData) :
  exists order inDegree,
    EngineOrder.topologicalSort nodes edges = Done order
    /\ drain_inv nodes edges inDegree [] order.
Proof.
  unfold EngineOrder.topologicalSort. cbv zeta.
  set (g0 := EngineOrder.initialize nodes).
  destruct (initialize_spec nodes {| EngineOrder.graph := []; EngineOrder.inDegree := [] |})
    as (Hg0 & Hd0 & Hn0). fold (EngineOrder.initialize nodes) in Hg0, Hd0, Hn0. fold g0 in Hg0, Hd0, Hn0.
  destruct (connect_spec edges g0) as (Hg & Hd & Hk & Hn).
  set (g := EngineOrder.connect edges g0) in *.
  assert (NoDup (map fst (EngineOrder.inDegree g))) as Hnd.
  { apply Hn, Hn0. apply NoDup_nil_2. }
  destruct (initial_queue_spec _ Hnd) as [Hqn Hq].
  assert (forall t, EngineOrder.degree t (EngineOrder.inDegree g)
                    = Z.of_nat (length (pending_edges nodes edges [] t))) as Hdeg.
  { intros t. rewrite Hd, pending_initially. unfold EngineOrder.degree. rewrite Hd0.
    cbn. destruct (bool_decide _); lia. }
  assert (forall t, t ∈ map fst (EngineOrder.inDegree g) <-> t ∈ counted_ids nodes edges) as Hkeys.
  { intros t. rewrite Hk. unfold counted_ids. rewrite elem_of_list_to_set, elem_of_app.
    rewrite ordmap_get_keys. setoid_rewrite Hd0. cbn.
    destruct (bool_decide (t ∈ map Engine.id nodes)) eqn:E.
    - apply bool_decide_eq_true in E. split; [tauto|]. intros _. left. eauto.
    - apply bool_decide_eq_false in E. split; [intros [[v ?]|?]; [done|tauto] | tauto]. }
  apply (drain_spec nodes edges (EngineOrder.graph g)).
  - intros s. rewrite Hg, Hg0. cbn. by destruct (bool_decide _).
  - split; [done|]. split; [exact Hdeg|]. split; [|by intros j t ?].
    intros t. cbn. rewrite Hq, <- Hkeys, ordmap_get_keys. split.
    + intros Hget. split; [eauto|]. specialize (Hdeg t). unfold EngineOrder.degree in Hdeg.
      rewrite Hget in Hdeg. apply length_zero_iff_nil. lia.
    + intros [[v Hget] Hnil]. specialize (Hdeg t). unfold EngineOrder.degree in Hdeg.
      rewrite Hget, Hnil in Hdeg. cbn in Hdeg. by subst v.
  - cbn. pose proof (size_list_to_set_le (map Engine.id nodes ++ map Engine.target edges)) as Hs.
    rewrite length_app, !length_map in Hs. unfold counted_ids. lia.
Qed.

Lemma stands_before_trans (order : list string) (a b c : string) :
  NoDup order -> stands_before order a b -> stands_before order b c -> stands_before order a c.
Proof.
  intros Hnd (i & j & Hij & Hi & Hj) (j' & k & Hjk & Hj' & Hk).
  pose proof (NoDup_lookup _ _ _ _ Hnd Hj Hj') as ->. exists i, k. split; [lia | done].
Qed.

Lemma stands_before_irrefl (order : list string) (a : string) :
  NoDup order -> ~ stands_before order a a.
Proof.
  intros Hnd (i & j & Hij & Hi & Hj). pose proof (NoDup_lookup _ _ _ _ Hnd Hi Hj). lia.
Qed.

(** In an order in which every edge goes forward, so does every path. *)
Lemma path_stands_before (edges : list Engine.EdgeData) (order : list string) :
  NoDup order ->
  (forall e, e ∈ edges -> Engine.target e ∈ order ->
     stands_before order (Engine.source e) (Engine.target e)) ->
  forall x y, tc (edge_between edges) x y -> y ∈ order -> stands_before order x y.
Proof.
  intros Hnd Hedge x y Hpath. induction Hpath as [x y (e & He & <- & <-)|x m y (e & He & <- & <-) Hpath IH].
  - by apply Hedge.
  - intros Hy. pose proof (IH Hy) as Hmy.
    apply (stands_before_trans _ _ (Engine.target e)); [done| |done].
    apply Hedge; [done|]. destruct Hmy as (i & j & _ & Hi & _).
    by apply list_elem_of_lookup_2 in Hi.
Qed.

(** What [topologicalSort] returns: an order without repetition, of ids
    the counters know, in which every incoming edge of a listed id comes
    from a node listed before; an id the counters know is listed exactly
    when none of its incoming edges is left pending. *)
Lemma topologicalSort_sound (nodes : list Engine.NodeData) (edges : list Engine.EdgeData) :
  exists order,
    EngineOrder.topologicalSort nodes edges = Done order
    /\ NoDup order
    /\ (forall t, t ∈ order <->
                  t ∈ counted_ids nodes edges /\ pending_edges nodes edges order t = [])
    /\ (forall e, e ∈ edges -> Engine.target e ∈ order ->
          Engine.source e ∈ map Engine.id nodes
          /\ stands_before order (Engine.source e) (Engine.target e)).
Proof.
  destruct (topologicalSort_spec nodes edges) as (order & d & Hrun & Hnd & _ & Hmem & Hord).
  exists order. rewrite app_nil_r in Hnd. split; [done|]. split; [done|].
  split; [intros t; rewrite <- Hmem; by rewrite app_nil_r|].
  intros e He [j Hj]%list_elem_of_lookup.
  destruct (Hord j _ Hj e He eq_refl) as [Hn (i & Hi & Hs)]. split; [done|].
  by exists i, j.
Qed.

(** X1: [topologicalSort] always returns. The order it returns lists no
    id twice and only node ids and edge targets; whenever it lists the
    target of an edge, the source of that edge is a node and stands
    earlier in the order. *)
Theorem X1_topologicalSort_edges_go_forward (nodes : list Engine.NodeData)
    (edges : list Engine.EdgeData) :
  exists order,
    EngineOrder.topologicalSort nodes edges = Done order
    /\ NoDup order
    /\ (forall x, x ∈ order -> x ∈ map Engine.id nodes \/ x ∈ map Engine.target edges)
    /\ (forall e, e ∈ edges -> Engine.target e ∈ order ->
          Engine.source e ∈ map Engine.id nodes
          /\ stands_before order (Engine.source e) (Engine.target e)).
Proof.
  destruct (topologicalSort_sound nodes edges) as (order & Hrun & Hnd & Hmem & Hord).
  exists order. split; [done|]. split; [done|]. split; [|done].
  intros x [Hx _]%Hmem. unfold counted_ids in Hx.
  by rewrite elem_of_list_to_set, elem_of_app in Hx.
Qed.

(** X2: on a graph without cycle (the edges go up along some rank)
    whose edges all leave nodes, the order [topologicalSort] returns
    lists every node id and every edge target; when the edges also end
    at nodes and no two nodes share an id, it is a permutation of the
    node ids. *)
Theorem X2_topologicalSort_complete_without_cycle (nodes : list Engine.NodeData)
    (edges : list Engine.EdgeData) (rank : string -> nat) (order : list string) :
  acyclic_by rank edges ->
  (forall e, e ∈ edges -> Engine.source e ∈ map Engine.id nodes) ->
  EngineOrder.topologicalSort nodes edges = Done order ->
  (forall x, x ∈ order <-> x ∈ map Engine.id nodes \/ x ∈ map Engine.target edges)
  /\ ((forall e, e ∈ edges -> Engine.target e ∈ map Engine.id nodes) ->
      NoDup (map Engine.id nodes) -> order ≡ₚ map Engine.id nodes).
Proof.
  intros Hacyc Hsrc Hrun.
  destruct (topologicalSort_sound nodes edges) as (order' & Hrun' & Hnd & Hmem & Hord).
  rewrite Hrun in Hrun'. injection Hrun' as <-.
  assert (forall n t, rank t < n -> t ∈ counted_ids nodes edges -> t ∈ order) as Hall.
  { induction n as [|n IH]; intros t Hn Ht; [lia|].
    apply Hmem. split; [done|].
    destruct (pending_edges nodes edges order t) as [|e rest] eqn:E; [done|]. exfalso.
    assert (In e (pending_edges nodes edges order t)) as Hin by (rewrite E; by left).
    apply filter_In in Hin as [He Hp]. apply list_elem_of_In in He.
    apply andb_true_iff in Hp as [Htarget Hp]. apply String.eqb_eq in Htarget.
    pose proof (Hacyc e He) as Hup. rewrite Htarget in Hup.
    assert (Engine.source e ∈ order) as Hs.
    { apply IH; [lia|]. unfold counted_ids. rewrite elem_of_list_to_set, elem_of_app.
      left. by apply Hsrc. }
    rewrite (bool_decide_eq_true_2 _ (Hsrc e He)), (bool_decide_eq_true_2 _ Hs) in Hp.
    discriminate. }
  assert (forall x, x ∈ order <-> x ∈ map Engine.id nodes \/ x ∈ map Engine.target edges) as Hiff.
  { intros x.
    assert (x ∈ counted_ids nodes edges
            <-> x ∈ map Engine.id nodes \/ x ∈ map Engine.target edges) as Hc.
    { unfold counted_ids. by rewrite elem_of_list_to_set, elem_of_app. }
    rewrite <- Hc. split; [by intros [? _]%Hmem | apply (Hall (S (rank x))); lia]. }
  split; [exact Hiff|]. intros Htgt Hids. apply NoDup_Permutation; [done|done|].
  intros x. rewrite Hiff. split; [|by left]. intros [?|Hx]; [done|].
  apply list_elem_of_In, in_map_iff in Hx as (e & <- & He). by apply Htgt, list_elem_of_In.
Qed.

Lemma X2_witness :
  match EngineOrder.topologicalSort merge_nodes merge_edges with
  | Done order => order ≡ₚ map Engine.id merge_nodes
  | _ => True
  end.
Proof.
  destruct (EngineOrder.topologicalSort merge_nodes merge_edges) as [order| |] eqn:E;
    [|exact I|exact I].
  assert (forall e, e ∈ merge_edges ->
            merge_rank (Engine.source e) < merge_rank (Engine.target e)
            /\ Engine.source e ∈ map Engine.id merge_nodes
            /\ Engine.target e ∈ map Engine.id merge_nodes) as H.
  { intros e He. apply list_elem_of_In in He. cbn in He.
    destruct He as [<-|[<-|[]]]; (split; [vm_compute; lia|]);
      split; apply list_elem_of_In; cbn; tauto. }
  apply (X2_topologicalSort_complete_without_cycle merge_nodes merge_edges merge_rank order).
  - intros e He. apply (H e He).
  - intros e He. apply (H e He).
  - exact E.
  - intros e He. apply (H e He).
  - cbn. repeat (apply NoDup_cons; split; [rewrite list_elem_of_In; cbn; intuition discriminate|]).
    apply NoDup_nil_2.
Defined.

(** X3: [topologicalSort] never lists an id that lies on a cycle of the
    graph, nor an id that can be reached from such a cycle along the
    edges. *)
Theorem X3_topologicalSort_drops_cycles (nodes : list Engine.NodeData)
    (edges : list Engine.EdgeData) (order : list string) (x y : string) :
  EngineOrder.topologicalSort nodes edges = Done order ->
  tc (edge_between edges) x x ->
  rtc (edge_between edges) x y ->
  y ∉ order.
Proof.
  intros Hrun Hcycle Hreach Hy.
  destruct (topologicalSort_sound nodes edges) as (order' & Hrun' & Hnd & Hmem & Hord).
  rewrite Hrun in Hrun'. injection Hrun' as <-.
  assert (forall a b, tc (edge_between edges) a b -> b ∈ order -> stands_before order a b) as Hpath.
  { apply path_stands_before; [done|]. intros e He Ht. by apply Hord. }
  assert (x ∈ order) as Hx.
  { apply rtc_tc in Hreach as [->|Hxy]; [done|].
    destruct (Hpath x y Hxy Hy) as (i & j & _ & Hi & _). by apply list_elem_of_lookup_2 in Hi. }
  by apply (stands_before_irrefl order x Hnd), Hpath.
Qed.

Lemma X3_witness :
  match EngineOrder.topologicalSort cycle_nodes cycle_edges with
  | Done order => "a" ∉ order
  | _ => True
  end.
Proof.
  destruct (EngineOrder.topologicalSort cycle_nodes cycle_edges) as [order| |] eqn:E;
    [|exact I|exact I].
  apply (X3_topologicalSort_drops_cycles cycle_nodes cycle_edges order "a" "a" E).
  - apply (tc_l _ "a" "b" "a").
    + eexists. split; [apply list_elem_of_In; left; reflexivity|]. split; reflexivity.
    + apply tc_once. eexists. split; [apply list_elem_of_In; right; left; reflexivity|].
      split; reflexivity.
  - apply rtc_refl.
Defined.

(** ** Runs of the map-based engine *)








(** X4: in the map-based engine, the branching traversal records every
    node at most once; each recorded node is a node of the graph, and is
    the start node or the target of an edge whose source has a recorded
    result; when that source is a logic node, the edge carries the label
    "true" or "false" that the recorded result of the logic node
    selects. *)
Theorem X4_engine_branching_follows_recorded_result (env : Engine.Env)
    (nodes : list Engine.NodeData) (edges : list Engine.EdgeData) (inputData : JsValue)
    (startNodeId : string) (st : Engine.BranchState) :
  Engine.executeBranchingWorkflow env nodes edges inputData startNodeId [] = Done st ->
  NoDup (JsMap.keys (Engine.results st))
  /\ forall nodeId, nodeId ∈ JsMap.keys (Engine.results st) ->
       nodeId ∈ map Engine.id nodes
       /\ (nodeId = startNodeId
           \/ exists e node nodeResult,
                e ∈ edges /\ Engine.target e = nodeId
                /\ List.find (fun n => String.eqb (Engine.id n) (Engine.source e)) nodes = Some node
                /\ Js.assoc (Engine.source e) (Engine.results st) = Some nodeResult
                /\ (Engine.type node = "logic" ->
                    Engine.sourceHandle e
                    = Some (if Js.truthy (Js.get "result" nodeResult) then "true" else "false"))).
Proof.
  intros Hrun. pose proof (branching_workflow_spec env nodes edges inputData startNodeId) as Hspec.
  rewrite Hrun in Hspec. destruct Hspec as [[(Hkeys & Hnd & Hids & _) _] Hj].
  split; [by rewrite Hkeys|]. intros nodeId Hin. rewrite Hkeys in Hin. split.
  - specialize (Hids nodeId Hin). unfold engine_ids in Hids. by apply elem_of_list_to_set in Hids.
  - destruct (Hj nodeId Hin) as [->|(e & node & r & Hf & Ha & Hfol & Ht)]; [by left|].
    right. exists e, node, r. destruct (followed_in_edges _ _ _ _ Hfol) as [He _].
    split; [done|]. split; [done|]. split; [done|]. split; [done|].
    intros Hlogic. by destruct (followed_logic _ _ _ _ Hlogic Hfol) as (_ & _ & _ & Hh).
Qed.

Lemma X4_witness :
  match Engine.executeBranchingWorkflow sample_env engine_branch_nodes engine_branch_edges
          (JObj []) "1" [] with
  | Done st => NoDup (JsMap.keys (Engine.results st))
  | _ => True
  end.
Proof.
  destruct (Engine.executeBranchingWorkflow sample_env engine_branch_nodes engine_branch_edges
              (JObj []) "1" []) as [st| |] eqn:E; [|exact I|exact I].
  exact (proj1 (X4_engine_branching_follows_recorded_result _ _ _ _ _ _ E)).
Defined.




(** ** Runs of the class-based engine *)

Lemma chain_audit_refl (nodes : list WorkflowExecutor.WorkflowNode) (st : NodesRoute.ChainState) :
  chain_audit nodes st st.
Proof.
  split; [done|]. exists []. rewrite app_nil_r. split; [done|]. split; [apply NoDup_nil_2|].
  split; [by intros x ?%elem_of_nil|]. cbn. set_solver.
Qed.

Lemma chain_audit_trans (nodes : list WorkflowExecutor.WorkflowNode)
    (s1 s2 s3 : NodesRoute.ChainState) :
  chain_audit nodes s1 s2 -> chain_audit nodes s2 s3 -> chain_audit nodes s1 s3.
Proof.
  intros (Hv1 & m1 & He1 & Hn1 & Hm1 & Hd1) (Hv2 & m2 & He2 & Hn2 & Hm2 & Hd2).
  split; [set_solver|]. exists (m1 ++ m2). split; [by rewrite He2, He1, app_assoc|].
  split.
  { apply NoDup_app. split; [done|]. split; [|done]. intros x Hx1 Hx2.
    destruct (Hm1 x Hx1) as (_ & _ & Hin). destruct (Hm2 x Hx2) as (_ & Hout & _). done. }
  split.
  { intros x [Hx|Hx]%elem_of_app.
    - destruct (Hm1 x Hx) as (? & ? & ?). set_solver.
    - destruct (Hm2 x Hx) as (? & ? & ?). set_solver. }
  rewrite Hd2, Hd1, list_to_set_app_L. set_solver.
Qed.

(** The keys of an object after an assignment. *)
Lemma assign_dom_eq (key : string) (value : JsValue) (object : gmap string JsValue) :
  dom (WorkflowExecutor.assign key value object) = dom object ∪ ({[key]} ∖ {["__proto__"]}).
Proof.
  unfold WorkflowExecutor.assign.
  destruct (String.eqb_spec key "__proto__") as [->|Hne]; cbn [andb].
  - destruct (bool_decide_reflect (object !! "__proto__" = None)) as [Hnone|Hsome].
    + set_solver.
    + rewrite dom_insert_L. apply not_eq_None_Some, elem_of_dom in Hsome. set_solver.
  - rewrite dom_insert_L. set_solver.
Qed.

(** A generic induction on the chain: a relation on states that holds
    across the visit of a stranger and across the execution of a node
    holds across every call that returns. *)
Lemma executor_chain_rel (env : WorkflowExecutor.Env)
    (nodes : list WorkflowExecutor.WorkflowNode) (edges : list WorkflowExecutor.WorkflowEdge)
    (R : NodesRoute.ChainState -> NodesRoute.ChainState -> Prop) :
  (forall s, R s s) ->
  (forall s1 s2 s3, R s1 s2 -> R s2 s3 -> R s1 s3) ->
  (forall st nodeId,
     nodeId ∉ NodesRoute.visited st -> nodeId ∉ executor_ids nodes ->
     R st {| NodesRoute.context := NodesRoute.context st;
             NodesRoute.visited := {[nodeId]} ∪ NodesRoute.visited st;
             NodesRoute.executedNodes := NodesRoute.executedNodes st |}) ->
  (forall st node output,
     WorkflowExecutor.id node ∉ NodesRoute.visited st ->
     WorkflowExecutor.id node ∈ executor_ids nodes ->
     WorkflowExecutor.executeNode env node (NodesRoute.context st)
     = Done (output, WorkflowExecutor.setNodeOutput (WorkflowExecutor.id node) output
                       (NodesRoute.context st)) ->
     R st {| NodesRoute.context :=
               WorkflowExecutor.setNodeOutput (WorkflowExecutor.id node) output
                 (NodesRoute.context st);
             NodesRoute.visited := {[WorkflowExecutor.id node]} ∪ NodesRoute.visited st;
             NodesRoute.executedNodes :=
               NodesRoute.executedNodes st ++ [WorkflowExecutor.id node] |}) ->
  forall fuel nodeId st,
    match NodesRoute.executeNodeChain env nodes edges fuel nodeId st with
    | Done st' => R st st'
    | _ => True
    end.
Proof.
  intros Hrefl Htrans Hvisit Hexec. induction fuel as [|fuel IH]; intros nodeId st; [done|].
  cbn [NodesRoute.executeNodeChain].
  destruct (bool_decide (nodeId ∈ NodesRoute.visited st)) eqn:Hvis; [apply Hrefl|].
  apply bool_decide_eq_false in Hvis.
  destruct (List.find _ nodes) as [node|] eqn:Hfind.
  - destruct (find_id_elem _ _ _ Hfind) as [Hid Hin]. subst nodeId.
    destruct (executor_executeNode_cases env node (NodesRoute.context st))
      as [[output Hrun]|[message ->]]; [|done].
    rewrite Hrun. cbn.
    pose proof (Hexec st node output Hvis Hin Hrun) as Hstep.
    set (st1 := {| NodesRoute.context := _ |}) in *.
    destruct (String.eqb (WorkflowExecutor.type node) "logic").
    + destruct (WorkflowExecutor.executeLogicNode _ _ _) as [logicResult| |]; [|done|done].
      cbn. destruct (List.find (fun edge => bool_decide _) _) as [targetEdge|]; [|exact Hstep].
      specialize (IH (WorkflowExecutor.target targetEdge) st1).
      destruct (NodesRoute.executeNodeChain _ _ _ _ _ _); [|done|done].
      by apply (Htrans _ st1).
    + assert (match for_each
                      (List.filter (fun edge => String.eqb (WorkflowExecutor.source edge)
                                                  (WorkflowExecutor.id node)) edges)
                      (fun edge => NodesRoute.executeNodeChain env nodes edges fuel
                                     (WorkflowExecutor.target edge)) st1 with
              | Done s' => R st1 s'
              | Thrown _ => True
              | OutOfFuel => True
              end) as Hloop.
      { apply for_each_step; [done|done|]. intros edge s _ _.
        specialize (IH (WorkflowExecutor.target edge) s).
        by destruct (NodesRoute.executeNodeChain _ _ _ _ _ _). }
      destruct (for_each _ _ st1); [|done|done]. by apply (Htrans _ st1).
  - apply Hvisit; [done|]. unfold executor_ids.
    rewrite elem_of_list_to_set, list_elem_of_In, in_map_iff.
    intros (n & Hid & Hn). pose proof (List.find_none _ _ Hfind n Hn) as Hf. cbn in Hf.
    rewrite Hid, String.eqb_refl in Hf. discriminate.
Qed.

Lemma executor_chain_audit (env : WorkflowExecutor.Env)
    (nodes : list WorkflowExecutor.WorkflowNode) (edges : list WorkflowExecutor.WorkflowEdge)
    (fuel : nat) (nodeId : string) (st st' : NodesRoute.ChainState) :
  NodesRoute.executeNodeChain env nodes edges fuel nodeId st = Done st' ->
  chain_audit nodes st st'.
Proof.
  intros Hrun.
  pose proof (executor_chain_rel env nodes edges (chain_audit nodes)
                (chain_audit_refl nodes) (chain_audit_trans nodes)) as H.
  assert (forall fuel nodeId st,
            match NodesRoute.executeNodeChain env nodes edges fuel nodeId st with
            | Done st' => chain_audit nodes st st'
            | _ => True
            end) as Hall.
  { apply H.
    - intros s x Hx _. split; [cbn; set_solver|]. exists []. cbn. rewrite app_nil_r.
      split; [done|]. split; [apply NoDup_nil_2|]. split; [by intros y ?%elem_of_nil|]. set_solver.
    - intros s node output Hvis Hin _. split; [cbn; set_solver|].
      exists [WorkflowExecutor.id node]. cbn. split; [done|]. split; [apply NoDup_singleton|].
      split.
      + intros x ->%list_elem_of_singleton. split; [done|]. split; [done|]. set_solver.
      + unfold WorkflowExecutor.setNodeOutput. cbn [WorkflowExecutor.nodeOutputs].
        rewrite assign_dom_eq. set_solver. }
  specialize (Hall fuel nodeId st). by rewrite Hrun in Hall.
Qed.


(** The value an input node chooses. *)
Lemma executor_input_choice (cfg : JsValue) (fields : list string) (fallback : string) :
  (forall key, key ∈ fields -> Js.truthy (Js.get key cfg) = true ->
               Js.is_string (Js.get key cfg) = true) ->
  fallback <> EmptyString ->
  exists text,
    fold_right (fun key rest => Js.or (Js.get key cfg) rest) (JStr fallback) fields = JStr text
    /\ text <> EmptyString.
Proof.
  intros Hfields Hfb. induction fields as [|key fields IH]; cbn; [by eauto|].
  destruct IH as (text & Hrest & Htext).
  { intros k Hk. apply Hfields. by right. }
  rewrite Hrest. unfold Js.or. destruct (Js.truthy (Js.get key cfg)) eqn:Ht; [|by eauto].
  pose proof (Hfields key ltac:(by left) Ht) as Hs.
  destruct (Js.get key cfg) as [| | | |s| |]; try discriminate.
  exists s. split; [done|]. cbn in Ht. intros ->. discriminate.
Qed.


Lemma find_input_none (nodes : list WorkflowExecutor.WorkflowNode) :
  List.find (fun node => String.eqb (WorkflowExecutor.type node) "input") nodes = None ->
  forall node, node ∈ nodes -> WorkflowExecutor.type node <> "input".
Proof.
  intros Hfind node Hin Hty. apply list_elem_of_In in Hin.
  pose proof (List.find_none _ _ Hfind node Hin) as H. cbn in H. rewrite Hty in H. discriminate.
Qed.


(** A node without configuration: reading its name throws, and the
    route answers 500 with the message of that TypeError. *)
Lemma nodes_route_missing_config :
  NodesRoute.POST sample_executor_env
    {| NodesRoute.body_nodes :=
         Some [{| WorkflowExecutor.id := "1"; WorkflowExecutor.type := "input";
                  WorkflowExecutor.data := JObj [] |}];
       NodesRoute.body_edges := Some [] |}
  = Done (NodesRoute.Failed 500 "Workflow execution failed"
            (Some "Cannot read properties of undefined (reading 'name')")).
Proof. reflexivity. Qed.


Lemma within_convertible : forall v, convertible_within v = true -> Js.convertible v = true.
Proof.
  fix IH 1. intros [| | | | |items|props]; cbn; try done.
  - induction items as [|x xs IHxs]; cbn; [done|].
    intros [Hx Hxs]%andb_prop. rewrite (IH x Hx). by apply IHxs.
  - by intros [H _]%andb_prop.
Qed.

Lemma within_assoc (k : string) (props : list (string * JsValue)) (v : JsValue) :
  forallb (fun kv => convertible_within (snd kv)) props = true ->
  Js.assoc k props = Some v -> convertible_within v = true.
Proof.
  induction props as [|[k' v'] props IH]; cbn; [discriminate|].
  intros [Hv Hrest]%andb_prop. destruct (String.eqb k k'); [by intros [= <-] | by apply IH].
Qed.

Lemma within_own_property (k : string) (v x : JsValue) :
  convertible_within v = true -> Js.own_property k v = Some x -> convertible_within x = true.
Proof.
  destruct v as [| | | | |items|props]; cbn; try discriminate.
  - intros Hitems. destruct (String.eqb k "length"); [by intros [= <-]|].
    destruct (Js.array_index k) as [i|]; [|discriminate]. intros Hi.
    rewrite forallb_forall in Hitems. apply Hitems. apply list_elem_of_In.
    by apply (list_elem_of_lookup_2 _ (N.to_nat i)).
  - intros [_ H]%andb_prop. by apply within_assoc.
Qed.

Lemma within_get (k : string) (v : JsValue) :
  convertible_within v = true -> convertible_within (Js.get k v) = true.
Proof.
  intros H. unfold Js.get. destruct (Js.own_property k v) as [x|] eqn:E; [|done].
  by apply (within_own_property k v).
Qed.

Lemma within_or (a b : JsValue) :
  convertible_within a = true -> convertible_within b = true ->
  convertible_within (Js.or a b) = true.
Proof. intros Ha Hb. unfold Js.or. by destruct (Js.truthy a). Qed.

Lemma object_member_within (k : string) (found : Js.Any) :
  Js.object_member k = Some found -> any_convertible_within found = true.
Proof.
  unfold Js.object_member. destruct (String.eqb k "constructor"); [by intros [= <-]|].
  destruct (bool_decide _); [by intros [= <-] | discriminate].
Qed.

Lemma array_member_within (methods : list string) (k : string) (found : Js.Any) :
  Js.array_member methods k = Some found -> any_convertible_within found = true.
Proof.
  unfold Js.array_member. destruct (String.eqb k "constructor"); [by intros [= <-]|].
  destruct (bool_decide _); [by intros [= <-] | apply object_member_within].
Qed.

Lemma inherited_within (k : string) (found : Js.Any) :
  Js.inherited k = Some found -> any_convertible_within found = true.
Proof.
  unfold Js.inherited. destruct (String.eqb k "__proto__"); [by intros [= <-]|].
  apply object_member_within.
Qed.

Lemma member_within (methods : list string) (k : string) (a found : Js.Any) :
  any_convertible_within a = true -> Js.member methods k a = Some found ->
  any_convertible_within found = true.
Proof.
  destruct a as [v|name| |]; cbn [Js.member any_convertible_within].
  - intros Hv. destruct v as [| | | | |items|props]; try discriminate.
    + destruct (Js.own_property k (JArr items)) as [x|] eqn:E.
      * intros [= <-]. by apply (within_own_property k (JArr items)).
      * destruct (String.eqb k "__proto__"); [by intros [= <-]|]. apply array_member_within.
    + destruct (Js.assoc k props) as [x|] eqn:E.
      * intros [= <-]. by apply (within_own_property k (JObj props)).
      * apply inherited_within.
  - discriminate.
  - intros _. destruct (String.eqb k "__proto__"); [by intros [= <-]|]. apply object_member_within.
  - intros _. destruct (String.eqb k "length"); [by intros [= <-]|].
    destruct (String.eqb k "__proto__"); [by intros [= <-]|]. apply array_member_within.
Qed.

Lemma walk_within (methods : list string) (parts : list string) :
  forall current, any_convertible_within current = true ->
    any_convertible_within (WorkflowExecutor.walk methods parts current) = true.
Proof.
  induction parts as [|part rest IH]; intros current Hc; cbn [WorkflowExecutor.walk]; [done|].
  destruct (Js.any_truthy current && String.eqb (Js.any_typeof current) "object"); [|done].
  destruct (Js.member methods part current) as [next|] eqn:E; [|done].
  apply IH. by apply (member_within methods part current).
Qed.

Lemma variable_within (ctx : WorkflowExecutor.WorkflowContext) (key : string) (found : Js.Any) :
  plain_context ctx -> WorkflowExecutor.variable ctx key = Some found ->
  any_convertible_within found = true.
Proof.
  intros Hctx. unfold WorkflowExecutor.variable.
  destruct (WorkflowExecutor.variables ctx !! key) as [value|] eqn:E.
  - intros [= <-]. by apply (Hctx key).
  - apply inherited_within.
Qed.

Lemma getVariable_within (methods : list string) (ctx : WorkflowExecutor.WorkflowContext)
    (path : string) :
  plain_context ctx -> any_convertible_within (WorkflowExecutor.getVariable methods ctx path) = true.
Proof.
  intros Hctx. unfold WorkflowExecutor.getVariable.
  destruct (WorkflowExecutor.variable ctx path) as [value|] eqn:E;
    [by apply (variable_within ctx path)|].
  unfold WorkflowExecutor.nested_lookup. destruct (JsString.split "." path) as [|part rest]; [done|].
  destruct (WorkflowExecutor.variable ctx part) as [current|] eqn:Ep; [|done].
  apply walk_within. by apply (variable_within ctx part).
Qed.

Lemma string_of_within (v : JsValue) :
  convertible_within v = true -> Js.string_of v = Done (Js.toString v).
Proof. intros H. unfold Js.string_of. by rewrite within_convertible. Qed.

Lemma number_of_within (v : JsValue) :
  convertible_within v = true -> exists d, Js.number_of v = Done d.
Proof. intros H. unfold Js.number_of. rewrite within_convertible by done. eauto. Qed.

Lemma executor_resolve_done (methods : list string) (ctx : WorkflowExecutor.WorkflowContext)
    (matched variablePath : string) :
  plain_context ctx ->
  exists text, WorkflowExecutor.resolve methods ctx matched variablePath = Done text.
Proof.
  intros Hctx.
  assert (forall path, exists text,
            WorkflowExecutor.string_or_match (WorkflowExecutor.getVariable methods ctx path) matched
            = Done text) as H.
  { intros path. unfold WorkflowExecutor.string_or_match.
    pose proof (getVariable_within methods ctx path Hctx) as Hv.
    destruct (Js.any_is_undefined _); [by eauto|].
    destruct (WorkflowExecutor.getVariable methods ctx path) as [v|name| |];
      cbn [Js.any_string_of]; [|by eauto..].
    rewrite string_of_within by done. eauto. }
  unfold WorkflowExecutor.resolve. cbv zeta.
  destruct (JsString.includes _ Template.legacy_id); [apply H|].
  destruct (JsString.startsWith _ "node_"); apply H.
Qed.

Lemma render_all_done (f : string -> string -> Run string) (segments : list Template.segment) :
  (forall m p, exists text, f m p = Done text) ->
  exists text, Template.render_all f segments = Done text.
Proof.
  intros Hf. induction segments as [|[c|m p] rest [text IH]]; cbn [Template.render_all];
    [by eauto| |].
  - rewrite IH. cbn. eauto.
  - destruct (Hf m p) as [replacement ->]. rewrite IH. cbn. eauto.
Qed.

Lemma executor_processTemplate_done (methods : list string)
    (ctx : WorkflowExecutor.WorkflowContext) (template : JsValue) :
  plain_context ctx -> convertible_within template = true ->
  exists value,
    WorkflowExecutor.processTemplate methods ctx template = Done value
    /\ convertible_within value = true.
Proof.
  intros Hctx Ht. destruct template as [| | | |t| |]; cbn [WorkflowExecutor.processTemplate];
    try by eauto.
  destruct (render_all_done (WorkflowExecutor.resolve methods ctx) (Template.scan 0 t))
    as [text E]; [intros; by apply executor_resolve_done|].
  unfold Template.replace_run. rewrite E. cbn. eauto.
Qed.

Lemma executor_evaluateCondition_done (value compareValue operator : JsValue) :
  convertible_within value = true -> convertible_within compareValue = true ->
  exists result, WorkflowExecutor.evaluateCondition value compareValue operator = Done result.
Proof.
  intros Hv Hc. destruct (number_of_within value Hv) as [a Ha].
  destruct (number_of_within compareValue Hc) as [b Hb].
  unfold WorkflowExecutor.evaluateCondition. rewrite Ha, Hb, !string_of_within by done.
  destruct operator as [| | | |op| |]; try by eauto.
  repeat match goal with
  | |- context [String.eqb op ?k] => destruct (String.eqb op k)
  end; cbn; eauto.
Qed.

Lemma config_get_within (node : WorkflowExecutor.WorkflowNode) (key : string) :
  plain_config node ->
  convertible_within (Js.get key (WorkflowExecutor.config node)) = true.
Proof. intros [_ Hcfg]. apply Hcfg. Qed.

Lemma config_or_within (node : WorkflowExecutor.WorkflowNode) (key : string) (default : JsValue) :
  plain_config node -> convertible_within default = true ->
  convertible_within (Js.or (Js.get key (WorkflowExecutor.config node)) default) = true.
Proof. intros Hcfg Hd. apply within_or; [by apply config_get_within | done]. Qed.

Lemma executeLogicNode_done (methods : list string) (ctx : WorkflowExecutor.WorkflowContext)
    (node : WorkflowExecutor.WorkflowNode) :
  plain_context ctx -> plain_config node ->
  exists logicResult, WorkflowExecutor.executeLogicNode methods ctx node = Done logicResult.
Proof.
  intros Hctx Hcfg. unfold WorkflowExecutor.executeLogicNode.
  rewrite config_field_done by apply Hcfg. cbn [mbind run_bind]. cbv zeta.
  destruct (executor_processTemplate_done methods ctx
              (Js.or (Js.get "condition" (WorkflowExecutor.config node)) (JStr "{{input}}"))
              Hctx) as (processedCondition & -> & Hp); [by apply config_or_within|].
  cbn [mbind run_bind].
  destruct (executor_evaluateCondition_done processedCondition
              (Js.or (Js.get "compareValue" (WorkflowExecutor.config node)) (JStr EmptyString))
              (Js.or (Js.get "operator" (WorkflowExecutor.config node)) (JStr "equals")) Hp)
    as [result ->]; [by apply config_or_within|].
  cbn [mbind run_bind]. rewrite !string_of_within by (done || by apply config_or_within).
  cbn. eauto.
Qed.

Lemma assign_lookup_some (key : string) (value : JsValue) (object : gmap string JsValue)
    (k : string) (x : JsValue) :
  WorkflowExecutor.assign key value object !! k = Some x -> x = value \/ object !! k = Some x.
Proof.
  unfold WorkflowExecutor.assign. destruct (_ && _); [by right|].
  destruct (decide (key = k)) as [->|Hne].
  - rewrite lookup_insert_eq. intros [= <-]. by left.
  - rewrite lookup_insert_ne by done. by right.
Qed.

Lemma setNodeOutput_plain (nodeId : string) (output : JsValue)
    (ctx : WorkflowExecutor.WorkflowContext) :
  plain_context ctx -> convertible_within output = true ->
  plain_context (WorkflowExecutor.setNodeOutput nodeId output ctx).
Proof.
  intros Hctx Hout key value. unfold WorkflowExecutor.setNodeOutput.
  cbn [WorkflowExecutor.variables].
  intros [->|[->|H]%assign_lookup_some]%assign_lookup_some; [done|done|]. by apply (Hctx key).
Qed.

Lemma empty_context_plain : plain_context WorkflowExecutor.empty_context.
Proof. intros key value. cbn. by rewrite lookup_empty. Qed.

Lemma current_input_within (ctx : WorkflowExecutor.WorkflowContext) :
  plain_context ctx ->
  convertible_within
    (Js.or (match WorkflowExecutor.variables ctx !! "input" with Some v => v | None => JUndefined end)
           (JStr "No input yet")) = true.
Proof.
  intros Hctx. apply within_or; [|done].
  destruct (WorkflowExecutor.variables ctx !! "input") as [v|] eqn:E; [by apply (Hctx "input") | done].
Qed.

(** On a context and a configuration that can be converted, the action
    of a node returns, unless the node is an input node that does not
    hold text; its output can be converted as well. *)
Lemma executor_executeNode_done (env : WorkflowExecutor.Env)
    (node : WorkflowExecutor.WorkflowNode) (ctx : WorkflowExecutor.WorkflowContext) :
  plain_context ctx -> plain_config node ->
  (WorkflowExecutor.type node = "input" -> holds_text node) ->
  exists output,
    WorkflowExecutor.executeNode env node ctx
    = Done (output, WorkflowExecutor.setNodeOutput (WorkflowExecutor.id node) output ctx)
    /\ convertible_within output = true.
Proof.
  intros Hctx Hcfg Htext.
  pose proof (current_input_within ctx Hctx) as Hinput.
  unfold WorkflowExecutor.executeNode. cbv zeta.
  set (currentInput := Js.or _ (JStr "No input yet")) in *.
  rewrite config_field_done by apply Hcfg. cbn [mbind run_bind].
  set (cfg := WorkflowExecutor.config node).
  assert (forall key, convertible_within (Js.get key cfg) = true) as Hget
    by (intros key; by apply config_get_within).
  assert (forall key default, convertible_within default = true ->
            convertible_within (Js.or (Js.get key cfg) default) = true) as Hor
    by (intros key default Hd; by apply within_or).
  rewrite (string_of_within (Js.get "name" cfg)), (string_of_within currentInput) by done.
  cbn [mbind run_bind].
  match goal with
  | |- exists output, ?inner ≫= _ = _ /\ _ =>
      assert (exists out, inner = Done out /\ convertible_within out = true)
        as (out & -> & Hout); [|exists out; by split]
  end.
  destruct (String.eqb_spec (WorkflowExecutor.type node) "input") as [Hty|_].
  { specialize (Htext Hty).
    assert (forall fields fallback,
              (forall key, key ∈ fields ->
                 key ∈ ["textValue"; "processedText"; "data"; "description"; "initialValue"]) ->
              fallback <> EmptyString ->
              exists text,
                fold_right (fun key rest => Js.or (Js.get key cfg) rest) (JStr fallback) fields
                = JStr text) as Hchoice.
    { intros fields fallback Hsub Hfb.
      destruct (executor_input_choice cfg fields fallback) as (text & Ht & _); [|done|by eauto].
      intros key Hk. apply Htext. by apply Hsub. }
    destruct (Js.strict_equals _ (JStr "text")).
    - destruct (Hchoice ["textValue"; "data"; "initialValue"; "description"] "Workflow started")
        as [text Ht]; [|done|].
      { intros key Hk. apply list_elem_of_In in Hk. apply list_elem_of_In. cbn in *. tauto. }
      cbn in Ht. rewrite Ht. eauto.
    - destruct (Js.strict_equals _ (JStr "file")).
      + destruct (Hchoice ["processedText"; "data"; "description"] "No file uploaded")
          as [text Ht]; [|done|].
        { intros key Hk. apply list_elem_of_In in Hk. apply list_elem_of_In. cbn in *. tauto. }
        cbn in Ht. rewrite Ht. eauto.
      + destruct (Hchoice ["processedText"; "data"; "textValue"; "initialValue"; "description"]
                    "Workflow started") as [text Ht]; [|done|].
        { intros key Hk. apply list_elem_of_In in Hk. apply list_elem_of_In. cbn in *. tauto. }
        cbn in Ht. rewrite Ht. eauto. }
  destruct (String.eqb (WorkflowExecutor.type node) "prompt").
  { destruct (executor_processTemplate_done (WorkflowExecutor.arrayMethods env) ctx
                (Js.or (Js.get "prompt" cfg) (JStr "Default prompt")) Hctx)
      as (processedPrompt & -> & Hp); [by apply Hor|].
    cbn [mbind run_bind]. rewrite !string_of_within by (done || by apply Hor).
    cbn [mbind run_bind]. destruct (WorkflowExecutor.callGeminiAPI _ _ _ _); eauto. }
  destruct (String.eqb (WorkflowExecutor.type node) "api").
  { destruct (executor_processTemplate_done (WorkflowExecutor.arrayMethods env) ctx
                (Js.or (Js.get "url" cfg) (JStr "https://api.example.com")) Hctx)
      as (processedUrl & -> & Hp); [by apply Hor|].
    cbn [mbind run_bind]. rewrite !string_of_within by (done || by apply Hor).
    cbn [mbind run_bind]. eauto. }
  destruct (String.eqb (WorkflowExecutor.type node) "logic").
  { destruct (executor_processTemplate_done (WorkflowExecutor.arrayMethods env) ctx
                (Js.or (Js.get "condition" cfg) (JStr "{{input}}")) Hctx)
      as (processedCondition & -> & Hp); [by apply Hor|].
    cbn [mbind run_bind].
    destruct (executor_evaluateCondition_done processedCondition
                (Js.or (Js.get "compareValue" cfg) (JStr EmptyString))
                (Js.or (Js.get "operator" cfg) (JStr "equals")) Hp) as [result ->];
      [by apply Hor|].
    cbn [mbind run_bind]. rewrite !string_of_within by (done || by apply Hor).
    cbn [mbind run_bind]. eexists. split; [reflexivity|].
    cbn. rewrite Hp, !Hor by done. reflexivity. }
  destruct (String.eqb (WorkflowExecutor.type node) "output"); [|by eauto].
  pose proof (Hor "format" (JStr "json") eq_refl) as Hformat.
  rewrite (string_of_within (Js.or (Js.get "format" cfg) (JStr "json"))) by done.
  cbn [mbind run_bind]. eexists. split; [reflexivity|].
  repeat match goal with
  | |- context [if ?b then _ else _] => destruct b
  | |- context [match ?x with Some _ => _ | None => _ end] => destruct x
  end; cbn; rewrite ?Hinput, ?Hformat; reflexivity.
Qed.

Lemma for_each_invariant {A S : Type} (P : S -> Prop) (xs : list A)
    (body : A -> S -> Run S) :
  (forall x s, P s ->
     match body x s with Done s' => P s' | Thrown _ => False | OutOfFuel => True end) ->
  forall st, P st ->
    match for_each xs body st with Done s' => P s' | Thrown _ => False | OutOfFuel => True end.
Proof.
  intros Hbody. induction xs as [|x xs IH]; intros st Hst; cbn [for_each]; [done|].
  specialize (Hbody x st Hst). destruct (body x st) as [s1| |]; cbn; [by apply IH | done | done].
Qed.

(** On a graph whose configurations can be converted and whose input
    nodes hold text, the chain throws nothing and keeps the context
    convertible. *)
Lemma executor_chain_plain (env : WorkflowExecutor.Env)
    (nodes : list WorkflowExecutor.WorkflowNode) (edges : list WorkflowExecutor.WorkflowEdge) :
  (forall node, node ∈ nodes -> plain_config node) ->
  (forall node, node ∈ nodes -> WorkflowExecutor.type node = "input" -> holds_text node) ->
  forall fuel nodeId st,
    plain_context (NodesRoute.context st) ->
    match NodesRoute.executeNodeChain env nodes edges fuel nodeId st with
    | Done st' => plain_context (NodesRoute.context st')
    | Thrown _ => False
    | OutOfFuel => True
    end.
Proof.
  intros Hcfg Htext. induction fuel as [|fuel IH]; intros nodeId st Hst; [done|].
  cbn [NodesRoute.executeNodeChain].
  destruct (bool_decide (nodeId ∈ NodesRoute.visited st)); [done|].
  destruct (List.find _ nodes) as [node|] eqn:Hfind; [|done].
  apply List.find_some in Hfind as [Hin _]. apply list_elem_of_In in Hin.
  destruct (executor_executeNode_done env node (NodesRoute.context st) Hst (Hcfg node Hin)
              (Htext node Hin)) as (output & -> & Hout).
  cbn [mbind run_bind].
  pose proof (setNodeOutput_plain (WorkflowExecutor.id node) output _ Hst Hout) as Hctx1.
  destruct (String.eqb (WorkflowExecutor.type node) "logic").
  - destruct (executeLogicNode_done (WorkflowExecutor.arrayMethods env) _ node Hctx1
                (Hcfg node Hin)) as [logicResult ->].
    cbn [mbind run_bind].
    destruct (List.find (fun edge => bool_decide _) _) as [targetEdge|]; [|done].
    by apply IH.
  - apply (for_each_invariant (fun s => plain_context (NodesRoute.context s))); [|done].
    intros edge s Hs. by apply IH.
Qed.

(** X8: when the submitted graph has an input node, every input node
    holds text (each of the five fields it chooses from is falsy or a
    string) and no configuration holds an object with an own [toString]
    property, the node execution route answers success with
    executedNodes = nodes.length and totalEdges = edges.length,
    whatever the edges, the other nodes and the answers of the Gemini
    service are. *)
Theorem X8_nodes_route_succeeds (env : WorkflowExecutor.Env)
    (nodes : list WorkflowExecutor.WorkflowNode) (edges : list WorkflowExecutor.WorkflowEdge) :
  (exists node, node ∈ nodes /\ WorkflowExecutor.type node = "input") ->
  (forall node, node ∈ nodes -> WorkflowExecutor.type node = "input" -> holds_text node) ->
  (forall node, node ∈ nodes -> plain_config node) ->
  exists result,
    NodesRoute.POST env {| NodesRoute.body_nodes := Some nodes; NodesRoute.body_edges := Some edges |}
    = Done (NodesRoute.Succeeded result (length nodes) (length edges)).
Proof.
  intros (inputNode & Hin & Hty) Htext Hcfg. unfold NodesRoute.POST. cbn.
  assert (exists result, NodesRoute.executeWorkflow env nodes edges = Done result) as [result ->];
    [|by eauto].
  unfold NodesRoute.executeWorkflow.
  destruct (List.find _ nodes) as [startNode|] eqn:Hfind;
    [|by destruct (find_input_none nodes Hfind inputNode Hin)].
  pose proof (executeWithBranching_returns env nodes edges WorkflowExecutor.empty_context
                (WorkflowExecutor.id startNode)) as Hret.
  pose proof (executor_chain_plain env nodes edges Hcfg Htext (S (length nodes))
                (WorkflowExecutor.id startNode)
                {| NodesRoute.context := WorkflowExecutor.empty_context;
                   NodesRoute.visited := ∅; NodesRoute.executedNodes := [] |}
                empty_context_plain) as Hplain.
  unfold NodesRoute.executeWithBranching in *.
  destruct (NodesRoute.executeNodeChain _ _ _ _ _ _) as [st| |]; [cbn; by eauto | done | done].
Qed.

Lemma X8_witness :
  exists result,
    NodesRoute.POST sample_executor_env
      {| NodesRoute.body_nodes := Some branch_nodes; NodesRoute.body_edges := Some branch_edges |}
    = Done (NodesRoute.Succeeded result 4 3).
Proof.
  apply (X8_nodes_route_succeeds sample_executor_env branch_nodes branch_edges).
  - exists {| WorkflowExecutor.id := "1"; WorkflowExecutor.type := "input";
              WorkflowExecutor.data := data_of_config [("textValue", JStr "10")] |}.
    split; [|reflexivity]. apply list_elem_of_In. left. reflexivity.
  - intros node Hin Hty. apply list_elem_of_In in Hin. cbn in Hin.
    destruct Hin as [<-|[<-|[<-|[<-|[]]]]]; try discriminate Hty.
    intros key Hk Htruthy. apply list_elem_of_In in Hk. cbn in Hk.
    destruct Hk as [<-|[<-|[<-|[<-|[<-|[]]]]]]; cbn in *; done.
  - intros node Hin. apply list_elem_of_In in Hin. cbn in Hin.
    destruct Hin as [<-|[<-|[<-|[<-|[]]]]]; (split; [reflexivity|]); intros key;
      unfold Js.get; cbn; repeat (destruct (String.eqb key _); [reflexivity|]); reflexivity.
Defined.

(** The call of the chain on a node that was not visited executes that
    node first. *)
Lemma executor_chain_first (env : WorkflowExecutor.Env)
    (nodes : list WorkflowExecutor.WorkflowNode) (edges : list WorkflowExecutor.WorkflowEdge)
    (fuel : nat) (nodeId : string) (st st' : NodesRoute.ChainState) :
  NodesRoute.executeNodeChain env nodes edges fuel nodeId st = Done st' ->
  nodeId ∉ NodesRoute.visited st -> nodeId ∈ executor_ids nodes ->
  exists more, NodesRoute.executedNodes st' = NodesRoute.executedNodes st ++ nodeId :: more.
Proof.
  destruct fuel as [|fuel]; [discriminate|]. cbn [NodesRoute.executeNodeChain].
  intros Hrun Hvis Hin. rewrite (bool_decide_eq_false_2 _ Hvis) in Hrun.
  destruct (List.find _ nodes) as [node|] eqn:Hfind.
  - destruct (find_id_elem _ _ _ Hfind) as [Hid _]. subst nodeId.
    destruct (executor_executeNode_cases env node (NodesRoute.context st))
      as [[output Hexec]|[message Hexec]]; rewrite Hexec in Hrun; [|discriminate].
    cbn in Hrun. set (st1 := {| NodesRoute.context := _ |}) in *.
    assert (chain_audit nodes st1 st') as (_ & more & Hmore & _).
    { destruct (String.eqb (WorkflowExecutor.type node) "logic").
      - apply bind_Done in Hrun as (logicResult & _ & Hrun).
        destruct (List.find (fun edge => bool_decide _) _) as [targetEdge|].
        + by apply (executor_chain_audit _ _ _ _ _ _ _ Hrun).
        + injection Hrun as <-. apply chain_audit_refl.
      - pose proof (for_each_step (chain_audit nodes) True
                      (List.filter (fun edge => String.eqb (WorkflowExecutor.source edge)
                                                  (WorkflowExecutor.id node)) edges)
                      (fun edge => NodesRoute.executeNodeChain env nodes edges fuel
                                     (WorkflowExecutor.target edge)) st1
                      (chain_audit_refl nodes) (chain_audit_trans nodes)) as Hloop.
        rewrite Hrun in Hloop. apply Hloop. intros edge s _ _.
        destruct (NodesRoute.executeNodeChain env nodes edges fuel
                    (WorkflowExecutor.target edge) s) eqn:E; [|done|done].
        by apply (executor_chain_audit _ _ _ _ _ _ _ E). }
    exists more. rewrite Hmore. cbn. by rewrite <- app_assoc.
  - exfalso. unfold executor_ids in Hin.
    rewrite elem_of_list_to_set, list_elem_of_In, in_map_iff in Hin.
    destruct Hin as (n & Hid & Hn). pose proof (List.find_none _ _ Hfind n Hn) as Hf. cbn in Hf.
    rewrite Hid, String.eqb_refl in Hf. discriminate.
Qed.

(** X9: what the branching traversal of the class-based engine
    executes. No node id is executed twice; every executed id is a node
    id of the graph, so the traversal executes at most as many nodes as
    the graph has; the executed ids other than [__proto__] are exactly
    the keys the traversal adds to [nodeOutputs]; and when the start id
    is a node id, that node is executed first. *)
Theorem X9_executed_nodes_bookkeeping (env : WorkflowExecutor.Env)
    (nodes : list WorkflowExecutor.WorkflowNode) (edges : list WorkflowExecutor.WorkflowEdge)
    (executor : WorkflowExecutor.WorkflowContext) (startNodeId : string)
    (st : NodesRoute.ChainState) :
  NodesRoute.executeWithBranching env nodes edges executor startNodeId = Done st ->
  NoDup (NodesRoute.executedNodes st)
  /\ (forall nodeId, nodeId ∈ NodesRoute.executedNodes st -> nodeId ∈ map WorkflowExecutor.id nodes)
  /\ length (NodesRoute.executedNodes st) <= length nodes
  /\ dom (WorkflowExecutor.nodeOutputs (NodesRoute.context st))
     = dom (WorkflowExecutor.nodeOutputs executor)
       ∪ (list_to_set (NodesRoute.executedNodes st) ∖ {["__proto__"]})
  /\ (startNodeId ∈ map WorkflowExecutor.id nodes ->
      head (NodesRoute.executedNodes st) = Some startNodeId).
Proof.
  unfold NodesRoute.executeWithBranching. intros Hrun.
  destruct (executor_chain_audit _ _ _ _ _ _ _ Hrun) as (_ & more & Hmore & Hnd & Hin & Hdom).
  cbn in Hmore, Hdom. rewrite Hmore.
  assert (forall x, x ∈ more -> x ∈ map WorkflowExecutor.id nodes) as Hids.
  { intros x Hx. destruct (Hin x Hx) as (H & _). unfold executor_ids in H.
    by apply elem_of_list_to_set in H. }
  split; [done|]. split; [done|]. split.
  { rewrite <- (size_list_to_set (C := gset string) _ Hnd).
    pose proof (size_list_to_set_le (map WorkflowExecutor.id nodes)) as Hle.
    rewrite length_map in Hle.
    assert ((list_to_set more : gset string) ⊆ list_to_set (map WorkflowExecutor.id nodes)) as Hsub.
    { intros x Hx%elem_of_list_to_set. apply elem_of_list_to_set. by apply Hids. }
    apply subseteq_size in Hsub. lia. }
  split; [done|]. intros Hstart.
  destruct (executor_chain_first _ _ _ _ _ _ _ Hrun) as [rest Hrest].
  - cbn. set_solver.
  - unfold executor_ids. by apply elem_of_list_to_set.
  - cbn in Hrest. rewrite Hmore in Hrest. by rewrite Hrest.
Qed.

Lemma X9_witness :
  match NodesRoute.executeWithBranching sample_executor_env branch_nodes branch_edges
          WorkflowExecutor.empty_context "1" with
  | Done st => head (NodesRoute.executedNodes st) = Some "1"
  | _ => True
  end.
Proof.
  destruct (NodesRoute.executeWithBranching sample_executor_env branch_nodes branch_edges
              WorkflowExecutor.empty_context "1") as [st| |] eqn:E; [|exact I|exact I].
  apply (X9_executed_nodes_bookkeeping _ _ _ _ _ _ E).
  apply list_elem_of_In. left. reflexivity.
Defined.

(** ** What node actions of the class-based engine put out *)

Lemma or_chain_truthy (cfg : JsValue) (fields : list string) (fallback : JsValue) :
  Js.truthy fallback = true ->
  Js.truthy (fold_right (fun key rest => Js.or (Js.get key cfg) rest) fallback fields) = true.
Proof.
  intros Hfb. induction fields as [|key fields IH]; cbn; [done|].
  unfold Js.or. by destruct (Js.truthy (Js.get key cfg)) eqn:E.
Qed.

(** A chain of [||] gives the first truthy operand, or the last one. *)
Lemma or_chain_first (cfg : JsValue) (fields : list string) (fallback : JsValue) :
  first_truthy cfg fields fallback
    (fold_right (fun key rest => Js.or (Js.get key cfg) rest) fallback fields).
Proof.
  induction fields as [|key fields IH]; cbn [fold_right].
  - right. split; [|done]. by intros k ?%elem_of_nil.
  - unfold Js.or at 1. destruct (Js.truthy (Js.get key cfg)) eqn:Ht.
    + left. exists [], key, fields. split; [done|]. split; [|done]. by intros k ?%elem_of_nil.
    + destruct IH as [(before & k & after & -> & Hb & Hk & Hv)|[Hall Hv]].
      * left. exists (key :: before), k, after. split; [done|]. split; [|done].
        intros x [->|Hx]%elem_of_cons; auto.
      * right. split; [|done]. intros x [->|Hx]%elem_of_cons; auto.
Qed.

(** X10: an input node of the class-based engine that returns has put
    out a string that is not empty: what the first truthy field of its
    configuration holds, the fields being tried in the order of its
    input type (textValue, data, initialValue, description for "text",
    the type of a node that names none; processedText, data,
    description for "file"; processedText, data, textValue,
    initialValue, description for any other type), or, when no field is
    truthy, the fallback text of the type ("No file uploaded" for
    "file", else "Workflow started"). *)
Theorem X10_input_node_outputs_text (env : WorkflowExecutor.Env)
    (node : WorkflowExecutor.WorkflowNode) (ctx ctx' : WorkflowExecutor.WorkflowContext)
    (output : JsValue) :
  WorkflowExecutor.type node = "input" ->
  WorkflowExecutor.executeNode env node ctx = Done (output, ctx') ->
  let cfg := WorkflowExecutor.config node in
  let '(fields, fallback) := input_fields (Js.or (Js.get "inputType" cfg) (JStr "text")) in
  exists text,
    output = JStr text /\ text <> EmptyString
    /\ first_truthy cfg fields (JStr fallback) output.
Proof.
  intros Hty. unfold WorkflowExecutor.executeNode. rewrite Hty. cbv zeta.
  cbn [String.eqb Ascii.eqb Bool.eqb].
  set (cfg := WorkflowExecutor.config node).
  intros H. apply bind_Done in H as (? & _ & H). apply bind_Done in H as (? & _ & H).
  apply bind_Done in H as (? & _ & H).
  apply bind_Done in H as (out & H & Hout). injection Hout as <- _.
  assert (forall fields fallback,
            fallback <> EmptyString ->
            match fold_right (fun key rest => Js.or (Js.get key cfg) rest)
                    (JStr fallback) fields with
            | JStr s => Done (fold_right (fun key rest => Js.or (Js.get key cfg) rest)
                                (JStr fallback) fields)
            | _ => Thrown "output?.substring is not a function"
            end = Done out ->
            exists text, out = JStr text /\ text <> EmptyString
                         /\ first_truthy cfg fields (JStr fallback) out) as Hcase.
  { intros fields fallback Hfb.
    assert (Js.truthy (JStr fallback) = true) as Hf by (by destruct fallback).
    pose proof (or_chain_truthy cfg fields (JStr fallback) Hf) as Htruthy.
    pose proof (or_chain_first cfg fields (JStr fallback)) as Hfirst.
    destruct (fold_right _ _ fields) as [| | | |s| |]; try discriminate.
    intros [= <-]. exists s. split; [done|]. split; [|done]. intros ->. discriminate Htruthy. }
  unfold input_fields. revert H.
  destruct (Js.strict_equals _ (JStr "text")).
  - intros H. apply (Hcase ["textValue"; "data"; "initialValue"; "description"]
                       "Workflow started"); [done|]. exact H.
  - destruct (Js.strict_equals _ (JStr "file")).
    + intros H. apply (Hcase ["processedText"; "data"; "description"] "No file uploaded");
        [done|]. exact H.
    + intros H. apply (Hcase ["processedText"; "data"; "textValue"; "initialValue"; "description"]
                         "Workflow started"); [done|]. exact H.
Qed.

Lemma X10_witness :
  exists text,
    JStr "10" = JStr text /\ text <> EmptyString
    /\ first_truthy (JObj [("data", JStr "10"); ("description", JStr "ten")])
         ["textValue"; "data"; "initialValue"; "description"] (JStr "Workflow started")
         (JStr "10").
Proof.
  apply (X10_input_node_outputs_text sample_executor_env
           {| WorkflowExecutor.id := "1"; WorkflowExecutor.type := "input";
              WorkflowExecutor.data := data_of_config [("data", JStr "10"); ("description", JStr "ten")] |}
           WorkflowExecutor.empty_context
           (WorkflowExecutor.setNodeOutput "1" (JStr "10") WorkflowExecutor.empty_context)
           (JStr "10")); reflexivity.
Defined.

Lemma substring_length_le (n : nat) (s : string) :
  String.length (String.substring 0 n s) <= n.
Proof.
  revert s. induction n as [|n IH]; intros [|c s]; cbn; try lia.
  specialize (IH s). lia.
Qed.

Lemma substring_whole (n : nat) (s : string) :
  String.length s <= n -> String.substring 0 n s = s.
Proof.
  revert s. induction n as [|n IH]; intros [|c s]; cbn; intros H; try done; try lia.
  f_equal. apply IH. lia.
Qed.

(** The preview of a text: the text itself up to 200 characters, else
    its first 200 characters and an ellipsis. *)
Lemma preview_spec (s : string) :
  String.length (WorkflowExecutor.preview s) <= 203
  /\ (String.length s <= 200 -> WorkflowExecutor.preview s = s)
  /\ (200 < String.length s ->
      exists rest, s = JsString.substring0 200 s +:+ rest
                   /\ WorkflowExecutor.preview s = JsString.substring0 200 s +:+ "...").
Proof.
  unfold WorkflowExecutor.preview, JsString.substring0.
  pose proof (substring_length_le 200 s) as Hle.
  destruct (Nat.ltb_spec 200 (String.length s)) as [Hlong|Hshort].
  - split; [rewrite length_app_s; cbn; lia|]. split; [lia|]. intros _.
    assert (forall n t, exists rest, t = String.substring 0 n t +:+ rest) as Hpre.
    { induction n as [|n IH]; intros [|c t]; cbn; try (by eexists).
      destruct (IH t) as [rest Hr]. exists rest. rewrite app_cons_s. by f_equal. }
    destruct (Hpre 200 s) as [rest Hrest]. by exists rest.
  - rewrite app_nil_r_s. split; [lia|]. split; [|lia]. intros _. by apply substring_whole.
Qed.

Lemma strict_equals_string (v : JsValue) (s : string) :
  Js.strict_equals v (JStr s) = true -> v = JStr s.
Proof.
  destruct v as [| | |n|t| |]; cbn; try discriminate; [by destruct n|].
  by intros ->%String.eqb_eq.
Qed.

(** X11: an output node of the class-based engine that holds a
    configuration returns when the name and the format of the
    configuration and the current input can be converted to a string,
    that is when none of them is an object with an own [toString]
    property, and throws a TypeError otherwise.
    For a current input whose numbers are integers of the safe range,
    what it puts out names the format it applied (the configured one,
    "json" when none is configured), the time of the execution, and a
    preview that is the preview of its data as text, so never longer
    than 203 characters. *)
Theorem X11_output_node_preview (env : WorkflowExecutor.Env)
    (node : WorkflowExecutor.WorkflowNode) (ctx : WorkflowExecutor.WorkflowContext) :
  WorkflowExecutor.type node = "output" ->
  let cfg := WorkflowExecutor.config node in
  let currentInput :=
    Js.or (match WorkflowExecutor.variables ctx !! "input" with
           | Some v => v
           | None => JUndefined
           end) (JStr "No input yet") in
  Js.is_nullish cfg = false ->
  Js.safe currentInput = true ->
  if Js.convertible (Js.get "name" cfg) && Js.convertible currentInput
     && Js.convertible (Js.get "format" cfg)
  then
    exists output,
      WorkflowExecutor.executeNode env node ctx
      = Done (output, WorkflowExecutor.setNodeOutput (WorkflowExecutor.id node) output ctx)
      /\ Js.get "format" output = Js.or (Js.get "format" cfg) (JStr "json")
      /\ Js.get "timestamp" output = JStr (WorkflowExecutor.now env (WorkflowExecutor.id node))
      /\ exists preview,
           Js.get "preview" output = JStr preview
           /\ preview = WorkflowExecutor.preview (Js.toString (Js.get "data" output))
           /\ String.length preview <= 203
  else
    WorkflowExecutor.executeNode env node ctx = Thrown "Cannot convert object to primitive value".
Proof.
  intros Hty cfg currentInput Hcfg _. unfold WorkflowExecutor.executeNode. rewrite Hty.
  rewrite config_field_done by done. cbn [mbind run_bind]. cbv zeta.
  cbn [String.eqb Ascii.eqb Bool.eqb].
  fold cfg. fold currentInput.
  set (format := Js.or (Js.get "format" cfg) (JStr "json")).
  assert (Js.convertible format = Js.convertible (Js.get "format" cfg)) as Hformat.
  { unfold format, Js.or. by destruct (Js.truthy (Js.get "format" cfg)) eqn:E;
      [|destruct (Js.get "format" cfg) as [| | | | | |]]. }
  rewrite <- Hformat. unfold Js.string_of.
  destruct (Js.convertible (Js.get "name" cfg)); cbn [andb mbind run_bind]; [|reflexivity].
  destruct (Js.convertible currentInput); cbn [andb mbind run_bind]; [|reflexivity].
  destruct (Js.convertible format); cbn [mbind run_bind]; [|reflexivity].
  assert (forall s, String.length (WorkflowExecutor.preview s) <= 203) as Hlen.
  { intros s. apply preview_spec. }
  destruct (Js.strict_equals format (JStr "json")) eqn:Ejson.
  - apply strict_equals_string in Ejson as ->.
    destruct (match currentInput with JStr s => Some s | _ => Js.stringify_pretty currentInput end);
      cbn; eexists; (split; [reflexivity|]); cbn; repeat split; eexists; repeat split; apply Hlen.
  - destruct (Js.strict_equals format (JStr "text")) eqn:Etext.
    + apply strict_equals_string in Etext as ->.
      cbn; eexists; (split; [reflexivity|]); cbn; repeat split; eexists; repeat split; apply Hlen.
    + destruct (Js.strict_equals format (JStr "csv")) eqn:Ecsv.
      * apply strict_equals_string in Ecsv as ->.
        cbn; eexists; (split; [reflexivity|]); cbn; repeat split; eexists; repeat split; apply Hlen.
      * cbn; eexists; (split; [reflexivity|]); cbn; repeat split; eexists; repeat split; apply Hlen.
Qed.

Lemma X11_witness :
  exists output,
    WorkflowExecutor.executeNode sample_executor_env
      {| WorkflowExecutor.id := "3"; WorkflowExecutor.type := "output";
         WorkflowExecutor.data := data_of_config [] |} WorkflowExecutor.empty_context
    = Done (output, WorkflowExecutor.setNodeOutput "3" output WorkflowExecutor.empty_context)
    /\ Js.get "format" output = JStr "json".
Proof.
  destruct (X11_output_node_preview sample_executor_env
              {| WorkflowExecutor.id := "3"; WorkflowExecutor.type := "output";
                 WorkflowExecutor.data := data_of_config [] |} WorkflowExecutor.empty_context
              eq_refl eq_refl eq_refl)
    as (output & Hrun & Hformat & _).
  exists output. split; [exact Hrun | exact Hformat].
Defined.

(** ** Templates *)

Lemma match_here_brace (c : ascii) (s m p : string) :
  Template.match_here (String c s) = Some (m, p) -> c = "{"%char.
Proof.
  intros H. destruct (match_here_Some _ _ _ H) as (_ & _ & -> & rest & Hs).
  rewrite !app_cons_s in Hs. by injection Hs.
Qed.

(** Text without opening brace in front of a template is kept as it
    is. *)
Lemma replace_literal_prefix (f : string -> string -> string) (pre s : string) :
  no_lbrace pre = true -> Template.replace f (pre +:+ s) = pre +:+ Template.replace f s.
Proof.
  induction pre as [|c pre IH]; cbn; intros H; [done|].
  apply andb_true_iff in H as [Hc Hpre]. rewrite !app_cons_s.
  rewrite replace_lit; [by rewrite IH|].
  destruct (Template.match_here (String c (pre +:+ s))) as [[m p]|] eqn:E; [|done].
  apply match_here_brace in E as ->. discriminate.
Qed.

(** A template that lacks the opening or the closing pair of braces
    holds no placeholder. *)
Lemma placeholders_none (t : string) :
  JsString.includes t "{{" = false \/ JsString.includes t "}}" = false ->
  Template.placeholders t = [].
Proof.
  induction t as [|c s Hm IH|m p rest Hm IH] using scan_ind; intros H.
  - reflexivity.
  - rewrite placeholders_lit by done. apply IH.
    destruct H as [H|H]; [left|right];
      (change (JsString.includes (String c s) ?x)
         with (String.prefix x (String c s) || JsString.includes s x) in H;
       by apply orb_false_iff in H as [_ H]).
  - exfalso. destruct (match_here_Some _ _ _ Hm) as (_ & _ & Hmm & _).
    destruct H as [H|H].
    + assert (JsString.includes (m +:+ rest) "{{" = true) as Ht; [|by rewrite Ht in H].
      apply includes_spec. exists EmptyString, (p +:+ "}}" +:+ rest).
      rewrite Hmm. rewrite app_nil_l_s. by rewrite !app_assoc_s.
    + assert (JsString.includes (m +:+ rest) "}}" = true) as Ht; [|by rewrite Ht in H].
      apply includes_spec. exists ("{{" +:+ p), rest.
      rewrite Hmm. by rewrite !app_assoc_s.
Qed.

(** Text without opening brace in front of a template is kept as it
    is, whatever the callback does. *)
Lemma replace_run_literal_prefix (f : string -> string -> Run string) (pre s : string) :
  no_lbrace pre = true ->
  Template.replace_run f (pre +:+ s) = (text ← Template.replace_run f s; Done (pre +:+ text)).
Proof.
  induction pre as [|c pre IH]; cbn [no_lbrace]; intros H.
  - rewrite app_nil_l_s. by destruct (Template.replace_run f s).
  - apply andb_true_iff in H as [Hc Hpre]. rewrite !app_cons_s.
    rewrite replace_run_lit; [rewrite IH by done; by destruct (Template.replace_run f s)|].
    destruct (Template.match_here (String c (pre +:+ s))) as [[m p]|] eqn:E; [|done].
    apply match_here_brace in E as ->. discriminate.
Qed.

(** X12: both template processors treat a template left to right, one
    pass. A template that lacks "{{" or lacks "}}" comes back unchanged.
    Text without opening brace before a placeholder is kept, the
    placeholder is replaced by what the resolver gives for it, and the
    rest of the template is processed on its own: what was substituted
    is not looked at again. When the resolver throws for the
    placeholder, the rest is not processed. *)
Theorem X12_template_single_pass :
  (forall methods t context ctx,
      JsString.includes t "{{" = false \/ JsString.includes t "}}" = false ->
      Engine.processTemplate methods (JStr t) context = Done (JStr t)
      /\ WorkflowExecutor.processTemplate methods ctx (JStr t) = Done (JStr t))
  /\ (forall methods pre path post context ctx,
        no_lbrace pre = true -> path <> EmptyString -> Template.no_rbrace path = true ->
        Engine.processTemplate methods (JStr (pre +:+ ("{{" +:+ path +:+ "}}") +:+ post)) context
        = (replacement ← Engine.resolve methods context ("{{" +:+ path +:+ "}}") path;
           rest ← Engine.processTemplate methods (JStr post) context;
           Done (JStr (pre +:+ replacement +:+ Js.toString rest)))
        /\ WorkflowExecutor.processTemplate methods ctx
             (JStr (pre +:+ ("{{" +:+ path +:+ "}}") +:+ post))
           = (replacement ← WorkflowExecutor.resolve methods ctx ("{{" +:+ path +:+ "}}") path;
              rest ← WorkflowExecutor.processTemplate methods ctx (JStr post);
              Done (JStr (pre +:+ replacement +:+ Js.toString rest)))).
Proof.
  split.
  - intros methods t context ctx H. pose proof (placeholders_none t H) as Hnone.
    cbn. split; (rewrite replace_run_unchanged; [reflexivity|]); rewrite Hnone;
      by intros m p ?%elem_of_nil.
  - intros methods pre path post context ctx Hpre Hne Hrb.
    cbn [Engine.processTemplate WorkflowExecutor.processTemplate].
    split; rewrite replace_run_literal_prefix by done;
      rewrite (replace_run_hole _ _ path) by (by apply match_here_token).
    + destruct (Engine.resolve methods context _ path); cbn; [|done|done].
      by destruct (Template.replace_run _ post).
    + destruct (WorkflowExecutor.resolve methods ctx _ path); cbn; [|done|done].
      by destruct (Template.replace_run _ post).
Qed.

Lemma X12_witness :
  Engine.processTemplate array_methods_2023
    (JStr ("Say " +:+ ("{{" +:+ "a" +:+ "}}") +:+ " twice")) [("a", JStr "{{a}}")]
  = (replacement ← Engine.resolve array_methods_2023 [("a", JStr "{{a}}")]
                     ("{{" +:+ "a" +:+ "}}") "a";
     rest ← Engine.processTemplate array_methods_2023 (JStr " twice") [("a", JStr "{{a}}")];
     Done (JStr ("Say " +:+ replacement +:+ Js.toString rest))).
Proof.
  apply (proj2 X12_template_single_pass array_methods_2023 "Say " "a" " twice"
           [("a", JStr "{{a}}")] WorkflowExecutor.empty_context);
    [reflexivity | discriminate | reflexivity].
Defined.

(** ** File names and file types *)

Lemma lower_char_dot (c : ascii) : JsText.lower_char c = "."%char <-> c = "."%char.
Proof. destruct c as [[] [] [] [] [] [] [] []]; vm_compute; split; congruence. Qed.

Lemma lower_char_idem (c : ascii) : JsText.lower_char (JsText.lower_char c) = JsText.lower_char c.
Proof. destruct c as [[] [] [] [] [] [] [] []]; reflexivity. Qed.

Lemma toLowerCase_idem (s : string) :
  JsText.toLowerCase (JsText.toLowerCase s) = JsText.toLowerCase s.
Proof.
  unfold JsText.toLowerCase. induction s as [|c s IH]; cbn; [done|].
  by rewrite lower_char_idem, IH.
Qed.

Lemma toLowerCase_app (s t : string) :
  JsText.toLowerCase (s +:+ t) = JsText.toLowerCase s +:+ JsText.toLowerCase t.
Proof.
  unfold JsText.toLowerCase. induction s as [|c s IH]; [done|].
  rewrite app_cons_s. cbn. by rewrite IH, app_cons_s.
Qed.

(** Lowering a text lowers its pieces between the dots. *)
Lemma split_toLowerCase (s : string) :
  JsString.split "." (JsText.toLowerCase s) = map JsText.toLowerCase (JsString.split "." s).
Proof.
  unfold JsText.toLowerCase. induction s as [|c s IH]; [done|].
  cbn [JsString.map_chars JsString.split]. rewrite IH.
  destruct (Ascii.eqb_spec c ".") as [Hc|Hc];
    destruct (Ascii.eqb_spec (JsText.lower_char c) ".") as [Hl|Hl].
  - done.
  - by apply (proj2 (lower_char_dot c)) in Hc.
  - by apply (proj1 (lower_char_dot c)) in Hl.
  - by destruct (JsString.split "." s).
Qed.

Lemma split_not_nil (s : string) : JsString.split "." s <> [].
Proof.
  destruct s as [|c s]; cbn; [done|]. destruct (Ascii.eqb c "."); [done|].
  by destruct (JsString.split "." s).
Qed.

Lemma last_segment_toLowerCase (s : string) :
  JsText.last_segment (JsText.toLowerCase s) = JsText.toLowerCase (JsText.last_segment s).
Proof.
  unfold JsText.last_segment. rewrite split_toLowerCase.
  pose proof (split_not_nil s) as Hne.
  induction (JsString.split "." s) as [|p ps IH]; [done|].
  destruct ps as [|q ps]; [done|]. cbn [map List.last] in *. by apply IH.
Qed.

(** The pieces of a text that holds a dot end with the pieces of what
    follows that dot. *)
Lemma split_after_dot (a b : string) :
  exists pieces, pieces <> [] /\ JsString.split "." (a +:+ "." +:+ b) = pieces ++ JsString.split "." b.
Proof.
  induction a as [|c a (pieces & Hne & IH)].
  - exists [EmptyString]. split; [done|]. by str_norm.
  - rewrite app_cons_s. cbn. rewrite IH. destruct (Ascii.eqb c ".").
    + exists (EmptyString :: pieces). by split.
    + destruct pieces as [|p ps]; [done|]. exists (String c p :: ps). by split.
Qed.

Lemma last_segment_after_dot (a b : string) :
  JsText.last_segment (a +:+ "." +:+ b) = JsText.last_segment b.
Proof.
  unfold JsText.last_segment. destruct (split_after_dot a b) as (pieces & _ & ->).
  pose proof (split_not_nil b) as Hne.
  induction pieces as [|p ps IH]; cbn [app]; [done|].
  destruct (ps ++ JsString.split "." b) as [|q qs] eqn:E; [|exact IH].
  apply app_eq_nil in E as [_ E]. done.
Qed.

Lemma last_segment_plain (s : string) :
  JsString.includes s "." = false -> JsText.last_segment s = s.
Proof. intros H. unfold JsText.last_segment. by rewrite split_no_dot. Qed.

Lemma endsWith_spec (s suffix : string) :
  JsText.endsWith s suffix = true <-> exists pre, s = pre +:+ suffix.
Proof.
  induction s as [|c s IH].
  - cbn [JsText.endsWith]. rewrite orb_false_r, String.eqb_eq. split.
    + intros <-. by exists EmptyString.
    + intros [pre H]. destruct pre; [by rewrite app_nil_l_s in H | by rewrite app_cons_s in H].
  - cbn [JsText.endsWith]. rewrite orb_true_iff, IH, String.eqb_eq. split.
    + intros [<-|[pre ->]]; [by exists EmptyString | by exists (String c pre)].
    + intros [[|d pre] H].
      * left. by rewrite app_nil_l_s in H.
      * right. rewrite app_cons_s in H. injection H as _ ->. by exists pre.
Qed.

(** X13: [getFileTypeFromName] looks only at the text after the last
    dot of the name, whatever its letter case; a name without dot is
    taken as its own extension. The twelve known extensions give their
    type; any other gives "application/octet-stream", except the two
    lowered names every object inherits, for which the result is not a
    string at all. *)
Theorem X13_file_type_from_extension :
  (forall base extension,
      JsString.includes extension "." = false ->
      FileProcessor.getFileTypeFromName (base +:+ "." +:+ extension)
      = FileProcessor.getFileTypeFromName extension
      /\ FileProcessor.getFileTypeFromName extension
         = FileProcessor.getFileTypeFromName (JsText.toLowerCase extension))
  /\ (forall extension mime,
        (extension, mime) ∈ FileProcessor.mimeTypes ->
        FileProcessor.getFileTypeFromName extension = FileProcessor.Mime mime)
  /\ (forall fileName,
        OrdMap.get (JsText.toLowerCase (JsText.last_segment fileName)) FileProcessor.mimeTypes = None ->
        JsText.toLowerCase (JsText.last_segment fileName) ∉ FileProcessor.inherited_keys ->
        FileProcessor.getFileTypeFromName fileName = FileProcessor.Mime "application/octet-stream")
  /\ (forall fileName key,
        JsText.toLowerCase (JsText.last_segment fileName) = key ->
        key ∈ FileProcessor.inherited_keys ->
        FileProcessor.getFileTypeFromName fileName = FileProcessor.Inherited key).
Proof.
  split; [|split; [|split]].
  - intros base extension Hdot. unfold FileProcessor.getFileTypeFromName. cbv zeta.
    rewrite last_segment_after_dot, last_segment_toLowerCase, (last_segment_plain _ Hdot).
    by rewrite toLowerCase_idem.
  - intros extension mime Hin. apply list_elem_of_In in Hin. cbn in Hin.
    repeat (destruct Hin as [[= <- <-]|Hin]; [reflexivity|]). done.
  - intros fileName Hnone Hinh. unfold FileProcessor.getFileTypeFromName. cbv zeta.
    rewrite Hnone. by rewrite bool_decide_eq_false_2.
  - intros fileName key Hkey Hin. unfold FileProcessor.getFileTypeFromName. cbv zeta.
    rewrite Hkey. apply list_elem_of_In in Hin. cbn in Hin.
    by destruct Hin as [<-|[<-|[]]].
Qed.

Lemma X13_witness :
  FileProcessor.getFileTypeFromName "Report.Final.PDF" = FileProcessor.Mime "application/pdf"
  /\ FileProcessor.getFileTypeFromName "notes.xyz" = FileProcessor.Mime "application/octet-stream"
  /\ FileProcessor.getFileTypeFromName "archive.Constructor"
     = FileProcessor.Inherited "constructor".
Proof.
  destruct X13_file_type_from_extension as (Hext & Htable & Hother & Hinherited).
  split; [|split; [|apply Hinherited; [reflexivity | by left]]].
  - destruct (Hext "Report.Final" "PDF" eq_refl) as [Hlast Hcase].
    etransitivity; [exact Hlast|]. etransitivity; [exact Hcase|].
    apply (Htable "pdf" "application/pdf"). apply list_elem_of_In. cbn. tauto.
  - apply Hother; [reflexivity|].
    intros H. apply list_elem_of_In in H. cbn in H. intuition discriminate.
Defined.

(** A lowered name that ends in a dot and an extension without dot has
    that extension as its last segment. *)
Lemma endsWith_extension (fileName extension : string) :
  JsString.includes extension "." = false ->
  JsText.endsWith (JsText.toLowerCase fileName) ("." +:+ extension) = true ->
  JsText.toLowerCase (JsText.last_segment fileName) = extension.
Proof.
  intros Hdot [pre Hpre]%endsWith_spec.
  rewrite <- last_segment_toLowerCase, Hpre, last_segment_after_dot.
  by apply last_segment_plain.
Qed.

(** X14: in automatic mode the markdown extractor is chosen only for a
    file that declares a type which is neither text, JSON nor XML and
    whose name ends in ".md" or ".markdown", in any letter case. A file
    whose type is derived from its name is never handed to the markdown
    extractor: the ".md" extension gives the type "text/markdown", which
    is extracted as plain text. The method chosen is always one of
    plain, markdown and ocr. *)
Theorem X14_markdown_needs_declared_type :
  (forall fileType fileName,
      FileProcessor.determineExtractionMethod (FileProcessor.Mime fileType) fileName
      = FileProcessor.Returned "markdown" ->
      JsString.startsWith fileType "text/" = false
      /\ fileType <> "application/json" /\ fileType <> "application/xml"
      /\ (JsText.endsWith (JsText.toLowerCase fileName) ".md" = true
          \/ JsText.endsWith (JsText.toLowerCase fileName) ".markdown" = true))
  /\ (forall fileName,
        FileProcessor.determineExtractionMethod (FileProcessor.getFileTypeFromName fileName) fileName
        <> FileProcessor.Returned "markdown")
  /\ (forall fileType fileName method,
        FileProcessor.determineExtractionMethod fileType fileName = FileProcessor.Returned method ->
        method = "plain" \/ method = "markdown" \/ method = "ocr").
Proof.
  assert (forall fileType fileName,
            FileProcessor.determineExtractionMethod (FileProcessor.Mime fileType) fileName
            = FileProcessor.Returned "markdown" ->
            JsString.startsWith fileType "text/" = false
            /\ fileType <> "application/json" /\ fileType <> "application/xml"
            /\ (JsText.endsWith (JsText.toLowerCase fileName) ".md" = true
                \/ JsText.endsWith (JsText.toLowerCase fileName) ".markdown" = true)) as Hneeds.
  { intros fileType fileName. unfold FileProcessor.determineExtractionMethod.
    destruct (JsString.startsWith fileType "text/") eqn:Htext; [discriminate|].
    destruct (String.eqb_spec fileType "application/json") as [->|Hjson]; [discriminate|].
    destruct (String.eqb_spec fileType "application/xml") as [->|Hxml]; [discriminate|].
    cbn [orb].
    destruct (String.eqb_spec fileType "text/markdown") as [->|Hmd]; [discriminate Htext|].
    cbn [orb].
    destruct (JsText.endsWith (JsText.toLowerCase fileName) ".md") eqn:E1; [by auto 10|].
    destruct (JsText.endsWith (JsText.toLowerCase fileName) ".markdown") eqn:E2; [by auto 10|].
    cbn [orb]. by destruct (_ || _). }
  split; [exact Hneeds|]. split.
  - intros fileName Hmd.
    destruct (FileProcessor.getFileTypeFromName fileName) as [fileType|key] eqn:Htype;
      [|discriminate].
    destruct (Hneeds fileType fileName Hmd) as (Htext & _ & _ & Hend).
    assert (JsText.toLowerCase (JsText.last_segment fileName) = "md"
            \/ JsText.toLowerCase (JsText.last_segment fileName) = "markdown") as Hext.
    { destruct Hend as [H|H]; [left|right]; by apply endsWith_extension. }
    unfold FileProcessor.getFileTypeFromName in Htype. cbv zeta in Htype.
    destruct Hext as [Hext|Hext]; rewrite Hext in Htype; cbn in Htype;
      injection Htype as <-; discriminate.
  - intros [fileType|key] fileName method; [|discriminate].
    unfold FileProcessor.determineExtractionMethod.
    repeat match goal with |- context [if ?b then _ else _] => destruct b end;
      intros [= <-]; auto.
Qed.

Lemma X14_witness :
  FileProcessor.determineExtractionMethod (FileProcessor.Mime "application/octet-stream") "README.MD"
  = FileProcessor.Returned "markdown"
  /\ (JsText.endsWith (JsText.toLowerCase "README.MD") ".md" = true
      \/ JsText.endsWith (JsText.toLowerCase "README.MD") ".markdown" = true)
  /\ FileProcessor.determineExtractionMethod (FileProcessor.getFileTypeFromName "README.MD") "README.MD"
     <> FileProcessor.Returned "markdown".
Proof.
  destruct X14_markdown_needs_declared_type as (Hneeds & Hnever & _).
  split; [reflexivity|]. split.
  - apply (Hneeds "application/octet-stream" "README.MD" eq_refl).
  - apply Hnever.
Defined.

(** ** Processing files *)

Lemma settled_succeeded (t : string) : settled (FileProcessor.succeeded t).
Proof. split; [done | discriminate]. Qed.

Lemma settled_failed (message : string) : settled (FileProcessor.failed message).
Proof. split; [discriminate|]. intros _. split; [done | by eexists]. Qed.

#[local] Hint Resolve settled_succeeded settled_failed : core.

Lemma extractPlainText_settled (file : FileProcessor.File) :
  settled (FileProcessor.extractPlainText file)
  /\ FileProcessor.metadata (FileProcessor.extractPlainText file) = None.
Proof. unfold FileProcessor.extractPlainText. destruct (FileProcessor.text file); auto. Qed.

Lemma extractMarkdown_settled (file : FileProcessor.File) :
  settled (FileProcessor.extractMarkdown file)
  /\ FileProcessor.metadata (FileProcessor.extractMarkdown file) = None.
Proof. unfold FileProcessor.extractMarkdown. destruct (FileProcessor.text file); auto. Qed.

Lemma extractFromWordDoc_settled (file : FileProcessor.File) :
  settled (FileProcessor.extractFromWordDoc file)
  /\ FileProcessor.metadata (FileProcessor.extractFromWordDoc file) = None.
Proof.
  unfold FileProcessor.extractFromWordDoc.
  destruct (FileProcessor.fileTypeOf file); [|auto].
  destruct (_ || _); [|destruct (_ || _); auto].
  destruct (FileProcessor.rawText file); [|auto]. destruct (Nat.ltb _ _); auto.
Qed.

Lemma extractFromImage_settled (file : FileProcessor.File) :
  settled (FileProcessor.extractFromImage file)
  /\ FileProcessor.metadata (FileProcessor.extractFromImage file) = None.
Proof.
  unfold FileProcessor.extractFromImage.
  destruct (FileProcessor.recognizedText file); [|auto]. destruct (Nat.ltb _ _); auto.
Qed.

(** What [extractTextFromFile] returns is settled; it throws only on a
    file whose type is no string, and then only when it has to look at
    the type: in automatic mode and for the ocr method. *)
Lemma extractTextFromFile_cases (file : FileProcessor.File) (extractionMethod : string) :
  match FileProcessor.extractTextFromFile file extractionMethod with
  | FileProcessor.Returned r => settled r /\ FileProcessor.metadata r = None
  | FileProcessor.Threw _ =>
      (exists key, FileProcessor.fileTypeOf file = FileProcessor.Inherited key)
      /\ (extractionMethod = "auto" \/ extractionMethod = "ocr")
  end.
Proof.
  assert (match FileProcessor.extractWithOCR file with
          | FileProcessor.Returned r => settled r /\ FileProcessor.metadata r = None
          | FileProcessor.Threw _ =>
              exists key, FileProcessor.fileTypeOf file = FileProcessor.Inherited key
          end) as Hocr.
  { unfold FileProcessor.extractWithOCR.
    destruct (FileProcessor.fileTypeOf file) as [fileType|key] eqn:E; [|by eauto].
    destruct (String.eqb fileType "application/pdf"); [by auto|].
    destruct (_ || _); [apply extractFromWordDoc_settled|].
    destruct (JsString.startsWith _ _);
      [apply extractFromImage_settled | apply extractPlainText_settled]. }
  assert (forall method,
            match (if String.eqb method "plain"
                   then FileProcessor.Returned (FileProcessor.extractPlainText file)
                   else if String.eqb method "markdown"
                   then FileProcessor.Returned (FileProcessor.extractMarkdown file)
                   else if String.eqb method "ocr" then FileProcessor.extractWithOCR file
                   else FileProcessor.Returned (FileProcessor.extractPlainText file)) with
            | FileProcessor.Returned r => settled r /\ FileProcessor.metadata r = None
            | FileProcessor.Threw _ =>
                (exists key, FileProcessor.fileTypeOf file = FileProcessor.Inherited key)
                /\ method = "ocr"
            end) as Hdispatch.
  { intros method. destruct (String.eqb method "plain"); [apply extractPlainText_settled|].
    destruct (String.eqb method "markdown"); [apply extractMarkdown_settled|].
    destruct (String.eqb_spec method "ocr") as [->|_]; [|apply extractPlainText_settled].
    destruct (FileProcessor.extractWithOCR file); auto. }
  unfold FileProcessor.extractTextFromFile.
  destruct (String.eqb_spec extractionMethod "auto") as [->|Hmanual].
  - destruct (FileProcessor.determineExtractionMethod _ _) as [method|message] eqn:Hm.
    + specialize (Hdispatch method).
      destruct (if String.eqb method "plain" then _ else _); [done|].
      destruct Hdispatch as [Hkey _]. auto.
    + split; [|by left]. unfold FileProcessor.determineExtractionMethod in Hm.
      destruct (FileProcessor.fileTypeOf file) as [fileType|key]; [|by eauto].
      by repeat match type of Hm with context [if ?b then _ else _] => destruct b end.
  - specialize (Hdispatch extractionMethod).
    destruct (if String.eqb extractionMethod "plain" then _ else _); [done|].
    destruct Hdispatch as [Hkey ->]. auto.
Qed.

(** X15: [processFiles] never throws and answers with one result for
    each file, in the order of the files. Each result is a success
    without error or a failure with an error and no text, and carries
    metadata: the name, size and type of its file, and as extraction
    method the one that was asked for (in automatic mode "auto", not
    the method chosen) when the extraction succeeded, "failed"
    otherwise. *)
Theorem X15_processFiles_one_result_per_file (files : list FileProcessor.File)
    (extractionMethod : string) :
  length (FileProcessor.processFiles files extractionMethod) = length files
  /\ forall i file, files !! i = Some file ->
       exists r m,
         FileProcessor.processFiles files extractionMethod !! i = Some r
         /\ settled r
         /\ FileProcessor.metadata r = Some m
         /\ FileProcessor.fileName m = FileProcessor.name file
         /\ FileProcessor.fileSize m = FileProcessor.size file
         /\ FileProcessor.fileType m = FileProcessor.fileTypeOf file
         /\ FileProcessor.extractionMethod m
            = (if FileProcessor.success r then extractionMethod else "failed").
Proof.
  unfold FileProcessor.processFiles. split; [apply length_map|].
  intros i file Hi.
  pose proof (extractTextFromFile_cases file extractionMethod) as Hcases.
  exists (FileProcessor.processFile extractionMethod file).
  unfold FileProcessor.processFile. cbv zeta.
  destruct (FileProcessor.extractTextFromFile file extractionMethod) as [r|message] eqn:E.
  - destruct Hcases as [[Hok Hfail] _]. eexists.
    split.
    { rewrite list_lookup_fmap, Hi. cbn. unfold FileProcessor.processFile. by rewrite E. }
    split; [by split|]. split; [reflexivity|]. cbn. done.
  - eexists. split.
    { rewrite list_lookup_fmap, Hi. cbn. unfold FileProcessor.processFile. by rewrite E. }
    split; [split; [discriminate | intros _; split; [done | by eexists]]|].
    split; [reflexivity|]. cbn. done.
Qed.

Lemma X15_witness :
  exists r,
    FileProcessor.processFiles [sample_text_file; sample_pdf] "auto" !! 1 = Some r
    /\ settled r
    /\ option_map FileProcessor.fileName (FileProcessor.metadata r)
       = Some (FileProcessor.name sample_pdf).
Proof.
  destruct (X15_processFiles_one_result_per_file [sample_text_file; sample_pdf] "auto") as [_ H].
  destruct (H 1 sample_pdf eq_refl) as (r & m & Hr & Hsettled & Hm & Hname & _).
  exists r. split; [exact Hr|]. split; [exact Hsettled|]. by rewrite Hm, <- Hname.
Defined.

(** X16: what the utility can not extract. A file of type
    "application/pdf" fails with the advice to use the upload route, for
    the ocr method and, unless its name ends in ".md" or ".markdown",
    in automatic mode. A file without declared type whose extension is
    a name every object inherits fails for the ocr method and in
    automatic mode, although the plain method reads it. *)
Theorem X16_files_that_always_fail (file : FileProcessor.File) (extractionMethod : string) :
  extractionMethod = "ocr"
  \/ (extractionMethod = "auto"
      /\ JsText.endsWith (JsText.toLowerCase (FileProcessor.name file)) ".md" = false
      /\ JsText.endsWith (JsText.toLowerCase (FileProcessor.name file)) ".markdown" = false) ->
  (FileProcessor.fileTypeOf file = FileProcessor.Mime "application/pdf" ->
   FileProcessor.success (FileProcessor.processFile extractionMethod file) = false
   /\ FileProcessor.error (FileProcessor.processFile extractionMethod file)
      = FileProcessor.error (FileProcessor.extractFromPDF file))
  /\ (forall key,
        FileProcessor.fileTypeOf file = FileProcessor.Inherited key ->
        FileProcessor.success (FileProcessor.processFile extractionMethod file) = false
        /\ FileProcessor.success (FileProcessor.processFile "plain" file)
           = FileProcessor.success (FileProcessor.extractPlainText file)).
Proof.
  intros Hmethod. split.
  - intros Hpdf. unfold FileProcessor.processFile, FileProcessor.extractTextFromFile. cbv zeta.
    destruct Hmethod as [->|(-> & Hmd & Hmarkdown)]; cbn [String.eqb Ascii.eqb Bool.eqb].
    + unfold FileProcessor.extractWithOCR. rewrite Hpdf. cbn. done.
    + rewrite Hpdf. unfold FileProcessor.determineExtractionMethod. rewrite Hmd, Hmarkdown.
      cbn. unfold FileProcessor.extractWithOCR. rewrite Hpdf. cbn. done.
  - intros key Hkey. split; [|reflexivity].
    unfold FileProcessor.processFile, FileProcessor.extractTextFromFile. cbv zeta.
    destruct Hmethod as [->|(-> & _ & _)]; cbn [String.eqb Ascii.eqb Bool.eqb].
    + unfold FileProcessor.extractWithOCR. by rewrite Hkey.
    + by rewrite Hkey.
Qed.

Lemma X16_witness :
  FileProcessor.success (FileProcessor.processFile "auto" sample_pdf) = false
  /\ FileProcessor.error (FileProcessor.processFile "auto" sample_pdf)
     = FileProcessor.error (FileProcessor.extractFromPDF sample_pdf).
Proof.
  apply (X16_files_that_always_fail sample_pdf "auto"); [|reflexivity].
  right. repeat split; reflexivity.
Defined.

(** ** Combining the texts of files *)

Lemma join_app (sep : string) (l1 l2 : list string) :
  l1 <> [] -> l2 <> [] ->
  JsString.join sep (l1 ++ l2) = JsString.join sep l1 +:+ sep +:+ JsString.join sep l2.
Proof.
  intros H1 H2. induction l1 as [|p [|q l1] IH]; [done| |].
  - cbn [app]. destruct l2 as [|r l2]; [done|]. reflexivity.
  - change ((p :: q :: l1) ++ l2) with (p :: (q :: l1) ++ l2).
    change (JsString.join sep (p :: (q :: l1) ++ l2))
      with (p +:+ sep +:+ JsString.join sep ((q :: l1) ++ l2)).
    rewrite IH by done.
    change (JsString.join sep (p :: q :: l1)) with (p +:+ sep +:+ JsString.join sep (q :: l1)).
    by rewrite !app_assoc_s.
Qed.

Lemma filter_success_nil (results : list FileProcessor.FileProcessResult) :
  List.filter FileProcessor.success results = [] <->
  forall r, r ∈ results -> FileProcessor.success r = false.
Proof.
  induction results as [|r results IH]; cbn.
  - split; [by intros _ r ?%elem_of_nil | done].
  - destruct (FileProcessor.success r) eqn:E.
    + split; [discriminate|]. intros H. specialize (H r ltac:(by left)). congruence.
    + rewrite IH. split.
      * intros H x [->|Hx]%elem_of_cons; auto.
      * intros H x Hx. apply H. by right.
Qed.

(** X17: [combineFileResults]. When no file succeeded the answer is the
    same fixed sentence in every format. In the text format, and in any
    format that is neither "structured" nor "summary", failed results
    leave no trace: the answer is the texts of the successful results,
    in order, separated by a blank line, so the answer for two batches
    that each hold a success is the two answers joined by a blank
    line, and the answer for a single success is its text. *)
Theorem X17_combineFileResults_text (outputFormat : string) :
  outputFormat <> "structured" -> outputFormat <> "summary" ->
  (forall results anyFormat,
      (forall r, r ∈ results -> FileProcessor.success r = false) ->
      FileProcessor.combineFileResults results anyFormat
      = "No text could be extracted from the uploaded files.")
  /\ (forall results,
        FileProcessor.combineFileResults results outputFormat
        = FileProcessor.combineFileResults (List.filter FileProcessor.success results) outputFormat)
  /\ (forall batch1 batch2,
        (exists r, r ∈ batch1 /\ FileProcessor.success r = true) ->
        (exists r, r ∈ batch2 /\ FileProcessor.success r = true) ->
        FileProcessor.combineFileResults (batch1 ++ batch2) outputFormat
        = FileProcessor.combineFileResults batch1 outputFormat
          +:+ FileProcessor.blank_line
          +:+ FileProcessor.combineFileResults batch2 outputFormat)
  /\ (forall r,
        FileProcessor.success r = true ->
        FileProcessor.combineFileResults [r] outputFormat = FileProcessor.result_text r).
Proof.
  intros Hs Hm. apply String.eqb_neq in Hs, Hm.
  assert (forall results,
            List.filter FileProcessor.success results <> [] ->
            FileProcessor.combineFileResults results outputFormat
            = JsString.join FileProcessor.blank_line
                (map FileProcessor.result_text (List.filter FileProcessor.success results)))
    as Htext.
  { intros results Hne. unfold FileProcessor.combineFileResults. cbv zeta.
    destruct (List.filter FileProcessor.success results); [done|]. by rewrite Hs, Hm. }
  assert (forall results,
            (exists r, r ∈ results /\ FileProcessor.success r = true) ->
            List.filter FileProcessor.success results <> []) as Hsome.
  { intros results (r & Hin & Hr) Hnil. rewrite filter_success_nil in Hnil.
    specialize (Hnil r Hin). congruence. }
  split; [|split; [|split]].
  - intros results anyFormat Hall. apply filter_success_nil in Hall.
    unfold FileProcessor.combineFileResults. cbv zeta. by rewrite Hall.
  - intros results.
    assert (List.filter FileProcessor.success (List.filter FileProcessor.success results)
            = List.filter FileProcessor.success results) as Hidem.
    { induction results as [|r results IH]; cbn; [done|].
      destruct (FileProcessor.success r) eqn:E; cbn; [rewrite E; by f_equal | done]. }
    destruct (List.filter FileProcessor.success results) as [|r rest] eqn:E.
    + unfold FileProcessor.combineFileResults. cbv zeta. by rewrite E.
    + rewrite !Htext; rewrite ?Hidem, ?E; done.
  - intros batch1 batch2 H1%Hsome H2%Hsome.
    rewrite (Htext batch1 H1), (Htext batch2 H2), Htext.
    + rewrite List.filter_app, map_app. apply join_app.
      * by destruct (List.filter FileProcessor.success batch1).
      * by destruct (List.filter FileProcessor.success batch2).
    + rewrite List.filter_app. by destruct (List.filter FileProcessor.success batch1).
  - intros r Hr. rewrite Htext; cbn; by rewrite Hr.
Qed.

Lemma X17_witness :
  FileProcessor.combineFileResults
    [FileProcessor.succeeded "one"; FileProcessor.failed "unreadable"; FileProcessor.succeeded "two"]
    "text"
  = FileProcessor.combineFileResults
      (List.filter FileProcessor.success
         [FileProcessor.succeeded "one"; FileProcessor.failed "unreadable";
          FileProcessor.succeeded "two"]) "text".
Proof.
  apply (proj1 (proj2 (X17_combineFileResults_text "text" ltac:(discriminate) ltac:(discriminate)))).
Defined.

(** ** Markdown to plain text *)

(** A pattern that matches nowhere in a text leaves it as it is. *)
Lemma replace_matches_inert (pattern : string -> option (string * nat)) (p : ascii -> bool)
    (s : string) :
  (forall c s' r, pattern (String c s') = Some r -> p c = false) ->
  all_chars p s = true ->
  JsText.replace_matches pattern 0 s = s.
Proof.
  intros Hstart. induction s as [|c s IH]; cbn; [done|].
  intros [Hc Hs]%andb_true_iff.
  destruct (pattern (String c s)) as [[r n]|] eqn:E.
  - apply Hstart in E. congruence.
  - by rewrite IH.
Qed.

(** A global replacement whose matches lie within the text and are not
    longer replaced than matched never makes the text longer. *)
Lemma replace_matches_length (pattern : string -> option (string * nat)) :
  (forall s r n, pattern s = Some (r, n) ->
     String.length r <= n /\ 1 <= n /\ n <= String.length s) ->
  forall s skip,
    String.length (JsText.replace_matches pattern skip s) + Nat.min skip (String.length s)
    <= String.length s.
Proof.
  intros Hfit. induction s as [|c s IH]; intros skip; cbn; [lia|].
  destruct skip as [|k].
  - destruct (pattern (String c s)) as [[r n]|] eqn:E.
    + destruct (Hfit _ _ _ E) as (Hr & Hn & Hs). cbn in Hs.
      rewrite length_app_s. specialize (IH (n - 1)). lia.
    + cbn. specialize (IH 0). lia.
  - specialize (IH k). lia.
Qed.

Lemma leading_le (p : ascii -> bool) (s : string) : JsText.leading p s <= String.length s.
Proof. induction s as [|c s IH]; cbn; [lia|]. destruct (p c); lia. Qed.

Lemma drop_length (n : nat) (s : string) :
  String.length (JsText.drop n s) = String.length s - n.
Proof. revert s. induction n as [|n IH]; intros [|c s]; cbn; try lia. apply IH. Qed.

Lemma drop_app (s t : string) : JsText.drop (String.length s) (s +:+ t) = t.
Proof. induction s as [|c s IH]; [by destruct t|]. rewrite app_cons_s. cbn. apply IH. Qed.

(** What [until] captures is followed by the delimiter. *)
Lemma until_spec (any : bool) (delimiter s captured : string) :
  JsText.until any delimiter s = Some captured ->
  exists rest, s = captured +:+ delimiter +:+ rest.
Proof.
  revert captured. induction s as [|c s IH]; intros captured; cbn [JsText.until].
  - destruct (String.prefix delimiter EmptyString) eqn:E; [|discriminate].
    intros [= <-]. apply prefix_spec in E as [rest Hrest]. by exists rest.
  - destruct (String.prefix delimiter (String c s)) eqn:E.
    + intros [= <-]. apply prefix_spec in E as [rest Hrest]. by exists rest.
    + destruct (negb any && JsText.is_line_terminator c); [discriminate|].
      destruct (JsText.until any delimiter s) as [cap|]; [|discriminate].
      intros [= <-]. destruct (IH cap eq_refl) as [rest ->]. exists rest.
      by rewrite app_cons_s.
Qed.

Lemma delimited_fits (opening closing s r : string) (n : nat) :
  opening <> EmptyString ->
  JsText.delimited opening closing s = Some (r, n) ->
  String.length r <= n /\ 1 <= n /\ n <= String.length s.
Proof.
  intros Hopen. unfold JsText.delimited.
  destruct (String.prefix opening s) eqn:E; [|discriminate].
  apply prefix_spec in E as [rest ->]. rewrite drop_app.
  destruct (JsText.until false closing rest) as [captured|] eqn:U; [|discriminate].
  intros [= <- <-]. apply until_spec in U as [rest' ->].
  rewrite !length_app_s. destruct opening; [done|]. cbn. lia.
Qed.

Lemma heading_marker_fits (s r : string) (n : nat) :
  FileProcessor.heading_marker s = Some (r, n) ->
  String.length r <= n /\ 1 <= n /\ n <= String.length s.
Proof.
  unfold FileProcessor.heading_marker. cbv zeta.
  set (hashes := JsText.leading _ s).
  set (spaces := JsText.leading _ (JsText.drop hashes s)).
  destruct (Nat.leb_spec 1 hashes); [|discriminate].
  destruct (Nat.leb_spec hashes 6); [|discriminate].
  destruct (Nat.leb_spec 1 spaces); [|discriminate]. cbn [andb].
  intros [= <- <-]. cbn.
  pose proof (leading_le JsString.is_white (JsText.drop hashes s)) as Hs. fold spaces in Hs.
  rewrite drop_length in Hs.
  pose proof (leading_le (fun c => Ascii.eqb c "#") s) as Hh. fold hashes in Hh. lia.
Qed.

Lemma link_fits (s r : string) (n : nat) :
  FileProcessor.link s = Some (r, n) ->
  String.length r <= n /\ 1 <= n /\ n <= String.length s.
Proof.
  unfold FileProcessor.link. destruct s as [|c s1]; [discriminate|].
  destruct (Ascii.eqb_spec c "[") as [->|Hne]; cycle 1.
  { destruct c as [[] [] [] [] [] [] [] []]; try discriminate. by destruct Hne. }
  destruct (JsText.until false "](" s1) as [label|] eqn:U1; [|discriminate].
  apply until_spec in U1 as [rest1 ->].
  replace (String.length label + 2) with (String.length (label +:+ "](")) by
    (rewrite length_app_s; reflexivity).
  rewrite <- app_assoc_s, drop_app.
  destruct (JsText.until false ")" rest1) as [target|] eqn:U2; [|discriminate].
  apply until_spec in U2 as [rest2 ->].
  intros [= <- <-]. cbn [String.length]. rewrite !length_app_s. cbn. lia.
Qed.

Lemma code_block_fits (s r : string) (n : nat) :
  FileProcessor.code_block s = Some (r, n) ->
  String.length r <= n /\ 1 <= n /\ n <= String.length s.
Proof.
  unfold FileProcessor.code_block.
  destruct (String.prefix "```" s) eqn:E; [|discriminate].
  apply prefix_spec in E as [rest ->].
  change 3 with (String.length "```") at 1. rewrite drop_app.
  destruct (JsText.until true "```" rest) as [body|] eqn:U; [|discriminate].
  intros [= <- <-]. apply until_spec in U as [rest' ->].
  rewrite !length_app_s. cbn. lia.
Qed.

Lemma trimStart_length (s : string) : String.length (JsString.trimStart s) <= String.length s.
Proof. induction s as [|c s IH]; cbn; [lia|]. destruct (JsString.is_white c); cbn; lia. Qed.

Lemma trimEnd_length (s : string) : String.length (JsString.trimEnd s) <= String.length s.
Proof.
  induction s as [|c s IH]; cbn; [lia|].
  destruct (JsString.trimEnd s); [destruct (JsString.is_white c)|]; cbn in *; lia.
Qed.

Lemma trim_length (s : string) : String.length (JsString.trim s) <= String.length s.
Proof.
  unfold JsString.trim. pose proof (trimEnd_length (JsString.trimStart s)).
  pose proof (trimStart_length s). lia.
Qed.

Lemma replace_global_length (pattern : string -> option (string * nat)) (s : string) :
  (forall s r n, pattern s = Some (r, n) ->
     String.length r <= n /\ 1 <= n /\ n <= String.length s) ->
  String.length (JsText.replace_global pattern s) <= String.length s.
Proof.
  intros Hfit. pose proof (replace_matches_length pattern Hfit s 0) as H.
  unfold JsText.replace_global. lia.
Qed.

Lemma prefix_first (opening : string) (a c : ascii) (s : string) :
  String.prefix (String a opening) (String c s) = true -> c = a.
Proof. intros [rest H]%prefix_spec. rewrite app_cons_s in H. by injection H. Qed.

(** X18: what the markdown extractor makes of a text is never longer
    than the text; and a text that holds no hash, star, opening bracket
    or backtick is only trimmed. *)
Theorem X18_markdown_to_plain :
  (forall t, String.length (FileProcessor.plain_of_markdown t) <= String.length t)
  /\ (forall t,
        all_chars (fun c => negb (markup_char c)) t = true ->
        FileProcessor.plain_of_markdown t = JsString.trim t).
Proof.
  split.
  - intros t. unfold FileProcessor.plain_of_markdown. cbv zeta.
    set (t1 := JsText.replace_global FileProcessor.heading_marker t).
    set (t2 := JsText.replace_global (JsText.delimited "**" "**") t1).
    set (t3 := JsText.replace_global (JsText.delimited "*" "*") t2).
    set (t4 := JsText.replace_global FileProcessor.link t3).
    set (t5 := JsText.replace_global (JsText.delimited "`" "`") t4).
    set (t6 := JsText.replace_global FileProcessor.code_block t5).
    pose proof (replace_global_length _ t heading_marker_fits) as H1.
    pose proof (replace_global_length (JsText.delimited "**" "**") t1
                  (fun s r n => delimited_fits "**" "**" s r n ltac:(discriminate))) as H2.
    pose proof (replace_global_length (JsText.delimited "*" "*") t2
                  (fun s r n => delimited_fits "*" "*" s r n ltac:(discriminate))) as H3.
    pose proof (replace_global_length _ t3 link_fits) as H4.
    pose proof (replace_global_length (JsText.delimited "`" "`") t4
                  (fun s r n => delimited_fits "`" "`" s r n ltac:(discriminate))) as H5.
    pose proof (replace_global_length _ t5 code_block_fits) as H6.
    pose proof (trim_length t6) as H7. fold t1 in H1. fold t2 in H2. fold t3 in H3.
    fold t4 in H4. fold t5 in H5. fold t6 in H6. lia.
  - intros t Hfree. unfold FileProcessor.plain_of_markdown, JsText.replace_global. cbv zeta.
    assert (forall pattern,
              (forall c s' r, pattern (String c s') = Some r -> markup_char c = true) ->
              JsText.replace_matches pattern 0 t = t) as Hinert.
    { intros pattern Hstart.
      apply (replace_matches_inert pattern (fun c => negb (markup_char c))); [|done].
      intros c s' r Hr. by rewrite (Hstart c s' r Hr). }
    assert (forall opening closing a c s' r,
              Ascii.eqb a "*" || Ascii.eqb a "`" = true ->
              JsText.delimited (String a opening) closing (String c s') = Some r ->
              markup_char c = true) as Hdelim.
    { intros opening closing a c s' r Ha. unfold JsText.delimited.
      destruct (String.prefix _ _) eqn:E; [|discriminate]. intros _.
      apply prefix_first in E as ->. unfold markup_char.
      apply orb_true_iff in Ha as [Ha|Ha]; rewrite Ha; by rewrite ?orb_true_r. }
    rewrite (Hinert FileProcessor.heading_marker).
    2: { intros c s' r. unfold FileProcessor.heading_marker. cbn [JsText.leading].
         unfold markup_char. destruct (Ascii.eqb c "#"); [done|]. cbn. discriminate. }
    rewrite (Hinert (JsText.delimited "**" "**")) by (intros c s' r; by apply Hdelim).
    rewrite (Hinert (JsText.delimited "*" "*")) by (intros c s' r; by apply Hdelim).
    rewrite (Hinert FileProcessor.link).
    2: { intros c s' r. unfold FileProcessor.link, markup_char.
         destruct (Ascii.eqb_spec c "[") as [->|Hne]; [done|].
         destruct c as [[] [] [] [] [] [] [] []]; try discriminate. by destruct Hne. }
    rewrite (Hinert (JsText.delimited "`" "`")) by (intros c s' r; by apply Hdelim).
    rewrite (Hinert FileProcessor.code_block); [done|].
    intros c s' r. unfold FileProcessor.code_block.
    destruct (String.prefix _ _) eqn:E; [|discriminate]. intros _.
    apply prefix_first in E as ->. reflexivity.
Qed.

Lemma X18_witness :
  String.length (FileProcessor.plain_of_markdown "## Title of **the** [page](http://x)") <= 36
  /\ FileProcessor.plain_of_markdown "  plain words  " = "plain words".
Proof.
  destruct X18_markdown_to_plain as [Hshort Hplain]. split.
  - apply (Hshort "## Title of **the** [page](http://x)").
  - by rewrite (Hplain "  plain words  ").
Defined.

(** ** Validation of uploads *)

Lemma acceptable_validateFile (index : nat) (f : FileProcessor.File) :
  UploadRoute.validateFile index f = [] <-> acceptable f.
Proof.
  unfold UploadRoute.validateFile, acceptable.
  destruct (Z.ltb_spec UploadRoute.MAX_FILE_SIZE (FileProcessor.size f)) as [Hbig|Hsmall].
  { split; [discriminate|]. intros [H _]. lia. }
  case_bool_decide as Hext; cycle 1.
  { split; [discriminate|]. by intros (_ & H & _). }
  destruct (String.eqb_spec (FileProcessor.type f) EmptyString) as [Hnone|Hsome].
  { cbn. split; [auto|done]. }
  case_bool_decide as Hmime; cbn.
  - split; [auto|done].
  - split; [discriminate|]. intros (_ & _ & [H|H]); done.
Qed.

Lemma validateFile_length (index : nat) (f : FileProcessor.File) :
  length (UploadRoute.validateFile index f) <= 3.
Proof.
  unfold UploadRoute.validateFile. rewrite !length_app.
  destruct (Z.ltb _ _), (bool_decide _), (_ && _); cbn; lia.
Qed.

Lemma validateFile_numbered (index : nat) (f : FileProcessor.File) (message : string) :
  message ∈ UploadRoute.validateFile index f ->
  String.prefix (UploadRoute.numbered index f) message = true.
Proof.
  unfold UploadRoute.validateFile. rewrite !elem_of_app.
  intros [H|[H|H]];
    [destruct (Z.ltb _ _) | destruct (bool_decide _) | destruct (_ && _)];
    try (by apply elem_of_nil in H);
    apply list_elem_of_singleton in H as ->; apply prefix_spec; eexists; reflexivity.
Qed.

Lemma validate_from_spec (files : list FileProcessor.File) (index : nat) (message : string) :
  message ∈ UploadRoute.validate_from index files <->
  exists i f, files !! i = Some f /\ message ∈ UploadRoute.validateFile (index + i) f.
Proof.
  revert index. induction files as [|f files IH]; intros index; cbn [UploadRoute.validate_from].
  - split; [by intros ?%elem_of_nil | by intros (i & f & ? & _)].
  - rewrite elem_of_app, IH. split.
    + intros [H|(i & g & Hi & H)].
      * exists 0, f. by rewrite Nat.add_0_r.
      * exists (S i), g. by rewrite Nat.add_succ_r.
    + intros ([|i] & g & Hi & H).
      * injection Hi as <-. left. by rewrite Nat.add_0_r in H.
      * right. exists i, g. by rewrite Nat.add_succ_r in H.
Qed.

Lemma validate_from_length (files : list FileProcessor.File) (index : nat) :
  length (UploadRoute.validate_from index files) <= 3 * length files.
Proof.
  revert index. induction files as [|f files IH]; intros index; cbn; [lia|].
  rewrite length_app. pose proof (validateFile_length index f). specialize (IH (S index)). lia.
Qed.

Lemma validationErrors_nil (files : list FileProcessor.File) :
  UploadRoute.validationErrors files = [] <-> forall f, f ∈ files -> acceptable f.
Proof.
  unfold UploadRoute.validationErrors. generalize 0 as index.
  induction files as [|f files IH]; intros index; cbn [UploadRoute.validate_from].
  - split; [by intros _ f ?%elem_of_nil | done].
  - split.
    + intros [Hf Hrest]%app_eq_nil g [->|Hg]%elem_of_cons.
      * by apply (acceptable_validateFile index).
      * by apply (IH (S index)).
    + intros H. rewrite (proj2 (acceptable_validateFile index f)) by (apply H; by left).
      apply IH. intros g Hg. apply H. by right.
Qed.

(** X19: the validation of the upload route. It reports nothing exactly
    when every file is at most 10MB large, has an allowed extension and
    declares no type or an allowed one; it reports at most three
    messages for a file; every message starts with the position
    (counted from one) and the name of a file that is refused, and
    every refused file has such a message. *)
Theorem X19_upload_validation (files : list FileProcessor.File) :
  (UploadRoute.validationErrors files = [] <-> forall f, f ∈ files -> acceptable f)
  /\ length (UploadRoute.validationErrors files) <= 3 * length files
  /\ (forall message,
        message ∈ UploadRoute.validationErrors files ->
        exists i f, files !! i = Some f /\ ~ acceptable f
                    /\ String.prefix (UploadRoute.numbered i f) message = true)
  /\ (forall i f,
        files !! i = Some f -> ~ acceptable f ->
        exists message, message ∈ UploadRoute.validationErrors files
                        /\ String.prefix (UploadRoute.numbered i f) message = true).
Proof.
  split; [apply validationErrors_nil|]. split; [apply validate_from_length|]. split.
  - intros message (i & f & Hi & H)%validate_from_spec. exists i, f. split; [done|]. split.
    + intros Hok%(acceptable_validateFile i). cbn in H. rewrite Hok in H.
      by apply elem_of_nil in H.
    + by apply validateFile_numbered.
  - intros i f Hi Hbad.
    destruct (UploadRoute.validateFile i f) as [|message rest] eqn:E.
    { by apply acceptable_validateFile in E. }
    exists message. split.
    + apply validate_from_spec. exists i, f. split; [done|]. cbn. rewrite E. by left.
    + apply validateFile_numbered. rewrite E. by left.
Qed.

Lemma X19_witness :
  UploadRoute.validationErrors [sample_text_file] = []
  /\ exists message,
       message ∈ UploadRoute.validationErrors [sample_text_file; sample_archive]
       /\ String.prefix "File 2 (backup.tar.GZ)" message = true.
Proof.
  split.
  - apply (X19_upload_validation [sample_text_file]).
    intros f ->%list_elem_of_singleton. repeat split; [done | | by left].
    apply (bool_decide_unpack _). vm_compute. exact I.
  - destruct (X19_upload_validation [sample_text_file; sample_archive]) as (_ & _ & _ & H).
    apply (H 1 sample_archive eq_refl).
    intros (_ & Hext & _). revert Hext. apply (bool_decide_eq_false_1 _). vm_compute. reflexivity.
Defined.

Lemma hook_validateFile_nil (index : nat) (f : FileProcessor.File) :
  FileUploadHook.validateFile FileUploadHook.DEFAULT_MAX_FILE_SIZE
    FileUploadHook.DEFAULT_ALLOWED_EXTENSIONS index f = [] <->
  (FileProcessor.size f <= UploadRoute.MAX_FILE_SIZE)%Z
  /\ UploadRoute.extensionOf (FileProcessor.name f) ∈ UploadRoute.ALLOWED_EXTENSIONS
  /\ FileProcessor.size f <> 0%Z.
Proof.
  unfold FileUploadHook.validateFile.
  change FileUploadHook.DEFAULT_MAX_FILE_SIZE with UploadRoute.MAX_FILE_SIZE.
  change FileUploadHook.DEFAULT_ALLOWED_EXTENSIONS with UploadRoute.ALLOWED_EXTENSIONS.
  change (FileUploadHook.extensionOf (FileProcessor.name f))
    with (UploadRoute.extensionOf (FileProcessor.name f)).
  destruct (Z.ltb_spec UploadRoute.MAX_FILE_SIZE (FileProcessor.size f)) as [Hbig|Hsmall].
  { split; [discriminate|]. intros [H _]. lia. }
  case_bool_decide as Hext; cycle 1.
  { split; [discriminate|]. by intros (_ & H & _). }
  destruct (Z.eqb_spec (FileProcessor.size f) 0) as [Hzero|Hpos]; cbn.
  - split; [discriminate|]. by intros (_ & _ & H).
  - done.
Qed.

Lemma hook_validate_from_nil (files : list FileProcessor.File) (index : nat) :
  FileUploadHook.validate_from FileUploadHook.DEFAULT_MAX_FILE_SIZE
    FileUploadHook.DEFAULT_ALLOWED_EXTENSIONS index files = [] <->
  forall f, f ∈ files ->
    (FileProcessor.size f <= UploadRoute.MAX_FILE_SIZE)%Z
    /\ UploadRoute.extensionOf (FileProcessor.name f) ∈ UploadRoute.ALLOWED_EXTENSIONS
    /\ FileProcessor.size f <> 0%Z.
Proof.
  revert index. induction files as [|f files IH]; intros index; cbn [FileUploadHook.validate_from].
  - split; [by intros _ f ?%elem_of_nil | done].
  - split.
    + intros [Hf Hrest]%app_eq_nil g [->|Hg]%elem_of_cons.
      * by apply (hook_validateFile_nil index).
      * by apply (IH (S index)).
    + intros H. rewrite (proj2 (hook_validateFile_nil index f)) by (apply H; by left).
      apply IH. intros g Hg. apply H. by right.
Qed.

(** The hook and the route report the same for a file that is not
    empty and declares no type or an allowed one. *)
Lemma hook_validateFile_route (index : nat) (f : FileProcessor.File) :
  FileProcessor.size f <> 0%Z ->
  FileProcessor.type f = EmptyString \/ FileProcessor.type f ∈ UploadRoute.ALLOWED_MIME_TYPES ->
  FileUploadHook.validateFile FileUploadHook.DEFAULT_MAX_FILE_SIZE
    FileUploadHook.DEFAULT_ALLOWED_EXTENSIONS index f
  = UploadRoute.validateFile index f.
Proof.
  intros Hsize Htype. unfold FileUploadHook.validateFile, UploadRoute.validateFile.
  apply Z.eqb_neq in Hsize. rewrite Hsize.
  replace (negb (String.eqb (FileProcessor.type f) EmptyString)
           && negb (bool_decide (FileProcessor.type f ∈ UploadRoute.ALLOWED_MIME_TYPES)))
    with false; [reflexivity|].
  destruct Htype as [->|Htype]; [done|]. by rewrite (bool_decide_eq_true_2 _ Htype), andb_false_r.
Qed.

(** X20: the hook, made with its default options, and the route agree.
    For files that are not empty and declare no type or an allowed one
    they report the same messages. Files the hook lets pass are refused
    by the route only for a declared type; files the route lets pass
    are refused by the hook only for being empty. *)
Theorem X20_hook_and_route_agree (files : list FileProcessor.File) :
  ((forall f, f ∈ files ->
      FileProcessor.type f = EmptyString
      \/ FileProcessor.type f ∈ UploadRoute.ALLOWED_MIME_TYPES) ->
   (forall f, f ∈ files -> FileProcessor.size f <> 0%Z) ->
   FileUploadHook.validateFiles FileUploadHook.DEFAULT_MAX_FILE_SIZE
     FileUploadHook.DEFAULT_ALLOWED_EXTENSIONS files
   = UploadRoute.validationErrors files)
  /\ (FileUploadHook.validateFiles FileUploadHook.DEFAULT_MAX_FILE_SIZE
        FileUploadHook.DEFAULT_ALLOWED_EXTENSIONS files = [] ->
      (forall f, f ∈ files ->
         FileProcessor.type f = EmptyString
         \/ FileProcessor.type f ∈ UploadRoute.ALLOWED_MIME_TYPES) ->
      UploadRoute.validationErrors files = [])
  /\ (UploadRoute.validationErrors files = [] ->
      (forall f, f ∈ files -> FileProcessor.size f <> 0%Z) ->
      FileUploadHook.validateFiles FileUploadHook.DEFAULT_MAX_FILE_SIZE
        FileUploadHook.DEFAULT_ALLOWED_EXTENSIONS files = []).
Proof.
  unfold FileUploadHook.validateFiles. split; [|split].
  - unfold UploadRoute.validationErrors. generalize 0 as index.
    induction files as [|f files IH]; intros index Htyped Hfilled; [done|].
    cbn [FileUploadHook.validate_from UploadRoute.validate_from].
    rewrite hook_validateFile_route by (first [apply Hfilled | apply Htyped]; by left).
    f_equal. apply IH; intros g Hg; [apply Htyped | apply Hfilled]; by right.
  - intros Hhook Htyped. apply validationErrors_nil. intros f Hf.
    destruct (proj1 (hook_validate_from_nil files 0) Hhook f Hf) as (? & ? & _).
    repeat split; auto.
  - intros Hroute Hfilled. apply hook_validate_from_nil. intros f Hf.
    destruct (proj1 (validationErrors_nil files) Hroute f Hf) as (? & ? & _).
    repeat split; auto.
Qed.

Lemma X20_witness :
  FileUploadHook.validateFiles FileUploadHook.DEFAULT_MAX_FILE_SIZE
    FileUploadHook.DEFAULT_ALLOWED_EXTENSIONS [sample_text_file; sample_archive]
  = UploadRoute.validationErrors [sample_text_file; sample_archive].
Proof.
  apply (X20_hook_and_route_agree [sample_text_file; sample_archive]).
  - intros f Hf. left.
    apply elem_of_cons in Hf as [->|Hf]; [done|]. by apply list_elem_of_singleton in Hf as ->.
  - intros f Hf.
    apply elem_of_cons in Hf as [->|Hf]; [done|]. by apply list_elem_of_singleton in Hf as ->.
Defined.
(** ** Names and types of uploads *)

Lemma map_chars_length (f : ascii -> ascii) (s : string) :
  String.length (JsString.map_chars f s) = String.length s.
Proof. induction s as [|c s IH]; cbn; [done | by rewrite IH]. Qed.

Lemma all_chars_impl (p q : ascii -> bool) (s : string) :
  (forall c, p c = true -> q c = true) -> all_chars p s = true -> all_chars q s = true.
Proof.
  intros Hpq. induction s as [|c s IH]; cbn; [done|].
  intros [Hc Hs]%andb_true_iff. by rewrite (Hpq c Hc), IH.
Qed.

Lemma all_chars_app (p : ascii -> bool) (s t : string) :
  all_chars p (s +:+ t) = all_chars p s && all_chars p t.
Proof.
  induction s as [|c s IH]; [done|]. rewrite app_cons_s. cbn. by rewrite IH, andb_assoc.
Qed.

(** A text holds the character [c] unless all of its characters differ
    from [c]. *)
Lemma all_chars_excludes (c : ascii) (s : string) :
  all_chars (fun d => negb (Ascii.eqb d c)) s = true <->
  JsString.includes s (String c EmptyString) = false.
Proof.
  induction s as [|d s IH]; cbn [all_chars JsString.includes]; [done|].
  rewrite andb_true_iff, orb_false_iff, IH.
  assert (negb (Ascii.eqb d c) = true <-> String.prefix (String c EmptyString) (String d s) = false)
    as ->; [|done].
  destruct (Ascii.eqb_spec d c) as [->|Hne]; cbn [negb].
  - rewrite (proj2 (prefix_spec (String c EmptyString) (String c s))) by (by exists s). done.
  - destruct (String.prefix _ _) eqn:E; [|done]. by apply prefix_first in E.
Qed.

Lemma sanitize_chars (name : string) :
  all_chars (fun c => UploadRoute.kept_char c || Ascii.eqb c "_") (UploadRoute.sanitize name)
  = true.
Proof.
  unfold UploadRoute.sanitize. induction name as [|c name IH]; cbn; [done|].
  rewrite IH, andb_true_r. destruct (UploadRoute.kept_char c) eqn:E; [by rewrite E | done].
Qed.

Lemma sanitize_kept (name : string) :
  all_chars UploadRoute.kept_char name = true -> UploadRoute.sanitize name = name.
Proof.
  unfold UploadRoute.sanitize. induction name as [|c name IH]; cbn; [done|].
  intros [Hc Hs]%andb_true_iff. by rewrite Hc, IH.
Qed.

Lemma pretty_N_char_digit (x : N) :
  is_digit (pretty_N_char x) = true.
Proof. unfold pretty_N_char. by repeat case_match. Qed.

Lemma pretty_N_go_chars (p : ascii -> bool) :
  (forall c, is_digit c = true -> p c = true) ->
  forall x s, all_chars p s = true -> all_chars p (pretty_N_go x s) = true.
Proof.
  intros Hdigit x. induction (N.lt_wf 0 x) as [x _ IH]. intros s Hs.
  destruct (decide (0 < x)%N) as [Hpos|Hzero].
  - rewrite pretty_N_go_step by done. apply IH.
    + split; [apply N.le_0_l | by apply N.div_lt].
    + cbn. by rewrite Hs, Hdigit by apply pretty_N_char_digit.
  - assert (x = 0%N) as -> by lia. by rewrite pretty_N_go_0.
Qed.

Lemma pretty_N_chars (p : ascii -> bool) (x : N) :
  (forall c, is_digit c = true -> p c = true) ->
  all_chars p (pretty x) = true.
Proof.
  intros Hdigit. unfold pretty, pretty_N. case_decide.
  - cbn. by rewrite Hdigit.
  - by apply pretty_N_go_chars.
Qed.

Lemma pretty_Z_chars (p : ascii -> bool) (z : Z) :
  (forall c, is_digit c = true -> p c = true) ->
  p "-"%char = true ->
  all_chars p (pretty z) = true.
Proof.
  intros Hdigit Hminus. destruct z as [|x|x].
  - cbn. by rewrite Hdigit.
  - by apply (pretty_N_chars p (N.pos x)).
  - change (pretty (Z.neg x)) with ("-" +:+ pretty (N.pos x)).
    rewrite all_chars_app. cbn. rewrite Hminus. by apply (pretty_N_chars p (N.pos x)).
Qed.

Lemma kept_or_underscore_no_separator (c : ascii) :
  UploadRoute.kept_char c || Ascii.eqb c "_" = true ->
  negb (Ascii.eqb c "/") && negb (Ascii.eqb c "\") = true.
Proof. destruct c as [[] [] [] [] [] [] [] []]; vm_compute; congruence. Qed.

(** X21: the name a file is stored under. The name of the file enters
    it with every character other than a letter a-z or A-Z, a digit, a
    dot and a hyphen replaced by an underscore: as long as the name,
    unchanged when sanitized again, the name itself when it holds no
    such character. When the random part holds neither slash nor
    backslash, the whole stored name holds none, so the file path is a
    single segment below /uploads/. *)
Theorem X21_stored_name_is_safe :
  (forall name,
      String.length (UploadRoute.sanitize name) = String.length name
      /\ all_chars (fun c => UploadRoute.kept_char c || Ascii.eqb c "_") (UploadRoute.sanitize name)
         = true
      /\ UploadRoute.sanitize (UploadRoute.sanitize name) = UploadRoute.sanitize name)
  /\ (forall name,
        all_chars UploadRoute.kept_char name = true -> UploadRoute.sanitize name = name)
  /\ (forall u,
        JsString.includes (UploadRoute.randomId u) "/" = false ->
        JsString.includes (UploadRoute.randomId u) "\" = false ->
        JsString.includes (UploadRoute.uniqueFileName u) "/" = false
        /\ JsString.includes (UploadRoute.uniqueFileName u) "\" = false).
Proof.
  split; [|split].
  - intros name. split; [apply map_chars_length|]. split; [apply sanitize_chars|].
    unfold UploadRoute.sanitize. induction name as [|c name IH]; cbn; [done|].
    rewrite IH. f_equal. destruct (UploadRoute.kept_char c) eqn:E; [by rewrite E | done].
  - apply sanitize_kept.
  - intros u Hslash Hback.
    assert (forall c : ascii,
              c = "/"%char \/ c = "\"%char ->
              JsString.includes (UploadRoute.randomId u) (String c EmptyString) = false ->
              JsString.includes (UploadRoute.uniqueFileName u) (String c EmptyString) = false)
      as Hfree.
    { intros c Hc Hid. apply all_chars_excludes. unfold UploadRoute.uniqueFileName.
      set (p := fun d => negb (Ascii.eqb d c)).
      assert (p "-"%char = true /\ p "_"%char = true) as [Hminus Hunder].
      { by destruct Hc as [->| ->]. }
      assert (all_chars p (pretty (UploadRoute.timestamp u)) = true) as Hstamp.
      { apply pretty_Z_chars; [|done].
        intros d Hd. destruct Hc as [->| ->];
          destruct d as [[] [] [] [] [] [] [] []]; vm_compute in Hd |- *; congruence. }
      assert (all_chars p (UploadRoute.randomId u) = true) as Hrandom.
      { by apply all_chars_excludes. }
      assert (all_chars p (UploadRoute.sanitize (FileProcessor.name (UploadRoute.file u))) = true)
        as Hname.
      { apply (all_chars_impl (fun c => UploadRoute.kept_char c || Ascii.eqb c "_"));
          [|apply sanitize_chars].
        intros d Hd%kept_or_underscore_no_separator.
        apply andb_true_iff in Hd as [? ?]. by destruct Hc as [->| ->]. }
      rewrite !all_chars_app, Hstamp, Hrandom, Hname. cbn. by rewrite Hunder. }
    split; apply Hfree; auto.
Qed.

Lemma X21_witness :
  UploadRoute.sanitize "notes-2024.txt" = "notes-2024.txt"
  /\ JsString.includes (UploadRoute.uniqueFileName sample_doc_upload) "/" = false.
Proof.
  destruct X21_stored_name_is_safe as (_ & Hkept & Hfree). split.
  - by apply (Hkept "notes-2024.txt").
  - by apply (Hfree sample_doc_upload).
Defined.

Lemma toLowerCase_dot (s : string) :
  JsText.toLowerCase ("." +:+ s) = "." +:+ JsText.toLowerCase s.
Proof. reflexivity. Qed.

(** The type of a file is always a string on the route: no key of its
    table that begins with a dot is inherited. *)
Lemma mimeTypeOf_mime (f : FileProcessor.File) :
  exists mime, UploadRoute.mimeTypeOf f = FileProcessor.Mime mime.
Proof.
  unfold UploadRoute.mimeTypeOf. destruct (String.eqb _ _); [|by eexists].
  unfold UploadRoute.getMimeTypeFromExtension, UploadRoute.extensionOf. cbv zeta.
  rewrite toLowerCase_dot. destruct (OrdMap.get _ _); [by eexists|].
  case_bool_decide as H; [|by eexists].
  apply list_elem_of_In in H. cbn in H. by destruct H as [H|[H|[]]].
Qed.

Lemma allowed_extension_mime (extension : string) :
  extension ∈ UploadRoute.ALLOWED_EXTENSIONS ->
  exists mime, UploadRoute.getMimeTypeFromExtension extension = FileProcessor.Mime mime
               /\ mime ∈ UploadRoute.ALLOWED_MIME_TYPES.
Proof.
  intros H. apply list_elem_of_In in H. cbn in H.
  repeat (destruct H as [<-|H];
          [eexists; split; [reflexivity | apply (bool_decide_unpack _); vm_compute; exact I]|]).
  done.
Qed.

(** X22: on the upload route the MIME type of a file, declared or
    derived from the name, is always a string; for a file that passes
    the validation it is one of the allowed MIME types, and so is the
    type reported for it. *)
Theorem X22_upload_mime_type (f : FileProcessor.File) :
  (exists mime, UploadRoute.mimeTypeOf f = FileProcessor.Mime mime)
  /\ (acceptable f ->
      exists mime, UploadRoute.mimeTypeOf f = FileProcessor.Mime mime
                   /\ mime ∈ UploadRoute.ALLOWED_MIME_TYPES).
Proof.
  split; [apply mimeTypeOf_mime|]. intros (_ & Hext & Htype). unfold UploadRoute.mimeTypeOf.
  destruct (String.eqb_spec (FileProcessor.type f) EmptyString) as [Hnone|Hsome].
  - by apply allowed_extension_mime.
  - destruct Htype as [?|Htype]; [done|]. by eexists.
Qed.

Lemma X22_witness :
  exists mime, UploadRoute.mimeTypeOf sample_text_file = FileProcessor.Mime mime
               /\ mime ∈ UploadRoute.ALLOWED_MIME_TYPES.
Proof.
  apply (X22_upload_mime_type sample_text_file). repeat split; [done | | by left].
  apply (bool_decide_unpack _). vm_compute. exact I.
Defined.
(** ** Extraction on the upload route *)

(** A name whose extension is [e'] does not end in a dot and another
    extension. *)
Lemma endsWith_other_extension (fileName e e' : string) :
  UploadRoute.extensionOf fileName = String "." e' ->
  JsString.includes e "." = false ->
  e <> e' ->
  JsText.endsWith (JsText.toLowerCase fileName) (String "." e) = false.
Proof.
  intros Hext Hdot Hne. destruct (JsText.endsWith _ _) eqn:E; [|done].
  apply (endsWith_extension fileName e Hdot) in E.
  unfold UploadRoute.extensionOf in Hext. rewrite E in Hext.
  change (String "." e = String "." e') in Hext. by injection Hext.
Qed.

Ltac other_extensions Hext :=
  repeat match goal with
         | |- context [JsText.endsWith (JsText.toLowerCase ?n) (String "."%char ?e)] =>
             rewrite (endsWith_other_extension n e _ Hext eq_refl) by discriminate
         end.

Ltac evaluate_mime_type :=
  match goal with
  | |- context [UploadRoute.getMimeTypeFromExtension ?e] =>
      let t := eval vm_compute in (UploadRoute.getMimeTypeFromExtension e) in
      change (UploadRoute.getMimeTypeFromExtension e) with t
  end.

Lemma mimeTypeOf_undeclared (f : FileProcessor.File) :
  FileProcessor.type f = EmptyString ->
  UploadRoute.mimeTypeOf f
  = UploadRoute.getMimeTypeFromExtension (UploadRoute.extensionOf (FileProcessor.name f)).
Proof. intros H. unfold UploadRoute.mimeTypeOf. by rewrite H. Qed.

Lemma automatic_method_by_extension (f : FileProcessor.File) (extension method : string) :
  FileProcessor.type f = EmptyString ->
  (extension, method) ∈ method_by_extension ->
  UploadRoute.extensionOf (FileProcessor.name f) = extension ->
  UploadRoute.determineExtractionMethod (UploadRoute.mimeTypeOf f) (FileProcessor.name f)
  = FileProcessor.Returned method.
Proof.
  intros Htype Hin Hext. rewrite (mimeTypeOf_undeclared f Htype), Hext.
  apply list_elem_of_In in Hin. cbn in Hin.
  repeat (destruct Hin as [[= <- <-]|Hin];
          [evaluate_mime_type; unfold UploadRoute.determineExtractionMethod; cbv zeta;
           cbn [existsb]; other_extensions Hext; vm_compute; reflexivity|]).
  done.
Qed.

Lemma determineExtractionMethod_range (fileType fileName : string) :
  exists method,
    UploadRoute.determineExtractionMethod (FileProcessor.Mime fileType) fileName
    = FileProcessor.Returned method
    /\ method ∈ ["plain"; "markdown"; "json"; "csv"; "html"; "pdf"; "docx"; "ocr"].
Proof.
  unfold UploadRoute.determineExtractionMethod. cbv zeta.
  repeat match goal with |- context [if ?b then _ else _] => destruct b end;
    (eexists; split; [reflexivity|]; apply list_elem_of_In; cbn; tauto).
Qed.

(** X23: the automatic mode of the upload route. For a file that
    declares no type the method follows the extension: plain for .txt,
    .rtf and .xml, markdown, json, csv, html and pdf for their own
    extension, docx for .doc and .docx, ocr for the six image
    extensions. For every file the method is determined (nothing is
    thrown) and is one of the eight the route has an extractor for. *)
Theorem X23_automatic_method_on_route (f : FileProcessor.File) :
  (forall extension method,
      FileProcessor.type f = EmptyString ->
      (extension, method) ∈ method_by_extension ->
      UploadRoute.extensionOf (FileProcessor.name f) = extension ->
      UploadRoute.determineExtractionMethod (UploadRoute.mimeTypeOf f) (FileProcessor.name f)
      = FileProcessor.Returned method)
  /\ exists method,
       UploadRoute.determineExtractionMethod (UploadRoute.mimeTypeOf f) (FileProcessor.name f)
       = FileProcessor.Returned method
       /\ method ∈ ["plain"; "markdown"; "json"; "csv"; "html"; "pdf"; "docx"; "ocr"].
Proof.
  split.
  - intros extension method. apply automatic_method_by_extension.
  - destruct (mimeTypeOf_mime f) as [mime ->]. apply determineExtractionMethod_range.
Qed.

Lemma X23_witness :
  UploadRoute.determineExtractionMethod
    (UploadRoute.mimeTypeOf (UploadRoute.file sample_doc_upload))
    (FileProcessor.name (UploadRoute.file sample_doc_upload))
  = FileProcessor.Returned "docx".
Proof.
  destruct (X23_automatic_method_on_route (UploadRoute.file sample_doc_upload)) as [H _].
  apply (H ".doc" "docx"); [reflexivity | | reflexivity].
  apply list_elem_of_In. cbn. tauto.
Defined.

Lemma text_or_nonempty (sentence text : string) :
  sentence <> EmptyString -> UploadRoute.text_or sentence text <> EmptyString.
Proof.
  intros Hs. unfold UploadRoute.text_or.
  destruct (Nat.ltb_spec 0 (String.length (JsString.trim text))) as [H|H]; [|done].
  intros E. rewrite E in H. cbn in H. lia.
Qed.

Lemma extractPDF_nonempty (u : UploadRoute.Upload) : UploadRoute.extractPDF u <> EmptyString.
Proof.
  unfold UploadRoute.extractPDF. destruct (UploadRoute.pdfText u).
  - by apply text_or_nonempty.
  - discriminate.
Qed.

Lemma extractWordDoc_nonempty (u : UploadRoute.Upload) :
  UploadRoute.extractWordDoc u <> EmptyString.
Proof.
  unfold UploadRoute.extractWordDoc. destruct (UploadRoute.mimeTypeOf _); [|discriminate].
  destruct (_ || _); [|discriminate].
  destruct (FileProcessor.rawText _); [by apply text_or_nonempty | discriminate].
Qed.

(** X24: the extractors of PDF and word processor documents never
    fail: whatever goes wrong, they answer with a sentence that says
    so, and the route takes that sentence for the text of the file. So
    a stored file extracted with the pdf or docx method always counts
    as a file with extracted text; and a file without declared type
    whose extension is .doc gets, in automatic mode, the sentence that
    legacy documents are not supported as its text. *)
Theorem X24_failure_sentences_are_text (json_text html_text : string -> string)
    (u : UploadRoute.Upload) :
  (forall method,
      method = "pdf" \/ method = "docx" ->
      (exists t, UploadRoute.extractTextFromFile json_text html_text u method
                 = FileProcessor.Fulfilled t /\ t <> EmptyString)
      /\ (is_stored u = true ->
          UploadRoute.extracted (UploadRoute.processUpload json_text html_text method u) = true))
  /\ (FileProcessor.type (UploadRoute.file u) = EmptyString ->
      UploadRoute.extensionOf (FileProcessor.name (UploadRoute.file u)) = ".doc" ->
      UploadRoute.extractTextFromFile json_text html_text u "auto"
      = FileProcessor.Fulfilled "Legacy .doc files are not supported. Please save as .docx.").
Proof.
  assert (forall method,
            method = "pdf" \/ method = "docx" ->
            exists t, UploadRoute.extractTextFromFile json_text html_text u method
                      = FileProcessor.Fulfilled t /\ t <> EmptyString) as Htext.
  { intros method [->| ->]; unfold UploadRoute.extractTextFromFile;
      cbn [String.eqb Ascii.eqb Bool.eqb]; eexists; (split; [reflexivity|]).
    - apply extractPDF_nonempty.
    - apply extractWordDoc_nonempty. }
  split.
  - intros method Hmethod. split; [by apply Htext|].
    destruct (Htext method Hmethod) as (t & Ht & Hne).
    unfold is_stored, UploadRoute.processUpload, UploadRoute.extracted, UploadRoute.textOf.
    destruct (UploadRoute.stored u); [|discriminate]. intros _. cbn. rewrite Ht.
    by apply negb_true_iff, String.eqb_neq.
  - intros Htype Hext. unfold UploadRoute.extractTextFromFile.
    cbn [String.eqb Ascii.eqb Bool.eqb].
    rewrite (automatic_method_by_extension _ ".doc" "docx" Htype) by
      (done || (apply list_elem_of_In; cbn; tauto)).
    cbn [String.eqb Ascii.eqb Bool.eqb]. f_equal.
    unfold UploadRoute.extractWordDoc. rewrite (mimeTypeOf_undeclared _ Htype), Hext.
    evaluate_mime_type. cbv iota beta. other_extensions Hext. reflexivity.
Qed.

Lemma X24_witness :
  UploadRoute.extractTextFromFile (fun t => t) (fun t => t) sample_doc_upload "auto"
  = FileProcessor.Fulfilled "Legacy .doc files are not supported. Please save as .docx."
  /\ UploadRoute.extracted
       (UploadRoute.processUpload (fun t => t) (fun t => t) "docx" sample_doc_upload) = true.
Proof.
  destruct (X24_failure_sentences_are_text (fun t => t) (fun t => t) sample_doc_upload)
    as [Hnever Hlegacy].
  split.
  - by apply Hlegacy.
  - apply (Hnever "docx"); [by right | reflexivity].
Defined.
(** ** The lines of a CSV text *)

Lemma trimEnd_idem (s : string) : JsString.trimEnd (JsString.trimEnd s) = JsString.trimEnd s.
Proof.
  induction s as [|c s IH]; [done|]. cbn [JsString.trimEnd].
  destruct (JsString.trimEnd s) as [|d r] eqn:E.
  - destruct (JsString.is_white c) eqn:Hc; [done|]. cbn. by rewrite Hc.
  - change (JsString.trimEnd (String c (String d r)))
      with (match JsString.trimEnd (String d r) with
            | EmptyString =>
                if JsString.is_white c then EmptyString else String c EmptyString
            | t => String c t
            end).
    by rewrite IH.
Qed.

Lemma trimStart_head (s : string) :
  match JsString.trimStart s with
  | EmptyString => True
  | String c _ => JsString.is_white c = false
  end.
Proof.
  induction s as [|c s IH]; cbn [JsString.trimStart]; [done|].
  destruct (JsString.is_white c) eqn:Hc; [done|]. exact Hc.
Qed.

Lemma trimStart_fixed (s : string) :
  match s with
  | EmptyString => True
  | String c _ => JsString.is_white c = false
  end ->
  JsString.trimStart s = s.
Proof. destruct s as [|c s]; [done|]. cbn [JsString.trimStart]. by intros ->. Qed.

Lemma trimEnd_head (c : ascii) (s : string) :
  JsString.is_white c = false -> exists t, JsString.trimEnd (String c s) = String c t.
Proof.
  intros Hc. cbn [JsString.trimEnd]. destruct (JsString.trimEnd s); [|by eexists].
  rewrite Hc. by eexists.
Qed.

Lemma trim_idem (s : string) : JsString.trim (JsString.trim s) = JsString.trim s.
Proof.
  unfold JsString.trim. pose proof (trimStart_head s) as Hhead.
  destruct (JsString.trimStart s) as [|c t]; [done|].
  destruct (trimEnd_head c t Hhead) as [r Hr]. rewrite Hr.
  rewrite trimStart_fixed by done. by rewrite <- Hr, trimEnd_idem.
Qed.

Lemma trimStart_chars (p : ascii -> bool) (s : string) :
  all_chars p s = true -> all_chars p (JsString.trimStart s) = true.
Proof.
  induction s as [|c s IH]; cbn [JsString.trimStart]; [done|].
  destruct (JsString.is_white c); [|done]. cbn. intros [_ Hs]%andb_true_iff. by apply IH.
Qed.

Lemma trimEnd_chars (p : ascii -> bool) (s : string) :
  all_chars p s = true -> all_chars p (JsString.trimEnd s) = true.
Proof.
  induction s as [|c s IH]; cbn [JsString.trimEnd]; [done|].
  cbn [all_chars]. intros [Hc Hs]%andb_true_iff. specialize (IH Hs).
  destruct (JsString.trimEnd s); [destruct (JsString.is_white c)|]; cbn in *; by rewrite ?Hc, ?IH.
Qed.

Lemma trim_chars (p : ascii -> bool) (s : string) :
  all_chars p s = true -> all_chars p (JsString.trim s) = true.
Proof. intros H. by apply trimEnd_chars, trimStart_chars. Qed.

(** No piece of a split holds the separator. *)
Lemma split_pieces (sep : ascii) (s piece : string) :
  piece ∈ JsString.split sep s ->
  all_chars (fun c => negb (Ascii.eqb c sep)) piece = true.
Proof.
  revert piece. induction s as [|c s IH]; intros piece; cbn [JsString.split].
  - by intros ->%list_elem_of_singleton.
  - destruct (Ascii.eqb c sep) eqn:Hc.
    + intros [->|H]%elem_of_cons; [done | by apply IH].
    + destruct (JsString.split sep s) as [|q qs] eqn:E.
      * intros ->%list_elem_of_singleton. cbn. by rewrite Hc.
      * intros [->|H]%elem_of_cons.
        -- cbn. rewrite Hc. cbn. apply IH. by left.
        -- apply IH. by right.
Qed.

Lemma split_piece_then (sep : ascii) (piece rest : string) :
  all_chars (fun c => negb (Ascii.eqb c sep)) piece = true ->
  JsString.split sep (piece +:+ String sep rest) = piece :: JsString.split sep rest.
Proof.
  induction piece as [|c piece IH]; intros H.
  - rewrite app_nil_l_s. cbn [JsString.split]. by rewrite Ascii.eqb_refl.
  - cbn in H. apply andb_true_iff in H as [Hc Hs]. apply negb_true_iff in Hc.
    rewrite app_cons_s. cbn [JsString.split]. by rewrite Hc, (IH Hs).
Qed.

Lemma split_single (sep : ascii) (piece : string) :
  all_chars (fun c => negb (Ascii.eqb c sep)) piece = true ->
  JsString.split sep piece = [piece].
Proof.
  induction piece as [|c piece IH]; intros H; [done|].
  cbn in H. apply andb_true_iff in H as [Hc Hs]. apply negb_true_iff in Hc.
  cbn [JsString.split]. by rewrite Hc, (IH Hs).
Qed.

(** Splitting what was joined gives the pieces back. *)
Lemma split_join (sep : ascii) (pieces : list string) :
  pieces <> [] ->
  (forall piece, piece ∈ pieces -> all_chars (fun c => negb (Ascii.eqb c sep)) piece = true) ->
  JsString.split sep (JsString.join (String sep EmptyString) pieces) = pieces.
Proof.
  induction pieces as [|p [|q pieces] IH]; intros Hne Hall; [done| |].
  - apply split_single, Hall. by left.
  - change (JsString.join (String sep EmptyString) (p :: q :: pieces))
      with (p +:+ String sep EmptyString +:+ JsString.join (String sep EmptyString) (q :: pieces)).
    change (String sep EmptyString +:+ ?t) with (String sep t).
    rewrite split_piece_then by (apply Hall; by left). f_equal.
    apply IH; [done|]. intros piece Hp. apply Hall. by right.
Qed.

Lemma join_nonempty (sep : string) (pieces : list string) :
  pieces <> [] ->
  (forall piece, piece ∈ pieces -> piece <> EmptyString) ->
  JsString.join sep pieces <> EmptyString.
Proof.
  destruct pieces as [|p pieces]; [done|]. intros _ Hall.
  assert (p <> EmptyString) as Hp by (apply Hall; by left).
  destruct p as [|c p]; [done|]. destruct pieces; [done|].
  cbn [JsString.join]. by rewrite app_cons_s.
Qed.

Lemma filter_fixed {A : Type} (p : A -> bool) (l : list A) :
  (forall a, a ∈ l -> p a = true) -> List.filter p l = l.
Proof.
  induction l as [|a l IH]; intros H; [done|]. cbn.
  rewrite (H a) by (by left). f_equal. apply IH. intros b Hb. apply H. by right.
Qed.

Lemma map_fixed {A : Type} (f : A -> A) (l : list A) :
  (forall a, a ∈ l -> f a = a) -> map f l = l.
Proof.
  induction l as [|a l IH]; intros H; [done|]. cbn.
  rewrite (H a) by (by left). f_equal. apply IH. intros b Hb. apply H. by right.
Qed.

(** The lines [extractCSV] keeps. *)
Lemma csv_lines_spec (text line : string) :
  line ∈ List.filter (fun line => Nat.ltb 0 (String.length line))
           (map JsString.trim (JsString.split "010" text)) ->
  line <> EmptyString /\ JsString.trim line = line
  /\ all_chars (fun c => negb (Ascii.eqb c "010")) line = true.
Proof.
  intros H. apply list_elem_of_In, List.filter_In in H as [H Hlen].
  apply List.in_map_iff in H as (raw & <- & Hraw). apply list_elem_of_In in Hraw.
  split; [|split].
  - intros E. by rewrite E in Hlen.
  - apply trim_idem.
  - by eapply trim_chars, split_pieces.
Qed.

(** X25: the text [extractCSV] gives. Every line of it is free of
    white space at both ends and not empty, unless the whole text is
    empty, which it is exactly when the file holds only white space
    lines; and extracting it again changes nothing. *)
Theorem X25_csv_text_lines (text : string) :
  UploadRoute.csv_text (UploadRoute.csv_text text) = UploadRoute.csv_text text
  /\ (UploadRoute.csv_text text <> EmptyString ->
      forall line, line ∈ JsString.split "010" (UploadRoute.csv_text text) ->
        line <> EmptyString /\ JsString.trim line = line)
  /\ (UploadRoute.csv_text text = EmptyString <->
      forall line, line ∈ JsString.split "010" text -> JsString.trim line = EmptyString).
Proof.
  pose proof (csv_lines_spec text) as Hlines.
  assert (UploadRoute.csv_text text
          = JsString.join Js.newline
              (List.filter (fun line => Nat.ltb 0 (String.length line))
                 (map JsString.trim (JsString.split "010" text)))) as -> by reflexivity.
  remember (List.filter _ (map JsString.trim (JsString.split "010" text))) as kept eqn:Hkept.
  assert (kept <> [] -> JsString.split "010" (JsString.join Js.newline kept) = kept) as Hsplit.
  { intros Hne. apply (split_join "010" kept Hne). intros piece Hp. by apply Hlines. }
  assert (kept = [] <->
          forall line, line ∈ JsString.split "010" text -> JsString.trim line = EmptyString)
    as Hblank.
  { subst kept. clear. induction (JsString.split "010" text) as [|l ls IH]; cbn [map List.filter].
    - split; [by intros _ l ?%elem_of_nil | done].
    - destruct (JsString.trim l) as [|c t] eqn:E; cbn [String.length Nat.ltb Nat.leb].
      + rewrite IH. split.
        * intros H x [->|Hx]%elem_of_cons; auto.
        * intros H x Hx. apply H. by right.
      + split; [discriminate|]. intros H. specialize (H l ltac:(by left)). congruence. }
  clear Hkept. split; [|split].
  - destruct kept as [|k ks]; [reflexivity|].
    unfold UploadRoute.csv_text. rewrite Hsplit by done.
    rewrite map_fixed by (intros l Hl; by apply Hlines).
    rewrite filter_fixed; [done|]. intros l Hl.
    destruct (Hlines l Hl) as [Hne _]. destruct l; [done | reflexivity].
  - intros Hne line Hline. destruct kept as [|k ks]; [done|].
    rewrite Hsplit in Hline by done. destruct (Hlines line Hline) as (? & ? & _). done.
  - rewrite <- Hblank. split.
    + intros Hempty. destruct kept as [|k ks]; [done|]. exfalso.
      apply (join_nonempty Js.newline (k :: ks)); [done | | exact Hempty].
      intros piece Hp. by apply Hlines.
    + by intros ->.
Qed.

Lemma X25_witness :
  UploadRoute.csv_text sample_csv <> EmptyString
  /\ "Ann , 41" ∈ JsString.split "010" (UploadRoute.csv_text sample_csv)
  /\ JsString.trim "Ann , 41" = "Ann , 41".
Proof.
  assert (UploadRoute.csv_text sample_csv <> EmptyString) as Hne by discriminate.
  assert ("Ann , 41" ∈ JsString.split "010" (UploadRoute.csv_text sample_csv)) as Hline.
  { apply list_elem_of_In. vm_compute. tauto. }
  split; [exact Hne|]. split; [exact Hline|].
  destruct (X25_csv_text_lines sample_csv) as (_ & H & _).
  by destruct (H Hne "Ann , 41" Hline).
Defined.
(** ** The answer of the upload route *)

Lemma processUpload_success (json_text html_text : string -> string) (method : string)
    (u : UploadRoute.Upload) :
  UploadRoute.success (UploadRoute.processUpload json_text html_text method u) = is_stored u.
Proof. unfold UploadRoute.processUpload, is_stored. by destruct (UploadRoute.stored u). Qed.

Lemma successful_uploads (json_text html_text : string -> string) (method : string)
    (uploads : list UploadRoute.Upload) :
  length (List.filter UploadRoute.success
            (map (UploadRoute.processUpload json_text html_text method) uploads))
  = length (List.filter is_stored uploads).
Proof.
  induction uploads as [|u uploads IH]; [done|]. cbn [map List.filter].
  rewrite processUpload_success. destruct (is_stored u); cbn [length]; by rewrite IH.
Qed.

Lemma filter_length_le {A : Type} (p : A -> bool) (l : list A) :
  length (List.filter p l) <= length l.
Proof. induction l as [|a l IH]; cbn; [lia|]. destruct (p a); cbn; lia. Qed.

(** X26: what the upload route answers. 500 when the form can not be
    read or the upload directory not be made; 400 "No files provided"
    for a form without files; 400 "File validation failed" with the
    messages of the validation when some file is refused. Otherwise
    every file passed the validation and the report has one result for
    each file, in order, with its name and size: a success with a path
    below /uploads/, a text (perhaps empty), an allowed MIME type and
    no error when the file could be stored, else a failure with an
    error and neither path nor text; totalFiles counts the files and
    successfulUploads the stored ones. *)
Theorem X26_upload_route_answer (json_text html_text : string -> string)
    (form : FileProcessor.Read UploadRoute.Form) (uploadDir : FileProcessor.Read unit) :
  match UploadRoute.POST json_text html_text form uploadDir with
  | UploadRoute.Failed status error details =>
      (status = 500%Z /\ error = "Internal server error during file upload" /\ details = None
       /\ ((exists m, form = FileProcessor.Rejected m)
           \/ (exists m, uploadDir = FileProcessor.Rejected m)))
      \/ (status = 400%Z /\ error = "No files provided" /\ details = None
          /\ exists fm, form = FileProcessor.Fulfilled fm /\ UploadRoute.files fm = [])
      \/ (status = 400%Z /\ error = "File validation failed"
          /\ exists fm, form = FileProcessor.Fulfilled fm
               /\ details = Some (UploadRoute.validationErrors
                                    (map UploadRoute.file (UploadRoute.files fm)))
               /\ exists u, u ∈ UploadRoute.files fm /\ ~ acceptable (UploadRoute.file u))
  | UploadRoute.Uploaded results combinedText totalFiles successfulUploads =>
      exists fm, form = FileProcessor.Fulfilled fm
        /\ UploadRoute.files fm <> []
        /\ (forall u, u ∈ UploadRoute.files fm -> acceptable (UploadRoute.file u))
        /\ totalFiles = length (UploadRoute.files fm)
        /\ length results = totalFiles
        /\ successfulUploads = length (List.filter is_stored (UploadRoute.files fm))
        /\ successfulUploads <= totalFiles
        /\ forall i u, UploadRoute.files fm !! i = Some u ->
             exists r, results !! i = Some r
               /\ UploadRoute.fileName r = FileProcessor.name (UploadRoute.file u)
               /\ UploadRoute.fileSize r = FileProcessor.size (UploadRoute.file u)
               /\ UploadRoute.success r = is_stored u
               /\ (UploadRoute.success r = true ->
                   UploadRoute.error r = None
                   /\ is_Some (UploadRoute.processedText r)
                   /\ UploadRoute.filePath r = Some ("/uploads/" +:+ UploadRoute.uniqueFileName u)
                   /\ exists mime, UploadRoute.mimeType r = FileProcessor.Mime mime
                                   /\ mime ∈ UploadRoute.ALLOWED_MIME_TYPES)
               /\ (UploadRoute.success r = false ->
                   is_Some (UploadRoute.error r)
                   /\ UploadRoute.processedText r = None
                   /\ UploadRoute.filePath r = None)
  end.
Proof.
  unfold UploadRoute.POST. destruct form as [fm|m]; [|left; eauto 10].
  destruct (UploadRoute.files fm) as [|u0 uploads] eqn:Hfiles; [right; left; eauto 10|].
  rewrite <- Hfiles.
  destruct (UploadRoute.validationErrors (map UploadRoute.file (UploadRoute.files fm)))
    as [|message errors] eqn:Hvalid.
  - destruct uploadDir as [[]|m]; [|left; eauto 10].
    assert (forall u, u ∈ UploadRoute.files fm -> acceptable (UploadRoute.file u)) as Hok.
    { intros u Hu. apply (proj1 (validationErrors_nil _) Hvalid).
      apply list_elem_of_fmap. by exists u. }
    exists fm. split; [done|]. split; [by rewrite Hfiles|]. split; [done|].
    split; [done|]. split; [apply length_map|]. split; [apply successful_uploads|].
    split; [rewrite successful_uploads; apply filter_length_le|].
    intros i u Hi. eexists. split; [by rewrite list_lookup_fmap, Hi|].
    assert (acceptable (UploadRoute.file u)) as Hu by (eapply Hok, list_elem_of_lookup_2, Hi).
    unfold UploadRoute.processUpload, is_stored.
    destruct (UploadRoute.stored u); cbn.
    + split; [done|]. split; [done|]. split; [done|]. split; [|done]. intros _.
      split; [done|]. split; [by eexists|]. split; [done|].
      destruct Hu as (_ & Hext & Htype). unfold UploadRoute.mimeTypeOf.
      destruct (String.eqb_spec (FileProcessor.type (UploadRoute.file u)) EmptyString).
      * by apply allowed_extension_mime.
      * destruct Htype as [?|Htype]; [done|]. by eexists.
    + split; [done|]. split; [done|]. split; [done|]. split; [done|]. intros _.
      split; [by eexists | done].
  - right; right. split; [done|]. split; [done|]. exists fm. split; [done|].
    split; [by rewrite ?Hvalid|].
    assert (message ∈ UploadRoute.validate_from 0 (map UploadRoute.file (UploadRoute.files fm)))
      as Hmessage.
    { change (message ∈ UploadRoute.validationErrors
                          (map UploadRoute.file (UploadRoute.files fm))).
      rewrite Hvalid. by left. }
    apply validate_from_spec in Hmessage as (i & f & Hi & Hf).
    rewrite list_lookup_fmap in Hi.
    destruct (UploadRoute.files fm !! i) as [u|] eqn:Hu; [|done]. injection Hi as <-.
    exists u. split; [by eapply list_elem_of_lookup_2|].
    intros Hacc%(acceptable_validateFile (0 + i)). rewrite Hacc in Hf.
    by apply elem_of_nil in Hf.
Qed.

Lemma X26_witness :
  exists results combinedText,
    UploadRoute.POST (fun t => t) (fun t => t)
      (FileProcessor.Fulfilled
         {| UploadRoute.files := [sample_doc_upload; sample_lost_upload];
            UploadRoute.extractionMethod := None;
            UploadRoute.outputFormat := None |})
      (FileProcessor.Fulfilled tt)
    = UploadRoute.Uploaded results combinedText 2 1.
Proof.
  pose proof (X26_upload_route_answer (fun t => t) (fun t => t)
                (FileProcessor.Fulfilled
                   {| UploadRoute.files := [sample_doc_upload; sample_lost_upload];
                      UploadRoute.extractionMethod := None;
                      UploadRoute.outputFormat := None |})
                (FileProcessor.Fulfilled tt)) as H.
  destruct (UploadRoute.POST _ _ _ _) as [status error details|results combinedText total stored].
  - exfalso. destruct H as [(_ & _ & _ & [[m Hm]|[m Hm]])|[(_ & _ & _ & fm & Hfm & Hnil)|H]];
      try discriminate.
    + injection Hfm as <-. discriminate.
    + destruct H as (_ & _ & fm & Hfm & Hdetails & u & Hu & Hbad). injection Hfm as <-.
      apply Hbad. cbn in Hu.
      apply elem_of_cons in Hu as [->|Hu]; [|apply list_elem_of_singleton in Hu as ->];
        (repeat split; [done | apply (bool_decide_unpack _); vm_compute; exact I | by left]).
  - destruct H as (fm & Hfm & _ & _ & -> & _ & -> & _). injection Hfm as <-. by eexists _, _.
Defined.

(** ** The combined text of an upload *)

Lemma filter_extracted_nil (results : list UploadRoute.FileUploadResult) :
  List.filter UploadRoute.extracted results = [] <->
  forall r, r ∈ results -> UploadRoute.extracted r = false.
Proof.
  induction results as [|r results IH]; cbn.
  - split; [by intros _ r ?%elem_of_nil | done].
  - destruct (UploadRoute.extracted r) eqn:E.
    + split; [discriminate|]. intros H. specialize (H r ltac:(by left)). congruence.
    + rewrite IH. split.
      * intros H x [->|Hx]%elem_of_cons; auto.
      * intros H x Hx. apply H. by right.
Qed.

Lemma filter_filter {A : Type} (p q : A -> bool) (l : list A) :
  List.filter p (List.filter q l) = List.filter (fun a => q a && p a) l.
Proof.
  induction l as [|a l IH]; [done|]. cbn. destruct (q a); cbn; [|done].
  destruct (p a); by rewrite IH.
Qed.

Lemma filter_idem {A : Type} (p : A -> bool) (l : list A) :
  List.filter p (List.filter p l) = List.filter p l.
Proof. rewrite filter_filter. apply List.filter_ext. intros a. apply andb_diag. Qed.

(** X27: the combined text of the upload route. When no result is a
    success with a text that is not empty, the answer is the same fixed
    sentence in every format, even when every file was stored. In
    every format but "structured" the answer depends only on the
    successes with text: failures and empty texts leave no trace. In
    the text format, and any format that is neither "structured" nor
    "summary", the answer for two batches that each hold a success with
    text is the two answers joined by a blank line. *)
Theorem X27_formatCombinedOutput (outputFormat : string) :
  outputFormat <> "structured" ->
  (forall results anyFormat,
      (forall r, r ∈ results -> UploadRoute.extracted r = false) ->
      UploadRoute.formatCombinedOutput results anyFormat
      = "No text could be extracted from the uploaded files.")
  /\ (forall results,
        UploadRoute.formatCombinedOutput results outputFormat
        = UploadRoute.formatCombinedOutput (List.filter UploadRoute.extracted results)
            outputFormat)
  /\ (outputFormat <> "summary" ->
      forall batch1 batch2,
        (exists r, r ∈ batch1 /\ UploadRoute.extracted r = true) ->
        (exists r, r ∈ batch2 /\ UploadRoute.extracted r = true) ->
        UploadRoute.formatCombinedOutput (batch1 ++ batch2) outputFormat
        = UploadRoute.formatCombinedOutput batch1 outputFormat
          +:+ FileProcessor.blank_line
          +:+ UploadRoute.formatCombinedOutput batch2 outputFormat).
Proof.
  intros Hs. apply String.eqb_neq in Hs. split; [|split].
  - intros results anyFormat Hall. apply filter_extracted_nil in Hall.
    unfold UploadRoute.formatCombinedOutput. cbv zeta. by rewrite Hall.
  - intros results. unfold UploadRoute.formatCombinedOutput. cbv zeta.
    rewrite filter_idem, Hs. reflexivity.
  - intros Hm. apply String.eqb_neq in Hm.
    assert (forall results,
              List.filter UploadRoute.extracted results <> [] ->
              UploadRoute.formatCombinedOutput results outputFormat
              = JsString.join FileProcessor.blank_line
                  (map UploadRoute.textOf (List.filter UploadRoute.extracted results)))
      as Htext.
    { intros results Hne. unfold UploadRoute.formatCombinedOutput. cbv zeta.
      destruct (List.filter UploadRoute.extracted results); [done|]. by rewrite Hs, Hm. }
    assert (forall results,
              (exists r, r ∈ results /\ UploadRoute.extracted r = true) ->
              List.filter UploadRoute.extracted results <> []) as Hsome.
    { intros results (r & Hin & Hr) Hnil. rewrite filter_extracted_nil in Hnil.
      specialize (Hnil r Hin). congruence. }
    intros batch1 batch2 H1%Hsome H2%Hsome.
    rewrite (Htext batch1 H1), (Htext batch2 H2), Htext.
    + rewrite List.filter_app, map_app. apply join_app.
      * by destruct (List.filter UploadRoute.extracted batch1).
      * by destruct (List.filter UploadRoute.extracted batch2).
    + rewrite List.filter_app. by destruct (List.filter UploadRoute.extracted batch1).
Qed.

Lemma X27_witness :
  UploadRoute.formatCombinedOutput
    [UploadRoute.processUpload (fun t => t) (fun t => t) "auto" sample_doc_upload;
     UploadRoute.processUpload (fun t => t) (fun t => t) "auto" sample_lost_upload]
    "summary"
  = UploadRoute.formatCombinedOutput
      [UploadRoute.processUpload (fun t => t) (fun t => t) "auto" sample_doc_upload]
      "summary".
Proof.
  destruct (X27_formatCombinedOutput "summary" ltac:(discriminate)) as (_ & Honly & _).
  rewrite Honly. reflexivity.
Defined.

(** ** The store of the editor *)

Lemma update_first_map {A : Type} (f : NodesSlice.WorkflowNode -> A) (nodeId : string)
    (change : NodesSlice.WorkflowNode -> NodesSlice.WorkflowNode)
    (nodes : list NodesSlice.WorkflowNode) :
  (forall node, f (change node) = f node) ->
  map f (NodesSlice.update_first nodeId change nodes) = map f nodes.
Proof.
  intros Hf. induction nodes as [|node nodes IH]; [done|]. cbn.
  destruct (String.eqb _ _); cbn; [by rewrite Hf | by rewrite IH].
Qed.

Lemma update_first_absent (nodeId : string)
    (change : NodesSlice.WorkflowNode -> NodesSlice.WorkflowNode)
    (nodes : list NodesSlice.WorkflowNode) :
  nodeId ∉ map NodesSlice.id nodes -> NodesSlice.update_first nodeId change nodes = nodes.
Proof.
  induction nodes as [|node nodes IH]; [done|]. cbn. intros Hnot.
  apply not_elem_of_cons in Hnot as [Hne Hrest].
  destruct (String.eqb_spec (NodesSlice.id node) nodeId) as [Heq|_]; [done|]. by rewrite IH.
Qed.

Lemma update_first_split (nodeId : string)
    (change : NodesSlice.WorkflowNode -> NodesSlice.WorkflowNode)
    (before after : list NodesSlice.WorkflowNode) (node : NodesSlice.WorkflowNode) :
  NodesSlice.id node = nodeId ->
  nodeId ∉ map NodesSlice.id before ->
  NodesSlice.update_first nodeId change (before ++ node :: after)
  = before ++ change node :: after.
Proof.
  intros Hid. induction before as [|b before IH]; cbn.
  - intros _. by rewrite Hid, String.eqb_refl.
  - intros Hnot. apply not_elem_of_cons in Hnot as [Hne Hrest].
    destruct (String.eqb_spec (NodesSlice.id b) nodeId) as [Heq|_]; [done|]. by rewrite IH.
Qed.

Lemma clearStale_id (node : NodesSlice.WorkflowNode) :
  NodesSlice.id (NodesSlice.clearStale node) = NodesSlice.id node.
Proof.
  unfold NodesSlice.clearStale. destruct (NodesSlice.config _); [|done].
  by destruct (String.eqb _ _).
Qed.

Lemma clearStale_type (node : NodesSlice.WorkflowNode) :
  NodesSlice.type (NodesSlice.clearStale node) = NodesSlice.type node.
Proof.
  unfold NodesSlice.clearStale. destruct (NodesSlice.config _); [|done].
  by destruct (String.eqb _ _).
Qed.

Lemma filter_result_absent (props : list (string * JsValue)) :
  Js.assoc "result" (List.filter (fun kv => negb (String.eqb (fst kv) "result")) props) = None.
Proof.
  induction props as [|[k v] props IH]; [done|]. cbn [List.filter fst].
  destruct (String.eqb_spec k "result") as [->|Hne]; cbn [negb]; [done|].
  cbn [Js.assoc]. destruct (String.eqb_spec "result" k) as [<-|_]; [done | exact IH].
Qed.

Lemma clearStale_idem (node : NodesSlice.WorkflowNode) :
  NodesSlice.clearStale (NodesSlice.clearStale node) = NodesSlice.clearStale node.
Proof.
  destruct node as [i t p [l [props|] r]]; unfold NodesSlice.clearStale; cbn; [|done].
  destruct (String.eqb t "output") eqn:Htype; cbn; rewrite Htype; [|done].
  rewrite filter_filter. do 3 f_equal. apply List.filter_ext. intros kv.
  by destruct (negb _).
Qed.

Lemma removeNode_ids (nodeId x : string) (nodes : list NodesSlice.WorkflowNode) :
  x ∈ map NodesSlice.id
        (List.filter (fun node => negb (String.eqb (NodesSlice.id node) nodeId)) nodes)
  <-> x ∈ map NodesSlice.id nodes /\ x <> nodeId.
Proof.
  rewrite !list_elem_of_fmap. split.
  - intros (node & -> & Hin). apply list_elem_of_In, List.filter_In in Hin as [Hin Hne].
    apply negb_true_iff, String.eqb_neq in Hne. split; [|done].
    exists node. split; [done|]. by apply list_elem_of_In.
  - intros [(node & -> & Hin) Hne]. exists node. split; [done|].
    apply list_elem_of_In, List.filter_In. split; [by apply list_elem_of_In|].
    by apply negb_true_iff, String.eqb_neq.
Qed.

Lemma with_result_of_id (results : list (string * JsValue)) (node : NodesSlice.WorkflowNode) :
  NodesSlice.id (NodesSlice.with_result_of results node) = NodesSlice.id node.
Proof. unfold NodesSlice.with_result_of. by destruct (Js.any_truthy _). Qed.

(** X28: the graph in the store. Every action of the slice other than
    the three that install nodes or edges as given ([setNodes],
    [setEdges], [addEdge]) keeps the edges between nodes of the state
    when they were so before. Removing a node leaves no node with that id and no
    edge from or to it, keeps all other nodes and edges, and does not
    touch the selection, even when the removed node was selected;
    removing it again changes nothing, and two nodes can be removed in
    either order. *)
Theorem X28_store_graph (state : NodesSlice.NodesState) :
  (forall action,
      edges_closed state ->
      (forall payload, action <> NodesSlice.setNodes payload) ->
      (forall payload, action <> NodesSlice.setEdges payload) ->
      (forall payload, action <> NodesSlice.addEdge payload) ->
      edges_closed (NodesSlice.reducer state action))
  /\ (forall nodeId,
        (nodeId ∉ map NodesSlice.id
                    (NodesSlice.nodes (NodesSlice.reducer state (NodesSlice.removeNode nodeId))))
        /\ (forall edge,
              edge ∈ NodesSlice.edges (NodesSlice.reducer state (NodesSlice.removeNode nodeId)) <->
              edge ∈ NodesSlice.edges state
              /\ NodesSlice.source edge <> nodeId /\ NodesSlice.target edge <> nodeId)
        /\ (forall node,
              node ∈ NodesSlice.nodes (NodesSlice.reducer state (NodesSlice.removeNode nodeId)) <->
              node ∈ NodesSlice.nodes state /\ NodesSlice.id node <> nodeId)
        /\ NodesSlice.selectedNodeId (NodesSlice.reducer state (NodesSlice.removeNode nodeId))
           = NodesSlice.selectedNodeId state
        /\ NodesSlice.reducer (NodesSlice.reducer state (NodesSlice.removeNode nodeId))
             (NodesSlice.removeNode nodeId)
           = NodesSlice.reducer state (NodesSlice.removeNode nodeId))
  /\ (forall a b,
        NodesSlice.reducer (NodesSlice.reducer state (NodesSlice.removeNode a))
          (NodesSlice.removeNode b)
        = NodesSlice.reducer (NodesSlice.reducer state (NodesSlice.removeNode b))
            (NodesSlice.removeNode a)).
Proof.
  split; [|split].
  - intros action Hclosed Hnodes Hedges Hadd.
    assert (forall nodes',
              map NodesSlice.id nodes' = map NodesSlice.id (NodesSlice.nodes state) ->
              edges_closed {| NodesSlice.nodes := nodes'; NodesSlice.edges := NodesSlice.edges state;
                              NodesSlice.selectedNodeId := NodesSlice.selectedNodeId state |})
      as Hsame.
    { intros nodes' Hids edge Hedge. cbn in *. rewrite Hids. by apply Hclosed. }
    destruct action; cbn [NodesSlice.reducer].
    + by destruct (Hnodes payload).
    + intros edge Hedge. cbn in *. rewrite map_app. destruct (Hclosed edge Hedge).
      split; apply elem_of_app; by left.
    + by apply Hsame, update_first_map.
    + intros edge Hedge. cbn in *.
      apply list_elem_of_In, List.filter_In in Hedge as [Hedge Hends].
      apply andb_true_iff in Hends as [Hs Ht].
      apply negb_true_iff, String.eqb_neq in Hs, Ht.
      destruct (Hclosed edge) as [? ?]; [by apply list_elem_of_In|].
      split; by apply removeNode_ids.
    + by destruct (Hedges payload).
    + by destruct (Hadd payload).
    + intros edge Hedge. cbn in *.
      apply list_elem_of_In, List.filter_In in Hedge as [Hedge _].
      by apply Hclosed, list_elem_of_In.
    + exact Hclosed.
    + by apply Hsame, update_first_map.
    + by intros edge Hedge%elem_of_nil.
    + apply Hsame. rewrite map_map. apply map_ext. intros node. apply clearStale_id.
    + by apply Hsame, update_first_map.
    + apply Hsame. rewrite map_map. apply map_ext. intros node. apply with_result_of_id.
  - intros nodeId. cbn [NodesSlice.reducer NodesSlice.nodes NodesSlice.edges
                          NodesSlice.selectedNodeId]. split; [|split; [|split; [|split]]].
    + intros [_ Hne]%removeNode_ids. done.
    + intros edge. rewrite !list_elem_of_In, List.filter_In, andb_true_iff,
        !negb_true_iff, !String.eqb_neq. done.
    + intros node. rewrite !list_elem_of_In, List.filter_In, negb_true_iff, String.eqb_neq.
      done.
    + done.
    + f_equal; rewrite filter_filter; apply List.filter_ext; intros x; apply andb_diag.
  - intros a b. cbn [NodesSlice.reducer NodesSlice.nodes NodesSlice.edges
                       NodesSlice.selectedNodeId].
    f_equal; rewrite !filter_filter; apply List.filter_ext; intros x; apply andb_comm.
Qed.

Lemma X28_witness :
  edges_closed (NodesSlice.reducer sample_state (NodesSlice.removeNode "2"))
  /\ NodesSlice.selectedNodeId (NodesSlice.reducer sample_state (NodesSlice.removeNode "2"))
     = Some "2".
Proof.
  destruct (X28_store_graph sample_state) as (Hkeeps & Hremove & _). split.
  - apply Hkeeps; [|discriminate..].
    intros edge Hedge. apply list_elem_of_In in Hedge. cbn in Hedge.
    destruct Hedge as [<-|[<-|[]]]; split; apply list_elem_of_In; cbn; tauto.
  - by destruct (Hremove "2") as (_ & _ & _ & -> & _).
Defined.

(** X29: updates of single nodes. [updateNode], [updateNodePosition],
    [updateNodeExecutionResult] and [clearStaleData] keep the ids and
    types of the nodes in their order, the edges and the selection. An
    update for an id no node has changes nothing; with several nodes of
    one id only the first is updated, and of it [updateNode] replaces
    the configuration alone. After [clearStaleData] no output node with
    a configuration has a result, in the configuration or beside it;
    clearing again changes nothing. *)
Theorem X29_store_node_updates (state : NodesSlice.NodesState) :
  (forall action,
      match action with
      | NodesSlice.updateNode _ _ | NodesSlice.updateNodePosition _ _
      | NodesSlice.updateNodeExecutionResult _ _ | NodesSlice.clearStaleData =>
          map NodesSlice.id (NodesSlice.nodes (NodesSlice.reducer state action))
          = map NodesSlice.id (NodesSlice.nodes state)
          /\ map NodesSlice.type (NodesSlice.nodes (NodesSlice.reducer state action))
             = map NodesSlice.type (NodesSlice.nodes state)
          /\ NodesSlice.edges (NodesSlice.reducer state action) = NodesSlice.edges state
          /\ NodesSlice.selectedNodeId (NodesSlice.reducer state action)
             = NodesSlice.selectedNodeId state
      | _ => True
      end)
  /\ (forall nodeId config position result,
        nodeId ∉ map NodesSlice.id (NodesSlice.nodes state) ->
        NodesSlice.reducer state (NodesSlice.updateNode nodeId config) = state
        /\ NodesSlice.reducer state (NodesSlice.updateNodePosition nodeId position) = state
        /\ NodesSlice.reducer state (NodesSlice.updateNodeExecutionResult nodeId result) = state)
  /\ (forall nodeId config before node after,
        NodesSlice.nodes state = before ++ node :: after ->
        NodesSlice.id node = nodeId ->
        nodeId ∉ map NodesSlice.id before ->
        exists node',
          NodesSlice.nodes (NodesSlice.reducer state (NodesSlice.updateNode nodeId config))
          = before ++ node' :: after
          /\ NodesSlice.config (NodesSlice.data node') = Some config
          /\ NodesSlice.label (NodesSlice.data node') = NodesSlice.label (NodesSlice.data node)
          /\ NodesSlice.result (NodesSlice.data node') = NodesSlice.result (NodesSlice.data node)
          /\ NodesSlice.position node' = NodesSlice.position node)
  /\ (forall node props,
        node ∈ NodesSlice.nodes (NodesSlice.reducer state NodesSlice.clearStaleData) ->
        NodesSlice.type node = "output" ->
        NodesSlice.config (NodesSlice.data node) = Some props ->
        Js.assoc "result" props = None
        /\ NodesSlice.result (NodesSlice.data node) = Js.Json JUndefined)
  /\ NodesSlice.reducer (NodesSlice.reducer state NodesSlice.clearStaleData)
       NodesSlice.clearStaleData
     = NodesSlice.reducer state NodesSlice.clearStaleData.
Proof.
  split; [|split; [|split; [|split]]].
  - intros [] ; try exact I; cbn [NodesSlice.reducer NodesSlice.nodes NodesSlice.edges
                                   NodesSlice.selectedNodeId].
    + by rewrite !update_first_map.
    + by rewrite !update_first_map.
    + rewrite !map_map. repeat split; apply map_ext; intros node;
        [apply clearStale_id | apply clearStale_type].
    + by rewrite !update_first_map.
  - intros nodeId config position result Hnot. destruct state as [nodes edges selected].
    cbn in *. by rewrite !update_first_absent.
  - intros nodeId config before node after Hnodes Hid Hnot.
    exists (NodesSlice.with_config (Some config) node). cbn.
    rewrite Hnodes. by rewrite update_first_split.
  - intros node props Hin Htype Hconfig. cbn in Hin.
    apply list_elem_of_fmap in Hin as (old & -> & _).
    rewrite clearStale_type in Htype. unfold NodesSlice.clearStale in *.
    destruct (NodesSlice.config (NodesSlice.data old)) as [oldProps|] eqn:E;
      [|by rewrite E in Hconfig].
    rewrite Htype in *. cbn in *. injection Hconfig as <-.
    split; [apply filter_result_absent | done].
  - cbn. f_equal. rewrite map_map. apply map_ext. intros node. apply clearStale_idem.
Qed.

Lemma X29_witness :
  NodesSlice.reducer sample_state (NodesSlice.updateNode "7" [("name", JStr "none")])
  = sample_state
  /\ NodesSlice.result
       (NodesSlice.data
          (NodesSlice.clearStale (List.last (NodesSlice.nodes sample_state) NodesSlice.startNode)))
     = Js.Json JUndefined.
Proof.
  destruct (X29_store_node_updates sample_state) as (_ & Habsent & _ & Hclear & _). split.
  - apply (Habsent "7" [("name", JStr "none")] JNull JNull).
    intros Hin. apply list_elem_of_In in Hin. cbn in Hin. intuition discriminate.
  - apply (Hclear (NodesSlice.clearStale
                     (List.last (NodesSlice.nodes sample_state) NodesSlice.startNode))
                  [("format", JStr "text")]); [|reflexivity..].
    apply list_elem_of_In. vm_compute. tauto.
Defined.

(** ** The workflow context utility *)

Lemma includes_app_r (s t sub : string) :
  JsString.includes t sub = true -> JsString.includes (s +:+ t) sub = true.
Proof.
  intros H. induction s as [|c s IH]; [done|]. rewrite app_cons_s.
  cbn [JsString.includes]. by rewrite IH, orb_true_r.
Qed.

Lemma dotted_initial : dotted ContextExecutor.initial.
Proof. by intros name _. Qed.

Lemma dotted_setNodeOutput (nodeId : string) (output : JsValue)
    (ctx : ContextExecutor.WorkflowContext) :
  dotted ctx -> dotted (ContextExecutor.setNodeOutput nodeId output ctx).
Proof.
  intros Hctx name Hname. cbn. unfold ContextExecutor.assign.
  destruct (String.eqb _ "__proto__"); [by apply Hctx|].
  rewrite assoc_set_ne; [by apply Hctx|].
  intros ->. by rewrite (includes_app_r nodeId ".output" ".") in Hname.
Qed.

Section Walk.

Variable inherited : string -> list string -> option string.
Variable inside : JsValue -> list string -> option string.

Lemma dotted_step (ctx ctx' : ContextExecutor.WorkflowContext) (node : NodesSlice.WorkflowNode) :
  dotted ctx ->
  ContextExecutor.step inherited inside ctx node = FileProcessor.Returned ctx' ->
  dotted ctx'.
Proof.
  intros Hctx. unfold ContextExecutor.step. destruct (bool_decide _); [|by intros [= <-]].
  destruct (NodesSlice.config _); [|discriminate].
  destruct (ContextExecutor.outputOf _ _ _ _ _ _); intros [= <-]; [|done].
  by apply dotted_setNodeOutput.
Qed.

Lemma dotted_run (nodes : list NodesSlice.WorkflowNode) (ctx ctx' : ContextExecutor.WorkflowContext) :
  dotted ctx ->
  ContextExecutor.run inherited inside ctx nodes = FileProcessor.Returned ctx' ->
  dotted ctx'.
Proof.
  revert ctx. induction nodes as [|node nodes IH]; intros ctx Hctx; cbn.
  - by intros [= <-].
  - destruct (ContextExecutor.step inherited inside ctx node) as [ctx1|] eqn:E; [|discriminate].
    apply IH. by eapply dotted_step.
Qed.

(** In a context whose variables all have a dot in their name the walk
    finds nothing, unless it starts at an inherited name. *)
Lemma getVariable_dotted (ctx : ContextExecutor.WorkflowContext) (path : string) :
  dotted ctx ->
  (forall first rest, JsString.split "." path = first :: rest ->
     first ∉ ContextExecutor.prototype_names) ->
  ContextExecutor.getVariable inherited inside ctx path = None.
Proof.
  intros Hctx Hfirst. unfold ContextExecutor.getVariable.
  destruct (JsString.split "." path) as [|first rest] eqn:E; [done|].
  rewrite Hctx.
  - by rewrite bool_decide_eq_false_2 by (by eapply Hfirst).
  - apply all_chars_excludes, (split_pieces "." path). rewrite E. by left.
Qed.

Lemma processTemplate_dotted (ctx : ContextExecutor.WorkflowContext) (template : JsValue) :
  dotted ctx ->
  free_of_inherited_names template ->
  ContextExecutor.processTemplate inherited inside ctx template = template.
Proof.
  intros Hctx Hfree. destruct template as [| | | |t| |]; try done.
  cbn [ContextExecutor.processTemplate]. f_equal. apply replace_unchanged.
  intros matched path Hin.
  by rewrite (getVariable_dotted ctx (JsString.trim path) Hctx (Hfree matched path Hin)).
Qed.

Lemma outputOf_dotted (ctx : ContextExecutor.WorkflowContext) (nodeId type : string)
    (config : list (string * JsValue)) :
  dotted ctx ->
  plain_templates config ->
  ContextExecutor.outputOf inherited inside ctx nodeId type config
  = ContextExecutor.outputOf inherited inside ContextExecutor.initial nodeId type config.
Proof.
  intros Hctx (Hprompt & Hurl & Hcondition).
  unfold ContextExecutor.outputOf, ContextExecutor.getNodeInput. cbv zeta.
  by rewrite !processTemplate_dotted by (done || apply dotted_initial).
Qed.

End Walk.

(** X30: the executor of the workflow context utility passes nothing
    from node to node. Every variable [executeWorkflow] sets has a dot
    in its name, while the walk of [getVariable] looks the first part
    of a path up as a whole name; so in every context a run reaches, a
    template none of whose placeholders begins with a name that objects
    inherit comes back as it is, [{{id.output}}] included, and the
    output a node with such templates sets is the one it would set in
    an empty context (for a prompt node: "AI processed: " and the prompt
    as written). *)
Theorem X30_context_passes_nothing (inherited : string -> list string -> option string)
    (inside : JsValue -> list string -> option string)
    (nodes : list NodesSlice.WorkflowNode) (edges : list NodesSlice.WorkflowEdge)
    (ctx : ContextExecutor.WorkflowContext) :
  ContextExecutor.executeWorkflow inherited inside nodes edges = FileProcessor.Returned ctx ->
  dotted ctx
  /\ (forall nodeId template,
        free_of_inherited_names template ->
        ContextExecutor.getNodeInput inherited inside ctx nodeId template = template)
  /\ (forall nodeId type config,
        plain_templates config ->
        ContextExecutor.outputOf inherited inside ctx nodeId type config
        = ContextExecutor.outputOf inherited inside ContextExecutor.initial nodeId type config)
  /\ (forall nodeId config prompt,
        Js.get "prompt" (JObj config) = JStr prompt ->
        free_of_inherited_names (JStr prompt) ->
        ContextExecutor.outputOf inherited inside ctx nodeId "prompt" config
        = Some (JStr ("AI processed: " +:+ prompt))).
Proof.
  intros Hrun. assert (dotted ctx) as Hctx.
  { eapply dotted_run; [apply dotted_initial | exact Hrun]. }
  split; [done|]. split; [|split].
  - intros nodeId template Hfree. by apply processTemplate_dotted.
  - intros nodeId type config Hplain. by apply outputOf_dotted.
  - intros nodeId config prompt Hprompt Hfree.
    unfold ContextExecutor.outputOf, ContextExecutor.getNodeInput. cbv zeta.
    cbn [String.eqb Ascii.eqb Bool.eqb]. rewrite Hprompt.
    by rewrite processTemplate_dotted.
Qed.

Lemma X30_witness :
  ContextExecutor.outputOf (fun _ _ => None) (fun _ _ => None) sample_context
    "2" "prompt" sample_prompt_config
  = Some (JStr "AI processed: Summarise {{1.output}} please").
Proof.
  destruct (X30_context_passes_nothing (fun _ _ => None) (fun _ _ => None)
              [{| NodesSlice.id := "1"; NodesSlice.type := "input"; NodesSlice.position := JNull;
                  NodesSlice.data := {| NodesSlice.label := "Start";
                                        NodesSlice.config := Some [("initialValue", JStr "hello")];
                                        NodesSlice.result := Js.Json JUndefined |} |}]
              [] sample_context eq_refl) as (_ & _ & _ & Hprompt).
  apply (Hprompt "2" sample_prompt_config "Summarise {{1.output}} please" eq_refl).
  intros matched path Hin. apply list_elem_of_In in Hin. vm_compute in Hin.
  destruct Hin as [[= <- <-]|[]]. intros first rest Hsplit. vm_compute in Hsplit.
  injection Hsplit as <- <-. intros H. apply list_elem_of_In in H. cbn in H.
  intuition discriminate.
Defined.
